(* ===== verification/_CoqProject ===== *)
-Q . S2P
Prelude.v
Locks.v
Text.v
Float.v
Types.v
Layout.v
Pods.v
Seqlock.v
Register.v
Weak.v
Bpf.v
Stats.v
Scheduler.v
Process.v
Fileio.v
Memory.v
Cpu.v
Block.v
Network.v
Netproc.v
Security.v
Races.v
Kernel.v
Conserve.v
Feed.v
Loader.v
Build.v
Metrics.v
TimeBase.v
Bandwidth.v
Aggregator.v
Ledger.v
ProcTier.v
Shm.v
ShmDump.v
Pretty.v
Events.v
Api.v
CgroupNames.v
Tasks.v
Daemon.v
Segment.v
Startup.v
Dbus.v
