(* ===== verification/Prelude.v ===== *)
(** * agl-health: a verification development

    agl-health observes the health of an Automotive Grade Linux system.  Its
    Rust implementation has two halves.  [agl-health-ebpf] is a set of eBPF
    programs the kernel runs on its own events: they count and time what
    happens into BPF maps and put discrete events into ring (or, on 5.4
    kernels, perf) buffers.  [agl-health-daemon] loads these programs, drains
    the buffers into a broadcast bus, merges the maps once a second into a
    shared snapshot, adds what [/proc] says, and serves the result over REST,
    WebSocket, D-Bus and a shared-memory segment that unprivileged readers
    copy under a seqlock.  [agl-health-common] holds the records both halves
    and the readers share.

    ** How the parts fit

<<
      kernel events --> programs (Scheduler ... Security, Kernel)
                          |  maps                |  event buffers
                          v                      v
                    Aggregator <- Metrics      Events (drains)
                          |  \                   |        \
           ProcTier ------+   Bandwidth          Api       Dbus
                          v        \            (stream)
              shared data, five locks \
              (Tasks, over Locks)      Api (REST) <- CgroupNames
                          |
                          v
                    Shm (build_v3) -> Seqlock (publish | seqlock_read) -> ShmDump
>>
    [Build.v] makes the object that [Loader.v] loads, which decides which
    programs, drains and aggregator exist at all; [Startup.v] is the [main] that
    starts the rest.  [Tasks.v] has every task's loop as critical sections under
    the locks of the shared data, and [Daemon.v] puts the tasks, access by
    access, the publisher and a reader side by side in one step relation.

    ** Files

    Shared ground.
    - [Locks.v]: tasks over readers-writer locks: critical sections with the
      locks they take in order and their accesses, a machine that switches tasks
      at any access, and the machine of whole sections.  What the lock promises
      is the class [Policy] (a request is admitted only beside compatible guards,
      and is in the end when nobody holds the lock); [fifo] and [barging] are
      two policies.
    - [Prelude.v]: record update, Rust's [Result] with [?] and [context],
      machine integers as [Z] with their wrapping and saturating operations,
      the stable descending sort of [sort_by], selections, tactics.
    - [Text.v]: Rust's string functions the parsers use ([lines],
      [split_whitespace], [split_once], [trim], [parse], UTF-8 lossy decoding)
      over code points, with print/parse round trips.
    - [Float.v]: [f64] as IEEE binary64 ([SpecFloat]): conversion from [u64] and
      from decimal text, multiplication, [ceil], saturating casts.
    - [Types.v], [Layout.v], [Pods.v]: the [#[repr(C)]] records of
      [agl-health-common] ([events.rs], [metrics.rs], [metrics_v3.rs]), the C
      layout with padding, and the class [Pod] of types with a layout, whose
      laws give [read_pod (write_pod x) = x].  The clients (ring buffers, maps,
      segment) are proved against the class.

    The kernel half ([src/agl-health-ebpf/src]).
    - [Bpf.v]: the maps as one record [kernel]; hash maps with their capacity
      and the kernel's right to refuse; per-CPU slots; the context [ctx] of a
      program run (helper results, record bytes, refusals) as an input.
    - [Stats.v], [Scheduler.v], [Process.v], [Fileio.v], [Memory.v], [Cpu.v],
      [Block.v], [Network.v], [Netproc.v], [Security.v]: each module's programs
      with every early return, for the BTF build and (suffix [_54]) the
      kernel-5-4 build.
    - [Kernel.v]: [hook] and [fire], every program of both builds as a step;
      the invariant [inv] of all reachable map states.  [Conserve.v]: the events
      the programs emit, against what the rings and the drop counters hold.
      [Feed.v]: the records a run puts into the buffer of security events.
      [Ledger.v]: the events emitted beside the aggregator's polls, up to what the
      daemon logs.
    - [Races.v]: the accounting of [netproc.rs] and [block.rs] on several CPUs
      at once, each map call, load and store a step of its own.

    The daemon half ([src/agl-health-daemon/src]).
    - [Metrics.v], [TimeBase.v], [Bandwidth.v], [Aggregator.v], [ProcTier.v],
      [Events.v], [Api.v], [CgroupNames.v], [Dbus.v]: the files of those names
      ([dbus_publisher.rs] for the last; [Events.v] also has the drains of
      [loader.rs]).  A task's loop is a function for one turn of it.
    - [Seqlock.v]: [ShmPublisher] of [shm.rs] and [seqlock_read] of
      [bin/shm_dump.rs] as byte-by-byte actions of a writer and a reader that
      interleave freely.  [Register.v]: the same actions for any number of
      readers, and the abstract register they implement.  [Weak.v]: the same
      program on a memory that reorders, with the orderings of the code.
      [Segment.v]: the file of the segment, its creation, opening and removal,
      beside other users.
    - [Shm.v]: [build_v3] and the writer task.  [ShmDump.v]: the checks of the
      dump tool.  [Pretty.v]: the lines it prints.
    - [Loader.v]: the tables and [load] of [loader.rs] for both builds, with the
      programs (and the events they are for) and all the maps the eBPF crate
      declares, and [/health] of [main.rs].
    - [Tasks.v]: the data behind the five locks [main] creates, each loop and
      each API request as critical sections, their accesses a field at a time,
      and what each section means as one step.
    - [Daemon.v]: the tasks beside the segment and its reader.  [Startup.v]: [main] from its first line to its exit: the optional parts,
      the listen address, signals, shutdown.

    The build.
    - [Build.v]: every subcommand of [xtask/src/main.rs], and
      [agl-health-daemon/build.rs].

    ** What is shown

    End to end.  [reader_decodes_built]: in every interleaving of the accesses
    of tasks, publisher and reader, an accepted read decodes to one snapshot
    [build_v3] made of the shared data of one moment, which the dump tool accepts.  [events_delivered]
    and [alarms_reach_dbus]: every kernel record becomes exactly one wire event
    and every alarm one D-Bus signal, with its fields.

    The tasks.  Under any policy of the locks no run of the tasks hangs, and each
    can be completed ([tasks_never_hang]); what they do access by access is
    what they do section by section ([tasks_serializable]); behind every free lock
    is what its owners handed over last, field by field ([shared_data_owned]); a
    client is told what was true at one moment, or at two in order for the
    handlers with two locks ([replies_were_true]).  The lemma [turns_alone] ties the
    sections to the turns as functions of [Aggregator.v] and [ProcTier.v].

    The segment.  On a sequentially consistent memory what the readers' calls
    return is exactly what the reads of an atomic register can return
    ([segment_is_atomic_register], [register_is_realized]), so there a read
    accepted for [seq1 == seq2] is the last published snapshot, whole (the lemma
    [reads_return_latest]).  Termination within the retry budget, success
    beside an idle writer and before the first publish, [publish] as the
    composition of its actions; and that the [seq1 == 0] exit can be torn.  On a
    memory that reorders, which shows every behaviour of the other one
    ([sequential_runs_are_weak]), an accepted read is never stale and is whole
    while no later publish has begun ([weak_reads_not_stale]), and a later read
    of the same reader is never older ([weak_reads_monotone]); for lack of an
    acquire fence it can be torn otherwise ([unfenced_read_torn]).  The file:
    [create] never adopts one of another user, the path keeps leading to the
    segment, and any content an unprivileged reader finds there is refused or
    printed ([any_segment_is_handled]); but readers do not ask whose file it is
    ([squatted_segment_accepted]).

    The kernel half.  Every reachable state is typed, filed under its keys and
    within capacity; the accounting of time slices, waits, interrupts, packets,
    system calls and process lifecycles; the alarm rate limit of the records that
    reach the buffer ([emissions_rate_limited]); where the two builds agree, and
    that they differ in what becomes of an alarm the buffer has no room for
    ([dispatcher_agrees]); that the classifiers are the networks they name.
    [every_event_accounted]: in either build no event disappears between
    program and drain; [no_silent_loss]: and none that is dropped escapes the
    warnings of the log.  Side by side on several CPUs, accounting
    never over-counts ([concurrent_accounting_bounded]) and is exact where no two
    programs meet at an entry ([undisturbed_accounting]).

    The daemon half.  Percentiles bound the wait of their rank and are those of
    all CPUs' waits together; the parsers read back the files the kernel
    prints; the two writers of the snapshot never clobber each other; window
    queries measure from the right sample; top lists, drop reports, timestamps, streams and process rows are
    exact; cgroup ids get their paths; D-Bus signals come from an owned name
    only; the loader isolates failures, attaches every program to its event and
    takes exactly the maps user space reads ([everything_attached]); [main]
    serves whatever fails of its optional parts.

    The build.  A build script that succeeds ran one eBPF build of its own
    options, and the daemon embeds the object of that build and attaches all of its programs
    ([build_embeds_own_object]; that cargo leaves what it compiled where it
    documents is the hypothesis [cargo_compiles]); what the children see of the
    environment, variable by variable ([child_cargo_environment]); xtask stops at
    the first failure.

    Some lemmas record behaviour the documentation of the code rules out
    ([thread_creation_recorded_as_fork], [thread_entry_outlives_thread],
    [exit_code_lost_to_sibling], [absent_cgroup_reports_lifetime],
    [psi_truncated], [cpu_rows_numbered_by_position], [seqlock_zero_exit_torn],
    [unfenced_read_torn], [second_instance_unpublishes_first], [squatted_segment_accepted],
    [only_ebpf_crate_watched],
    [concurrent_packets_lost], [concurrent_first_packets_lost]).

    ** Conventions

    - Integers are [Z] within their width's range; the range is part of each
      state's well-formedness ([pod_wf]) and every operation's wrap-around or
      saturation is written out.
    - Bytes, strings and code points are [list Z]; string literals coerce.
    - What comes from outside (kernel helpers, clocks, files, sockets, zbus,
      aya, spawned commands) is an argument: an option or [result] where it can
      fail.  What other users do to [/dev/shm] is a function on the directory,
      bounded by the permissions of a sticky directory ([unprivileged]).
    - A read of the map iterator, whose order the kernel chooses, is a list.

    ** Bounds and fuel

    [seqlock_read] has the source's budget of 1024 attempts, and
    [seqlock_read_terminates] proves it always ends.  [print_digits] has fuel 20,
    enough for every [u64] ([parse_print_digits]), and 400 for the integer part of
    an [f64], which has at most 309 digits.  [walk_dir] recurses on the tree, the
    guard [MAX_DEPTH] is the source's.  All else is structural.  The seqlock
    theorems assume fewer than 2^63 publishes ([no_wrap]): the writer makes one
    a second.  [no_silent_loss] assumes fewer than 2^64 events of a kind.  The
    jobs of [Tasks.v] are any number of turns of each loop, so a theorem on all
    lists of jobs is one on all finite prefixes of the endless loops.

    ** Not modelled

    - [vmlinux.rs] (67,000 generated lines of kernel types): the fields the
      programs read are inputs.
    - Of the memory model: reads that see stores from their own future (no load
      of the writer precedes its stores, so the seqlock has none), and the
      undefined behaviour Rust gives the racing copies, which are taken as
      relaxed accesses of one byte each.
    - In [Kernel.v] a program run is one step.  [Races.v] takes the runs apart for
      the two shared maps whose entries several CPUs add to at once; the
      process table stays atomic, and so does the poll of the drop counters in
      [Ledger.v].  That the kernel may reuse the memory of a replaced hash-map
      entry while another CPU holds its pointer is left out.
    - tokio: its scheduler is any order of the tasks' accesses, its lock any
      [Policy].  That every task gets its turn (fairness) is not claimed.
    - Logging and progress text, JSON encoding (a parameter of the stream), HTTP
      itself (the routes are a table in [Api.v]), the rlimit call, the aborting of
      the drain tasks on the way out of [main] ([Drop for LoadedEbpf]), the command line of [xtask] (clap), the
      bracketed IPv6 form of the listen address: I/O of libraries.
    - What cargo, bpf-linker and aya-tool do: the effect of a spawned command on
      the files is an input.  Variables that are not valid Unicode.
    - The C++ plugin and the Flutter application: clients in other languages. *)
From stdpp Require Export prelude gmap list fin_maps sorting.
From Stdlib Require Export ZArith Lia.
From Stdlib Require String Ascii.
Export String.StringSyntax.

(** ** Scopes and notation *)

Declare Scope agl_scope.
Delimit Scope agl_scope with agl.
Global Open Scope string_scope.
Global Open Scope list_scope.
Global Open Scope agl_scope.
Global Open Scope Z_scope.

(** *** Record update

    [Eta R] gives the eta expansion of a record by its projections; the
    updater of one projection is computed from it, so that the model can
    write an assignment to a field through a pointer as [p <| field := v |>]. *)
Class Eta (R : Type) := eta : R -> R.
Class Upd {R E : Type} (g : R -> E) := updater : (E -> E) -> R -> R.
Definition upd {R E : Type} (g : R -> E) {U : Upd g} : (E -> E) -> R -> R := U.
Arguments upd {R E} g {U} / f r : rename.

Ltac derive_upd R E g :=
  lazymatch constr:(@eta R _) with
  | @eta _ ?inst =>
      let body := eval unfold inst in inst in
      lazymatch eval pattern g in body with
      | ?F _ =>
          let t := eval cbv beta in
            (fun (f : E -> E) (r : R) => F (fun r0 => f (g r0)) r) in
          exact t
      end
  end.

#[export] Hint Extern 0 (@Upd ?R ?E ?g) => derive_upd R E g : typeclass_instances.

Notation "r <| g := v |>" := (upd g (fun _ => v) r)
  (at level 1, left associativity, g constr at level 1, v constr at level 99,
   format "r  <| g  :=  v |>") : agl_scope.
Notation "r <| g ::= f |>" := (upd g f r)
  (at level 1, left associativity, g constr at level 1, f constr at level 99,
   format "r  <| g  ::=  f |>") : agl_scope.

(** *** Results

    Rust's [Result<T, E>]; [anyhow] error chains are kept as their outermost
    context string, which is what the daemon's log shows. *)
Inductive result (T E : Type) : Type :=
  | Ok (x : T)
  | Err (e : E).
Arguments Ok {T E} x.
Arguments Err {T E} e.

Definition result_bind {T U E} (r : result T E) (k : T -> result U E) : result U E :=
  match r with Ok x => k x | Err e => Err e end.

(** [x <-? r ;; k] is [let x = r?; k]. *)
Notation "x <-? r ;; k" := (result_bind r (fun x => k))
  (at level 100, r at next level, right associativity) : agl_scope.

(** [.context(c)]: replace the error by [c]. *)
Definition context {T E E'} (c : E') (r : result T E) : result T E' :=
  match r with Ok x => Ok x | Err _ => Err c end.

(** [.unwrap_or(d)] on an [Option]. *)
Definition unwrap_or {T} (d : T) (o : option T) : T := match o with Some x => x | None => d end.

(** ** Machine integers

    A Rust [uN]/[iN] value is the [Z] it denotes; every operation the source
    uses writes out its overflow behaviour. *)
Definition u8_max : Z := 2 ^ 8 - 1.
Definition u16_max : Z := 2 ^ 16 - 1.
Definition u32_max : Z := 2 ^ 32 - 1.
Definition u64_max : Z := 2 ^ 64 - 1.

(** [x as uN] from any integer type: reduction modulo 2^N (sign extension
    followed by truncation, which is the same thing). *)
Definition as_u8 (x : Z) : Z := x mod 2 ^ 8.
Definition as_u16 (x : Z) : Z := x mod 2 ^ 16.
Definition as_u32 (x : Z) : Z := x mod 2 ^ 32.
Definition as_u64 (x : Z) : Z := x mod 2 ^ 64.
(** [x as i32]: the two's-complement reading of the low 32 bits. *)
Definition as_i32 (x : Z) : Z := (x + 2 ^ 31) mod 2 ^ 32 - 2 ^ 31.

(** u64 arithmetic. *)
Definition wrapping_add (a b : Z) : Z := as_u64 (a + b).
Definition saturating_add (a b : Z) : Z := Z.min u64_max (a + b).
Definition saturating_sub (a b : Z) : Z := Z.max 0 (a - b).
Definition saturating_mul (a b : Z) : Z := Z.min u64_max (a * b).

Definition is_u8 (x : Z) : Prop := 0 <= x < 2 ^ 8.
Definition is_u16 (x : Z) : Prop := 0 <= x < 2 ^ 16.
Definition is_u32 (x : Z) : Prop := 0 <= x < 2 ^ 32.
Definition is_u64 (x : Z) : Prop := 0 <= x < 2 ^ 64.
Definition is_i32 (x : Z) : Prop := - 2 ^ 31 <= x < 2 ^ 31.

#[export] Instance is_u8_dec x : Decision (is_u8 x) := _.
#[export] Instance is_u32_dec x : Decision (is_u32 x) := _.
#[export] Instance is_u64_dec x : Decision (is_u64 x) := _.

Create HintDb machine.

Lemma as_u32_range x : is_u32 (as_u32 x).
Proof. apply Z.mod_pos_bound. done. Qed.
Lemma as_u64_range x : is_u64 (as_u64 x).
Proof. apply Z.mod_pos_bound. done. Qed.
Lemma as_i32_range x : is_i32 (as_i32 x).
Proof.
  unfold is_i32, as_i32. pose proof (Z.mod_pos_bound (x + 2 ^ 31) (2 ^ 32) ltac:(done)). lia.
Qed.
Lemma as_u32_small x : is_u32 x -> as_u32 x = x.
Proof. apply Z.mod_small. Qed.
Lemma as_u64_small x : is_u64 x -> as_u64 x = x.
Proof. apply Z.mod_small. Qed.

Lemma wrapping_add_range a b : is_u64 (wrapping_add a b).
Proof. apply as_u64_range. Qed.
Lemma saturating_add_range a b : is_u64 a -> is_u64 b -> is_u64 (saturating_add a b).
Proof. unfold is_u64, saturating_add, u64_max. lia. Qed.
Lemma saturating_sub_range a b : is_u64 a -> is_u64 b -> is_u64 (saturating_sub a b).
Proof. unfold is_u64, saturating_sub. lia. Qed.
Lemma saturating_mul_range a b : is_u64 a -> is_u64 b -> is_u64 (saturating_mul a b).
Proof. unfold is_u64, saturating_mul, u64_max. nia. Qed.

Lemma wrapping_add_0_l a : is_u64 a -> wrapping_add 0 a = a.
Proof. apply as_u64_small. Qed.
Lemma wrapping_add_comm a b : wrapping_add a b = wrapping_add b a.
Proof. unfold wrapping_add. by rewrite Z.add_comm. Qed.
Lemma wrapping_add_assoc a b c :
  wrapping_add (wrapping_add a b) c = wrapping_add a (wrapping_add b c).
Proof.
  unfold wrapping_add, as_u64.
  rewrite Zplus_mod_idemp_l, Zplus_mod_idemp_r. f_equal. lia.
Qed.
(** No overflow: the machine sum is the sum. *)
Lemma wrapping_add_exact a b : 0 <= a + b < 2 ^ 64 -> wrapping_add a b = a + b.
Proof. apply Z.mod_small. Qed.

#[export] Hint Resolve as_u32_range as_u64_range as_i32_range wrapping_add_range
  saturating_add_range saturating_sub_range saturating_mul_range : machine.

(** The sum of a list. *)
Definition zsum (l : list Z) : Z := foldr Z.add 0 l.
Arguments zsum : simpl never.

Lemma zsum_app l1 l2 : zsum (l1 ++ l2) = zsum l1 + zsum l2.
Proof.
  induction l1 as [|x l1 IH]; [done|].
  change (x + zsum (l1 ++ l2) = x + zsum l1 + zsum l2). lia.
Qed.
Lemma zsum_singleton x : zsum [x] = x.
Proof. apply Z.add_0_r. Qed.
Lemma zsum_cons x l : zsum (x :: l) = x + zsum l.
Proof. done. Qed.
(** Adding to one element adds to the sum, modulo the word size. *)
Lemma zsum_alter_wrapping i d l :
  (i < length l)%nat ->
  as_u64 (zsum (alter (fun b => wrapping_add b d) i l)) = wrapping_add (as_u64 (zsum l)) d.
Proof.
  unfold wrapping_add, as_u64. intros Hi. rewrite Zplus_mod_idemp_l. revert i Hi.
  induction l as [|x l IH]; intros i Hi; cbn [length] in Hi; [lia|].
  destruct i as [|i].
  - change (((x + d) mod 2 ^ 64 + zsum l) mod 2 ^ 64 = (x + zsum l + d) mod 2 ^ 64).
    rewrite Zplus_mod_idemp_l. f_equal. lia.
  - change ((x + zsum (alter (fun b => (b + d) mod 2 ^ 64) i l)) mod 2 ^ 64
      = (x + zsum l + d) mod 2 ^ 64).
    rewrite <- Zplus_mod_idemp_r, IH, Zplus_mod_idemp_r by lia. f_equal. lia.
Qed.

Lemma lookup_map_seq {A} (f : nat -> A) n i :
  map f (seq 0 n) !! i = if decide (i < n)%nat then Some (f i) else None.
Proof.
  change (map f (seq 0 n)) with (f <$> seq 0 n). rewrite list_lookup_fmap. case_decide.
  - by rewrite lookup_seq_lt.
  - by rewrite lookup_seq_ge by lia.
Qed.

Lemma Forall_repeat {A} (P : A -> Prop) x n : P x -> Forall P (repeat x n).
Proof. intros Hx. by induction n; constructor. Qed.

Lemma filter_none {A} (P : A -> Prop) `{!forall x, Decision (P x)} l :
  Forall (fun x => ~ P x) l -> filter P l = [].
Proof. induction 1; [done|]. by rewrite filter_cons, decide_False. Qed.

(** A decidable property of a byte, by checking all 256. *)
Lemma byte_forall (P : Z -> bool) b :
  forallb P (map Z.of_nat (seq 0 256)) = true -> is_u8 b -> P b = true.
Proof.
  intros HP Hb. rewrite forallb_forall in HP. apply HP.
  apply in_map_iff. exists (Z.to_nat b). unfold is_u8 in Hb. split; [lia|]. apply in_seq. lia.
Qed.

(** ** Strings

    A Rust [String]/[&str] is the list of its Unicode scalar values. *)
Definition rstring := list Z.

Fixpoint lit (s : String.string) : rstring :=
  match s with
  | String.EmptyString => []
  | String.String c s' => Z.of_N (Ascii.N_of_ascii c) :: lit s'
  end.
Coercion lit : String.string >-> rstring.

(** ** Stable descending sort

    The source sorts with [v.sort_by(|a, b| key(b).cmp(&key(a)))], a stable
    sort by descending key.  [sort_desc_spec] below is what a stable sort
    means: the result is a permutation, is ordered, and keeps the order of
    elements with equal keys; [sort_desc_unique] shows that these three
    determine the result, so the choice of algorithm is immaterial. *)
Section SortDesc.
Context {A : Type} (key : A -> Z).

Fixpoint insert_desc (x : A) (l : list A) : list A :=
  match l with
  | [] => [x]
  | y :: l' => if key y <=? key x then x :: y :: l' else y :: insert_desc x l'
  end.

Fixpoint sort_desc (l : list A) : list A :=
  match l with
  | [] => []
  | x :: l' => insert_desc x (sort_desc l')
  end.

Definition desc (a b : A) : Prop := key b <= key a.
Definition with_key (k : Z) (l : list A) : list A := filter (fun x => key x = k) l.

Lemma insert_desc_perm x l : insert_desc x l ≡ₚ x :: l.
Proof.
  induction l as [|y l IH]; simpl; [done|].
  case_match; [done|]. rewrite IH. constructor.
Qed.

Lemma sort_desc_perm l : sort_desc l ≡ₚ l.
Proof. induction l as [|x l IH]; simpl; [done|]. by rewrite insert_desc_perm, IH. Qed.

Lemma length_sort_desc l : length (sort_desc l) = length l.
Proof. by rewrite sort_desc_perm. Qed.

Lemma elem_of_sort_desc x l : x ∈ sort_desc l <-> x ∈ l.
Proof. by rewrite sort_desc_perm. Qed.

Lemma insert_desc_sorted x l :
  StronglySorted desc l -> StronglySorted desc (insert_desc x l).
Proof.
  induction 1 as [|y l Hs IH Hy]; simpl; [repeat constructor|].
  destruct (Z.leb_spec (key y) (key x)).
  - constructor; [by constructor|]. constructor; [done|].
    eapply Forall_impl; [exact Hy|]. unfold desc. lia.
  - constructor; [done|]. rewrite insert_desc_perm. constructor; [unfold desc; lia|done].
Qed.

Lemma sort_desc_sorted l : StronglySorted desc (sort_desc l).
Proof. induction l; simpl; [constructor|]. by apply insert_desc_sorted. Qed.

Lemma insert_desc_stable k x l :
  with_key k (insert_desc x l) = with_key k (x :: l).
Proof.
  unfold with_key. induction l as [|y l IH]; simpl; [done|].
  destruct (Z.leb_spec (key y) (key x)); [done|].
  rewrite !filter_cons in *. repeat case_decide; try lia; congruence.
Qed.

Lemma sort_desc_stable k l : with_key k (sort_desc l) = with_key k l.
Proof.
  induction l as [|x l IH]; simpl; [done|].
  rewrite insert_desc_stable. unfold with_key in *. rewrite !filter_cons, IH. done.
Qed.

Lemma sorted_desc_unique l1 l2 :
  StronglySorted desc l1 -> StronglySorted desc l2 ->
  (forall k, with_key k l1 = with_key k l2) -> l1 = l2.
Proof.
  unfold with_key. revert l2.
  induction l1 as [|x l1 IH]; intros [|y l2] H1 H2 H; [done| | |].
  - specialize (H (key y)). rewrite filter_cons in H. by case_decide.
  - specialize (H (key x)). rewrite filter_cons in H. by case_decide.
  - inversion H1 as [|? ? H1' Hx]; inversion H2 as [|? ? H2' Hy]; subst.
    rewrite Forall_forall in Hx, Hy.
    assert (key x = key y) as Hk.
    { destruct (Z.lt_trichotomy (key x) (key y)) as [Hlt|[?|Hlt]]; [|done|].
      - assert (y ∈ filter (fun z => key z = key y) (x :: l1)) as Hin.
        { rewrite H, list_elem_of_filter. split; [done|left]. }
        apply list_elem_of_filter in Hin as [_ Hin]. inversion Hin; subst; [lia|].
        specialize (Hx y ltac:(done)). unfold desc in Hx. lia.
      - assert (x ∈ filter (fun z => key z = key x) (y :: l2)) as Hin.
        { rewrite <- H, list_elem_of_filter. split; [done|left]. }
        apply list_elem_of_filter in Hin as [_ Hin]. inversion Hin; subst; [lia|].
        specialize (Hy x ltac:(done)). unfold desc in Hy. lia. }
    assert (x = y) as ->.
    { specialize (H (key x)). rewrite !filter_cons in H.
      repeat case_decide; congruence. }
    f_equal. apply IH; [done..|]. intros k. specialize (H k).
    rewrite !filter_cons in H. case_decide; congruence.
Qed.

(** The specification of a stable descending sort has one solution. *)
Lemma sort_desc_unique l l' :
  StronglySorted desc l' -> (forall k, with_key k l' = with_key k l) -> l' = sort_desc l.
Proof.
  intros Hs Hk. apply sorted_desc_unique; [done|apply sort_desc_sorted|].
  intros k. by rewrite sort_desc_stable.
Qed.

(** Sorting an ordered list changes nothing. *)
Lemma sort_desc_id l : StronglySorted desc l -> sort_desc l = l.
Proof.
  induction 1 as [|x l Hs IH Hx]; simpl; [done|]. rewrite IH.
  destruct l as [|y l]; simpl; [done|].
  inversion Hx; subst. unfold desc in *. by destruct (Z.leb_spec (key y) (key x)); [|lia].
Qed.

(** [truncate n] after the sort keeps a top-[n]: nothing kept is below
    anything dropped. *)
Lemma top_n_dominates n l x y :
  x ∈ take n (sort_desc l) -> y ∈ drop n (sort_desc l) -> key y <= key x.
Proof.
  pose proof (sort_desc_sorted l) as Hs. intros Hx Hy.
  rewrite <- (take_drop n (sort_desc l)) in Hs.
  apply list_elem_of_lookup in Hx as [i Hi]. apply list_elem_of_lookup in Hy as [j Hj].
  revert i Hi Hs. generalize (take n (sort_desc l)) as l1. induction l1 as [|z l1 IH].
  - intros i Hi. by rewrite lookup_nil in Hi.
  - intros [|i] Hi Hs; simpl in *; inversion Hs as [|? ? Hs' Hz]; subst.
    + injection Hi as ->. rewrite Forall_app in Hz. destruct Hz as [_ Hz].
      rewrite Forall_lookup in Hz. by apply (Hz j).
    + by apply (IH i).
Qed.
End SortDesc.

(** ** Ltac *)

(** *** Selection

    [picks P l k]: [k] is the elements of [l] that satisfy [P], each as often
    and in the order it occurs there. *)
Inductive picks {A} (P : A -> Prop) : list A -> list A -> Prop :=
  | picks_nil : picks P [] []
  | picks_keep x l k : P x -> picks P l k -> picks P (x :: l) (x :: k)
  | picks_skip x l k : ~ P x -> picks P l k -> picks P (x :: l) k.

Lemma picks_filter {A} (P : A -> Prop) (f : A -> bool) l :
  (forall x, f x = true <-> P x) -> picks P l (List.filter f l).
Proof.
  intros H. induction l as [|x l IH]; cbn [List.filter]; [constructor|].
  destruct (f x) eqn:E; constructor; try done; [by apply H|]. intros Hx%H. congruence.
Qed.

Lemma picks_elem_of {A} (P : A -> Prop) l k x : picks P l k -> x ∈ k <-> x ∈ l /\ P x.
Proof.
  induction 1 as [|y l k Hy _ IH|y l k Hy _ IH]; rewrite ?elem_of_cons, ?IH.
  - rewrite elem_of_nil. tauto.
  - split; [intros [->|[]]; tauto|tauto].
  - split; [tauto|]. by intros [[->|] ?].
Qed.

(** Case analysis on every [match]/[if] of the goal, innermost first. *)
Ltac case_goal :=
  repeat (case_match; simplify_eq/=; try done).

(** A closed decidable goal, by evaluating its decision procedure. *)
Ltac decide_now :=
  match goal with |- ?P => refine (bool_decide_eq_true_1 P _); vm_compute; reflexivity end.

(** [lia] with division and remainder by constants. *)
Ltac div_lia := Z.to_euclidean_division_equations; lia.
