(* ===== verification/Locks.v ===== *)
(** Tasks under readers-writer locks.

    The daemon's tasks share their data behind locks.  A task runs critical
    sections: it takes the locks of a section one after the other, acts on the
    data behind them a field at a time, and drops the guards, the last one
    first.  The scheduler may switch between any two of these actions.  For tasks whose
    sections take their locks in one order and touch only what they hold, every
    run goes on until all tasks are done ([run_goes_on], [run_length]), and does what
    a machine does that runs each section at once ([run_serializable]). *)
From S2P Require Import Prelude.

(** ** The lock *)

Inductive mode := Rd | Wr.
#[export] Instance mode_eq_dec : EqDecision mode.
Proof. solve_decision. Defined.

(** A task, by its number, and what it wants. *)
Definition claim : Type := nat * mode.
Record rwlock := { holders : list claim; queue : list claim }.
#[export] Instance eta_rwlock : Eta rwlock := fun r => Build_rwlock (holders r) (queue r).

(** A writer shares with nobody, readers share with readers. *)
Definition compatible (m : mode) (hs : list claim) : bool :=
  match m with
  | Wr => match hs with [] => true | _ => false end
  | Rd => forallb (fun h => bool_decide (h.2 = Rd)) hs
  end.

(** What the tasks rely on of the lock: whom it lets in waits for it and fits
    the holders, and a free lock lets somebody in. *)
Class Policy := {
  admits : rwlock -> claim -> bool;
  admits_sound k r : admits k r = true -> r ∈ queue k /\ compatible r.2 (holders k) = true;
  admits_live k : holders k = [] -> queue k <> [] -> exists r, admits k r = true }.

(** The order tokio documents for its lock: first come, first served; a waiting
    writer holds up the readers behind it. *)
Definition fifo_admits (k : rwlock) (r : claim) : bool :=
  match queue k with q :: _ => bool_decide (q = r) && compatible r.2 (holders k) | [] => false end.
#[export] Program Instance fifo : Policy := {| admits := fifo_admits |}.
Next Obligation.
  intros [hs [|q qs]] r H; cbn in H; [done|]. apply andb_true_iff in H as [->%bool_decide_eq_true H].
  split; [left|exact H].
Qed.
Next Obligation.
  intros [hs [|q qs]] Hh Hq; [done|]. cbn in Hh. subst hs. exists q. unfold fifo_admits. cbn [queue holders].
  rewrite bool_decide_eq_true_2 by done. by destruct q as [? []].
Qed.

(** A lock that lets in whoever fits. *)
Definition barging_admits (k : rwlock) (r : claim) : bool :=
  bool_decide (r ∈ queue k) && compatible r.2 (holders k).
Program Definition barging : Policy := {| admits := barging_admits |}.
Next Obligation. intros k r [H%bool_decide_eq_true ?]%andb_true_iff. done. Qed.
Next Obligation.
  intros [hs [|q qs]] Hh Hq; [done|]. cbn in Hh. subst hs. exists q. unfold barging_admits. cbn [queue holders].
  rewrite bool_decide_eq_true_2 by left. by destruct q as [? []].
Qed.

Lemma compatible_reader m hs h : compatible m hs = true -> h ∈ hs -> m = Rd /\ h.2 = Rd.
Proof.
  destruct m; cbn.
  - intros H Hh. split; [done|]. rewrite forallb_forall in H.
    eapply bool_decide_eq_true, H. by apply list_elem_of_In.
  - destruct hs; [|done]. by intros _ ?%elem_of_nil.
Qed.

(** A number's entries, removed. *)
Definition without (t : nat) (l : list claim) : list claim := filter (fun r => r.1 <> t) l.
Lemma elem_of_dropped t l x : x ∈ without t l <-> x ∈ l /\ x.1 <> t.
Proof. unfold without. rewrite list_elem_of_filter. tauto. Qed.

(** ** Tasks *)

Section Tasks.
Context {lock : Type} {lock_dec : EqDecision lock}.
(** What each lock guards, and a task's own variables. *)
Context {data : lock -> Type} {local : Type}.
Context {policy : Policy}.

Definition store : Type := forall l, data l.
Definition put (l : lock) (x : data l) (s : store) : store := fun l' =>
  match decide (l = l') with left e => eq_rect l data x l' e | right _ => s l' end.

(** Stores with the same data. *)
#[export] Instance store_equiv : Equiv store := fun d d' => forall l, d l = d' l.
#[export] Instance store_equivalence : Equivalence (≡@{store}).
Proof. split; [done|by intros d d' H l|]. intros d1 d2 d3 H1 H2 l. by rewrite H1. Qed.

Inductive action :=
  | Read (l : lock) (f : data l -> local -> local)
  | Write (l : lock) (f : local -> data l -> data l)
  | Local (f : local -> local).

Definition perform (sv : store * local) (a : action) : store * local :=
  match a with
  | Read l f => (sv.1, f (sv.1 l) sv.2)
  | Write l f => (put l (f sv.2 (sv.1 l)) sv.1, sv.2)
  | Local f => (sv.1, f sv.2)
  end.
Definition perform_all (b : list action) (sv : store * local) : store * local := foldl perform sv b.

(** A critical section. *)
Record section := { cs_locks : list (lock * mode); cs_body : list action }.

Record task := {
  tk_held : list (lock * mode);   (* guards, the last one taken first *)
  tk_todo : list (lock * mode);   (* locks of the section yet to be taken *)
  tk_asked : bool;                (* queued for the first of them *)
  tk_body : list action;          (* what is left of the section's body *)
  tk_vars : local;
  tk_rest : list section }.
#[export] Instance eta_task : Eta task := fun r =>
  Build_task (tk_held r) (tk_todo r) (tk_asked r) (tk_body r) (tk_vars r) (tk_rest r).

Record state := { st_tasks : list task; st_locks : lock -> rwlock; st_store : store }.

Definition set_lock (l : lock) (f : rwlock -> rwlock) (s : lock -> rwlock) : lock -> rwlock := fun l' =>
  if decide (l = l') then f (s l') else s l'.

(** The next action of task [t], if it has one and is not blocked. *)
Definition advance (t : nat) (s : state) : option state :=
  match st_tasks s !! t with
  | None => None
  | Some k =>
      let at_ k' locks data := Some {| st_tasks := <[t := k']> (st_tasks s); st_locks := locks; st_store := data |} in
      match tk_todo k, tk_body k, tk_held k, tk_rest k with
      | (l, m) :: todo, _, held, _ =>
          if tk_asked k then
            if admits (st_locks s l) (t, m) then
              at_ (k <| tk_held := (l, m) :: held |> <| tk_todo := todo |> <| tk_asked := false |>)
                (set_lock l (fun x => {| holders := (t, m) :: holders x; queue := without t (queue x) |}) (st_locks s))
                (st_store s)
            else None
          else at_ (k <| tk_asked := true |>)
                 (set_lock l (fun x => x <| queue ::= fun q => q ++ [(t, m)] |>) (st_locks s)) (st_store s)
      | [], a :: body, _, _ =>
          let r := perform (st_store s, tk_vars k) a in
          at_ (k <| tk_body := body |> <| tk_vars := r.2 |>) (st_locks s) r.1
      | [], [], (l, m) :: held, _ =>
          at_ (k <| tk_held := held |>)
            (set_lock l (fun x => x <| holders ::= without t |>) (st_locks s)) (st_store s)
      | [], [], [], x :: rest =>
          at_ (k <| tk_todo := cs_locks x |> <| tk_body := cs_body x |> <| tk_rest := rest |>)
            (st_locks s) (st_store s)
      | [], [], [], [] => None
      end
  end.
Definition advances (s s' : state) : Prop := exists t, advance t s = Some s'.

Definition spawn (p : local * list section) : task :=
  {| tk_held := []; tk_todo := []; tk_asked := false; tk_body := []; tk_vars := p.1; tk_rest := p.2 |}.
Definition boot (s : store) (ps : list (local * list section)) : state :=
  {| st_tasks := map spawn ps; st_locks := fun _ => {| holders := []; queue := [] |}; st_store := s |}.

(** Runs by the numbers of the tasks that act. *)
Definition schedule (ts : list nat) (s : state) : option state :=
  foldl (fun o t => o ≫= advance t) (Some s) ts.

Definition finished (k : task) : bool :=
  match tk_todo k, tk_body k, tk_held k, tk_rest k with [], [], [], [] => true | _, _, _, _ => false end.
Definition all_finished (s : state) : bool := forallb finished (st_tasks s).

(** ** The machine that runs each section at once *)

Record astate := { a_tasks : list (local * list (list action)); a_store : store }.

Definition atomically (t : nat) (a : astate) : option astate :=
  match a_tasks a !! t with
  | Some (v, b :: bs) =>
      let r := perform_all b (a_store a, v) in
      Some {| a_tasks := <[t := (r.2, bs)]> (a_tasks a); a_store := r.1 |}
  | _ => None
  end.
Definition serially (ts : list nat) (a : astate) : option astate :=
  foldl (fun o t => o ≫= atomically t) (Some a) ts.
Definition serial_boot (s : store) (ps : list (local * list section)) : astate :=
  {| a_tasks := map (fun p => (p.1, map cs_body p.2)) ps; a_store := s |}.

(** ** The discipline *)

(** An order of the locks. *)
Context (rank : lock -> nat).

Fixpoint increasing (l : list (lock * mode)) : bool :=
  match l with
  | x :: (y :: _) as l' => Nat.ltb (rank x.1) (rank y.1) && increasing l'
  | _ => true
  end.
Definition allowed (held : list (lock * mode)) (a : action) : bool :=
  match a with
  | Read l _ => existsb (fun x => bool_decide (x.1 = l)) held
  | Write l _ => existsb (fun x => bool_decide (x.1 = l) && bool_decide (x.2 = Wr)) held
  | Local _ => true
  end.
Definition disciplined (x : section) : bool :=
  increasing (cs_locks x) && forallb (allowed (cs_locks x)) (cs_body x).

(** ** What the moves of a task keep *)

(** [advance], a rule per kind of action. *)
Inductive move (t : nat) (k : task) (s : state) : task -> (lock -> rwlock) -> store -> Prop :=
  | move_begin x rest :
      tk_todo k = [] -> tk_body k = [] -> tk_held k = [] -> tk_rest k = x :: rest ->
      move t k s (k <| tk_todo := cs_locks x |> <| tk_body := cs_body x |> <| tk_rest := rest |>)
        (st_locks s) (st_store s)
  | move_request l m todo :
      tk_todo k = (l, m) :: todo -> tk_asked k = false ->
      move t k s (k <| tk_asked := true |>)
        (set_lock l (fun x => x <| queue ::= fun q => q ++ [(t, m)] |>) (st_locks s)) (st_store s)
  | move_grant l m todo :
      tk_todo k = (l, m) :: todo -> tk_asked k = true -> admits (st_locks s l) (t, m) = true ->
      move t k s (k <| tk_held := (l, m) :: tk_held k |> <| tk_todo := todo |> <| tk_asked := false |>)
        (set_lock l (fun x => {| holders := (t, m) :: holders x; queue := without t (queue x) |}) (st_locks s))
        (st_store s)
  | move_act a body :
      tk_todo k = [] -> tk_body k = a :: body ->
      move t k s (k <| tk_body := body |> <| tk_vars := (perform (st_store s, tk_vars k) a).2 |>)
        (st_locks s) (perform (st_store s, tk_vars k) a).1
  | move_release l m held :
      tk_todo k = [] -> tk_body k = [] -> tk_held k = (l, m) :: held ->
      move t k s (k <| tk_held := held |>)
        (set_lock l (fun x => x <| holders ::= without t |>) (st_locks s)) (st_store s).

Lemma advance_move t s s' :
  advance t s = Some s' <-> exists k k' ls d, st_tasks s !! t = Some k /\ move t k s k' ls d /\
    s' = {| st_tasks := <[t := k']> (st_tasks s); st_locks := ls; st_store := d |}.
Proof.
  unfold advance. split.
  - destruct (st_tasks s !! t) as [k|]; [|done]. intros H. exists k.
    assert (exists k' ls d, move t k s k' ls d /\
      Some {| st_tasks := <[t := k']> (st_tasks s); st_locks := ls; st_store := d |} = Some s') as (k' & ls & d & Hm & [= <-]);
      [|by exists k', ls, d].
    destruct (tk_todo k) as [|[l m] todo] eqn:Et.
    + destruct (tk_body k) as [|a body] eqn:Eb; [|do 3 eexists; split; [by eapply move_act|exact H]].
      destruct (tk_held k) as [|[l m] held] eqn:Eh; [|do 3 eexists; split; [by eapply move_release|exact H]].
      destruct (tk_rest k) as [|x rest] eqn:Er; [done|do 3 eexists; split; [by eapply move_begin|exact H]].
    + destruct (tk_asked k) eqn:Ea; [|do 3 eexists; split; [by eapply move_request|exact H]].
      destruct (admits _ _) eqn:Ead; [do 3 eexists; split; [by eapply move_grant|exact H]|done].
  - intros (k & k' & ls & d & -> & Hm & ->). destruct Hm; repeat match goal with E : _ = _ |- _ => rewrite E; clear E end; done.
Qed.

(** *** Locks in order *)

Lemma increasing_sorted l : increasing l = true <-> StronglySorted (fun x y => (rank x.1 < rank y.1)%nat) l.
Proof.
  assert (Transitive (fun x y : lock * mode => (rank x.1 < rank y.1)%nat)) as Ht by (intros ???; lia).
  induction l as [|x [|y l] IH]; [split; [constructor|done]|split; [|done]; intros; repeat constructor|].
  change (increasing (x :: y :: l)) with (Nat.ltb (rank x.1) (rank y.1) && increasing (y :: l)).
  rewrite andb_true_iff, IH, Nat.ltb_lt, (StronglySorted_cons _ (y :: l) x). split.
  - intros [Hxy Hl]. split; [|done]. apply StronglySorted_cons in Hl as [Hy _]. constructor; [done|].
    eapply Forall_impl; [exact Hy|]. cbn. lia.
  - intros [Hx Hl]. split; [|done]. by inversion Hx.
Qed.
Lemma increasing_app l1 l2 x y :
  increasing (l1 ++ l2) = true -> x ∈ l1 -> y ∈ l2 -> (rank x.1 < rank y.1)%nat.
Proof. rewrite increasing_sorted. apply (StronglySorted_app_1_elem_of (fun x y => (rank x.1 < rank y.1)%nat)). Qed.
Lemma increasing_prefix l1 l2 : increasing (l1 ++ l2) = true -> increasing l1 = true.
Proof. rewrite !increasing_sorted. apply StronglySorted_app_1_l. Qed.

Lemma allowed_perm l l' a : l ≡ₚ l' -> allowed l a = allowed l' a.
Proof.
  intros Hl. assert (forall f : lock * mode -> bool, existsb f l = existsb f l') as He.
  { intros f. apply eq_true_iff_eq. rewrite !existsb_exists. setoid_rewrite <- list_elem_of_In. by setoid_rewrite Hl. }
  destruct a; cbn; auto.
Qed.

(** The locks of a task stay in order, and its body within them. *)
Record ordered (k : task) : Prop := {
  or_rank : increasing (reverse (tk_held k) ++ tk_todo k) = true;
  or_body : forallb (allowed (tk_held k ++ tk_todo k)) (tk_body k) = true;
  or_asked : tk_todo k = [] -> tk_asked k = false;
  or_rest : Forall (fun x => disciplined x = true) (tk_rest k) }.

Definition holds (s : state) (t : nat) (l : lock) (m : mode) : Prop :=
  exists k, st_tasks s !! t = Some k /\ (l, m) ∈ tk_held k.
Definition waits (s : state) (t : nat) (l : lock) (m : mode) : Prop :=
  exists k, st_tasks s !! t = Some k /\ tk_asked k = true /\ head (tk_todo k) = Some (l, m).

(** The locks know who holds them and who waits, and a writer is alone. *)
Record lock_inv (s : state) : Prop := {
  li_task t k : st_tasks s !! t = Some k -> ordered k;
  li_holders l t m : (t, m) ∈ holders (st_locks s l) <-> holds s t l m;
  li_queue l t m : (t, m) ∈ queue (st_locks s l) <-> waits s t l m;
  li_writer l t t' m : holds s t l Wr -> holds s t' l m -> t = t' }.

Lemma holds_insert s t k k' ls d t' l m :
  st_tasks s !! t = Some k ->
  holds {| st_tasks := <[t := k']> (st_tasks s); st_locks := ls; st_store := d |} t' l m
    <-> (t' = t /\ (l, m) ∈ tk_held k') \/ (t' <> t /\ holds s t' l m).
Proof.
  intros Hk. apply lookup_lt_Some in Hk. unfold holds. cbn [st_tasks].
  destruct (decide (t' = t)) as [->|Hne];
    [rewrite list_lookup_insert_eq by done|rewrite list_lookup_insert_ne by done]; naive_solver.
Qed.
Lemma waits_insert s t k k' ls d t' l m :
  st_tasks s !! t = Some k ->
  waits {| st_tasks := <[t := k']> (st_tasks s); st_locks := ls; st_store := d |} t' l m
    <-> (t' = t /\ tk_asked k' = true /\ head (tk_todo k') = Some (l, m)) \/ (t' <> t /\ waits s t' l m).
Proof.
  intros Hk. apply lookup_lt_Some in Hk. unfold waits. cbn [st_tasks].
  destruct (decide (t' = t)) as [->|Hne];
    [rewrite list_lookup_insert_eq by done|rewrite list_lookup_insert_ne by done]; naive_solver.
Qed.
Lemma holds_self s t k l m : st_tasks s !! t = Some k -> holds s t l m <-> (l, m) ∈ tk_held k.
Proof. unfold holds. naive_solver. Qed.
Lemma waits_self s t k l m :
  st_tasks s !! t = Some k -> waits s t l m <-> tk_asked k = true /\ head (tk_todo k) = Some (l, m).
Proof. unfold waits. naive_solver. Qed.

Lemma move_ordered t k s k' ls d : move t k s k' ls d -> ordered k -> ordered k'.
Proof.
  intros Hm [H1 H2 H3 H4]. destruct Hm as [x rest Et Eb Eh Er|l m todo Et Ea|l m todo Et Ea Ead|a body Et Eb|l m held Et Eb Eh].
  - rewrite Er in H4. apply Forall_cons in H4 as [[Hx Hb]%andb_true_iff H4].
    constructor; cbn [upd updater tk_held tk_todo tk_body tk_rest tk_asked]; rewrite ?Eh; auto.
  - constructor; cbn [upd updater tk_held tk_todo tk_body tk_rest tk_asked]; auto. by rewrite Et.
  - rewrite Et in *. constructor; cbn [upd updater tk_held tk_todo tk_body tk_rest tk_asked]; auto.
    + by rewrite reverse_cons, <- app_assoc.
    + rewrite forallb_forall in H2 |- *. intros b Hb. specialize (H2 b Hb). rewrite <- H2. apply allowed_perm.
      cbn. by rewrite Permutation_middle.
  - constructor; cbn [upd updater tk_held tk_todo tk_body tk_rest tk_asked]; auto.
    rewrite Eb in H2. cbn in H2. by apply andb_true_iff in H2 as [_ H2].
  - constructor; cbn [upd updater tk_held tk_todo tk_body tk_rest tk_asked]; auto; [|by rewrite Eb].
    rewrite Eh, Et, app_nil_r, reverse_cons in H1. rewrite Et, app_nil_r. by eapply increasing_prefix.
Qed.

Lemma ordered_once k l m m' held todo :
  ordered k -> tk_held k = (l, m) :: held -> tk_todo k = todo -> (l, m') ∉ held.
Proof.
  intros [H1 _ _ _] Eh Et Hin. rewrite Eh, reverse_cons in H1. apply increasing_prefix in H1.
  apply (increasing_app _ _ (l, m') (l, m)) in H1; [cbn in H1; lia|by apply elem_of_reverse|left].
Qed.
Lemma ordered_next k l m m' todo : ordered k -> tk_todo k = (l, m) :: todo -> (l, m') ∉ tk_held k.
Proof.
  intros [H1 _ _ _] Et Hin. rewrite Et in H1.
  apply (increasing_app _ _ (l, m') (l, m)) in H1; [cbn in H1; lia|by apply elem_of_reverse|left].
Qed.

Lemma set_lock_eq l f ls : set_lock l f ls l = f (ls l).
Proof. unfold set_lock. by rewrite decide_True. Qed.
Lemma set_lock_ne l l' f ls : l <> l' -> set_lock l f ls l' = ls l'.
Proof. intros H. unfold set_lock. by rewrite decide_False. Qed.

Lemma advance_inv t s s' : advance t s = Some s' -> lock_inv s -> lock_inv s'.
Proof.
  intros (k & k' & ls & d & Hk & Hm & ->)%advance_move [I1 I2 I3 I4].
  pose proof (I1 _ _ Hk) as Ho. pose proof (move_ordered _ _ _ _ _ _ Hm Ho) as Ho'.
  constructor; cbn [st_locks].
  - intros t' x Hx. cbn [st_tasks] in Hx. apply list_lookup_insert_Some in Hx as [(<- & <- & _)|[_ Hx]]; eauto.
  - intros l' t' m'. rewrite (holds_insert s t k) by done.
    assert ((t', m') ∈ holders (st_locks s l') <-> (t' = t /\ (l', m') ∈ tk_held k) \/ (t' <> t /\ holds s t' l' m')) as Hl.
    { rewrite I2. destruct (decide (t' = t)) as [->|]; [rewrite (holds_self _ _ k) by done|]; naive_solver. }
    destruct Hm as [x rest Et Eb Eh Er|l m todo Et Ea|l m todo Et Ea Ead|a body Et Eb|l m held Et Eb Eh];
      cbn [upd updater tk_held]; try exact Hl.
    + destruct (decide (l = l')) as [<-|]; [rewrite set_lock_eq|rewrite set_lock_ne by done]; exact Hl.
    + destruct (decide (l = l')) as [<-|]; [rewrite set_lock_eq|rewrite set_lock_ne by done]; cbn [holders];
        rewrite !elem_of_cons, Hl; naive_solver.
    + destruct (decide (l = l')) as [<-|]; [rewrite set_lock_eq|rewrite set_lock_ne by done];
        cbn [upd updater holders]; [rewrite elem_of_dropped|]; rewrite Hl, Eh; cbn [fst].
      * pose proof (ordered_once k l m m' held _ Ho Eh Et). naive_solver.
      * rewrite elem_of_cons. naive_solver.
  - intros l' t' m'. rewrite (waits_insert s t k) by done.
    assert ((t', m') ∈ queue (st_locks s l') <->
      (t' = t /\ tk_asked k = true /\ head (tk_todo k) = Some (l', m')) \/ (t' <> t /\ waits s t' l' m')) as Hl.
    { rewrite I3. destruct (decide (t' = t)) as [->|]; [rewrite (waits_self _ _ k) by done|]; naive_solver. }
    destruct Hm as [x rest Et Eb Eh Er|l m todo Et Ea|l m todo Et Ea Ead|a body Et Eb|l m held Et Eb Eh];
      cbn [upd updater tk_asked tk_todo]; try exact Hl.
    + rewrite Hl, (or_asked _ Ho Et). naive_solver.
    + destruct (decide (l = l')) as [<-|]; [rewrite set_lock_eq|rewrite set_lock_ne by done];
        cbn [upd updater queue]; [rewrite elem_of_app, list_elem_of_singleton|]; rewrite Hl, Et, Ea; cbn; naive_solver.
    + destruct (decide (l = l')) as [<-|]; [rewrite set_lock_eq|rewrite set_lock_ne by done];
        cbn [queue]; [rewrite elem_of_dropped|]; rewrite Hl, Et; cbn; naive_solver.
    + destruct (decide (l = l')) as [<-|]; [rewrite set_lock_eq|rewrite set_lock_ne by done]; exact Hl.
  - intros l' t1 t2 m' H1 H2. rewrite (holds_insert s t k) in H1, H2 by done.
    destruct Hm as [x rest Et Eb Eh Er|l m todo Et Ea|l m todo Et Ea Ead|a body Et Eb|l m held Et Eb Eh];
      cbn [upd updater tk_held] in H1, H2.
    1,2,4: rewrite <- !(holds_self s t k) in * by done; naive_solver.
    + apply admits_sound in Ead as [_ Ead]. cbn [snd] in Ead.
      assert (forall u mu, holds s u l mu -> m = Rd /\ mu = Rd) as Hfit.
      { intros u mu Hu. apply I2 in Hu. exact (compatible_reader _ _ _ Ead Hu). }
      rewrite !elem_of_cons, <- !(holds_self s t k) in * by done. naive_solver.
    + assert (forall mu, (l', mu) ∈ held -> holds s t l' mu) as Hs.
      { intros mu Hu. apply (holds_self _ _ k); [done|]. rewrite Eh. by right. }
      naive_solver.
Qed.

Lemma max_list_in {A} (f : A -> nat) x l : x ∈ l -> (f x <= max_list_with f l)%nat.
Proof. induction 1; cbn; lia. Qed.

Lemma boot_inv d ps :
  Forall (fun p => Forall (fun x => disciplined x = true) p.2) ps -> lock_inv (boot d ps).
Proof.
  intros Hp. assert (forall t k, map spawn ps !! t = Some k -> exists p, p ∈ ps /\ k = spawn p) as Hs.
  { intros t k Hk. change (map spawn ps) with (spawn <$> ps) in Hk. rewrite list_lookup_fmap in Hk.
    apply fmap_Some in Hk as (p & Hp' & ->). eauto using list_elem_of_lookup_2. }
  constructor; cbn [st_locks boot holders queue].
  - intros t k Hk. apply Hs in Hk as (p & Hin & ->). rewrite Forall_forall in Hp. by constructor; cbn; auto.
  - intros l t m. split; [by intros ?%elem_of_nil|]. intros (k & Hk & Hin). apply Hs in Hk as (p & _ & ->).
    by apply elem_of_nil in Hin.
  - intros l t m. split; [by intros ?%elem_of_nil|]. intros (k & Hk & Ha & _). by apply Hs in Hk as (p & _ & ->).
  - intros l t t' m (k & Hk & Hin). apply Hs in Hk as (p & _ & ->). by apply elem_of_nil in Hin.
Qed.

(** ** Runs go on, and end *)

Lemma blocked s t k :
  st_tasks s !! t = Some k -> advance t s = None ->
  finished k = true \/ exists l m, waits s t l m /\ admits (st_locks s l) (t, m) = false.
Proof.
  intros Hk Ha. unfold advance in Ha. rewrite Hk in Ha. unfold finished.
  destruct (tk_todo k) as [|[l m] todo] eqn:Et.
  - destruct (tk_body k); [|done]. destruct (tk_held k) as [|[]]; [|done]. by destruct (tk_rest k); [left|].
  - right. exists l, m. destruct (tk_asked k) eqn:Ek; [|done]. destruct (admits _ _) eqn:Ead; [done|].
    split; [|done]. exists k. rewrite Et. done.
Qed.

(** Of the locks somebody waits for, the last in the order: a free one would
    let somebody in, and a holder waits for nothing beyond it. *)
Lemma somebody_advances s t l m :
  lock_inv s -> waits s t l m -> exists t' s', advance t' s = Some s'.
Proof.
  intros [I1 I2 I3 _].
  set (aim k := match head (tk_todo k) with Some x => rank x.1 | None => 0%nat end).
  assert (forall t l m, waits s t l m -> (rank l <= max_list_with aim (st_tasks s))%nat) as Hmax.
  { intros t' l' m' (k & Hk & _ & Hh). change l' with (l', m').1.
    replace (rank (l', m').1) with (aim k) by (unfold aim; by rewrite Hh).
    apply max_list_in, list_elem_of_lookup_2 with t'. done. }
  remember (max_list_with aim (st_tasks s) - rank l)%nat as n eqn:En.
  revert t l m En. induction n as [n IH] using lt_wf_ind. intros t l m -> Hw.
  destruct (holders (st_locks s l)) as [|[t' m'] hs] eqn:Eh.
  - assert (queue (st_locks s l) <> []) as Hq.
    { apply I3 in Hw. intros E. rewrite E in Hw. by apply elem_of_nil in Hw. }
    destruct (admits_live _ Eh Hq) as [[t' m'] Had]. exists t'.
    pose proof (admits_sound _ _ Had) as [Hin _]. apply I3 in Hin as (k & Hk & Ha & Hh).
    destruct (tk_todo k) as [|x todo] eqn:Et; [done|]. injection Hh as ->.
    eexists. apply advance_move. exists k. do 3 eexists. split; [done|]. split; [by eapply move_grant|done].
  - assert (holds s t' l m') as (k & Hk & Hin) by (apply I2; rewrite Eh; left).
    destruct (advance t' s) as [s'|] eqn:Ea; [by exists t', s'|].
    destruct (blocked _ _ _ Hk Ea) as [Hf|(l' & m'' & Hw' & _)].
    { unfold finished in Hf. destruct (tk_todo k), (tk_body k), (tk_held k); try done. by apply elem_of_nil in Hin. }
    assert (rank l < rank l')%nat as Hlt.
    { pose proof Hw' as (k' & Hk' & _ & Hh). rewrite Hk in Hk'. injection Hk' as <-.
      destruct (tk_todo k) as [|x todo] eqn:Et; [done|]. injection Hh as ->.
      pose proof (or_rank _ (I1 _ _ Hk)) as Hr. rewrite Et in Hr.
      apply (increasing_app _ _ (l, m') (l', m'')) in Hr; [exact Hr|by apply elem_of_reverse|left]. }
    pose proof (Hmax _ _ _ Hw'). eapply IH; [|reflexivity|exact Hw']. lia.
Qed.

Lemma not_stuck s : lock_inv s -> all_finished s = false -> exists s', advances s s'.
Proof.
  intros Hi Hf.
  assert (exists t k, st_tasks s !! t = Some k /\ finished k = false) as (t & k & Hk & Hfk).
  { unfold all_finished in Hf. clear Hi. induction (st_tasks s) as [|x l IH]; [done|]. cbn in Hf.
    destruct (finished x) eqn:E; [|by exists 0%nat, x]. destruct IH as (t & k & ? & ?); [done|]. by exists (S t), k. }
  destruct (advance t s) as [s'|] eqn:Ea; [by exists s', t|].
  destruct (blocked _ _ _ Hk Ea) as [|(l & m & Hw & _)]; [congruence|].
  destruct (somebody_advances _ _ _ _ Hi Hw) as (t' & s' & Ht). by exists s', t'.
Qed.

(** What is left to do. *)
Definition section_work (x : section) : nat := S (3 * length (cs_locks x) + length (cs_body x)).
Definition task_work (k : task) : nat :=
  (3 * length (tk_todo k) - (if tk_asked k then 1 else 0) + length (tk_body k) + length (tk_held k)
   + sum_list_with section_work (tk_rest k))%nat.
Definition work (s : state) : nat := sum_list_with task_work (st_tasks s).

Lemma sum_insert {A} (f : A -> nat) l i x y :
  l !! i = Some x -> (sum_list_with f (<[i := y]> l) + f x = sum_list_with f l + f y)%nat.
Proof.
  revert i. induction l as [|z l IH]; intros [|i] H; [done|done| |].
  - injection H as ->. cbn. lia.
  - change (<[S i := y]> (z :: l)) with (z :: <[i := y]> l). cbn [sum_list_with]. specialize (IH i H). lia.
Qed.

Lemma advance_work t s s' : lock_inv s -> advance t s = Some s' -> work s = S (work s').
Proof.
  intros Hi (k & k' & ls & d & Hk & Hm & ->)%advance_move. unfold work. cbn [st_tasks].
  pose proof (sum_insert task_work _ _ _ k' Hk) as Hsum.
  enough (task_work k = S (task_work k')) by lia. clear Hsum.
  pose proof (or_asked _ (li_task _ Hi _ _ Hk)) as Ha.
  destruct Hm as [x rest Et Eb Eh Er|l m todo Et Ea|l m todo Et Ea Ead|a body Et Eb|l m held Et Eb Eh];
    unfold task_work; cbn [upd updater tk_todo tk_asked tk_body tk_held tk_rest];
    rewrite ?Et, ?Eb, ?Eh, ?Er, ?Ea, ?(Ha Et); cbn [length sum_list_with]; unfold section_work; lia.
Qed.

Lemma work_finished s : work s = 0%nat -> all_finished s = true.
Proof.
  unfold work, all_finished. intros H. apply forallb_forall. intros k Hk%list_elem_of_In.
  assert (task_work k = 0%nat) as Hw.
  { pose proof (sum_list_with_in _ task_work _ Hk). lia. }
  unfold task_work in Hw. unfold finished.
  destruct (tk_todo k), (tk_asked k), (tk_body k), (tk_held k), (tk_rest k); cbn in Hw; try lia; reflexivity.
Qed.

Lemma finished_work s : all_finished s = true -> work s = 0%nat.
Proof.
  unfold work, all_finished. rewrite forallb_forall. intros H.
  assert (forall k, k ∈ st_tasks s -> task_work k = 0%nat) as Hk.
  { intros k Hk%list_elem_of_In. specialize (H k Hk). unfold finished, task_work in *.
    by destruct (tk_todo k), (tk_body k), (tk_held k), (tk_rest k). }
  clear H. induction (st_tasks s) as [|k l IH]; [done|]. cbn [sum_list_with].
  rewrite (Hk k) by left. apply IH. intros x Hx. apply Hk. by right.
Qed.

Lemma schedule_cons t ts s : schedule (t :: ts) s = advance t s ≫= schedule ts.
Proof.
  unfold schedule. cbn [foldl mbind option_bind]. destruct (advance t s) as [s'|]; cbn [mbind option_bind]; [reflexivity|].
  induction ts as [|u ts IH]; [reflexivity|exact IH].
Qed.

Lemma schedule_inv ts s s' : schedule ts s = Some s' -> lock_inv s -> lock_inv s'.
Proof.
  revert s. induction ts as [|t ts IH]; intros s Hs Hi; [by injection Hs as <-|].
  rewrite schedule_cons in Hs. apply bind_Some in Hs as (s1 & H1 & Hs). eauto using advance_inv.
Qed.

(** A run has as many actions as work gets done. *)
Lemma run_length ts s s' : lock_inv s -> schedule ts s = Some s' -> work s = (length ts + work s')%nat.
Proof.
  revert s. induction ts as [|t ts IH]; intros s Hi Hs; [by injection Hs as <-|].
  rewrite schedule_cons in Hs. apply bind_Some in Hs as (s1 & H1 & Hs).
  rewrite (advance_work _ _ _ Hi H1). cbn. f_equal. eauto using advance_inv.
Qed.

(** Whoever runs, whoever is kept waiting: the rest of the tasks finish. *)
Lemma run_goes_on s : lock_inv s -> exists ts s', schedule ts s = Some s' /\ all_finished s' = true.
Proof.
  remember (work s) as n eqn:En. revert s En. induction n as [|n IH]; intros s En Hi.
  - exists [], s. split; [done|]. by apply work_finished.
  - destruct (all_finished s) eqn:E; [by exists [], s|].
    destruct (not_stuck s Hi E) as (s1 & t & H1).
    pose proof (advance_work _ _ _ Hi H1). destruct (IH s1 ltac:(lia) (advance_inv _ _ _ H1 Hi)) as (ts & s' & Hs & Hf).
    exists (t :: ts), s'. rewrite schedule_cons, H1. done.
Qed.

(** ** Runs are serializable *)

Lemma put_eq l x d : put l x d l = x.
Proof. unfold put. destruct (decide (l = l)) as [e|]; [|done]. symmetry. apply (Eqdep_dec.eq_rect_eq_dec lock_dec). Qed.
Lemma put_ne l l' x d : l <> l' -> put l x d l' = d l'.
Proof. intros H. unfold put. by destruct (decide (l = l')). Qed.

(** An action changes only what its task holds for writing, and depends only
    on what it holds. *)
Lemma perform_frame held a sv l : allowed held a = true -> (l, Wr) ∉ held -> (perform sv a).1 l = sv.1 l.
Proof.
  destruct a as [l' f|l' f|f]; cbn; try done. intros Ha Hl. apply put_ne. intros ->. apply Hl.
  apply existsb_exists in Ha as ([l' m] & Hin%list_elem_of_In & [H1 H2]%andb_true_iff).
  apply bool_decide_eq_true in H1, H2. cbn in H1, H2. by subst.
Qed.
Lemma perform_all_frame held b sv l :
  forallb (allowed held) b = true -> (l, Wr) ∉ held -> (perform_all b sv).1 l = sv.1 l.
Proof.
  revert sv. induction b as [|a b IH]; intros sv Hb Hl; [done|]. cbn in Hb. apply andb_true_iff in Hb as [Ha Hb].
  change (perform_all (a :: b) sv) with (perform_all b (perform sv a)). rewrite IH by done. by eapply perform_frame.
Qed.

Definition agree (held : list (lock * mode)) (d d' : store) : Prop := forall l m, (l, m) ∈ held -> d l = d' l.

Lemma perform_all_agree held b d d' v :
  forallb (allowed held) b = true -> agree held d d' ->
  (perform_all b (d, v)).2 = (perform_all b (d', v)).2 /\
  agree held (perform_all b (d, v)).1 (perform_all b (d', v)).1.
Proof.
  revert d d' v. induction b as [|a b IH]; intros d d' v Hb Hd; [done|]. cbn in Hb.
  apply andb_true_iff in Hb as [Ha Hb]. unfold perform_all. cbn [foldl]. fold (perform_all b).
  assert (forall l, allowed held (Read l (fun _ v => v)) = true -> d l = d' l) as Hl.
  { intros l Hin. cbn in Hin. apply existsb_exists in Hin as ([l' m] & Hin%list_elem_of_In & H1).
    apply bool_decide_eq_true in H1. cbn in H1. subst. by eapply Hd. }
  destruct a as [l f|l f|f]; cbn [perform fst snd].
  - rewrite (Hl l Ha). by apply IH.
  - assert (allowed held (Read l (fun _ v => v)) = true) as Hr.
    { cbn in *. apply existsb_exists in Ha as (x & Hx & [? _]%andb_true_iff). apply existsb_exists. eauto. }
    rewrite (Hl l Hr). apply IH; [done|]. intros l' m Hin. destruct (decide (l = l')) as [<-|Hne].
    + by rewrite !put_eq.
    + rewrite !put_ne by done. by eapply Hd.
  - by apply IH.
Qed.

#[export] Instance put_proper l x : Proper ((≡) ==> (≡)) (put l x).
Proof. intros d d' H l'. unfold put. case_decide; [done|apply H]. Qed.
Lemma put_put l x y d : put l x (put l y d) ≡ put l x d.
Proof.
  intros l'. destruct (decide (l = l')) as [<-|]; [by rewrite !put_eq|by rewrite !put_ne].
Qed.
Lemma put_same l d : put l (d l) d ≡ d.
Proof. intros l'. destruct (decide (l = l')) as [<-|]; [by rewrite put_eq|by rewrite put_ne]. Qed.

(** Actions see the data of a store only. *)
#[export] Instance perform_proper : Proper (prod_relation (≡) (=) ==> (=) ==> prod_relation (≡) (=)) perform.
Proof.
  intros [d v] [d' v'] [Hd Hv] a _ <-. cbn in Hd, Hv. subst v'. destruct a as [l f|l f|f]; cbn; split; cbn; try done.
  - by rewrite (Hd l).
  - rewrite (Hd l). by rewrite Hd.
Qed.
#[export] Instance perform_all_proper :
  Proper ((=) ==> prod_relation (≡) (=) ==> prod_relation (≡) (=)) perform_all.
Proof.
  intros b _ <-. induction b as [|a b IH]; intros sv sv' H; [exact H|]. apply IH. by rewrite H.
Qed.

(** A task that has all its locks is done with its section for the serial
    machine, wherever it is in it. *)
Definition outcome (d : store) (k : task) : store * local := perform_all (tk_body k) (d, tk_vars k).
Definition ahead (d : store) (k : task) : local :=
  match tk_todo k with [] => (outcome d k).2 | _ => tk_vars k end.
Definition pending (k : task) : list (list action) :=
  match tk_todo k with [] => map cs_body (tk_rest k) | _ => tk_body k :: map cs_body (tk_rest k) end.

Record serialized (s : state) (a : astate) : Prop := {
  se_task t k : st_tasks s !! t = Some k -> a_tasks a !! t = Some (ahead (st_store s) k, pending k);
  se_writer t k l : st_tasks s !! t = Some k -> tk_todo k = [] -> (l, Wr) ∈ tk_held k ->
    a_store a l = (outcome (st_store s) k).1 l;
  se_free l : (forall t k, st_tasks s !! t = Some k -> tk_todo k = [] -> (l, Wr) ∉ tk_held k) ->
    a_store a l = st_store s l }.

Lemma boot_serialized d ps : serialized (boot d ps) (serial_boot d ps).
Proof.
  constructor; cbn [st_tasks st_store boot a_tasks a_store serial_boot]; [| |done];
    intros t k; change (map spawn ps) with (spawn <$> ps); rewrite list_lookup_fmap.
  - change (map ?f ps) with (f <$> ps). intros (p & Hp & ->)%fmap_Some. rewrite list_lookup_fmap, Hp. done.
  - intros l (p & Hp & ->)%fmap_Some _ Hl. by apply elem_of_nil in Hl.
Qed.

(** A task other than the one that moved, before and after. *)
Lemma lookup_moved s t k k' t' x :
  st_tasks s !! t = Some k -> <[t := k']> (st_tasks s) !! t' = Some x ->
  (t' = t /\ x = k') \/ (t' <> t /\ st_tasks s !! t' = Some x).
Proof. intros Hk [(<- & <- & _)|[Hne Hx]]%list_lookup_insert_Some; auto. Qed.
Lemma lookup_kept s t k k' t' x :
  st_tasks s !! t = Some k -> t' <> t -> st_tasks s !! t' = Some x -> <[t := k']> (st_tasks s) !! t' = Some x.
Proof. intros Hk Hne Hx. by rewrite list_lookup_insert_ne. Qed.
Lemma lookup_mover s t k k' : st_tasks s !! t = Some k -> <[t := k']> (st_tasks s) !! t = Some k'.
Proof. intros Hk. apply list_lookup_insert_eq. by eapply lookup_lt_Some. Qed.

(** A move that touches neither the data nor the section's fate. *)
Lemma serialized_still s a t k k' ls :
  st_tasks s !! t = Some k -> serialized s a ->
  (forall l, tk_todo k' = [] -> (l, Wr) ∈ tk_held k' ->
     tk_todo k = [] /\ (l, Wr) ∈ tk_held k /\ tk_body k' = tk_body k /\ tk_vars k' = tk_vars k) ->
  (tk_todo k = [] -> tk_body k = []) ->
  ahead (st_store s) k' = ahead (st_store s) k -> pending k' = pending k ->
  serialized {| st_tasks := <[t := k']> (st_tasks s); st_locks := ls; st_store := st_store s |} a.
Proof.
  intros Hk [S1 S2 S3] H1 H2 Ha Hp. constructor; cbn [st_tasks st_store].
  - intros t' x [(-> & ->)|[Hne Hx]]%(lookup_moved _ _ k); [|by auto|done]. rewrite Ha, Hp. by apply S1.
  - intros t' x l [(-> & ->)|[Hne Hx]]%(lookup_moved _ _ k) Ht Hl; [|by eauto|done].
    destruct (H1 l Ht Hl) as (Ht' & Hl' & Eb & Ev). rewrite (S2 t k l) by done. unfold outcome. by rewrite Eb, Ev.
  - intros l Hfree. destruct (decide (tk_todo k = [] /\ (l, Wr) ∈ tk_held k)) as [[Ht Hl]|Hno].
    + rewrite (S2 t k l) by done. unfold outcome. by rewrite (H2 Ht).
    + apply S3. intros t' x Hx Ht Hl. destruct (decide (t' = t)) as [->|Hne].
      * simplify_eq. by apply Hno.
      * by eapply Hfree; [eapply lookup_kept|..].
Qed.

(** The move by which a task has all its locks is where its section happens. *)
Lemma serialized_commit s a t k k' ls :
  st_tasks s !! t = Some k -> serialized s a ->
  tk_todo k' = [] -> (tk_todo k = [] -> tk_held k = []) -> ordered k' ->
  ahead (st_store s) k = tk_vars k' -> pending k = tk_body k' :: pending k' ->
  (forall t' x l m, t' <> t -> st_tasks s !! t' = Some x -> (l, Wr) ∈ tk_held x -> (l, m) ∉ tk_held k') ->
  exists a', atomically t a = Some a' /\
    serialized {| st_tasks := <[t := k']> (st_tasks s); st_locks := ls; st_store := st_store s |} a'.
Proof.
  intros Hk [S1 S2 S3] Ht' Hh Ho Ha Hp Hx. pose proof (S1 _ _ Hk) as Hat. rewrite Ha, Hp in Hat.
  pose proof (or_body _ Ho) as Hb. rewrite Ht', app_nil_r in Hb.
  assert (agree (tk_held k') (a_store a) (st_store s)) as Hag.
  { intros l m Hl. apply S3. intros t' x Hx' Ht Hw. destruct (decide (t' = t)) as [->|Hne].
    - simplify_eq. rewrite Hh in Hw by done. by apply elem_of_nil in Hw.
    - by eapply Hx. }
  destruct (perform_all_agree _ _ _ _ (tk_vars k') Hb Hag) as [Hv Hd].
  eexists. split; [unfold atomically; by rewrite Hat|]. constructor; cbn [st_tasks st_store a_tasks a_store].
  - intros t' x [(-> & ->)|[Hne Hx']]%(lookup_moved _ _ k); [| |done].
    + rewrite list_lookup_insert_eq by (by eapply lookup_lt_Some). unfold ahead, outcome. by rewrite Ht', Hv.
    + rewrite list_lookup_insert_ne by done. by apply S1.
  - intros t' x l [(-> & ->)|[Hne Hx']]%(lookup_moved _ _ k) Ht Hl; [by eapply Hd| |done].
    rewrite (perform_all_frame (tk_held k')) by eauto. by eapply S2.
  - intros l Hfree.
    assert ((l, Wr) ∉ tk_held k') as Hl by (eapply Hfree; [by eapply lookup_mover|done]).
    rewrite (perform_all_frame (tk_held k')) by done. cbn [fst]. apply S3. intros t' x Hx' Ht Hw.
    destruct (decide (t' = t)) as [->|Hne].
    + simplify_eq. rewrite Hh in Hw by done. by apply elem_of_nil in Hw.
    + by eapply Hfree; [eapply lookup_kept|..].
Qed.

(** An action of a task that has all its locks is done already. *)
Lemma serialized_act s a t k b body ls :
  let r := perform (st_store s, tk_vars k) b in
  let k' := k <| tk_body := body |> <| tk_vars := r.2 |> in
  st_tasks s !! t = Some k -> lock_inv s -> serialized s a -> tk_todo k = [] -> tk_body k = b :: body ->
  serialized {| st_tasks := <[t := k']> (st_tasks s); st_locks := ls; st_store := r.1 |} a.
Proof.
  intros r k' Hk Hi [S1 S2 S3] Ht Eb.
  assert (outcome r.1 k' = outcome (st_store s) k) as Hout.
  { unfold outcome. rewrite Eb. unfold k'. cbn [upd updater tk_body tk_vars]. by rewrite <- surjective_pairing. }
  assert (allowed (tk_held k) b = true) as Hb.
  { pose proof (or_body _ (li_task _ Hi _ _ Hk)) as H. rewrite Ht, app_nil_r, Eb in H. cbn in H.
    by apply andb_true_iff in H as [H _]. }
  assert (forall l, (l, Wr) ∉ tk_held k -> r.1 l = st_store s l) as Hframe.
  { intros l Hl. unfold r. by rewrite (perform_frame (tk_held k)). }
  assert (forall t' x, t' <> t -> st_tasks s !! t' = Some x -> agree (tk_held x) (st_store s) r.1) as Hag.
  { intros t' x Hne Hx l m Hl. symmetry. apply Hframe. intros Hw. apply Hne.
    symmetry. apply (li_writer _ Hi l t t' m); [by exists k|by exists x]. }
  constructor; cbn [st_tasks st_store].
  - intros t' x [(-> & ->)|[Hne Hx]]%(lookup_moved _ _ k); [| |done].
    + rewrite (S1 _ _ Hk). unfold ahead, pending. change (tk_todo k') with (tk_todo k).
      change (tk_rest k') with (tk_rest k). by rewrite Ht, Hout.
    + rewrite (S1 _ _ Hx). unfold ahead. destruct (tk_todo x) eqn:Etx; [|done]. do 2 f_equal. unfold outcome.
      eapply perform_all_agree; [|by eapply Hag]. pose proof (or_body _ (li_task _ Hi _ _ Hx)) as H.
      by rewrite Etx, app_nil_r in H.
  - intros t' x l [(-> & ->)|[Hne Hx]]%(lookup_moved _ _ k) Htx Hl; [| |done].
    + rewrite Hout. by eapply S2.
    + rewrite (S2 t' x l) by done. eapply perform_all_agree; [|by eapply Hag|exact Hl].
      pose proof (or_body _ (li_task _ Hi _ _ Hx)) as H. by rewrite Htx, app_nil_r in H.
  - intros l Hfree. assert ((l, Wr) ∉ tk_held k) as Hl by (eapply (Hfree t k'); [by eapply lookup_mover|exact Ht]).
    rewrite Hframe by done. apply S3. intros t' x Hx Htx Hw. destruct (decide (t' = t)) as [->|Hne].
    + by simplify_eq.
    + by eapply Hfree; [eapply lookup_kept|..].
Qed.

Ltac commit k Hx :=
  match goal with Hs : serialized ?s ?a |- exists _, _ /\ serialized {| st_tasks := <[?t := ?k']> (st_tasks ?s); st_locks := ?ls |} _ =>
    let a' := fresh in let Ha := fresh in let Hs' := fresh in
    destruct (serialized_commit s a t k k' ls) as (a' & Ha & Hs'); [done|exact Hs|done| |done| | |exact Hx|by eauto];
    first [done|idtac]
  end.

Lemma advance_serialized t s s' a :
  lock_inv s -> serialized s a -> advance t s = Some s' ->
  exists a', (a' = a \/ atomically t a = Some a') /\ serialized s' a'.
Proof.
  intros Hi Hs Hadv. pose proof (advance_inv _ _ _ Hadv Hi) as Hi'.
  apply advance_move in Hadv as (k & k' & ls & d & Hk & Hm & ->).
  pose proof (li_task _ Hi _ _ Hk) as Ho. pose proof (move_ordered _ _ _ _ _ _ Hm Ho) as Ho'.
  assert (forall t' x l m, t' <> t -> st_tasks s !! t' = Some x -> (l, Wr) ∈ tk_held x -> (l, m) ∉ tk_held k') as Hx.
  { intros t' x l m Hne Hx Hw Hl. apply Hne. apply (li_writer _ Hi' l t' t m).
    - exists x. split; [by apply lookup_kept with k|done].
    - exists k'. split; [by eapply lookup_mover|done]. }
  destruct Hm as [x rest Et Eb Eh Er|l m todo Et Ea|l m todo Et Ea Ead|b body Et Eb|l m held Et Eb Eh].
  - destruct (cs_locks x) as [|lk lks] eqn:El.
    + commit k Hx; [unfold ahead, outcome; by rewrite Et, Eb|unfold pending; by rewrite Et, Er].
    + exists a. split; [by left|]. apply serialized_still with k; try done.
      * unfold ahead, outcome. cbn [upd updater tk_todo tk_vars]. by rewrite Et, Eb.
      * unfold pending. cbn [upd updater tk_todo tk_body tk_rest]. by rewrite Et, Er.
  - exists a. split; [by left|]. apply serialized_still with k; try done; cbn [upd updater tk_todo]; by rewrite Et.
  - destruct todo as [|lk lks].
    + commit k Hx; [by rewrite Et|unfold ahead; by rewrite Et|unfold pending; by rewrite Et].
    + exists a. split; [by left|]. apply serialized_still with k; try done; try (by rewrite Et).
      * unfold ahead. cbn [upd updater tk_todo tk_vars]. by rewrite Et.
      * unfold pending. cbn [upd updater tk_todo tk_body tk_rest]. by rewrite Et.
  - exists a. split; [by left|]. by apply serialized_act.
  - exists a. split; [by left|]. apply serialized_still with k; try done.
    intros l' _ Hl. cbn [upd updater tk_held] in Hl. rewrite Eh. split; [done|]. split; [by right|done].
Qed.

Lemma serially_cons t ts a : serially (t :: ts) a = atomically t a ≫= serially ts.
Proof.
  unfold serially. cbn [foldl mbind option_bind]. destruct (atomically t a) as [a'|]; cbn [mbind option_bind]; [reflexivity|].
  induction ts as [|u ts IH]; [reflexivity|exact IH].
Qed.

(** Every run is matched by one that does a section of a task at once at some
    of its moves, in the same order. *)
Lemma run_serializable ts s s' a :
  lock_inv s -> serialized s a -> schedule ts s = Some s' ->
  exists us a', us `sublist_of` ts /\ serially us a = Some a' /\ serialized s' a'.
Proof.
  revert s a. induction ts as [|t ts IH]; intros s a Hi Hs Hr.
  - injection Hr as <-. by exists [], a.
  - rewrite schedule_cons in Hr. apply bind_Some in Hr as (s1 & H1 & Hr).
    destruct (advance_serialized _ _ _ _ Hi Hs H1) as (a1 & Ha & Hs1).
    destruct (IH s1 a1 (advance_inv _ _ _ H1 Hi) Hs1 Hr) as (us & a' & Hsub & Hus & Hs').
    destruct Ha as [->|Ha]; [exists us, a'|exists (t :: us), a'].
    + split; [by constructor|done].
    + rewrite serially_cons, Ha. split; [by constructor|done].
Qed.

(** *** Properties of actions *)

(** What holds of every action of the tasks' sections holds of what is left. *)
Definition made_of (P : action -> Prop) (k : task) : Prop :=
  Forall P (tk_body k) /\ Forall (fun x => Forall P (cs_body x)) (tk_rest k).
Definition all_made_of (P : action -> Prop) (s : state) : Prop :=
  forall t k, st_tasks s !! t = Some k -> made_of P k.

Lemma boot_made_of P d ps :
  Forall (fun p => Forall (fun x => Forall P (cs_body x)) p.2) ps -> all_made_of P (boot d ps).
Proof.
  intros Hp t k Hk. cbn in Hk. change (map spawn ps) with (spawn <$> ps) in Hk. rewrite list_lookup_fmap in Hk.
  apply fmap_Some in Hk as (p & Hp' & ->). split; [constructor|]. cbn. exact (Forall_lookup_1 _ _ _ _ Hp Hp').
Qed.

Lemma advance_made_of P t s s' : advance t s = Some s' -> all_made_of P s -> all_made_of P s'.
Proof.
  intros (k & k' & ls & d & Hk & Hm & ->)%advance_move H t' x Hx. cbn [st_tasks] in Hx.
  apply (lookup_moved _ _ k) in Hx as [(-> & ->)|[_ Hx]]; [|by eapply H|done]. destruct (H _ _ Hk) as [H1 H2].
  destruct Hm as [x rest Et Eb Eh Er|l m todo Et Ea|l m todo Et Ea Ead|a body Et Eb|l m held Et Eb Eh];
    split; cbn [upd updater tk_body tk_rest]; try done.
  - rewrite Er in H2. by apply Forall_cons in H2 as [? _].
  - rewrite Er in H2. by apply Forall_cons in H2 as [_ ?].
  - rewrite Eb in H1. by apply Forall_cons in H1 as [_ ?].
Qed.

Lemma schedule_made_of P ts s s' : schedule ts s = Some s' -> all_made_of P s -> all_made_of P s'.
Proof.
  revert s. induction ts as [|t ts IH]; intros s Hs Hi; [by injection Hs as <-|].
  rewrite schedule_cons in Hs. apply bind_Some in Hs as (s1 & H1 & Hs). eauto using advance_made_of.
Qed.

(** The variables of the tasks along a relation every action respects. *)
Lemma advance_vars (R : relation local) `{!Reflexive R} t s s' t' k :
  all_made_of (fun a => forall sv, R sv.2 (perform sv a).2) s -> advance t s = Some s' ->
  st_tasks s !! t' = Some k -> exists k', st_tasks s' !! t' = Some k' /\ R (tk_vars k) (tk_vars k').
Proof.
  intros H (k0 & k1 & ls & d & Hk & Hm & ->)%advance_move Hk'. cbn [st_tasks].
  destruct (decide (t' = t)) as [->|Hne]; [|exists k; split; [by apply lookup_kept with k0|done]].
  assert (k0 = k) as -> by congruence. exists k1. split; [by eapply lookup_mover|]. destruct (H _ _ Hk) as [H1 _].
  destruct Hm as [x rest Et Eb Eh Er|l m todo Et Ea|l m todo Et Ea Ead|a body Et Eb|l m held Et Eb Eh];
    cbn [upd updater tk_vars]; try done.
  rewrite Eb in H1. apply Forall_cons in H1 as [H1 _]. apply (H1 (st_store s, tk_vars k)).
Qed.

(** A preorder on the tasks' variables that every action respects. *)
Lemma ahead_grows (R : relation local) `{!PreOrder R} d k :
  made_of (fun a => forall sv, R sv.2 (perform sv a).2) k -> R (tk_vars k) (ahead d k).
Proof.
  intros [H _]. unfold ahead. destruct (tk_todo k); [|done]. unfold outcome, perform_all.
  change (tk_vars k) with (d, tk_vars k).2 at 1. generalize (d, tk_vars k). induction H as [|a b Ha _ IH]; intros sv; [done|].
  cbn [foldl]. etransitivity; [apply Ha|apply IH].
Qed.

(** Once all tasks are done the two machines agree. *)
Lemma finished_agrees s a :
  serialized s a -> all_finished s = true ->
  (forall l, a_store a l = st_store s l) /\
  forall t k, st_tasks s !! t = Some k -> a_tasks a !! t = Some (tk_vars k, []).
Proof.
  intros [S1 S2 S3] Hf.
  assert (forall t k, st_tasks s !! t = Some k -> finished k = true) as Hfk.
  { intros t k Hk. unfold all_finished in Hf. rewrite forallb_forall in Hf.
    apply Hf, list_elem_of_In. by eapply list_elem_of_lookup_2. }
  split.
  - intros l. apply S3. intros t k Hk _ Hl. specialize (Hfk _ _ Hk). unfold finished in Hfk.
    destruct (tk_todo k), (tk_body k), (tk_held k); try done. by apply elem_of_nil in Hl.
  - intros t k Hk. rewrite (S1 _ _ Hk). specialize (Hfk _ _ Hk). unfold finished in Hfk.
    unfold ahead, pending, outcome. by destruct (tk_todo k), (tk_body k), (tk_held k), (tk_rest k).
Qed.
End Tasks.

Arguments store {lock} data.
Arguments action {lock} data local.
Arguments section {lock} data local.
Arguments task {lock} data local.
Arguments state {lock} data local.
Arguments astate {lock} data local.
