(* ===== verification/Text.v ===== *)
(** The operations of Rust's [str] and of [str::parse] that the daemon uses,
    over the scalar values of the string: [lines], [split_whitespace],
    [split], [split_once], [trim], [strip_prefix], [parse::<u64>],
XX
    theorems need. *)
From S2P Require Import Prelude.

(** ** Characters *)

(** [char::is_whitespace]: the Unicode [White_Space] property. *)
Definition is_whitespace (c : Z) : bool :=
  (9 <=? c) && (c <=? 13) || (c =? 32) || (c =? 0x85) || (c =? 0xA0) || (c =? 0x1680)
  || (0x2000 <=? c) && (c <=? 0x200A) || (c =? 0x2028) || (c =? 0x2029) || (c =? 0x202F)
  || (c =? 0x205F) || (c =? 0x3000).

(** [char::is_ascii_digit]. *)
Definition is_ascii_digit (c : Z) : bool := (48 <=? c) && (c <=? 57).

Definition LF : Z := 10.
Definition CR : Z := 13.
Definition COLON : Z := 58.
Definition COMMA : Z := 44.

(** ** Splitting *)

(** [s.split(c)] for a one-character pattern: always at least one piece. *)
Fixpoint split_on (c : Z) (s : rstring) : list rstring :=
  match s with
  | [] => [[]]
  | x :: s' =>
      match split_on c s' with
      | [] => [[x]]
      | p :: ps => if x =? c then [] :: p :: ps else (x :: p) :: ps
      end
  end.

Definition strip_cr (l : rstring) : rstring :=
  match last l with
  | Some x => if x =? CR then removelast l else l
  | None => l
  end.

(** [s.lines()]: the pieces end at ["\n"]; a ["\r"] just before it goes too;
    an unterminated last piece is a line unless it is empty. *)
Fixpoint lines_aux (cur s : rstring) : list rstring :=
  match s with
  | [] => match cur with [] => [] | _ => [cur] end
  | x :: s' => if x =? LF then strip_cr cur :: lines_aux [] s' else lines_aux (cur ++ [x]) s'
  end.
Definition lines (s : rstring) : list rstring := lines_aux [] s.

(** [s.split_whitespace()]: the maximal runs of non-whitespace. *)
Fixpoint split_whitespace (s : rstring) : list rstring :=
  match s with
  | [] => []
  | x :: s' =>
      if is_whitespace x then split_whitespace s'
      else match s' with
           | [] => [[x]]
           | y :: _ =>
               if is_whitespace y then [x] :: split_whitespace s'
               else match split_whitespace s' with
                    | [] => [[x]]
                    | w :: ws => (x :: w) :: ws
                    end
           end
  end.

(** [s.split_once(c)]. *)
Fixpoint split_once (c : Z) (s : rstring) : option (rstring * rstring) :=
  match s with
  | [] => None
  | x :: s' =>
      if x =? c then Some ([], s')
      else match split_once c s' with
           | Some (a, b) => Some (x :: a, b)
           | None => None
           end
  end.

Fixpoint trim_start (s : rstring) : rstring :=
  match s with
  | x :: s' => if is_whitespace x then trim_start s' else s
  | [] => []
  end.
Definition trim_end (s : rstring) : rstring := rev (trim_start (rev s)).
(** [s.trim()]. *)
Definition trim (s : rstring) : rstring := trim_end (trim_start s).

Fixpoint drop_while_eq (c : Z) (s : rstring) : rstring :=
  match s with
  | x :: s' => if x =? c then drop_while_eq c s' else s
  | [] => []
  end.
(** [s.trim_end_matches(c)]. *)
Definition trim_end_matches (c : Z) (s : rstring) : rstring := rev (drop_while_eq c (rev s)).

(** [s.strip_prefix(p)]; [s.starts_with(p)] is its [is_some]. *)
Fixpoint strip_prefix (p s : rstring) : option rstring :=
  match p, s with
  | [], _ => Some s
  | x :: p', y :: s' => if x =? y then strip_prefix p' s' else None
  | _ :: _, [] => None
  end.
Definition starts_with (p s : rstring) : bool :=
  match strip_prefix p s with Some _ => true | None => false end.

Definition str_eqb (a b : rstring) : bool := bool_decide (a = b).

(** ** Integers *)

(** The digits of an unsigned literal, most significant first. *)
Fixpoint parse_digits (acc : Z) (s : rstring) : option Z :=
  match s with
  | [] => Some acc
  | x :: s' => if is_ascii_digit x then parse_digits (10 * acc + (x - 48)) s' else None
  end.

(** [s.parse::<uN>()] for an unsigned type of maximum [max]: an optional
    ['+'], at least one digit, and no overflow. *)
Definition parse_unsigned (max : Z) (s : rstring) : option Z :=
  let digits := match s with x :: s' => if x =? 43 then s' else s | [] => [] end in
  match digits with
  | [] => None
  | _ =>
      match parse_digits 0 digits with
      | Some n => if n <=? max then Some n else None
      | None => None
      end
  end.
Definition parse_u64 : rstring -> option Z := parse_unsigned u64_max.
Definition parse_u32 : rstring -> option Z := parse_unsigned u32_max.

(** The decimal printer of [core::fmt] for unsigned integers. *)
Fixpoint print_digits (fuel : nat) (n : Z) (acc : rstring) : rstring :=
  match fuel with
  | O => acc
  | S fuel' =>
      let acc' := (48 + n mod 10) :: acc in
      if n <? 10 then acc' else print_digits fuel' (n / 10) acc'
  end.
(** Twenty digits suffice for any [u64]. *)
Definition print_u64 (n : Z) : rstring := print_digits 20 n [].

Lemma parse_digits_app s1 s2 acc :
  parse_digits acc (s1 ++ s2) =
    match parse_digits acc s1 with Some n => parse_digits n s2 | None => None end.
Proof.
  revert acc. induction s1 as [|x s1 IH]; intros acc; simpl; [done|].
  destruct (is_ascii_digit x); [apply IH|done].
Qed.

Lemma is_ascii_digit_mod n : is_ascii_digit (48 + n mod 10) = true.
Proof.
  unfold is_ascii_digit. pose proof (Z.mod_pos_bound n 10 ltac:(lia)).
  apply andb_true_intro. split; apply Z.leb_le; lia.
Qed.

Lemma print_digits_acc fuel n acc : print_digits fuel n acc = print_digits fuel n [] ++ acc.
Proof.
  revert n acc. induction fuel as [|fuel IH]; intros n acc; simpl; [done|].
  destruct (n <? 10); [done|]. rewrite IH, (IH _ [_]). by rewrite <- app_assoc.
Qed.

Lemma parse_print_digits fuel n :
  0 <= n < 10 ^ Z.of_nat fuel -> (0 < fuel)%nat ->
  parse_digits 0 (print_digits fuel n []) = Some n.
Proof.
  revert n. induction fuel as [|fuel IH]; intros n Hn Hf; [lia|].
  simpl. destruct (Z.ltb_spec n 10).
  - simpl. rewrite is_ascii_digit_mod. f_equal. rewrite Z.mod_small by lia. lia.
  - rewrite Nat2Z.inj_succ, Z.pow_succ_r in Hn by lia.
    destruct fuel as [|fuel]; [simpl in Hn; lia|].
    rewrite print_digits_acc, parse_digits_app, IH; [..|lia].
    + simpl. rewrite is_ascii_digit_mod. f_equal. pose proof (Z.div_mod n 10). lia.
    + split; [apply Z.div_pos; lia|]. apply Z.div_lt_upper_bound; lia.
Qed.

Definition all_digits (s : rstring) : Prop := Forall (fun c => is_ascii_digit c = true) s.

Lemma print_digits_all fuel n acc : all_digits acc -> all_digits (print_digits fuel n acc).
Proof.
  revert n acc. induction fuel as [|fuel IH]; intros n acc H; simpl; [done|].
  assert (all_digits ((48 + n mod 10) :: acc)) by (constructor; [apply is_ascii_digit_mod|done]).
  case_match; [done|]. by apply IH.
Qed.

Lemma print_u64_digits n : all_digits (print_u64 n).
Proof. apply print_digits_all. constructor. Qed.

Lemma print_digits_cons fuel n acc :
  exists c s, print_digits (S fuel) n acc = c :: s /\ is_ascii_digit c = true.
Proof.
  revert n acc. induction fuel as [|fuel IH]; intros n acc.
  - simpl. case_match; eexists _, _; (split; [done|apply is_ascii_digit_mod]).
  - remember (S fuel) as f. simpl. case_match; [|apply IH].
    eexists _, _. split; [done|apply is_ascii_digit_mod].
Qed.

Lemma parse_print_unsigned max n :
  0 <= n <= max -> max <= u64_max -> parse_unsigned max (print_u64 n) = Some n.
Proof.
  intros Hn Hm. destruct (print_digits_cons 19 n []) as (c & s & E & Hc).
  change (print_digits 20 n []) with (print_u64 n) in E. unfold parse_unsigned. rewrite E.
  replace (c =? 43) with false.
  2:{ unfold is_ascii_digit in Hc. apply andb_prop in Hc as [Hc _].
      apply Z.leb_le in Hc. symmetry. apply Z.eqb_neq. lia. }
  rewrite <- E. unfold print_u64. rewrite parse_print_digits; [|unfold u64_max in *; lia|lia].
  by replace (n <=? max) with true by (symmetry; apply Z.leb_le; lia).
Qed.

Lemma digits_not_whitespace s : all_digits s -> Forall (fun c => is_whitespace c = false) s.
Proof.
  intros H. eapply Forall_impl; [exact H|]. intros c Hc. simpl in Hc. unfold is_ascii_digit in Hc.
  apply andb_prop in Hc as [H1 H2]. apply Z.leb_le in H1, H2.
  unfold is_whitespace. repeat rewrite orb_false_iff. repeat rewrite andb_false_iff.
  repeat rewrite Z.leb_gt. repeat rewrite Z.eqb_neq. repeat split; lia.
Qed.

(** ** Rendered text *)

Definition is_word (w : rstring) : Prop := w <> [] /\ Forall (fun c => is_whitespace c = false) w.
Definition blank (s : rstring) : Prop := Forall (fun c => is_whitespace c = true) s.
(** What may follow a word: nothing, or whitespace. *)
Definition ends_word (t : rstring) : Prop :=
  match t with [] => True | c :: _ => is_whitespace c = true end.
(** A line that [lines] gives back as it is. *)
Definition line_ok (l : rstring) : Prop := Forall (fun c => c <> LF) l /\ last l <> Some CR.

#[export] Instance is_word_dec w : Decision (is_word w) := _.
#[export] Instance blank_dec s : Decision (blank s) := _.
#[export] Instance ends_word_dec t : Decision (ends_word t).
Proof. destruct t; apply _. Defined.
#[export] Instance line_ok_dec l : Decision (line_ok l) := _.

(** Each line with its terminator. *)
Definition unlines (ls : list rstring) : rstring := concat (map (fun l => l ++ [LF]) ls).
(** Words, each after one space. *)
Definition spaced (ws : list rstring) : rstring := concat (map (cons 32) ws).

Create HintDb text.

Lemma split_whitespace_blank s t : blank s -> split_whitespace (s ++ t) = split_whitespace t.
Proof. induction 1 as [|c s Hc Hs IH]; [done|]. cbn [app split_whitespace]. by rewrite Hc. Qed.

Lemma split_whitespace_all_blank s : blank s -> split_whitespace s = [].
Proof. intros Hs. rewrite <- (app_nil_r s). by rewrite split_whitespace_blank. Qed.

Lemma split_whitespace_word w t :
  is_word w -> ends_word t -> split_whitespace (w ++ t) = w :: split_whitespace t.
Proof.
  intros [Hne Hw] Ht. induction Hw as [|c w Hc Hw IH]; [done|].
  cbn [app split_whitespace]. rewrite Hc. destruct Hw as [|d w Hd Hw].
  - cbn [app]. destruct t as [|x t]; [done|]. cbn in Ht. by rewrite Ht.
  - specialize (IH ltac:(done)). cbn [app] in *. by rewrite Hd, IH.
Qed.

Lemma split_whitespace_one w : is_word w -> split_whitespace w = [w].
Proof. intros Hw. rewrite <- (app_nil_r w) at 1. by rewrite split_whitespace_word. Qed.

Lemma ends_word_spaced ws t : ends_word t -> ends_word (spaced ws ++ t).
Proof. destruct ws; [done|]. done. Qed.

Lemma split_whitespace_spaced ws t :
  Forall is_word ws -> ends_word t -> split_whitespace (spaced ws ++ t) = ws ++ split_whitespace t.
Proof.
  intros Hws Ht. induction Hws as [|w ws Hw Hws IH]; [done|].
  unfold spaced in *. cbn [map concat]. cbn [app]. change (is_whitespace 32) with true.
  rewrite <- app_assoc. cbn [split_whitespace]. change (is_whitespace 32) with true. cbn iota.
  rewrite split_whitespace_word, IH; [done|done|]. by apply (ends_word_spaced ws).
Qed.

Lemma lines_aux_line cur l t :
  Forall (fun c => c <> LF) l -> lines_aux cur (l ++ LF :: t) = strip_cr (cur ++ l) :: lines t.
Proof.
  intros Hl. revert cur. induction Hl as [|c l Hc Hl IH]; intros cur; cbn [app lines_aux].
  - by rewrite Z.eqb_refl, app_nil_r.
  - destruct (Z.eqb_spec c LF); [done|]. by rewrite IH, <- app_assoc.
Qed.

Lemma strip_cr_ok l : last l <> Some CR -> strip_cr l = l.
Proof.
  unfold strip_cr. intros Hl. destruct (last l) as [c|]; [|done].
  destruct (Z.eqb_spec c CR); [by subst|done].
Qed.

Lemma lines_unlines ls : Forall line_ok ls -> lines (unlines ls) = ls.
Proof.
  induction 1 as [|l ls [Hl Hcr] Hls IH]; [done|]. unfold unlines in *.
  cbn [map concat]. rewrite <- app_assoc. cbn [app]. unfold lines at 1.
  by rewrite lines_aux_line, strip_cr_ok, IH.
Qed.

Lemma split_once_found c a b : Forall (fun x => x <> c) a -> split_once c (a ++ c :: b) = Some (a, b).
Proof.
  induction 1 as [|x a Hx Ha IH]; cbn [app split_once]; [by rewrite Z.eqb_refl|].
  destruct (Z.eqb_spec x c); [done|]. by rewrite IH.
Qed.

Lemma strip_prefix_app p s : strip_prefix p (p ++ s) = Some s.
Proof. induction p as [|x p IH]; [by destruct s|]. cbn [app strip_prefix]. by rewrite Z.eqb_refl. Qed.

Lemma trim_end_matches_one c s : last s <> Some c -> trim_end_matches c (s ++ [c]) = s.
Proof.
  intros Hs. unfold trim_end_matches. rewrite rev_app_distr. cbn [rev app drop_while_eq].
  rewrite Z.eqb_refl. destruct s as [|x s _] using rev_ind; [done|].
  rewrite last_snoc in Hs. rewrite rev_app_distr. cbn [rev app drop_while_eq].
  destruct (Z.eqb_spec x c); [by subst|]. change (x :: rev s) with ([x] ++ rev s).
  by rewrite rev_app_distr, rev_involutive.
Qed.

Lemma print_u64_word n : is_word (print_u64 n).
Proof.
  split; [|apply digits_not_whitespace, print_u64_digits].
  destruct (print_digits_cons 19 n []) as (c & s & E & _). unfold print_u64. by rewrite E.
Qed.

Lemma digits_no_lf s : all_digits s -> Forall (fun c => c <> LF) s.
Proof. intros H. eapply Forall_impl; [exact H|]. intros c Hc ->. done. Qed.

Lemma last_app_ne {A} (a b : list A) : b <> [] -> last (a ++ b) = last b.
Proof.
  intros Hb. destruct b as [|x b _] using rev_ind; [done|]. by rewrite app_assoc, !last_snoc.
Qed.

#[export] Hint Resolve print_u64_word print_u64_digits digits_no_lf digits_not_whitespace : text.

(** ** UTF-8 *)

(** A Unicode scalar value. *)
Definition is_scalar (c : Z) : Prop := 0 <= c < 0xD800 \/ 0xE000 <= c <= 0x10FFFF.
#[export] Instance is_scalar_dec c : Decision (is_scalar c) := _.

(** The bytes of a [str]. *)
Definition encode_char (c : Z) : list Z :=
  if c <? 0x80 then [c]
  else if c <? 0x800 then [0xC0 + c / 64; 0x80 + c mod 64]
  else if c <? 0x10000 then [0xE0 + c / 4096; 0x80 + c / 64 mod 64; 0x80 + c mod 64]
  else [0xF0 + c / 262144; 0x80 + c / 4096 mod 64; 0x80 + c / 64 mod 64; 0x80 + c mod 64].
Definition encode_utf8 (s : rstring) : list Z := flat_map encode_char s.

Definition between (lo hi x : Z) : bool := (lo <=? x) && (x <=? hi).
Definition is_cont (b : Z) : bool := between 0x80 0xBF b.
(** The ranges of a second byte that exclude overlong forms, surrogates and
    values above 0x10FFFF. *)
Definition second_of_3 (b0 b1 : Z) : bool :=
  if b0 =? 0xE0 then between 0xA0 0xBF b1
  else if b0 =? 0xED then between 0x80 0x9F b1
  else is_cont b1.
Definition second_of_4 (b0 b1 : Z) : bool :=
  if b0 =? 0xF0 then between 0x90 0xBF b1
  else if b0 =? 0xF4 then between 0x80 0x8F b1
  else is_cont b1.

Definition REPLACEMENT : Z := 0xFFFD.

(** [String::from_utf8_lossy]: each maximal invalid prefix becomes one
    replacement character. *)
Fixpoint from_utf8_lossy (bytes : list Z) : rstring :=
  match bytes with
  | [] => []
  | b0 :: t =>
      if b0 <? 0x80 then b0 :: from_utf8_lossy t
      else if between 0xC2 0xDF b0 then
        match t with
        | b1 :: t1 =>
            if is_cont b1 then (b0 - 0xC0) * 64 + (b1 - 0x80) :: from_utf8_lossy t1
            else REPLACEMENT :: from_utf8_lossy t
        | [] => [REPLACEMENT]
        end
      else if between 0xE0 0xEF b0 then
        match t with
        | b1 :: t1 =>
            if second_of_3 b0 b1 then
              match t1 with
              | b2 :: t2 =>
                  if is_cont b2
                  then (b0 - 0xE0) * 4096 + (b1 - 0x80) * 64 + (b2 - 0x80) :: from_utf8_lossy t2
                  else REPLACEMENT :: from_utf8_lossy t1
              | [] => [REPLACEMENT]
              end
            else REPLACEMENT :: from_utf8_lossy t
        | [] => [REPLACEMENT]
        end
      else if between 0xF0 0xF4 b0 then
        match t with
        | b1 :: t1 =>
            if second_of_4 b0 b1 then
              match t1 with
              | b2 :: t2 =>
                  if is_cont b2 then
                    match t2 with
                    | b3 :: t3 =>
                        if is_cont b3
                        then (b0 - 0xF0) * 262144 + (b1 - 0x80) * 4096 + (b2 - 0x80) * 64 + (b3 - 0x80)
                             :: from_utf8_lossy t3
                        else REPLACEMENT :: from_utf8_lossy t2
                    | [] => [REPLACEMENT]
                    end
                  else REPLACEMENT :: from_utf8_lossy t1
              | [] => [REPLACEMENT]
              end
            else REPLACEMENT :: from_utf8_lossy t
        | [] => [REPLACEMENT]
        end
      else REPLACEMENT :: from_utf8_lossy t
  end.

(** [bytes.iter().position(|&b| b == 0)]. *)
Fixpoint position0 (bytes : list Z) : option nat :=
  match bytes with
  | [] => None
  | b :: t => if b =? 0 then Some O else option_map S (position0 t)
  end.

Ltac decide_bool t v := replace t with v by (symmetry; unfold between in *;
  rewrite ?andb_true_iff, ?andb_false_iff, ?Z.leb_le, ?Z.leb_gt, ?Z.ltb_lt, ?Z.ltb_ge, ?Z.eqb_eq, ?Z.eqb_neq; div_lia).

Lemma is_cont_low x : is_cont (0x80 + x mod 64) = true.
Proof. unfold is_cont, between. rewrite andb_true_iff, !Z.leb_le. div_lia. Qed.

Lemma from_utf8_lossy_char c t :
  is_scalar c -> from_utf8_lossy (encode_char c ++ t) = c :: from_utf8_lossy t.
Proof.
  intros Hc. unfold is_scalar in Hc. unfold encode_char.
  destruct (Z.ltb_spec c 0x80) as [H1|H1].
  { cbn [app from_utf8_lossy]. by rewrite (proj2 (Z.ltb_lt _ _) H1). }
  destruct (Z.ltb_spec c 0x800) as [H2|H2]; [|destruct (Z.ltb_spec c 0x10000) as [H3|H3]];
    cbn [app from_utf8_lossy].
  - decide_bool (0xC0 + c / 64 <? 0x80) false. decide_bool (between 0xC2 0xDF (0xC0 + c / 64)) true.
    rewrite is_cont_low. f_equal. div_lia.
  - decide_bool (0xE0 + c / 4096 <? 0x80) false.
    decide_bool (between 0xC2 0xDF (0xE0 + c / 4096)) false.
    decide_bool (between 0xE0 0xEF (0xE0 + c / 4096)) true.
    replace (second_of_3 _ _) with true.
    2: { symmetry. unfold second_of_3. destruct (Z.eqb_spec (0xE0 + c / 4096) 0xE0).
         - unfold between. rewrite andb_true_iff, !Z.leb_le. div_lia.
         - destruct (Z.eqb_spec (0xE0 + c / 4096) 0xED); [|apply is_cont_low].
           unfold between. rewrite andb_true_iff, !Z.leb_le. div_lia. }
    rewrite is_cont_low. f_equal. div_lia.
  - decide_bool (0xF0 + c / 262144 <? 0x80) false.
    decide_bool (between 0xC2 0xDF (0xF0 + c / 262144)) false.
    decide_bool (between 0xE0 0xEF (0xF0 + c / 262144)) false.
    decide_bool (between 0xF0 0xF4 (0xF0 + c / 262144)) true.
    replace (second_of_4 _ _) with true.
    2: { symmetry. unfold second_of_4. destruct (Z.eqb_spec (0xF0 + c / 262144) 0xF0).
         - unfold between. rewrite andb_true_iff, !Z.leb_le. div_lia.
         - destruct (Z.eqb_spec (0xF0 + c / 262144) 0xF4); [|apply is_cont_low].
           unfold between. rewrite andb_true_iff, !Z.leb_le. div_lia. }
    rewrite !is_cont_low. f_equal. div_lia.
Qed.

(** Decoding the bytes of a string gives the string. *)
Lemma from_utf8_lossy_encode s : Forall is_scalar s -> from_utf8_lossy (encode_utf8 s) = s.
Proof.
  induction 1 as [|c s Hc Hs IH]; [done|]. unfold encode_utf8 in *. cbn [flat_map].
  by rewrite from_utf8_lossy_char, IH.
Qed.

Lemma position0_app a b :
  Forall (fun x => x <> 0) a -> position0 (a ++ b) = option_map (fun i => (length a + i)%nat) (position0 b).
Proof.
  induction 1 as [|x a Hx Ha IH]; cbn [app position0]; [by destruct (position0 b)|].
  destruct (Z.eqb_spec x 0); [done|]. rewrite IH. by destruct (position0 b).
Qed.

Lemma encode_char_nonzero c : is_scalar c -> c <> 0 -> Forall (fun x => x <> 0) (encode_char c).
Proof.
  intros Hc Hnz. unfold is_scalar in Hc. unfold encode_char.
  repeat case_match; repeat constructor; first [done|div_lia].
Qed.

Lemma encode_utf8_nonzero s :
  Forall is_scalar s -> Forall (fun c => c <> 0) s -> Forall (fun x => x <> 0) (encode_utf8 s).
Proof.
  induction 1 as [|c s Hc Hs IH]; intros Hnz; [constructor|]. inversion Hnz; subst.
  unfold encode_utf8 in *. cbn [flat_map]. apply Forall_app. split; [by apply encode_char_nonzero|auto].
Qed.

(** ** Splitting and trimming rendered text *)

Lemma split_on_not_nil c s : split_on c s <> [].
Proof. destruct s as [|x s]; [done|]. cbn. destruct (split_on c s); [done|]. by case_match. Qed.

Lemma split_on_none c a : Forall (fun x => x <> c) a -> split_on c a = [a].
Proof.
  induction 1 as [|x a Hx Ha IH]; [done|]. cbn. rewrite IH. by destruct (Z.eqb_spec x c).
Qed.

Lemma split_on_app c a b : Forall (fun x => x <> c) a -> split_on c (a ++ c :: b) = a :: split_on c b.
Proof.
  induction 1 as [|x a Hx Ha IH]; cbn [app split_on].
  - destruct (split_on c b) eqn:E; [by apply split_on_not_nil in E|]. by rewrite Z.eqb_refl.
  - rewrite IH. by destruct (Z.eqb_spec x c).
Qed.

Lemma trim_start_blank a s : blank a -> trim_start (a ++ s) = trim_start s.
Proof. induction 1 as [|x a Hx Ha IH]; [done|]. cbn [app trim_start]. by rewrite Hx. Qed.

Lemma trim_start_word w s : is_word w -> trim_start (w ++ s) = w ++ s.
Proof. intros [Hne Hw]. destruct Hw as [|x w Hx Hw]; [done|]. cbn [app trim_start]. by rewrite Hx. Qed.

Lemma trim_word a w b : blank a -> is_word w -> blank b -> trim (a ++ w ++ b) = w.
Proof.
  intros Ha Hw Hb. unfold trim, trim_end. rewrite trim_start_blank, trim_start_word by done.
  rewrite rev_app_distr, trim_start_blank by (by apply Forall_rev).
  rewrite <- (app_nil_r (rev w)), trim_start_word, app_nil_r; [apply rev_involutive|].
  destruct Hw as [Hne Hw]. split; [|by apply Forall_rev].
  intros E. apply Hne. rewrite <- (rev_involutive w), E. done.
Qed.
