(* ===== verification/Float.v ===== *)
(** IEEE-754 binary64 as the daemon uses it: [x as f64], [f64 * f64],
    [f64::ceil], the saturating casts [as u64]/[as u32], [parse::<f64>] and
    the bit pattern stored in the shared-memory segment.  The arithmetic is
    the Standard Library's executable specification [SpecFloat] at
    precision 53, exponent bound 1024; nothing here is primitive, so every
    value evaluates in the kernel. *)
From Stdlib Require Import SpecFloat.
From S2P Require Import Prelude Text.

Abbreviation f64 := spec_float.
Definition f64_zero : f64 := S754_zero false.

(** [n as f64] for an unsigned [n]: round to nearest, ties to even. *)
Definition f64_of_u64 (n : Z) : f64 := binary_normalize 53 1024 n 0 false.

(** [x * y]. *)
Definition f64_mul (x y : f64) : f64 := SFmul 53 1024 x y.

(** Round a finite magnitude [m * 2^e] towards zero, and away from it. *)
Definition mag_floor (m e : Z) : Z := if 0 <=? e then m * 2 ^ e else m / 2 ^ (- e).
Definition mag_ceil (m e : Z) : Z := if 0 <=? e then m * 2 ^ e else - (- m / 2 ^ (- e)).

(** [x.ceil()].  The ceiling of a binary64 is a binary64, so the final
    rounding is exact. *)
Definition f64_ceil (x : f64) : f64 :=
  match x with
  | S754_finite s m e =>
      if 0 <=? e then x
      else
        let z := if s then - mag_floor (Z.pos m) e else mag_ceil (Z.pos m) e in
        if z =? 0 then S754_zero s else binary_normalize 53 1024 z 0 s
  | _ => x
  end.

(** [x as uN] where [max] is [uN::MAX]: truncate, saturate, NaN to 0. *)
Definition f64_as_unsigned (max : Z) (x : f64) : Z :=
  match x with
  | S754_nan | S754_zero _ => 0
  | S754_infinity s => if s then 0 else max
  | S754_finite s m e => if s then 0 else Z.min max (mag_floor (Z.pos m) e)
  end.
Definition f64_as_u64 : f64 -> Z := f64_as_unsigned u64_max.
Definition f64_as_u32 : f64 -> Z := f64_as_unsigned u32_max.

(** ** [parse::<f64>] *)

(** Leading ASCII digits: their value, how many, and the rest. *)
Fixpoint scan_digits (acc : Z) (n : nat) (s : rstring) : Z * nat * rstring :=
  match s with
  | x :: s' => if is_ascii_digit x then scan_digits (10 * acc + (x - 48)) (S n) s' else (acc, n, s)
  | [] => (acc, n, [])
  end.

(** The optional exponent; [None] when an ['e'] is not followed by digits. *)
Definition scan_exponent (s : rstring) : option (Z * rstring) :=
  match s with
  | x :: s' =>
      if (x =? 101) || (x =? 69) then
        let '(neg, s'') :=
          match s' with
          | y :: t => if y =? 45 then (true, t) else if y =? 43 then (false, t) else (false, s')
          | [] => (false, [])
          end in
        match scan_digits 0 0 s'' with
        | (_, O, _) => None
        | (v, _, rest) => Some (if neg : bool then - v else v, rest)
        end
      else Some (0, s)
  | [] => Some (0, [])
  end.

(** [Some (m, e)] when the whole of [s] is a decimal number [m * 10^e]. *)
Definition scan_decimal (s : rstring) : option (Z * Z) :=
  let '(ip, ni, s1) := scan_digits 0 0 s in
  let '(m, nf, s2) :=
    match s1 with
    | x :: t => if x =? 46 then scan_digits ip 0 t else (ip, O, s1)
    | [] => (ip, O, [])
    end in
  match (ni + nf)%nat with
  | O => None
  | _ =>
      match scan_exponent s2 with
      | Some (e, []) => Some (m, e - Z.of_nat nf)
      | _ => None
      end
  end.

(** The binary64 nearest to [(-1)^s * m * 10^e]. *)
Definition f64_of_decimal (s : bool) (m e : Z) : f64 :=
  match m with
  | Z.pos p =>
      if 0 <=? e then
        match m * 10 ^ e with
        | Z.pos q => binary_round 53 1024 s q 0
        | _ => S754_zero s
        end
      else
        let '(q, ez, l) := SFdiv_core_binary 53 1024 m 0 (10 ^ (- e)) 0 in
        binary_round_aux 53 1024 s q ez l
  | _ => S754_zero s
  end.

Definition ascii_lower (c : Z) : Z := if (65 <=? c) && (c <=? 90) then c + 32 else c.
Definition eq_ignore_case (s : rstring) (t : String.string) : bool :=
  str_eqb (map ascii_lower s) (lit t).

Definition parse_f64 (s : rstring) : option f64 :=
  let '(neg, body) :=
    match s with
    | x :: t => if x =? 45 then (true, t) else if x =? 43 then (false, t) else (false, s)
    | [] => (false, [])
    end in
  match scan_decimal body with
  | Some (m, e) => Some (f64_of_decimal neg m e)
  | None =>
      if eq_ignore_case body "inf" || eq_ignore_case body "infinity" then Some (S754_infinity neg)
      else if eq_ignore_case body "nan" then Some S754_nan
      else None
  end.

(** ** Bit patterns *)

Definition sign_bit (s : bool) : Z := if s then 2 ^ 63 else 0.
(** [x.to_bits()], the layout of an [f64] field. *)
Definition f64_to_bits (x : f64) : Z :=
  match x with
  | S754_zero s => sign_bit s
  | S754_infinity s => sign_bit s + 0x7ff * 2 ^ 52
  | S754_nan => 0x7ff8 * 2 ^ 48
  | S754_finite s m e =>
      if 2 ^ 52 <=? Z.pos m then sign_bit s + (e + 1075) * 2 ^ 52 + (Z.pos m - 2 ^ 52)
      else sign_bit s + Z.pos m
  end.
(** [f64::from_bits]; the model has one NaN. *)
Definition f64_of_bits (b : Z) : f64 :=
  let s := 2 ^ 63 <=? b in
  let ex := (b / 2 ^ 52) mod 2 ^ 11 in
  let m := b mod 2 ^ 52 in
  if ex =? 0x7ff then (if m =? 0 then S754_infinity s else S754_nan)
  else if ex =? 0 then
    match m with Z.pos p => S754_finite s p (-1074) | _ => S754_zero s end
  else
    match m + 2 ^ 52 with Z.pos p => S754_finite s p (ex - 1075) | _ => S754_zero s end.

(** Well-formed binary64 values: the canonical representations. *)
Definition f64_wf (x : f64) : Prop := valid_binary 53 1024 x = true.

Lemma digits2_pos_bounds p : 2 ^ (Z.pos (digits2_pos p) - 1) <= Z.pos p < 2 ^ Z.pos (digits2_pos p).
Proof.
  induction p as [p IH|p IH|]; cbn [digits2_pos]; [| |cbn; lia].
  all: rewrite Pos2Z.inj_succ; replace (Z.succ (Z.pos (digits2_pos p)) - 1)
         with (Z.succ (Z.pos (digits2_pos p) - 1)) by lia;
       rewrite !Z.pow_succ_r by lia; lia.
Qed.

(** A valid finite value is normal (53 digits) or subnormal (least exponent). *)
Lemma f64_wf_finite s m e :
  f64_wf (S754_finite s m e) ->
  Z.pos m < 2 ^ 53 /\ -1074 <= e <= 971 /\ (2 ^ 52 <= Z.pos m \/ e = -1074).
Proof.
  unfold f64_wf. cbn [valid_binary]. unfold bounded, canonical_mantissa, fexp, emin.
  intros [H1 H2]%andb_prop. apply Z.eqb_eq in H1. apply Z.leb_le in H2.
  pose proof (digits2_pos_bounds m) as [Hl Hu]. set (d := Z.pos (digits2_pos m)) in *.
  assert (d <= 53) as Hd by lia. split; [|split; [lia|]].
  - eapply Z.lt_le_trans; [exact Hu|]. apply Z.pow_le_mono_r; lia.
  - destruct (Z.eq_dec d 53) as [E|E]; [left|right; lia].
    rewrite E in Hl. done.
Qed.

Lemma f64_to_bits_range x : f64_wf x -> is_u64 (f64_to_bits x).
Proof.
  unfold is_u64, f64_to_bits, sign_bit. destruct x as [s|s| |s m e]; intros H;
    try (destruct s; lia); [lia|].
  apply f64_wf_finite in H as (? & ? & ?).
  destruct (Z.leb_spec (2 ^ 52) (Z.pos m)); destruct s; lia.
Qed.

(** Splitting a bit pattern into sign, biased exponent and mantissa. *)
Lemma f64_bits_fields s ex m :
  0 <= ex < 2 ^ 11 -> 0 <= m < 2 ^ 52 ->
  let b := sign_bit s + ex * 2 ^ 52 + m in
  (2 ^ 63 <=? b) = s /\ (b / 2 ^ 52) mod 2 ^ 11 = ex /\ b mod 2 ^ 52 = m.
Proof.
  intros Hex Hm b. subst b. unfold sign_bit. split; [|split].
  - destruct s; [apply Z.leb_le|apply Z.leb_gt]; lia.
  - replace (_ + m) with (m + ((if s then 2 ^ 11 else 0) + ex) * 2 ^ 52) by (destruct s; lia).
    rewrite Z.div_add, Z.div_small by lia. rewrite Z.add_0_l.
    replace ((if s then 2 ^ 11 else 0) + ex) with (ex + (if s then 1 else 0) * 2 ^ 11) by (destruct s; lia).
    rewrite Z.mod_add by lia. by apply Z.mod_small.
  - replace (_ + m) with (m + ((if s then 2 ^ 11 else 0) + ex) * 2 ^ 52) by (destruct s; lia).
    rewrite Z.mod_add by lia. by apply Z.mod_small.
Qed.

Lemma f64_of_to_bits x : f64_wf x -> f64_of_bits (f64_to_bits x) = x.
Proof.
  destruct x as [s|s| |s m e]; intros H.
  - by destruct s.
  - by destruct s.
  - done.
  - apply f64_wf_finite in H as (Hm & He & Hn). unfold f64_to_bits.
    destruct (Z.leb_spec (2 ^ 52) (Z.pos m)).
    + destruct (f64_bits_fields s (e + 1075) (Z.pos m - 2 ^ 52)) as (E1 & E2 & E3); [lia..|].
      unfold f64_of_bits. cbv zeta in *. rewrite E1, E2, E3.
      destruct (Z.eqb_spec (e + 1075) 0x7ff); [lia|]. destruct (Z.eqb_spec (e + 1075) 0); [lia|].
      replace (Z.pos m - 2 ^ 52 + 2 ^ 52) with (Z.pos m) by lia. f_equal. lia.
    + destruct (f64_bits_fields s 0 (Z.pos m)) as (E1 & E2 & E3); [lia..|].
      rewrite Z.mul_0_l, Z.add_0_r in E1, E2, E3.
      unfold f64_of_bits. cbv zeta in *. rewrite E1, E2, E3. simpl. f_equal. lia.
Qed.

(** The number of digits is determined by the bounds. *)
Lemma digits2_pos_unique p d : 0 < d -> 2 ^ (d - 1) <= Z.pos p < 2 ^ d -> Z.pos (digits2_pos p) = d.
Proof.
  intros Hd [Hl Hu]. pose proof (digits2_pos_bounds p) as [Hl' Hu'].
  set (d' := Z.pos (digits2_pos p)) in *. assert (0 < d') by lia.
  destruct (Z.lt_trichotomy d' d) as [Hlt|[?|Hlt]]; [|done|].
  - assert (2 ^ d' <= 2 ^ (d - 1)) by (apply Z.pow_le_mono_r; lia). lia.
  - assert (2 ^ d <= 2 ^ (d' - 1)) by (apply Z.pow_le_mono_r; lia). lia.
Qed.

Lemma f64_wf_intro s m e :
  -1074 <= e <= 971 -> Z.pos m < 2 ^ 53 -> (2 ^ 52 <= Z.pos m \/ e = -1074) ->
  f64_wf (S754_finite s m e).
Proof.
  intros He Hm Hn. unfold f64_wf. cbn [valid_binary].
  unfold bounded, canonical_mantissa, fexp, emin. apply andb_true_intro.
  split; [apply Z.eqb_eq|apply Z.leb_le; lia].
  destruct (Z.le_gt_cases (2 ^ 52) (Z.pos m)) as [Hb|Hb].
  - rewrite (digits2_pos_unique m 53) by lia. lia.
  - pose proof (digits2_pos_bounds m) as [Hl _].
    assert (Z.pos (digits2_pos m) <= 52).
    { destruct (Z.le_gt_cases (Z.pos (digits2_pos m)) 52); [done|].
      assert (2 ^ 52 <= 2 ^ (Z.pos (digits2_pos m) - 1)) by (apply Z.pow_le_mono_r; lia). lia. }
    lia.
Qed.

(** Every bit pattern is a well-formed float. *)
Lemma f64_of_bits_wf b : f64_wf (f64_of_bits b).
Proof.
  unfold f64_of_bits. pose proof (Z.mod_pos_bound b (2 ^ 52) ltac:(done)) as Hm.
  pose proof (Z.mod_pos_bound (b / 2 ^ 52) (2 ^ 11) ltac:(done)) as Hx.
  set (m := b mod 2 ^ 52) in *. set (ex := (b / 2 ^ 52) mod 2 ^ 11) in *.
  destruct (Z.eqb_spec ex 0x7ff); [by destruct (m =? 0)|].
  destruct (Z.eqb_spec ex 0).
  - destruct m eqn:E; [done| |done]. apply f64_wf_intro; lia.
  - destruct (m + 2 ^ 52) eqn:E; [done| |done]. apply f64_wf_intro; lia.
Qed.

Example parse_f64_ex1 : parse_f64 "0.45" = Some (S754_finite false 8106479329266893 (-54)).
Proof. vm_compute. reflexivity. Qed.
Example parse_f64_ex2 : parse_f64 "1/234" = None /\ parse_f64 "" = None /\ parse_f64 "." = None.
Proof. vm_compute. done. Qed.
Example f64_ex3 : f64_as_u32 (f64_mul (default f64_zero (parse_f64 "12.34")) (f64_of_u64 100)) = 1234.
Proof. vm_compute. reflexivity. Qed.

(** ** Reading decimals *)

Lemma scan_digits_app s t acc n v :
  parse_digits acc s = Some v ->
  match t with [] => True | c :: _ => is_ascii_digit c = false end ->
  scan_digits acc n (s ++ t) = (v, (n + length s)%nat, t).
Proof.
  revert acc n. induction s as [|c s IH]; intros acc n Hv Ht; cbn [parse_digits app scan_digits length] in *.
  - injection Hv as ->. rewrite Nat.add_0_r. destruct t as [|c t]; [done|]. cbn. by rewrite Ht.
  - destruct (is_ascii_digit c); [|done]. rewrite IH by done. by rewrite Nat.add_succ_r.
Qed.

(** A number with two decimals, as the kernel's [LOAD_INT "." LOAD_FRAC]
    formats print it; [v] counts hundredths. *)
Definition fixed2 (v : Z) : rstring :=
  print_u64 (v / 100) ++ 46 :: [48 + v mod 100 / 10; 48 + v mod 10].

Lemma fixed2_digits v : 0 <= v ->
  is_ascii_digit (48 + v mod 100 / 10) = true /\ is_ascii_digit (48 + v mod 10) = true.
Proof.
  intros Hv. unfold is_ascii_digit. rewrite !andb_true_iff, !Z.leb_le. div_lia.
Qed.

Lemma scan_fixed2 v : 0 <= v < 10 ^ 20 -> scan_decimal (fixed2 v) = Some (v, -2).
Proof.
  intros Hv. unfold scan_decimal, fixed2.
  rewrite (scan_digits_app _ _ _ _ (v / 100)); [..|done].
  2: { apply parse_print_digits; [|lia]. div_lia. }
  destruct (fixed2_digits v ltac:(lia)) as [H1 H2].
  change (46 =? 46) with true. cbn [scan_digits]. rewrite H1, H2. cbn iota.
  destruct (print_digits_cons 19 (v / 100) []) as (c & s & E & _).
  change (print_digits 20 (v / 100) []) with (print_u64 (v / 100)) in E. rewrite E. cbn.
  do 2 f_equal. div_lia.
Qed.

(** The reading of a two-decimal number is the nearest binary64. *)
Lemma parse_fixed2 v : 0 <= v < 10 ^ 20 -> parse_f64 (fixed2 v) = Some (f64_of_decimal false v (-2)).
Proof.
  intros Hv. pose proof (scan_fixed2 v Hv) as Hs. unfold parse_f64.
  destruct (print_digits_cons 19 (v / 100) []) as (c & s & E & Hc).
  assert (exists t, fixed2 v = c :: t) as [t Ht].
  { unfold fixed2. change (print_u64 (v / 100)) with (print_digits 20 (v / 100) []). rewrite E. eauto. }
  rewrite Ht in *. unfold is_ascii_digit in Hc.
  replace (c =? 45) with false by lia. replace (c =? 43) with false by lia.
  by rewrite Hs.
Qed.

Lemma fixed2_word v : 0 <= v -> is_word (fixed2 v).
Proof.
  intros Hv. destruct (fixed2_digits v Hv) as [H1 H2]. split.
  - unfold fixed2. by destruct (print_u64 _).
  - unfold fixed2. apply Forall_app. split; [apply print_u64_word|].
    constructor; [done|]. apply digits_not_whitespace. by repeat constructor.
Qed.
