(* ===== verification/Types.v ===== *)
(** The shared crate [agl-health-common]: the caps of [lib.rs], the ring-buffer
    event structs of [events.rs], the counter structs of [metrics.rs] and the
    shared-memory snapshot of [metrics_v3.rs], field for field.

    Integers are the [Z] they denote and fixed arrays are lists; the widths and
    array lengths are the C types given in [Layout].  [X_zeroed] is the value
    of the all-zero bit pattern, which is both [core::mem::zeroed()] and the
    derived [Default].  A field [_pad] of a struct with prefix [p] is
    [p_pad]. *)
From S2P Require Import Prelude Float.

(** ** Caps ([lib.rs]) *)
Definition COMM_LEN : nat := 16.
Definition FILENAME_LEN : nat := 256.
Definition SCHED_HIST_BUCKETS : nat := 8.
Definition V3_MAX_CPU_CORES : nat := 16.
Definition V3_MAX_PROCESSES : nat := 512.
Definition V3_MAX_BLOCK_DEVS : nat := 16.
Definition V3_MAX_NET_IFACES : nat := 8.

(** ** Events ([events.rs]) *)
Inductive ProcessEventKind :=
  | Exec
  | Exit
  | Fork.
Definition ProcessEventKind_repr (k : ProcessEventKind) : Z :=
  match k with
  | Exec => 0
  | Exit => 1
  | Fork => 2
  end.

Record ProcessEvent := {
  pe_kind : Z;
  pe_pid : Z;
  pe_ppid : Z;
  pe_uid : Z;
  pe_exit_code : Z;
  pe_pad : Z;
  pe_timestamp_ns : Z;
  pe_comm : list Z;
  pe_filename : list Z }.
#[export] Instance eta_ProcessEvent : Eta ProcessEvent := fun r =>
  Build_ProcessEvent (pe_kind r) (pe_pid r) (pe_ppid r) (pe_uid r) (pe_exit_code r)
    (pe_pad r) (pe_timestamp_ns r) (pe_comm r) (pe_filename r).
Definition ProcessEvent_zeroed : ProcessEvent :=
  {| pe_kind := 0; pe_pid := 0; pe_ppid := 0; pe_uid := 0; pe_exit_code := 0;
     pe_pad := 0; pe_timestamp_ns := 0; pe_comm := replicate COMM_LEN 0;
     pe_filename := replicate FILENAME_LEN 0 |}.

Inductive NetEventKind :=
  | SkbDrop
  | TcpRetransmit
  | TcpReset
  | TcpStateChange.
Definition NetEventKind_repr (k : NetEventKind) : Z :=
  match k with
  | SkbDrop => 0
  | TcpRetransmit => 1
  | TcpReset => 2
  | TcpStateChange => 3
  end.

Record NetEvent := {
  ne_kind : Z;
  ne_family : Z;
  ne_sport : Z;
  ne_dport : Z;
  ne_drop_reason : Z;
  ne_old_state : Z;
  ne_new_state : Z;
  ne_pad : list Z;
  ne_saddr : list Z;
  ne_daddr : list Z;
  ne_timestamp_ns : Z }.
#[export] Instance eta_NetEvent : Eta NetEvent := fun r =>
  Build_NetEvent (ne_kind r) (ne_family r) (ne_sport r) (ne_dport r) (ne_drop_reason r)
    (ne_old_state r) (ne_new_state r) (ne_pad r) (ne_saddr r) (ne_daddr r)
    (ne_timestamp_ns r).
Definition NetEvent_zeroed : NetEvent :=
  {| ne_kind := 0; ne_family := 0; ne_sport := 0; ne_dport := 0; ne_drop_reason := 0;
     ne_old_state := 0; ne_new_state := 0; ne_pad := replicate 2 0;
     ne_saddr := replicate 16 0; ne_daddr := replicate 16 0; ne_timestamp_ns := 0 |}.

Inductive SchedEventKind :=
  | Wakeup
  | Switch
  | Migrate
  | ThrottleWait.
Definition SchedEventKind_repr (k : SchedEventKind) : Z :=
  match k with
  | Wakeup => 0
  | Switch => 1
  | Migrate => 2
  | ThrottleWait => 3
  end.

Record SchedEvent := {
  se_kind : Z;
  se_pid : Z;
  se_prio : Z;
  se_cpu : Z;
  se_timestamp_ns : Z;
  se_comm : list Z }.
#[export] Instance eta_SchedEvent : Eta SchedEvent := fun r =>
  Build_SchedEvent (se_kind r) (se_pid r) (se_prio r) (se_cpu r) (se_timestamp_ns r)
    (se_comm r).
Definition SchedEvent_zeroed : SchedEvent :=
  {| se_kind := 0; se_pid := 0; se_prio := 0; se_cpu := 0; se_timestamp_ns := 0;
     se_comm := replicate COMM_LEN 0 |}.

Inductive FileEventKind :=
  | Open
  | Read
  | Write
  | Fsync
  | Unlink
  | Rename.
Definition FileEventKind_repr (k : FileEventKind) : Z :=
  match k with
  | Open => 0
  | Read => 1
  | Write => 2
  | Fsync => 3
  | Unlink => 4
  | Rename => 5
  end.

Record FileEvent := {
  fe_kind : Z;
  fe_pid : Z;
  fe_bytes : Z;
  fe_timestamp_ns : Z;
  fe_comm : list Z;
  fe_filename : list Z }.
#[export] Instance eta_FileEvent : Eta FileEvent := fun r =>
  Build_FileEvent (fe_kind r) (fe_pid r) (fe_bytes r) (fe_timestamp_ns r) (fe_comm r)
    (fe_filename r).
Definition FileEvent_zeroed : FileEvent :=
  {| fe_kind := 0; fe_pid := 0; fe_bytes := 0; fe_timestamp_ns := 0;
     fe_comm := replicate COMM_LEN 0; fe_filename := replicate FILENAME_LEN 0 |}.

Inductive SecurityEventKind :=
  | Ptrace
  | MemfdCreate
  | Prctl
  | Setuid
  | ExecAnomaly
  | CapabilityUse.
Definition SecurityEventKind_repr (k : SecurityEventKind) : Z :=
  match k with
  | Ptrace => 0
  | MemfdCreate => 1
  | Prctl => 2
  | Setuid => 3
  | ExecAnomaly => 4
  | CapabilityUse => 5
  end.

Inductive SecuritySeverity :=
  | Info
  | Warn
  | Critical.
Definition SecuritySeverity_repr (k : SecuritySeverity) : Z :=
  match k with
  | Info => 0
  | Warn => 1
  | Critical => 2
  end.

Record SecurityEvent := {
  sev_kind : Z;
  sev_pid : Z;
  sev_ppid : Z;
  sev_uid : Z;
  sev_severity : Z;
  sev_pad : list Z;
  sev_arg : Z;
  sev_timestamp_ns : Z;
  sev_comm : list Z;
  sev_filename : list Z }.
#[export] Instance eta_SecurityEvent : Eta SecurityEvent := fun r =>
  Build_SecurityEvent (sev_kind r) (sev_pid r) (sev_ppid r) (sev_uid r) (sev_severity r)
    (sev_pad r) (sev_arg r) (sev_timestamp_ns r) (sev_comm r) (sev_filename r).
Definition SecurityEvent_zeroed : SecurityEvent :=
  {| sev_kind := 0; sev_pid := 0; sev_ppid := 0; sev_uid := 0; sev_severity := 0;
     sev_pad := replicate 7 0; sev_arg := 0; sev_timestamp_ns := 0;
     sev_comm := replicate COMM_LEN 0; sev_filename := replicate FILENAME_LEN 0 |}.

(** ** Counters ([metrics.rs]) *)
Record CpuStats := {
  cpu_cpu_id : Z;
  cpu_pad : Z;
  cpu_user_ns : Z;
  cpu_system_ns : Z;
  cpu_iowait_ns : Z;
  cpu_irq_ns : Z;
  cpu_softirq_ns : Z;
  cpu_idle_ns : Z;
  cpu_ctx_switches : Z }.
#[export] Instance eta_CpuStats : Eta CpuStats := fun r =>
  Build_CpuStats (cpu_cpu_id r) (cpu_pad r) (cpu_user_ns r) (cpu_system_ns r)
    (cpu_iowait_ns r) (cpu_irq_ns r) (cpu_softirq_ns r) (cpu_idle_ns r)
    (cpu_ctx_switches r).
Definition CpuStats_zeroed : CpuStats :=
  {| cpu_cpu_id := 0; cpu_pad := 0; cpu_user_ns := 0; cpu_system_ns := 0;
     cpu_iowait_ns := 0; cpu_irq_ns := 0; cpu_softirq_ns := 0; cpu_idle_ns := 0;
     cpu_ctx_switches := 0 |}.

Record ProcessStats := {
  ps_pid : Z;
  ps_ppid : Z;
  ps_uid : Z;
  ps_thread_count : Z;
  ps_cpu_user_ns : Z;
  ps_cpu_system_ns : Z;
  ps_mem_rss_bytes : Z;
  ps_mem_vms_bytes : Z;
  ps_voluntary_ctx_sw : Z;
  ps_involuntary_ctx_sw : Z;
  ps_read_bytes : Z;
  ps_write_bytes : Z;
  ps_page_faults_minor : Z;
  ps_page_faults_major : Z;
  ps_start_time_ns : Z;
  ps_open_fds : Z;
  ps_pad : Z;
  ps_comm : list Z }.
#[export] Instance eta_ProcessStats : Eta ProcessStats := fun r =>
  Build_ProcessStats (ps_pid r) (ps_ppid r) (ps_uid r) (ps_thread_count r)
    (ps_cpu_user_ns r) (ps_cpu_system_ns r) (ps_mem_rss_bytes r) (ps_mem_vms_bytes r)
    (ps_voluntary_ctx_sw r) (ps_involuntary_ctx_sw r) (ps_read_bytes r)
    (ps_write_bytes r) (ps_page_faults_minor r) (ps_page_faults_major r)
    (ps_start_time_ns r) (ps_open_fds r) (ps_pad r) (ps_comm r).
Definition ProcessStats_zeroed : ProcessStats :=
  {| ps_pid := 0; ps_ppid := 0; ps_uid := 0; ps_thread_count := 0; ps_cpu_user_ns := 0;
     ps_cpu_system_ns := 0; ps_mem_rss_bytes := 0; ps_mem_vms_bytes := 0;
     ps_voluntary_ctx_sw := 0; ps_involuntary_ctx_sw := 0; ps_read_bytes := 0;
     ps_write_bytes := 0; ps_page_faults_minor := 0; ps_page_faults_major := 0;
     ps_start_time_ns := 0; ps_open_fds := 0; ps_pad := 0;
     ps_comm := replicate COMM_LEN 0 |}.

Record BlockStats := {
  blk_device_major : Z;
  blk_device_minor : Z;
  blk_reads_completed : Z;
  blk_writes_completed : Z;
  blk_read_bytes : Z;
  blk_write_bytes : Z;
  blk_read_latency_ns : Z;
  blk_write_latency_ns : Z;
  blk_io_inflight : Z;
  blk_io_ticks_ms : Z }.
#[export] Instance eta_BlockStats : Eta BlockStats := fun r =>
  Build_BlockStats (blk_device_major r) (blk_device_minor r) (blk_reads_completed r)
    (blk_writes_completed r) (blk_read_bytes r) (blk_write_bytes r)
    (blk_read_latency_ns r) (blk_write_latency_ns r) (blk_io_inflight r)
    (blk_io_ticks_ms r).
Definition BlockStats_zeroed : BlockStats :=
  {| blk_device_major := 0; blk_device_minor := 0; blk_reads_completed := 0;
     blk_writes_completed := 0; blk_read_bytes := 0; blk_write_bytes := 0;
     blk_read_latency_ns := 0; blk_write_latency_ns := 0; blk_io_inflight := 0;
     blk_io_ticks_ms := 0 |}.

Record NetIfaceStats := {
  nif_iface_idx : Z;
  nif_pad : Z;
  nif_rx_bytes : Z;
  nif_tx_bytes : Z;
  nif_rx_packets : Z;
  nif_tx_packets : Z;
  nif_rx_drops : Z;
  nif_tx_drops : Z;
  nif_rx_errors : Z;
  nif_tx_errors : Z }.
#[export] Instance eta_NetIfaceStats : Eta NetIfaceStats := fun r =>
  Build_NetIfaceStats (nif_iface_idx r) (nif_pad r) (nif_rx_bytes r) (nif_tx_bytes r)
    (nif_rx_packets r) (nif_tx_packets r) (nif_rx_drops r) (nif_tx_drops r)
    (nif_rx_errors r) (nif_tx_errors r).
Definition NetIfaceStats_zeroed : NetIfaceStats :=
  {| nif_iface_idx := 0; nif_pad := 0; nif_rx_bytes := 0; nif_tx_bytes := 0;
     nif_rx_packets := 0; nif_tx_packets := 0; nif_rx_drops := 0; nif_tx_drops := 0;
     nif_rx_errors := 0; nif_tx_errors := 0 |}.

Record TcpStateSnapshot := {
  tcp_established : Z;
  tcp_syn_sent : Z;
  tcp_syn_recv : Z;
  tcp_fin_wait1 : Z;
  tcp_fin_wait2 : Z;
  tcp_time_wait : Z;
  tcp_close_wait : Z;
  tcp_listen : Z;
  tcp_listen_overflows : Z;
  tcp_retransmits : Z;
  tcp_resets_in : Z;
  tcp_resets_out : Z }.
#[export] Instance eta_TcpStateSnapshot : Eta TcpStateSnapshot := fun r =>
  Build_TcpStateSnapshot (tcp_established r) (tcp_syn_sent r) (tcp_syn_recv r)
    (tcp_fin_wait1 r) (tcp_fin_wait2 r) (tcp_time_wait r) (tcp_close_wait r)
    (tcp_listen r) (tcp_listen_overflows r) (tcp_retransmits r) (tcp_resets_in r)
    (tcp_resets_out r).
Definition TcpStateSnapshot_zeroed : TcpStateSnapshot :=
  {| tcp_established := 0; tcp_syn_sent := 0; tcp_syn_recv := 0; tcp_fin_wait1 := 0;
     tcp_fin_wait2 := 0; tcp_time_wait := 0; tcp_close_wait := 0; tcp_listen := 0;
     tcp_listen_overflows := 0; tcp_retransmits := 0; tcp_resets_in := 0;
     tcp_resets_out := 0 |}.

Record SchedHistogram := {
  sh_buckets : list Z;
  sh_total_count : Z;
  sh_total_latency_ns : Z;
  sh_max_latency_ns : Z }.
#[export] Instance eta_SchedHistogram : Eta SchedHistogram := fun r =>
  Build_SchedHistogram (sh_buckets r) (sh_total_count r) (sh_total_latency_ns r)
    (sh_max_latency_ns r).
Definition SchedHistogram_zeroed : SchedHistogram :=
  {| sh_buckets := replicate SCHED_HIST_BUCKETS 0; sh_total_count := 0;
     sh_total_latency_ns := 0; sh_max_latency_ns := 0 |}.

Record MemorySnapshot := {
  mem_total_bytes : Z;
  mem_free_bytes : Z;
  mem_cached_bytes : Z;
  mem_buffered_bytes : Z;
  mem_slab_bytes : Z;
  mem_swap_used_bytes : Z;
  mem_swap_free_bytes : Z;
  mem_page_faults_minor : Z;
  mem_page_faults_major : Z;
  mem_psi_some_pct_x100 : Z;
  mem_psi_full_pct_x100 : Z;
  mem_oom_kills_total : Z }.
#[export] Instance eta_MemorySnapshot : Eta MemorySnapshot := fun r =>
  Build_MemorySnapshot (mem_total_bytes r) (mem_free_bytes r) (mem_cached_bytes r)
    (mem_buffered_bytes r) (mem_slab_bytes r) (mem_swap_used_bytes r)
    (mem_swap_free_bytes r) (mem_page_faults_minor r) (mem_page_faults_major r)
    (mem_psi_some_pct_x100 r) (mem_psi_full_pct_x100 r) (mem_oom_kills_total r).
Definition MemorySnapshot_zeroed : MemorySnapshot :=
  {| mem_total_bytes := 0; mem_free_bytes := 0; mem_cached_bytes := 0;
     mem_buffered_bytes := 0; mem_slab_bytes := 0; mem_swap_used_bytes := 0;
     mem_swap_free_bytes := 0; mem_page_faults_minor := 0; mem_page_faults_major := 0;
     mem_psi_some_pct_x100 := 0; mem_psi_full_pct_x100 := 0;
     mem_oom_kills_total := 0 |}.

Record CgroupNetBytes := {
  cg_cgroup_id : Z;
  cg_rx_bytes : Z;
  cg_tx_bytes : Z;
  cg_rx_packets : Z;
  cg_tx_packets : Z;
  cg_rx_internet_bytes : Z;
  cg_tx_internet_bytes : Z }.
#[export] Instance eta_CgroupNetBytes : Eta CgroupNetBytes := fun r =>
  Build_CgroupNetBytes (cg_cgroup_id r) (cg_rx_bytes r) (cg_tx_bytes r)
    (cg_rx_packets r) (cg_tx_packets r) (cg_rx_internet_bytes r)
    (cg_tx_internet_bytes r).
Definition CgroupNetBytes_zeroed : CgroupNetBytes :=
  {| cg_cgroup_id := 0; cg_rx_bytes := 0; cg_tx_bytes := 0; cg_rx_packets := 0;
     cg_tx_packets := 0; cg_rx_internet_bytes := 0; cg_tx_internet_bytes := 0 |}.

Record EventDropCounts := {
  dc_process : Z;
  dc_security : Z;
  dc_network : Z }.
#[export] Instance eta_EventDropCounts : Eta EventDropCounts := fun r =>
  Build_EventDropCounts (dc_process r) (dc_security r) (dc_network r).
Definition EventDropCounts_zeroed : EventDropCounts :=
  {| dc_process := 0; dc_security := 0; dc_network := 0 |}.

Record SecurityEventCounts := {
  sec_ptrace : Z;
  sec_memfd_create : Z;
  sec_prctl : Z;
  sec_setuid : Z;
  sec_exec_anomaly : Z;
  sec_capability_use : Z }.
#[export] Instance eta_SecurityEventCounts : Eta SecurityEventCounts := fun r =>
  Build_SecurityEventCounts (sec_ptrace r) (sec_memfd_create r) (sec_prctl r)
    (sec_setuid r) (sec_exec_anomaly r) (sec_capability_use r).
Definition SecurityEventCounts_zeroed : SecurityEventCounts :=
  {| sec_ptrace := 0; sec_memfd_create := 0; sec_prctl := 0; sec_setuid := 0;
     sec_exec_anomaly := 0; sec_capability_use := 0 |}.

(** ** The shared-memory snapshot ([metrics_v3.rs]) *)

Definition SHM_MAGIC : Z := 0x41474C5F48454C54.
Definition SHM_VERSION : Z := 1.

Record ShmHeader := {
  hdr_magic : Z;
  hdr_version : Z;
  hdr_pad0 : Z;
  hdr_sequence : Z;
  hdr_timestamp_ns_wall : Z;
  hdr_snapshot_size : Z;
  hdr_pad1 : Z;
  hdr_reserved : list Z }.
#[export] Instance eta_ShmHeader : Eta ShmHeader := fun r =>
  Build_ShmHeader (hdr_magic r) (hdr_version r) (hdr_pad0 r) (hdr_sequence r)
    (hdr_timestamp_ns_wall r) (hdr_snapshot_size r) (hdr_pad1 r) (hdr_reserved r).
Definition ShmHeader_zeroed : ShmHeader :=
  {| hdr_magic := 0; hdr_version := 0; hdr_pad0 := 0; hdr_sequence := 0;
     hdr_timestamp_ns_wall := 0; hdr_snapshot_size := 0; hdr_pad1 := 0;
     hdr_reserved := replicate 24 0 |}.

Record SchedSnapshotFixed := {
  ssf_histogram : SchedHistogram;
  ssf_p50_ns : Z;
  ssf_p95_ns : Z;
  ssf_p99_ns : Z }.
#[export] Instance eta_SchedSnapshotFixed : Eta SchedSnapshotFixed := fun r =>
  Build_SchedSnapshotFixed (ssf_histogram r) (ssf_p50_ns r) (ssf_p95_ns r)
    (ssf_p99_ns r).
Definition SchedSnapshotFixed_zeroed : SchedSnapshotFixed :=
  {| ssf_histogram := SchedHistogram_zeroed; ssf_p50_ns := 0; ssf_p95_ns := 0;
     ssf_p99_ns := 0 |}.

Record LoadSnapshotFixed := {
  lsf_load_1 : f64;
  lsf_load_5 : f64;
  lsf_load_15 : f64 }.
#[export] Instance eta_LoadSnapshotFixed : Eta LoadSnapshotFixed := fun r =>
  Build_LoadSnapshotFixed (lsf_load_1 r) (lsf_load_5 r) (lsf_load_15 r).
Definition LoadSnapshotFixed_zeroed : LoadSnapshotFixed :=
  {| lsf_load_1 := f64_zero; lsf_load_5 := f64_zero; lsf_load_15 := f64_zero |}.

Record MetricSnapshotV3 := {
  v3_header : ShmHeader;
  v3_memory : MemorySnapshot;
  v3_load : LoadSnapshotFixed;
  v3_sched : SchedSnapshotFixed;
  v3_tcp : TcpStateSnapshot;
  v3_security : SecurityEventCounts;
  v3_cpu_core_count : Z;
  v3_pad_cpu : Z;
  v3_cpu_cores : list CpuStats;
  v3_net_iface_count : Z;
  v3_pad_net : Z;
  v3_net_ifaces : list NetIfaceStats;
  v3_block_dev_count : Z;
  v3_pad_blk : Z;
  v3_block_devs : list BlockStats;
  v3_process_count : Z;
  v3_pad_proc : Z;
  v3_top_processes : list ProcessStats;
  v3_sched_cpu_count : Z;
  v3_pad_sched_cpu : Z;
  v3_sched_per_cpu : list SchedSnapshotFixed }.
#[export] Instance eta_MetricSnapshotV3 : Eta MetricSnapshotV3 := fun r =>
  Build_MetricSnapshotV3 (v3_header r) (v3_memory r) (v3_load r) (v3_sched r) (v3_tcp r)
    (v3_security r) (v3_cpu_core_count r) (v3_pad_cpu r) (v3_cpu_cores r)
    (v3_net_iface_count r) (v3_pad_net r) (v3_net_ifaces r) (v3_block_dev_count r)
    (v3_pad_blk r) (v3_block_devs r) (v3_process_count r) (v3_pad_proc r)
    (v3_top_processes r) (v3_sched_cpu_count r) (v3_pad_sched_cpu r)
    (v3_sched_per_cpu r).
Definition MetricSnapshotV3_zeroed : MetricSnapshotV3 :=
  {| v3_header := ShmHeader_zeroed; v3_memory := MemorySnapshot_zeroed;
     v3_load := LoadSnapshotFixed_zeroed; v3_sched := SchedSnapshotFixed_zeroed;
     v3_tcp := TcpStateSnapshot_zeroed; v3_security := SecurityEventCounts_zeroed;
     v3_cpu_core_count := 0; v3_pad_cpu := 0;
     v3_cpu_cores := replicate V3_MAX_CPU_CORES CpuStats_zeroed;
     v3_net_iface_count := 0; v3_pad_net := 0;
     v3_net_ifaces := replicate V3_MAX_NET_IFACES NetIfaceStats_zeroed;
     v3_block_dev_count := 0; v3_pad_blk := 0;
     v3_block_devs := replicate V3_MAX_BLOCK_DEVS BlockStats_zeroed;
     v3_process_count := 0; v3_pad_proc := 0;
     v3_top_processes := replicate V3_MAX_PROCESSES ProcessStats_zeroed;
     v3_sched_cpu_count := 0; v3_pad_sched_cpu := 0;
     v3_sched_per_cpu := replicate V3_MAX_CPU_CORES SchedSnapshotFixed_zeroed |}.

