(* ===== verification/Layout.v ===== *)
(** The [#[repr(C)]] layout of the shared structs: size, alignment, field
    offsets, the byte image of a value and its reading back.  [Pod] is the
    interface the rest of the development uses (the source's [ShmPod] /
    [aya::Pod] promise): a C type, and a value of that type for every record.
    Its law, with [read_write_pod], gives the round trip that the ring-buffer
    drains and the shared-memory reader rely on. *)
From Stdlib Require Import SpecFloat.
From S2P Require Import Prelude Float Types.

(** ** C types and values *)

Inductive cty : Type :=
  | CInt (sz : nat) (signed : bool)
  | CF64
  | CArr (n : nat) (t : cty)
  | CStruct (fs : list (String.string * cty)).

Definition CU8 : cty := CInt 1 false.
Definition CU16 : cty := CInt 2 false.
Definition CU32 : cty := CInt 4 false.
Definition CU64 : cty := CInt 8 false.
Definition CI32 : cty := CInt 4 true.
Definition CI64 : cty := CInt 8 true.

Inductive cval : Type :=
  | VInt (z : Z)
  | VF64 (x : f64)
  | VSeq (l : list cval).

Section cty_induction.
Variable P : cty -> Prop.
Hypothesis HInt : forall sz s, P (CInt sz s).
Hypothesis HF64 : P CF64.
Hypothesis HArr : forall n t, P t -> P (CArr n t).
Hypothesis HStruct : forall fs, Forall (fun f => P f.2) fs -> P (CStruct fs).
Fixpoint cty_ind' (t : cty) : P t :=
  match t with
  | CInt sz s => HInt sz s
  | CF64 => HF64
  | CArr n t => HArr n t (cty_ind' t)
  | CStruct fs =>
      HStruct fs ((fix go fs : Forall (fun f => P f.2) fs :=
        match fs with
        | [] => Forall_nil_2 _
        | f :: fs => Forall_cons_2 _ f fs (cty_ind' f.2) (go fs)
        end) fs)
  end.
End cty_induction.

(** The least multiple of [a] that is at least [off]. *)
Definition round_up (off a : Z) : Z := (off + (a - 1)) / a * a.

Fixpoint c_align (t : cty) : Z :=
  match t with
  | CInt sz _ => Z.of_nat sz
  | CF64 => 8
  | CArr _ t => c_align t
  | CStruct fs => foldr (fun f a => Z.max (c_align f.2) a) 1 fs
  end.

Fixpoint c_size (t : cty) : Z :=
  match t with
  | CInt sz _ => Z.of_nat sz
  | CF64 => 8
  | CArr n t => Z.of_nat n * c_size t
  | CStruct fs =>
      round_up (foldl (fun off f => round_up off (c_align f.2) + c_size f.2) 0 fs)
        (c_align (CStruct fs))
  end.

(** Where the fields of a struct end, starting from offset [off]. *)
Definition fields_end (off : Z) (fs : list (String.string * cty)) : Z :=
  foldl (fun off f => round_up off (c_align f.2) + c_size f.2) off fs.

(** [offset_of!(S, name)]. *)
Fixpoint field_offset (off : Z) (fs : list (String.string * cty)) (name : String.string) : option Z :=
  match fs with
  | [] => None
  | (n, t) :: fs' =>
      let o := round_up off (c_align t) in
      if String.eqb n name then Some o else field_offset (o + c_size t) fs' name
  end.
Definition offset_of (t : cty) (name : String.string) : option Z :=
  match t with CStruct fs => field_offset 0 fs name | _ => None end.

(** No byte of the type is implicit padding: the fields of every struct in it
    are back to back and fill it. *)
Fixpoint packed (t : cty) : bool :=
  match t with
  | CInt _ _ | CF64 => true
  | CArr _ t => packed t
  | CStruct fs =>
      forallb (fun f => packed f.2) fs
      && (c_size (CStruct fs) =? foldl (fun s f => s + c_size f.2) 0 fs)
  end.

(** ** Bytes *)

Fixpoint le_bytes (n : nat) (z : Z) : list Z :=
  match n with O => [] | S n' => z mod 256 :: le_bytes n' (z / 256) end.
Fixpoint le_value (bs : list Z) : Z :=
  match bs with [] => 0 | b :: bs' => b + 256 * le_value bs' end.

Lemma length_le_bytes n z : length (le_bytes n z) = n.
Proof. revert z. induction n; intros; simpl; [done|]. by rewrite IHn. Qed.

Lemma le_value_bytes n z : le_value (le_bytes n z) = z mod 256 ^ Z.of_nat n.
Proof.
  revert z. induction n as [|n IH]; intros z; [symmetry; apply Z.mod_1_r|].
  cbn [le_bytes le_value]. rewrite IH, Nat2Z.inj_succ, Z.pow_succ_r by lia.
  rewrite Z.rem_mul_r by lia. done.
Qed.

Lemma le_bytes_range n z : Forall is_u8 (le_bytes n z).
Proof.
  revert z. induction n; intros z; simpl; constructor; [|done].
  apply Z.mod_pos_bound. done.
Qed.

(** Reading an [sz]-byte integer, sign-extended when the type is signed. *)
Definition of_bytes (sz : nat) (signed : bool) (bs : list Z) : Z :=
  let m := 256 ^ Z.of_nat sz in
  let z := le_value (take sz bs) in
  if signed && (m / 2 <=? z) then z - m else z.

Definition zeros (n : Z) : list Z := replicate (Z.to_nat n) 0.

(** The struct case of [encode], over the encoder of the field types: padding
    up to each field's offset, the field, and padding up to [total]. *)
Section EncodeFields.
Variable enc : cty -> cval -> list Z.
Variable total : Z.
Fixpoint encode_fields (off : Z) (fs : list (String.string * cty)) (l : list cval) : list Z :=
  match fs, l with
  | (_, t) :: fs', v :: l' =>
      let o := round_up off (c_align t) in
      zeros (o - off) ++ enc t v ++ encode_fields (o + c_size t) fs' l'
  | _, _ => zeros (total - off)
  end.
End EncodeFields.

(** The byte image of a value of type [t]. *)
Fixpoint encode (t : cty) (v : cval) {struct t} : list Z :=
  match t, v with
  | CInt sz _, VInt z => le_bytes sz z
  | CF64, VF64 x => le_bytes 8 (f64_to_bits x)
  | CArr _ t, VSeq l => concat (map (encode t) l)
  | CStruct fs, VSeq l => encode_fields encode (c_size (CStruct fs)) 0 fs l
  | _, _ => zeros (c_size t)
  end.

Section DecodeFields.
Variable dec : cty -> list Z -> cval.
Fixpoint decode_fields (off : Z) (fs : list (String.string * cty)) (bs : list Z) : list cval :=
  match fs with
  | (_, t) :: fs' =>
      let o := round_up off (c_align t) in
      dec t (drop (Z.to_nat (o - off)) bs)
      :: decode_fields (o + c_size t) fs' (drop (Z.to_nat (o - off + c_size t)) bs)
  | [] => []
  end.
End DecodeFields.
Section DecodeArray.
Variable dec : list Z -> cval.
Variable sz : Z.
Fixpoint decode_array (n : nat) (bs : list Z) : list cval :=
  match n with
  | O => []
  | S n' => dec bs :: decode_array n' (drop (Z.to_nat sz) bs)
  end.
End DecodeArray.

(** Reading a [t] from the front of a byte buffer ([ptr::read_unaligned]). *)
Fixpoint decode (t : cty) (bs : list Z) {struct t} : cval :=
  match t with
  | CInt sz s => VInt (of_bytes sz s bs)
  | CF64 => VF64 (f64_of_bits (of_bytes 8 false bs))
  | CArr n t => VSeq (decode_array (decode t) (c_size t) n bs)
  | CStruct fs => VSeq (decode_fields decode 0 fs bs)
  end.

(** [v] is a value of type [t]: integers in range, floats canonical, arrays of
    the declared length. *)
Definition int_in_range (sz : nat) (signed : bool) (z : Z) : Prop :=
  if signed then - (256 ^ Z.of_nat sz / 2) <= z < 256 ^ Z.of_nat sz / 2
  else 0 <= z < 256 ^ Z.of_nat sz.

Section FieldsOk.
Variable ok : cty -> cval -> Prop.
Fixpoint fields_ok (fs : list (String.string * cty)) (l : list cval) : Prop :=
  match fs, l with
  | [], [] => True
  | (_, t) :: fs', v :: l' => ok t v /\ fields_ok fs' l'
  | _, _ => False
  end.
End FieldsOk.
Fixpoint val_ok (t : cty) (v : cval) {struct t} : Prop :=
  match t, v with
  | CInt sz s, VInt z => int_in_range sz s z
  | CF64, VF64 x => f64_wf x
  | CArr n t, VSeq l => length l = n /\ Forall (val_ok t) l
  | CStruct fs, VSeq l => fields_ok val_ok fs l
  | _, _ => False
  end.

(** Every integer of the type has 1, 2, 4 or 8 bytes (so alignments are
    positive). *)
Fixpoint ty_ok (t : cty) : Prop :=
  match t with
  | CInt sz _ => (0 < sz)%nat
  | CF64 => True
  | CArr _ t => ty_ok t
  | CStruct fs => foldr (fun f P => ty_ok f.2 /\ P) True fs
  end.

(** ** Arithmetic of offsets *)

Lemma round_up_ge off a : 0 < a -> off <= round_up off a.
Proof.
  intros Ha. unfold round_up. pose proof (Z.div_mod (off + (a - 1)) a ltac:(lia)).
  pose proof (Z.mod_pos_bound (off + (a - 1)) a Ha). nia.
Qed.

Lemma foldr_align_pos (fs : list (String.string * cty)) :
  1 <= foldr (fun f a => Z.max (c_align f.2) a) 1 fs.
Proof. induction fs; cbn [foldr]; lia. Qed.

Lemma foldr_ty_ok fs :
  foldr (fun (f : String.string * cty) P => ty_ok f.2 /\ P) True fs <-> Forall (fun f => ty_ok f.2) fs.
Proof.
  induction fs as [|f fs IH]; cbn [foldr]; [split; [constructor|done]|].
  rewrite IH, Forall_cons. done.
Qed.

Lemma c_align_pos t : ty_ok t -> 0 < c_align t.
Proof.
  induction t as [sz s| |n t IH|fs _] using cty_ind'; cbn; intros H;
    [lia|lia|by apply IH|]. pose proof (foldr_align_pos fs). lia.
Qed.

Lemma fields_end_ge off fs :
  Forall (fun f : String.string * cty => ty_ok f.2 /\ 0 <= c_size f.2) fs -> off <= fields_end off fs.
Proof.
  unfold fields_end. intros H. revert off. induction H as [|f fs [Hf Hs] _ IH]; intros off; cbn [foldl]; [lia|].
  pose proof (round_up_ge off (c_align f.2) (c_align_pos _ Hf)).
  specialize (IH (round_up off (c_align f.2) + c_size f.2)). lia.
Qed.

Lemma c_size_nonneg t : ty_ok t -> 0 <= c_size t.
Proof.
  induction t as [sz s| |n t IH|fs IH] using cty_ind'; cbn [ty_ok]; intros H;
    [cbn; lia|cbn; lia|specialize (IH H); cbn; nia|].
  cbn [c_size]. etransitivity; [|apply round_up_ge, (c_align_pos (CStruct fs)); done].
  apply (fields_end_ge 0 fs). apply foldr_ty_ok in H.
  apply Forall_forall. intros f Hf. rewrite Forall_forall in IH, H. auto.
Qed.

(** ** The image has the size of the type *)

Lemma length_zeros n : length (zeros n) = Z.to_nat n.
Proof. apply length_replicate. Qed.

Lemma fields_end_app off f fs :
  fields_end off (f :: fs) = fields_end (round_up off (c_align f.2) + c_size f.2) fs.
Proof. done. Qed.

Lemma length_encode_fields total fs l off :
  Forall (fun f : String.string * cty => ty_ok f.2 /\ 0 <= c_size f.2 /\
    (forall v, val_ok f.2 v -> length (encode f.2 v) = Z.to_nat (c_size f.2))) fs ->
  fields_ok val_ok fs l -> 0 <= off -> fields_end off fs <= total ->
  length (encode_fields encode total off fs l) = Z.to_nat (total - off).
Proof.
  intros H. revert l off. induction H as [|[n t] fs (Hty & Hs & Hlen) Hfs IH]; intros [|v l] off Hok Ho Ht;
    cbn [encode_fields fields_ok] in *; try done; [apply length_zeros|].
  destruct Hok as [Hv Hok]. rewrite fields_end_app in Ht. cbn [snd] in *.
  pose proof (round_up_ge off (c_align t) (c_align_pos _ Hty)).
  assert (round_up off (c_align t) + c_size t <= fields_end (round_up off (c_align t) + c_size t) fs).
  { apply fields_end_ge. eapply Forall_impl; [exact Hfs|]. naive_solver. }
  rewrite !length_app, length_zeros, (Hlen v Hv), IH by (done || lia). lia.
Qed.

Lemma length_encode t v : ty_ok t -> val_ok t v -> length (encode t v) = Z.to_nat (c_size t).
Proof.
  revert v. induction t as [sz s| |n t IH|fs IH] using cty_ind'; intros [z|x|l] Hty Hv;
    try done; cbn [encode].
  - rewrite length_le_bytes. cbn. lia.
  - destruct Hv as [<- Hl]. cbn [c_size]. pose proof (c_size_nonneg t Hty).
    induction Hl as [|v l Hv Hl IHl]; [cbn; lia|].
    cbn [map concat]. rewrite length_app, IHl, (IH v) by done. cbn [length]. nia.
  - cbn [ty_ok] in Hty. apply foldr_ty_ok in Hty. rewrite Forall_forall in Hty, IH.
    rewrite length_encode_fields; [by rewrite Z.sub_0_r|..|exact Hv|lia|].
    + apply Forall_forall. intros f Hf. split; [auto|split; [apply c_size_nonneg; auto|auto]].
    + cbn [c_size]. apply round_up_ge. pose proof (foldr_align_pos fs). cbn; lia.
Qed.

(** ** Reading back what was written *)

Lemma of_bytes_le sz s z rest :
  (0 < sz)%nat -> int_in_range sz s z -> of_bytes sz s (le_bytes sz z ++ rest) = z.
Proof.
  intros Hsz Hr. unfold of_bytes, int_in_range in *.
  rewrite take_app_length' by (by rewrite length_le_bytes). rewrite le_value_bytes.
  set (m := 256 ^ Z.of_nat sz) in *.
  assert (m = 2 * (m / 2)) as Em.
  { subst m. replace (Z.of_nat sz) with (Z.succ (Z.of_nat (pred sz))) by lia.
    rewrite Z.pow_succ_r by lia. set (k := 256 ^ Z.of_nat (pred sz)).
    replace (256 * k) with (128 * k * 2) by lia. rewrite Z.div_mul by lia. lia. }
  destruct s; cbn [andb].
  - destruct (Z_lt_dec z 0).
    + rewrite <- (Z.mod_add z 1 m), Z.mod_small by lia.
      rewrite (proj2 (Z.leb_le _ _)) by lia. lia.
    + rewrite Z.mod_small by lia. rewrite (proj2 (Z.leb_gt _ _)) by lia. done.
  - by rewrite Z.mod_small.
Qed.

Lemma drop_zeros_app n l : drop (Z.to_nat n) (zeros n ++ l) = l.
Proof. apply drop_app_length'. by rewrite length_zeros. Qed.

Lemma decode_fields_encode total fs l off rest :
  Forall (fun f : String.string * cty => ty_ok f.2 /\
    (forall v rest, val_ok f.2 v -> decode f.2 (encode f.2 v ++ rest) = v)) fs ->
  fields_ok val_ok fs l -> 0 <= off ->
  decode_fields decode off fs (encode_fields encode total off fs l ++ rest) = l.
Proof.
  intros H. revert l off. induction H as [|[n t] fs [Hty Hdec] _ IH]; intros [|v l] off Hok Ho;
    cbn [encode_fields decode_fields fields_ok snd] in *; try done.
  destruct Hok as [Hv Hok]. pose proof (round_up_ge off (c_align t) (c_align_pos _ Hty)).
  pose proof (c_size_nonneg t Hty).
  rewrite <- !(assoc_L (++)), drop_zeros_app, Hdec by done. f_equal.
  rewrite Z2Nat.inj_add, <- drop_drop, drop_zeros_app by lia.
  rewrite drop_app_length' by (by rewrite length_encode). apply IH; [done|lia].
Qed.

Lemma decode_encode t v rest : ty_ok t -> val_ok t v -> decode t (encode t v ++ rest) = v.
Proof.
  revert v rest. induction t as [sz s| |n t IH|fs IH] using cty_ind'; intros [z|x|l] rest Hty Hv;
    try done; cbn [encode decode].
  - by rewrite of_bytes_le.
  - rewrite of_bytes_le; [by rewrite f64_of_to_bits|lia|]. by apply f64_to_bits_range.
  - destruct Hv as [<- Hl]. f_equal.
    induction Hl as [|v l Hv Hl IHl]; cbn [length map concat decode_array]; [done|].
    rewrite <- (assoc_L (++)), IH by done. f_equal.
    rewrite drop_app_length' by (by rewrite length_encode). apply IHl, Hty.
  - cbn [ty_ok] in Hty. apply foldr_ty_ok in Hty. rewrite Forall_forall in Hty, IH.
    f_equal. apply decode_fields_encode; [|exact Hv|lia].
    apply Forall_forall. auto.
Qed.

(** Any bytes decode to a value of the type. *)
Lemma le_value_range bs : Forall is_u8 bs -> 0 <= le_value bs < 256 ^ Z.of_nat (length bs).
Proof.
  induction 1 as [|b bs Hb _ IH]; cbn [le_value length]; [done|].
  rewrite Nat2Z.inj_succ, Z.pow_succ_r by lia. unfold is_u8 in Hb. lia.
Qed.

Lemma of_bytes_range sz s bs : (0 < sz)%nat -> Forall is_u8 bs -> int_in_range sz s (of_bytes sz s bs).
Proof.
  intros Hsz Hbs. pose proof (le_value_range (take sz bs) (Forall_take _ _ _ Hbs)) as Hr.
  rewrite length_take in Hr.
  assert (256 ^ Z.of_nat (sz `min` length bs) <= 256 ^ Z.of_nat sz) by (apply Z.pow_le_mono_r; lia).
  unfold of_bytes, int_in_range. set (m := 256 ^ Z.of_nat sz) in *.
  assert (m = 2 * (m / 2)) as Em.
  { subst m. replace (Z.of_nat sz) with (Z.succ (Z.of_nat (pred sz))) by lia.
    rewrite Z.pow_succ_r by lia. set (k := 256 ^ Z.of_nat (pred sz)).
    replace (256 * k) with (128 * k * 2) by lia. rewrite Z.div_mul by lia. lia. }
  destruct s; cbn [andb]; [|lia]. destruct (Z.leb_spec (m / 2) (le_value (take sz bs))); lia.
Qed.

Lemma decode_val_ok t bs : ty_ok t -> Forall is_u8 bs -> val_ok t (decode t bs).
Proof.
  revert bs. induction t as [sz s| |n t IH|fs IH] using cty_ind'; intros bs Hty Hbs; cbn [decode val_ok].
  - by apply of_bytes_range.
  - apply f64_of_bits_wf.
  - revert bs Hbs. induction n as [|n IHn]; intros bs Hbs; cbn [decode_array length]; [by split|].
    destruct (IHn Hty (drop (Z.to_nat (c_size t)) bs)) as [Hl Hf]; [by apply Forall_drop|].
    split; [by rewrite Hl|]. constructor; [by apply IH|done].
  - cbn [ty_ok] in Hty. apply foldr_ty_ok in Hty. generalize 0 as off. revert bs Hbs.
    induction fs as [|[m t] fs IHfs]; intros bs Hbs off; cbn [decode_fields fields_ok]; [done|].
    inversion IH; inversion Hty; subst. split; [|apply IHfs; auto using Forall_drop].
    auto using Forall_drop.
Qed.

(** Every byte of an image is a byte. *)
Lemma zeros_bytes n : Forall is_u8 (zeros n).
Proof. apply Forall_replicate. done. Qed.

(** ** Plain-old-data records *)

Class Pod (T : Type) := {
  pod_ty : cty;
  pod_val : T -> cval;
  pod_of : cval -> T;
  pod_ty_ok : ty_ok pod_ty;
  pod_of_val : forall x, pod_of (pod_val x) = x;
  pod_val_of : forall v, val_ok pod_ty v -> pod_val (pod_of v) = v }.
Arguments pod_ty T {_}.

Section Pods.
Context {T : Type} `{Pod T}.

(** The value fits its C type: what a Rust value of the type always does. *)
Definition pod_wf (x : T) : Prop := val_ok (pod_ty T) (pod_val x).
(** [core::mem::size_of::<T>()]. *)
Definition size_of : Z := c_size (pod_ty T).
(** The bytes of [x] in memory. *)
Definition write_pod (x : T) : list Z := encode (pod_ty T) (pod_val x).
(** [core::ptr::read_unaligned(bytes.as_ptr() as *const T)]. *)
Definition read_pod (bs : list Z) : T := pod_of (decode (pod_ty T) bs).

Lemma length_write_pod x : pod_wf x -> length (write_pod x) = Z.to_nat size_of.
Proof. apply length_encode, pod_ty_ok. Qed.

Lemma read_write_pod x rest : pod_wf x -> read_pod (write_pod x ++ rest) = x.
Proof.
  intros Hx. unfold read_pod, write_pod.
  rewrite decode_encode; [apply pod_of_val|apply pod_ty_ok|exact Hx].
Qed.

(** Reading never fails: any bytes are a value of the type. *)
Lemma read_pod_wf bs : Forall is_u8 bs -> pod_wf (read_pod bs).
Proof.
  intros Hbs. unfold pod_wf, read_pod.
  pose proof (decode_val_ok (pod_ty T) bs pod_ty_ok Hbs) as Hv. by rewrite pod_val_of.
Qed.

Lemma size_of_nonneg : 0 <= size_of.
Proof. apply c_size_nonneg, pod_ty_ok. Qed.
End Pods.
Arguments size_of T {_}.

Definition v_int (v : cval) : Z := match v with VInt z => z | _ => 0 end.
Definition v_f64 (v : cval) : f64 := match v with VF64 x => x | _ => f64_zero end.
Definition v_seq (v : cval) : list cval := match v with VSeq l => l | _ => [] end.
Definition v_nth (i : nat) (v : cval) : cval := nth i (v_seq v) (VSeq []).
Definition v_ints (l : list Z) : cval := VSeq (map VInt l).
Definition ints_v (v : cval) : list Z := map v_int (v_seq v).
Definition v_pods {T} `{Pod T} (l : list T) : cval := VSeq (map pod_val l).
Definition pods_v {T} `{Pod T} (v : cval) : list T := map pod_of (v_seq v).

Lemma ints_v_ints l : ints_v (v_ints l) = l.
Proof. unfold ints_v, v_ints. cbn. rewrite map_map. apply map_id. Qed.
Lemma pods_v_pods {T} `{Pod T} (l : list T) : pods_v (v_pods l) = l.
Proof.
  unfold pods_v, v_pods. cbn. rewrite map_map. rewrite <- (map_id l) at 2.
  apply map_ext. apply pod_of_val.
Qed.

Lemma int_val_of sz s v : val_ok (CInt sz s) v -> VInt (v_int v) = v.
Proof. by destruct v. Qed.
Lemma f64_val_of v : val_ok CF64 v -> VF64 (v_f64 v) = v.
Proof. by destruct v. Qed.
Lemma ints_val_of n sz s v : val_ok (CArr n (CInt sz s)) v -> v_ints (ints_v v) = v.
Proof.
  destruct v as [| |l]; cbn; try done. intros [_ Hl]. unfold v_ints, ints_v. cbn. f_equal.
  induction Hl as [|v l Hv _ IH]; cbn; [done|]. rewrite IH. f_equal. by destruct v.
Qed.
Lemma pods_val_of {T} `{Pod T} n v : val_ok (CArr n (pod_ty T)) v -> v_pods (pods_v (T := T) v) = v.
Proof.
  destruct v as [| |l]; cbn; try done. intros [_ Hl]. unfold v_pods, pods_v. cbn. f_equal.
  induction Hl as [|v l Hv _ IH]; cbn; [done|]. rewrite IH. f_equal. by apply pod_val_of.
Qed.

(** The laws of an instance: fields come back one by one. *)
Ltac solve_pod_law :=
  intros x; destruct x; cbn [pod_of pod_val v_nth v_seq nth v_int v_f64];
  rewrite ?ints_v_ints, ?pods_v_pods, ?pod_of_val; reflexivity.
Ltac solve_pod_val_of ty :=
  intros [| |l] Hv; [done|done|]; unfold ty in Hv; cbn [val_ok fields_ok] in Hv;
  repeat (destruct l as [|? l]; cbn [val_ok fields_ok] in Hv;
          [first [contradiction|clear Hv]|first [contradiction|destruct Hv as [? Hv]]]);
  cbn [pod_of pod_val v_nth v_seq nth];
  repeat (match goal with
      | |- VSeq _ = VSeq _ => f_equal
      | |- _ :: _ = _ :: _ => f_equal
      | |- VInt _ = _ => eapply int_val_of; eassumption
      | |- VF64 _ = _ => eapply f64_val_of; eassumption
      | |- v_ints _ = _ => eapply ints_val_of; eassumption
      | |- v_pods _ = _ => eapply pods_val_of; eassumption
      | |- pod_val _ = _ => eapply pod_val_of; eassumption
      | |- [] = [] => reflexivity
      end).
Ltac solve_ty_ok := cbn; repeat split; lia.

(** ** Values in range

    [int_in_range] at the sizes the structs use, so that the width of an
    integer expression is found by [eauto with machine pod]. *)
Arguments int_in_range : simpl never.
Arguments wrapping_add : simpl never.
Arguments saturating_add : simpl never.

Lemma int_u8 z : is_u8 z -> int_in_range 1 false z.
Proof. exact id. Qed.
Lemma int_u16 z : is_u16 z -> int_in_range 2 false z.
Proof. exact id. Qed.
Lemma int_u32 z : is_u32 z -> int_in_range 4 false z.
Proof. exact id. Qed.
Lemma int_u64 z : is_u64 z -> int_in_range 8 false z.
Proof. exact id. Qed.
Lemma int_i32 z : is_i32 z -> int_in_range 4 true z.
Proof. exact id. Qed.

Lemma ints_u8_ok l : Forall is_u8 l <-> Forall (val_ok CU8) (map VInt l).
Proof. rewrite Forall_fmap. split; intros H; (eapply Forall_impl; [exact H|]); intros z Hz; exact Hz. Qed.
Lemma ints_u64_ok l : Forall is_u64 l <-> Forall (val_ok CU64) (map VInt l).
Proof. rewrite Forall_fmap. split; intros H; (eapply Forall_impl; [exact H|]); intros z Hz; exact Hz. Qed.

Create HintDb pod.
#[export] Hint Resolve int_u8 int_u16 int_u32 int_u64 int_i32 : pod.

Lemma length_ints (l : list Z) n : length l = n -> length (map VInt l) = n.
Proof. by rewrite length_map. Qed.
Lemma ints_u8_val l : Forall is_u8 l -> Forall (val_ok CU8) (map VInt l).
Proof. apply ints_u8_ok. Qed.
Lemma ints_u64_val l : Forall is_u64 l -> Forall (val_ok CU64) (map VInt l).
Proof. apply ints_u64_ok. Qed.
#[export] Hint Resolve length_ints ints_u8_val ints_u64_val : pod.
#[export] Hint Extern 1 (int_in_range _ _ 0) => (split; vm_compute; congruence) : pod.
#[export] Hint Extern 1 (int_in_range _ _ 1) => (split; vm_compute; congruence) : pod.
Lemma zeros_u8_val n : Forall is_u8 (replicate n 0).
Proof. by apply Forall_replicate. Qed.
Lemma zeros_u64_val n : Forall is_u64 (replicate n 0).
Proof. by apply Forall_replicate. Qed.
#[export] Hint Resolve length_replicate zeros_u8_val zeros_u64_val : pod.

(** The fields of a well-formed record, one by one. *)
Ltac pod_unfold :=
  unfold pod_wf in *; cbn [pod_val pod_ty] in *; cbn -[is_u8 is_u32 is_u64 replicate] in *.
Ltac split_conj := repeat match goal with |- _ /\ _ => split end.
Ltac solve_pod :=
  pod_unfold; destruct_and?; split_conj; try exact I; try assumption; eauto 6 with machine pod.
