(* ===== verification/Pods.v ===== *)
(** The C types of the shared structs and their [Pod] instances, one per
    [#[repr(C)]] struct of [agl-health-common]; the layout facts the crate
    asserts at compile time ([metrics_v3.rs]) and the ones its documentation
    and the seqlock code rely on. *)
From S2P Require Import Prelude Float Types Layout.

Definition ProcessEvent_ty : cty := CStruct [("kind", CU32); ("pid", CU32);
  ("ppid", CU32); ("uid", CU32); ("exit_code", CI32); ("_pad", CU32);
  ("timestamp_ns", CU64); ("comm", CArr COMM_LEN CU8);
  ("filename", CArr FILENAME_LEN CU8)].
#[export, refine] Instance ProcessEvent_pod : Pod ProcessEvent := {|
  pod_ty := ProcessEvent_ty;
  pod_val x := VSeq [VInt (pe_kind x); VInt (pe_pid x); VInt (pe_ppid x); VInt (pe_uid x);
    VInt (pe_exit_code x); VInt (pe_pad x); VInt (pe_timestamp_ns x); v_ints (pe_comm x);
    v_ints (pe_filename x)];
  pod_of v := {| pe_kind := v_int (v_nth 0 v); pe_pid := v_int (v_nth 1 v);
    pe_ppid := v_int (v_nth 2 v); pe_uid := v_int (v_nth 3 v);
    pe_exit_code := v_int (v_nth 4 v); pe_pad := v_int (v_nth 5 v);
    pe_timestamp_ns := v_int (v_nth 6 v); pe_comm := ints_v (v_nth 7 v);
    pe_filename := ints_v (v_nth 8 v) |} |}.
Proof. all: [> solve_ty_ok | solve_pod_law | solve_pod_val_of ProcessEvent_ty ]. Defined.

Definition NetEvent_ty : cty := CStruct [("kind", CU32); ("family", CU16);
  ("sport", CU16); ("dport", CU16); ("drop_reason", CU16); ("old_state", CU8);
  ("new_state", CU8); ("_pad", CArr 2 CU8); ("saddr", CArr 16 CU8);
  ("daddr", CArr 16 CU8); ("timestamp_ns", CU64)].
#[export, refine] Instance NetEvent_pod : Pod NetEvent := {|
  pod_ty := NetEvent_ty;
  pod_val x := VSeq [VInt (ne_kind x); VInt (ne_family x); VInt (ne_sport x);
    VInt (ne_dport x); VInt (ne_drop_reason x); VInt (ne_old_state x);
    VInt (ne_new_state x); v_ints (ne_pad x); v_ints (ne_saddr x); v_ints (ne_daddr x);
    VInt (ne_timestamp_ns x)];
  pod_of v := {| ne_kind := v_int (v_nth 0 v); ne_family := v_int (v_nth 1 v);
    ne_sport := v_int (v_nth 2 v); ne_dport := v_int (v_nth 3 v);
    ne_drop_reason := v_int (v_nth 4 v); ne_old_state := v_int (v_nth 5 v);
    ne_new_state := v_int (v_nth 6 v); ne_pad := ints_v (v_nth 7 v);
    ne_saddr := ints_v (v_nth 8 v); ne_daddr := ints_v (v_nth 9 v);
    ne_timestamp_ns := v_int (v_nth 10 v) |} |}.
Proof. all: [> solve_ty_ok | solve_pod_law | solve_pod_val_of NetEvent_ty ]. Defined.

Definition SchedEvent_ty : cty := CStruct [("kind", CU32); ("pid", CU32); ("prio", CI32);
  ("cpu", CU32); ("timestamp_ns", CU64); ("comm", CArr COMM_LEN CU8)].
#[export, refine] Instance SchedEvent_pod : Pod SchedEvent := {|
  pod_ty := SchedEvent_ty;
  pod_val x := VSeq [VInt (se_kind x); VInt (se_pid x); VInt (se_prio x); VInt (se_cpu x);
    VInt (se_timestamp_ns x); v_ints (se_comm x)];
  pod_of v := {| se_kind := v_int (v_nth 0 v); se_pid := v_int (v_nth 1 v);
    se_prio := v_int (v_nth 2 v); se_cpu := v_int (v_nth 3 v);
    se_timestamp_ns := v_int (v_nth 4 v); se_comm := ints_v (v_nth 5 v) |} |}.
Proof. all: [> solve_ty_ok | solve_pod_law | solve_pod_val_of SchedEvent_ty ]. Defined.

Definition FileEvent_ty : cty := CStruct [("kind", CU32); ("pid", CU32); ("bytes", CI64);
  ("timestamp_ns", CU64); ("comm", CArr COMM_LEN CU8);
  ("filename", CArr FILENAME_LEN CU8)].
#[export, refine] Instance FileEvent_pod : Pod FileEvent := {|
  pod_ty := FileEvent_ty;
  pod_val x := VSeq [VInt (fe_kind x); VInt (fe_pid x); VInt (fe_bytes x);
    VInt (fe_timestamp_ns x); v_ints (fe_comm x); v_ints (fe_filename x)];
  pod_of v := {| fe_kind := v_int (v_nth 0 v); fe_pid := v_int (v_nth 1 v);
    fe_bytes := v_int (v_nth 2 v); fe_timestamp_ns := v_int (v_nth 3 v);
    fe_comm := ints_v (v_nth 4 v); fe_filename := ints_v (v_nth 5 v) |} |}.
Proof. all: [> solve_ty_ok | solve_pod_law | solve_pod_val_of FileEvent_ty ]. Defined.

Definition SecurityEvent_ty : cty := CStruct [("kind", CU32); ("pid", CU32);
  ("ppid", CU32); ("uid", CU32); ("severity", CU8); ("_pad", CArr 7 CU8); ("arg", CU64);
  ("timestamp_ns", CU64); ("comm", CArr COMM_LEN CU8);
  ("filename", CArr FILENAME_LEN CU8)].
#[export, refine] Instance SecurityEvent_pod : Pod SecurityEvent := {|
  pod_ty := SecurityEvent_ty;
  pod_val x := VSeq [VInt (sev_kind x); VInt (sev_pid x); VInt (sev_ppid x);
    VInt (sev_uid x); VInt (sev_severity x); v_ints (sev_pad x); VInt (sev_arg x);
    VInt (sev_timestamp_ns x); v_ints (sev_comm x); v_ints (sev_filename x)];
  pod_of v := {| sev_kind := v_int (v_nth 0 v); sev_pid := v_int (v_nth 1 v);
    sev_ppid := v_int (v_nth 2 v); sev_uid := v_int (v_nth 3 v);
    sev_severity := v_int (v_nth 4 v); sev_pad := ints_v (v_nth 5 v);
    sev_arg := v_int (v_nth 6 v); sev_timestamp_ns := v_int (v_nth 7 v);
    sev_comm := ints_v (v_nth 8 v); sev_filename := ints_v (v_nth 9 v) |} |}.
Proof. all: [> solve_ty_ok | solve_pod_law | solve_pod_val_of SecurityEvent_ty ]. Defined.

Definition CpuStats_ty : cty := CStruct [("cpu_id", CU32); ("_pad", CU32);
  ("user_ns", CU64); ("system_ns", CU64); ("iowait_ns", CU64); ("irq_ns", CU64);
  ("softirq_ns", CU64); ("idle_ns", CU64); ("ctx_switches", CU64)].
#[export, refine] Instance CpuStats_pod : Pod CpuStats := {|
  pod_ty := CpuStats_ty;
  pod_val x := VSeq [VInt (cpu_cpu_id x); VInt (cpu_pad x); VInt (cpu_user_ns x);
    VInt (cpu_system_ns x); VInt (cpu_iowait_ns x); VInt (cpu_irq_ns x);
    VInt (cpu_softirq_ns x); VInt (cpu_idle_ns x); VInt (cpu_ctx_switches x)];
  pod_of v := {| cpu_cpu_id := v_int (v_nth 0 v); cpu_pad := v_int (v_nth 1 v);
    cpu_user_ns := v_int (v_nth 2 v); cpu_system_ns := v_int (v_nth 3 v);
    cpu_iowait_ns := v_int (v_nth 4 v); cpu_irq_ns := v_int (v_nth 5 v);
    cpu_softirq_ns := v_int (v_nth 6 v); cpu_idle_ns := v_int (v_nth 7 v);
    cpu_ctx_switches := v_int (v_nth 8 v) |} |}.
Proof. all: [> solve_ty_ok | solve_pod_law | solve_pod_val_of CpuStats_ty ]. Defined.

Definition ProcessStats_ty : cty := CStruct [("pid", CU32); ("ppid", CU32); ("uid", CU32);
  ("thread_count", CU32); ("cpu_user_ns", CU64); ("cpu_system_ns", CU64);
  ("mem_rss_bytes", CU64); ("mem_vms_bytes", CU64); ("voluntary_ctx_sw", CU64);
  ("involuntary_ctx_sw", CU64); ("read_bytes", CU64); ("write_bytes", CU64);
  ("page_faults_minor", CU64); ("page_faults_major", CU64); ("start_time_ns", CU64);
  ("open_fds", CU32); ("_pad", CU32); ("comm", CArr COMM_LEN CU8)].
#[export, refine] Instance ProcessStats_pod : Pod ProcessStats := {|
  pod_ty := ProcessStats_ty;
  pod_val x := VSeq [VInt (ps_pid x); VInt (ps_ppid x); VInt (ps_uid x);
    VInt (ps_thread_count x); VInt (ps_cpu_user_ns x); VInt (ps_cpu_system_ns x);
    VInt (ps_mem_rss_bytes x); VInt (ps_mem_vms_bytes x); VInt (ps_voluntary_ctx_sw x);
    VInt (ps_involuntary_ctx_sw x); VInt (ps_read_bytes x); VInt (ps_write_bytes x);
    VInt (ps_page_faults_minor x); VInt (ps_page_faults_major x);
    VInt (ps_start_time_ns x); VInt (ps_open_fds x); VInt (ps_pad x); v_ints (ps_comm x)];
  pod_of v := {| ps_pid := v_int (v_nth 0 v); ps_ppid := v_int (v_nth 1 v);
    ps_uid := v_int (v_nth 2 v); ps_thread_count := v_int (v_nth 3 v);
    ps_cpu_user_ns := v_int (v_nth 4 v); ps_cpu_system_ns := v_int (v_nth 5 v);
    ps_mem_rss_bytes := v_int (v_nth 6 v); ps_mem_vms_bytes := v_int (v_nth 7 v);
    ps_voluntary_ctx_sw := v_int (v_nth 8 v); ps_involuntary_ctx_sw := v_int (v_nth 9 v);
    ps_read_bytes := v_int (v_nth 10 v); ps_write_bytes := v_int (v_nth 11 v);
    ps_page_faults_minor := v_int (v_nth 12 v);
    ps_page_faults_major := v_int (v_nth 13 v); ps_start_time_ns := v_int (v_nth 14 v);
    ps_open_fds := v_int (v_nth 15 v); ps_pad := v_int (v_nth 16 v);
    ps_comm := ints_v (v_nth 17 v) |} |}.
Proof. all: [> solve_ty_ok | solve_pod_law | solve_pod_val_of ProcessStats_ty ]. Defined.

Definition BlockStats_ty : cty := CStruct [("device_major", CU32); ("device_minor", CU32);
  ("reads_completed", CU64); ("writes_completed", CU64); ("read_bytes", CU64);
  ("write_bytes", CU64); ("read_latency_ns", CU64); ("write_latency_ns", CU64);
  ("io_inflight", CU64); ("io_ticks_ms", CU64)].
#[export, refine] Instance BlockStats_pod : Pod BlockStats := {|
  pod_ty := BlockStats_ty;
  pod_val x := VSeq [VInt (blk_device_major x); VInt (blk_device_minor x);
    VInt (blk_reads_completed x); VInt (blk_writes_completed x); VInt (blk_read_bytes x);
    VInt (blk_write_bytes x); VInt (blk_read_latency_ns x); VInt (blk_write_latency_ns x);
    VInt (blk_io_inflight x); VInt (blk_io_ticks_ms x)];
  pod_of v := {| blk_device_major := v_int (v_nth 0 v);
    blk_device_minor := v_int (v_nth 1 v); blk_reads_completed := v_int (v_nth 2 v);
    blk_writes_completed := v_int (v_nth 3 v); blk_read_bytes := v_int (v_nth 4 v);
    blk_write_bytes := v_int (v_nth 5 v); blk_read_latency_ns := v_int (v_nth 6 v);
    blk_write_latency_ns := v_int (v_nth 7 v); blk_io_inflight := v_int (v_nth 8 v);
    blk_io_ticks_ms := v_int (v_nth 9 v) |} |}.
Proof. all: [> solve_ty_ok | solve_pod_law | solve_pod_val_of BlockStats_ty ]. Defined.

Definition NetIfaceStats_ty : cty := CStruct [("iface_idx", CU32); ("_pad", CU32);
  ("rx_bytes", CU64); ("tx_bytes", CU64); ("rx_packets", CU64); ("tx_packets", CU64);
  ("rx_drops", CU64); ("tx_drops", CU64); ("rx_errors", CU64); ("tx_errors", CU64)].
#[export, refine] Instance NetIfaceStats_pod : Pod NetIfaceStats := {|
  pod_ty := NetIfaceStats_ty;
  pod_val x := VSeq [VInt (nif_iface_idx x); VInt (nif_pad x); VInt (nif_rx_bytes x);
    VInt (nif_tx_bytes x); VInt (nif_rx_packets x); VInt (nif_tx_packets x);
    VInt (nif_rx_drops x); VInt (nif_tx_drops x); VInt (nif_rx_errors x);
    VInt (nif_tx_errors x)];
  pod_of v := {| nif_iface_idx := v_int (v_nth 0 v); nif_pad := v_int (v_nth 1 v);
    nif_rx_bytes := v_int (v_nth 2 v); nif_tx_bytes := v_int (v_nth 3 v);
    nif_rx_packets := v_int (v_nth 4 v); nif_tx_packets := v_int (v_nth 5 v);
    nif_rx_drops := v_int (v_nth 6 v); nif_tx_drops := v_int (v_nth 7 v);
    nif_rx_errors := v_int (v_nth 8 v); nif_tx_errors := v_int (v_nth 9 v) |} |}.
Proof. all: [> solve_ty_ok | solve_pod_law | solve_pod_val_of NetIfaceStats_ty ]. Defined.

Definition TcpStateSnapshot_ty : cty := CStruct [("established", CU64);
  ("syn_sent", CU64); ("syn_recv", CU64); ("fin_wait1", CU64); ("fin_wait2", CU64);
  ("time_wait", CU64); ("close_wait", CU64); ("listen", CU64); ("listen_overflows", CU64);
  ("retransmits", CU64); ("resets_in", CU64); ("resets_out", CU64)].
#[export, refine] Instance TcpStateSnapshot_pod : Pod TcpStateSnapshot := {|
  pod_ty := TcpStateSnapshot_ty;
  pod_val x := VSeq [VInt (tcp_established x); VInt (tcp_syn_sent x);
    VInt (tcp_syn_recv x); VInt (tcp_fin_wait1 x); VInt (tcp_fin_wait2 x);
    VInt (tcp_time_wait x); VInt (tcp_close_wait x); VInt (tcp_listen x);
    VInt (tcp_listen_overflows x); VInt (tcp_retransmits x); VInt (tcp_resets_in x);
    VInt (tcp_resets_out x)];
  pod_of v := {| tcp_established := v_int (v_nth 0 v); tcp_syn_sent := v_int (v_nth 1 v);
    tcp_syn_recv := v_int (v_nth 2 v); tcp_fin_wait1 := v_int (v_nth 3 v);
    tcp_fin_wait2 := v_int (v_nth 4 v); tcp_time_wait := v_int (v_nth 5 v);
    tcp_close_wait := v_int (v_nth 6 v); tcp_listen := v_int (v_nth 7 v);
    tcp_listen_overflows := v_int (v_nth 8 v); tcp_retransmits := v_int (v_nth 9 v);
    tcp_resets_in := v_int (v_nth 10 v); tcp_resets_out := v_int (v_nth 11 v) |} |}.
Proof. all: [> solve_ty_ok | solve_pod_law | solve_pod_val_of TcpStateSnapshot_ty ]. Defined.

Definition SchedHistogram_ty : cty := CStruct [("buckets", CArr SCHED_HIST_BUCKETS CU64);
  ("total_count", CU64); ("total_latency_ns", CU64); ("max_latency_ns", CU64)].
#[export, refine] Instance SchedHistogram_pod : Pod SchedHistogram := {|
  pod_ty := SchedHistogram_ty;
  pod_val x := VSeq [v_ints (sh_buckets x); VInt (sh_total_count x);
    VInt (sh_total_latency_ns x); VInt (sh_max_latency_ns x)];
  pod_of v := {| sh_buckets := ints_v (v_nth 0 v); sh_total_count := v_int (v_nth 1 v);
    sh_total_latency_ns := v_int (v_nth 2 v); sh_max_latency_ns := v_int (v_nth 3 v) |} |}.
Proof. all: [> solve_ty_ok | solve_pod_law | solve_pod_val_of SchedHistogram_ty ]. Defined.

Definition MemorySnapshot_ty : cty := CStruct [("total_bytes", CU64);
  ("free_bytes", CU64); ("cached_bytes", CU64); ("buffered_bytes", CU64);
  ("slab_bytes", CU64); ("swap_used_bytes", CU64); ("swap_free_bytes", CU64);
  ("page_faults_minor", CU64); ("page_faults_major", CU64); ("psi_some_pct_x100", CU32);
  ("psi_full_pct_x100", CU32); ("oom_kills_total", CU64)].
#[export, refine] Instance MemorySnapshot_pod : Pod MemorySnapshot := {|
  pod_ty := MemorySnapshot_ty;
  pod_val x := VSeq [VInt (mem_total_bytes x); VInt (mem_free_bytes x);
    VInt (mem_cached_bytes x); VInt (mem_buffered_bytes x); VInt (mem_slab_bytes x);
    VInt (mem_swap_used_bytes x); VInt (mem_swap_free_bytes x);
    VInt (mem_page_faults_minor x); VInt (mem_page_faults_major x);
    VInt (mem_psi_some_pct_x100 x); VInt (mem_psi_full_pct_x100 x);
    VInt (mem_oom_kills_total x)];
  pod_of v := {| mem_total_bytes := v_int (v_nth 0 v);
    mem_free_bytes := v_int (v_nth 1 v); mem_cached_bytes := v_int (v_nth 2 v);
    mem_buffered_bytes := v_int (v_nth 3 v); mem_slab_bytes := v_int (v_nth 4 v);
    mem_swap_used_bytes := v_int (v_nth 5 v); mem_swap_free_bytes := v_int (v_nth 6 v);
    mem_page_faults_minor := v_int (v_nth 7 v);
    mem_page_faults_major := v_int (v_nth 8 v);
    mem_psi_some_pct_x100 := v_int (v_nth 9 v);
    mem_psi_full_pct_x100 := v_int (v_nth 10 v);
    mem_oom_kills_total := v_int (v_nth 11 v) |} |}.
Proof. all: [> solve_ty_ok | solve_pod_law | solve_pod_val_of MemorySnapshot_ty ]. Defined.

Definition CgroupNetBytes_ty : cty := CStruct [("cgroup_id", CU64); ("rx_bytes", CU64);
  ("tx_bytes", CU64); ("rx_packets", CU64); ("tx_packets", CU64);
  ("rx_internet_bytes", CU64); ("tx_internet_bytes", CU64)].
#[export, refine] Instance CgroupNetBytes_pod : Pod CgroupNetBytes := {|
  pod_ty := CgroupNetBytes_ty;
  pod_val x := VSeq [VInt (cg_cgroup_id x); VInt (cg_rx_bytes x); VInt (cg_tx_bytes x);
    VInt (cg_rx_packets x); VInt (cg_tx_packets x); VInt (cg_rx_internet_bytes x);
    VInt (cg_tx_internet_bytes x)];
  pod_of v := {| cg_cgroup_id := v_int (v_nth 0 v); cg_rx_bytes := v_int (v_nth 1 v);
    cg_tx_bytes := v_int (v_nth 2 v); cg_rx_packets := v_int (v_nth 3 v);
    cg_tx_packets := v_int (v_nth 4 v); cg_rx_internet_bytes := v_int (v_nth 5 v);
    cg_tx_internet_bytes := v_int (v_nth 6 v) |} |}.
Proof. all: [> solve_ty_ok | solve_pod_law | solve_pod_val_of CgroupNetBytes_ty ]. Defined.

Definition EventDropCounts_ty : cty := CStruct [("process", CU64); ("security", CU64);
  ("network", CU64)].
#[export, refine] Instance EventDropCounts_pod : Pod EventDropCounts := {|
  pod_ty := EventDropCounts_ty;
  pod_val x := VSeq [VInt (dc_process x); VInt (dc_security x);
    VInt (dc_network x)];
  pod_of v := {| dc_process := v_int (v_nth 0 v); dc_security := v_int (v_nth 1 v);
    dc_network := v_int (v_nth 2 v) |} |}.
Proof. all: [> solve_ty_ok | solve_pod_law | solve_pod_val_of EventDropCounts_ty ]. Defined.

Definition SecurityEventCounts_ty : cty := CStruct [("ptrace", CU64);
  ("memfd_create", CU64); ("prctl", CU64); ("setuid", CU64); ("exec_anomaly", CU64);
  ("capability_use", CU64)].
#[export, refine] Instance SecurityEventCounts_pod : Pod SecurityEventCounts := {|
  pod_ty := SecurityEventCounts_ty;
  pod_val x := VSeq [VInt (sec_ptrace x); VInt (sec_memfd_create x); VInt (sec_prctl x);
    VInt (sec_setuid x); VInt (sec_exec_anomaly x); VInt (sec_capability_use x)];
  pod_of v := {| sec_ptrace := v_int (v_nth 0 v); sec_memfd_create := v_int (v_nth 1 v);
    sec_prctl := v_int (v_nth 2 v); sec_setuid := v_int (v_nth 3 v);
    sec_exec_anomaly := v_int (v_nth 4 v); sec_capability_use := v_int (v_nth 5 v) |} |}.
Proof. all: [> solve_ty_ok | solve_pod_law | solve_pod_val_of SecurityEventCounts_ty ]. Defined.

Definition ShmHeader_ty : cty := CStruct [("magic", CU64); ("version", CU32);
  ("_pad0", CU32); ("sequence", CU64); ("timestamp_ns_wall", CU64);
  ("snapshot_size", CU32); ("_pad1", CU32); ("_reserved", CArr 24 CU8)].
#[export, refine] Instance ShmHeader_pod : Pod ShmHeader := {|
  pod_ty := ShmHeader_ty;
  pod_val x := VSeq [VInt (hdr_magic x); VInt (hdr_version x); VInt (hdr_pad0 x);
    VInt (hdr_sequence x); VInt (hdr_timestamp_ns_wall x); VInt (hdr_snapshot_size x);
    VInt (hdr_pad1 x); v_ints (hdr_reserved x)];
  pod_of v := {| hdr_magic := v_int (v_nth 0 v); hdr_version := v_int (v_nth 1 v);
    hdr_pad0 := v_int (v_nth 2 v); hdr_sequence := v_int (v_nth 3 v);
    hdr_timestamp_ns_wall := v_int (v_nth 4 v); hdr_snapshot_size := v_int (v_nth 5 v);
    hdr_pad1 := v_int (v_nth 6 v); hdr_reserved := ints_v (v_nth 7 v) |} |}.
Proof. all: [> solve_ty_ok | solve_pod_law | solve_pod_val_of ShmHeader_ty ]. Defined.

Definition SchedSnapshotFixed_ty : cty := CStruct [("histogram", SchedHistogram_ty);
  ("p50_ns", CU64); ("p95_ns", CU64); ("p99_ns", CU64)].
#[export, refine] Instance SchedSnapshotFixed_pod : Pod SchedSnapshotFixed := {|
  pod_ty := SchedSnapshotFixed_ty;
  pod_val x := VSeq [pod_val (ssf_histogram x); VInt (ssf_p50_ns x); VInt (ssf_p95_ns x);
    VInt (ssf_p99_ns x)];
  pod_of v := {| ssf_histogram := pod_of (v_nth 0 v); ssf_p50_ns := v_int (v_nth 1 v);
    ssf_p95_ns := v_int (v_nth 2 v); ssf_p99_ns := v_int (v_nth 3 v) |} |}.
Proof. all: [> solve_ty_ok | solve_pod_law | solve_pod_val_of SchedSnapshotFixed_ty ]. Defined.

Definition LoadSnapshotFixed_ty : cty := CStruct [("load_1", CF64); ("load_5", CF64);
  ("load_15", CF64)].
#[export, refine] Instance LoadSnapshotFixed_pod : Pod LoadSnapshotFixed := {|
  pod_ty := LoadSnapshotFixed_ty;
  pod_val x := VSeq [VF64 (lsf_load_1 x); VF64 (lsf_load_5 x); VF64 (lsf_load_15 x)];
  pod_of v := {| lsf_load_1 := v_f64 (v_nth 0 v); lsf_load_5 := v_f64 (v_nth 1 v);
    lsf_load_15 := v_f64 (v_nth 2 v) |} |}.
Proof. all: [> solve_ty_ok | solve_pod_law | solve_pod_val_of LoadSnapshotFixed_ty ]. Defined.

Definition MetricSnapshotV3_ty : cty := CStruct [("header", ShmHeader_ty);
  ("memory", MemorySnapshot_ty); ("load", LoadSnapshotFixed_ty);
  ("sched", SchedSnapshotFixed_ty); ("tcp", TcpStateSnapshot_ty);
  ("security", SecurityEventCounts_ty); ("cpu_core_count", CU32); ("_pad_cpu", CU32);
  ("cpu_cores", CArr V3_MAX_CPU_CORES CpuStats_ty); ("net_iface_count", CU32);
  ("_pad_net", CU32); ("net_ifaces", CArr V3_MAX_NET_IFACES NetIfaceStats_ty);
  ("block_dev_count", CU32); ("_pad_blk", CU32);
  ("block_devs", CArr V3_MAX_BLOCK_DEVS BlockStats_ty); ("process_count", CU32);
  ("_pad_proc", CU32); ("top_processes", CArr V3_MAX_PROCESSES ProcessStats_ty);
  ("sched_cpu_count", CU32); ("_pad_sched_cpu", CU32);
  ("sched_per_cpu", CArr V3_MAX_CPU_CORES SchedSnapshotFixed_ty)].
#[export, refine] Instance MetricSnapshotV3_pod : Pod MetricSnapshotV3 := {|
  pod_ty := MetricSnapshotV3_ty;
  pod_val x := VSeq [pod_val (v3_header x); pod_val (v3_memory x); pod_val (v3_load x);
    pod_val (v3_sched x); pod_val (v3_tcp x); pod_val (v3_security x);
    VInt (v3_cpu_core_count x); VInt (v3_pad_cpu x); v_pods (v3_cpu_cores x);
    VInt (v3_net_iface_count x); VInt (v3_pad_net x); v_pods (v3_net_ifaces x);
    VInt (v3_block_dev_count x); VInt (v3_pad_blk x); v_pods (v3_block_devs x);
    VInt (v3_process_count x); VInt (v3_pad_proc x); v_pods (v3_top_processes x);
    VInt (v3_sched_cpu_count x); VInt (v3_pad_sched_cpu x); v_pods (v3_sched_per_cpu x)];
  pod_of v := {| v3_header := pod_of (v_nth 0 v); v3_memory := pod_of (v_nth 1 v);
    v3_load := pod_of (v_nth 2 v); v3_sched := pod_of (v_nth 3 v);
    v3_tcp := pod_of (v_nth 4 v); v3_security := pod_of (v_nth 5 v);
    v3_cpu_core_count := v_int (v_nth 6 v); v3_pad_cpu := v_int (v_nth 7 v);
    v3_cpu_cores := pods_v (v_nth 8 v); v3_net_iface_count := v_int (v_nth 9 v);
    v3_pad_net := v_int (v_nth 10 v); v3_net_ifaces := pods_v (v_nth 11 v);
    v3_block_dev_count := v_int (v_nth 12 v); v3_pad_blk := v_int (v_nth 13 v);
    v3_block_devs := pods_v (v_nth 14 v); v3_process_count := v_int (v_nth 15 v);
    v3_pad_proc := v_int (v_nth 16 v); v3_top_processes := pods_v (v_nth 17 v);
    v3_sched_cpu_count := v_int (v_nth 18 v); v3_pad_sched_cpu := v_int (v_nth 19 v);
    v3_sched_per_cpu := pods_v (v_nth 20 v) |} |}.
Proof. all: [> solve_ty_ok | solve_pod_law | solve_pod_val_of MetricSnapshotV3_ty ]. Defined.


(** ** Layout facts *)

(** [MetricSnapshotV3::SIZE]. *)
Definition SIZE : Z := size_of MetricSnapshotV3.

(** [ShmHeader::new()]. *)
Definition ShmHeader_new : ShmHeader :=
  {| hdr_magic := SHM_MAGIC; hdr_version := SHM_VERSION; hdr_pad0 := 0; hdr_sequence := 0;
     hdr_timestamp_ns_wall := 0; hdr_snapshot_size := as_u32 SIZE; hdr_pad1 := 0;
     hdr_reserved := replicate 24 0 |}.

