(* ===== verification/Seqlock.v ===== *)
(** The seqlock over the shared segment: [ShmPublisher::create/init_empty/publish]
    of [shm.rs] and [seqlock_read] of [bin/shm_dump.rs], run concurrently.

    The segment is a list of bytes.  [publish] is the writer as a function;
    [exec] is one atomic action of the writer or of the reader, so that every
    interleaving of the two is a list of actions.  The 64-bit accesses to the
    sequence word are atomic; the two [memcpy]s are single-byte moves in any
    order.  The memory is sequentially consistent here; [Weak.v] has the orderings
    and the fence of the code. *)
From S2P Require Import Prelude Float Types Layout Pods.

(** ** Offsets *)

(** [offset_of!(MetricSnapshotV3, header) + offset_of!(ShmHeader, sequence)]. *)
Definition SEQ_OFFSET : nat :=
  Z.to_nat (default 0 (offset_of MetricSnapshotV3_ty "header")
            + default 0 (offset_of ShmHeader_ty "sequence")).
Definition SEQ_SIZE : nat := 8.
Definition POST_SEQ_OFFSET : nat := (SEQ_OFFSET + SEQ_SIZE)%nat.

Lemma SEQ_OFFSET_eq : SEQ_OFFSET = 16%nat.
Proof. reflexivity. Qed.
Lemma POST_SEQ_OFFSET_eq : POST_SEQ_OFFSET = 24%nat.
Proof. reflexivity. Qed.

(** ** Memory *)

(** Storing the low [n] bytes of [v] at [off], little-endian. *)
Definition store_le (n : nat) (m : list Z) (off : nat) (v : Z) : list Z :=
  take off m ++ le_bytes n v ++ drop (off + n) m.
Definition load_u64 (m : list Z) (off : nat) : Z := le_value (take 8 (drop off m)).
(** [copy_nonoverlapping(src + off, dst + off, n)]. *)
Definition blit (src dst : list Z) (off n : nat) : list Z :=
  take off dst ++ take n (drop off src) ++ drop (off + n) dst.

Definition store_seq (m : list Z) (v : Z) : list Z := store_le 8 m SEQ_OFFSET v.
Definition load_seq (m : list Z) : Z := load_u64 m SEQ_OFFSET.

(** The byte belongs to the body: the [memcpy]s skip the sequence word. *)
Definition in_body (i : nat) : bool := (i <? SEQ_OFFSET)%nat || (POST_SEQ_OFFSET <=? i)%nat.

(** ** State *)

Record ShmPublisher := { shm_mmap : list Z; shm_local_seq : Z }.

(** The reader's program points: the head of the [attempt]-th iteration, the
    copy (with the offsets still to copy), and the two ways out.  [ROk] keeps
    the [seq1] of the accepted attempt beside the returned bytes. *)
Definition RETRY_BUDGET : nat := 1024.

Inductive reader :=
  | RLoop (attempt : nat) (out : list Z)
  | RCopy (attempt : nat) (seq1 : Z) (todo : list nat) (out : list Z)
  | ROk (seq1 : Z) (out : list Z)
  | RBudget.

Inductive phase := WIdle | WCopying (snap : list Z) (todo : list nat).

(** [pub] records, oldest first, the snapshots whose [publish] completed. *)
Record sys := {
  mem : list Z; local_seq : Z; wphase : phase; pub : list (list Z); rd : reader }.
#[export] Instance eta_sys : Eta sys := fun r =>
  Build_sys (mem r) (local_seq r) (wphase r) (pub r) (rd r).

Inductive act :=
  | WBegin (snap : list Z) | WByte (i : nat) | WEnd
  | RSeq1 | RByte (i : nat) | RSeq2.

Section Segment.
(** The length of the mapping ([MetricSnapshotV3::SIZE]). *)
Variable size : nat.

(** *** The writer *)

(** [init_empty]: all zero, then magic, version and [snapshot_size]. *)
Definition init_empty : list Z :=
  let m := replicate size 0 in
  let m := store_le 8 m 0 SHM_MAGIC in
  let m := store_le 4 m 8 SHM_VERSION in
  store_le 4 m 32 (as_u32 (Z.of_nat size)).

(** [create], once the file operations have succeeded. *)
Definition create : ShmPublisher := {| shm_mmap := init_empty; shm_local_seq := 0 |}.

Definition publish (p : ShmPublisher) (snap : list Z) : ShmPublisher :=
  let s1 := wrapping_add (shm_local_seq p) 1 in
  let m := store_seq (shm_mmap p) s1 in
  let m := blit snap m 0 SEQ_OFFSET in
  let m := blit snap m POST_SEQ_OFFSET (size - POST_SEQ_OFFSET) in
  let s2 := wrapping_add s1 1 in
  {| shm_mmap := store_seq m s2; shm_local_seq := s2 |}.

(** *** The reader *)

(** The head of the loop body: [for attempt in 0..RETRY_BUDGET], the first
    load, and the odd test. *)
Definition after_seq1 (attempt : nat) (seq1 : Z) (out : list Z) : reader :=
  if (attempt <? RETRY_BUDGET)%nat then
    if negb (Z.land seq1 1 =? 0) then RLoop (S attempt) out
    else RCopy attempt seq1 (seq 0 size) out
  else RBudget.

(** The tail of the loop body, after the second load. *)
Definition after_seq2 (attempt : nat) (seq1 seq2 : Z) (out : list Z) : reader :=
  if (seq1 =? seq2) && negb (seq1 =? 0) then ROk seq1 out
  else if (seq1 =? 0) && (4 <? attempt)%nat then ROk seq1 out
  else RLoop (S attempt) out.

(** *** One writer and one reader *)

Definition body_offsets : list nat := filter in_body (seq 0 size).
Definition without (i : nat) (l : list nat) : list nat := filter (fun j => j <> i) l.

(** One atomic action; [None] when it is not enabled. *)
Definition exec (a : act) (s : sys) : option sys :=
  match a, wphase s, rd s with
  | WBegin snap, WIdle, _ =>
      if (length snap =? size)%nat then
        let s1 := wrapping_add (local_seq s) 1 in
        Some (s <| local_seq := s1 |> <| mem ::= fun m => store_seq m s1 |>
                <| wphase := WCopying snap body_offsets |>)
      else None
  | WByte i, WCopying snap todo, _ =>
      if bool_decide (i ∈ todo) then
        Some (s <| mem ::= <[i := nth i snap 0]> |> <| wphase := WCopying snap (without i todo) |>)
      else None
  | WEnd, WCopying snap [], _ =>
      let s2 := wrapping_add (local_seq s) 1 in
      Some (s <| local_seq := s2 |> <| mem ::= fun m => store_seq m s2 |>
              <| wphase := WIdle |> <| pub ::= fun l => l ++ [snap] |>)
  | RSeq1, _, RLoop attempt out => Some (s <| rd := after_seq1 attempt (load_seq (mem s)) out |>)
  | RByte i, _, RCopy attempt seq1 todo out =>
      if bool_decide (i ∈ todo) then
        Some (s <| rd := RCopy attempt seq1 (without i todo) (<[i := nth i (mem s) 0]> out) |>)
      else None
  | RSeq2, _, RCopy attempt seq1 [] out =>
      Some (s <| rd := after_seq2 attempt seq1 (load_seq (mem s)) out |>)
  | _, _, _ => None
  end.

Definition step (s s' : sys) : Prop := exists a, exec a s = Some s'.

(** The daemon has created the segment; the reader enters [seqlock_read]
    with [out = MetricSnapshotV3::zeroed()]. *)
Definition start : sys :=
  {| mem := shm_mmap create; local_seq := shm_local_seq create; wphase := WIdle; pub := [];
     rd := RLoop 0 (replicate size 0) |}.

Fixpoint run (l : list act) (s : sys) : option sys :=
  match l with
  | [] => Some s
  | a :: l' => match exec a s with Some s' => run l' s' | None => None end
  end.

Lemma run_rtc l s s' : run l s = Some s' -> rtc step s s'.
Proof.
  revert s. induction l as [|a l IH]; intros s H; simpl in H; [by simplify_eq; apply rtc_refl|].
  destruct (exec a s) as [s1|] eqn:E; [|done]. eapply rtc_l; [by exists a|]. by apply IH.
Qed.
End Segment.

(** ** Memory lemmas *)

Lemma length_store_le n m off v :
  (off + n <= length m)%nat -> length (store_le n m off v) = length m.
Proof.
  intros. unfold store_le. rewrite !length_app, length_take, length_le_bytes, length_drop. lia.
Qed.

Lemma lookup_store_le_out n m off v i :
  (off + n <= length m)%nat -> (i < off \/ off + n <= i)%nat -> store_le n m off v !! i = m !! i.
Proof.
  intros Hl [Hi|Hi]; unfold store_le.
  - rewrite lookup_app_l, lookup_take_lt by (rewrite ?length_take; lia). done.
  - rewrite lookup_app_r, lookup_app_r, lookup_drop;
      rewrite ?length_take, ?length_le_bytes, ?length_take; try lia.
    f_equal. lia.
Qed.

Lemma load_store n m off v :
  (off + n <= length m)%nat -> take n (drop off (store_le n m off v)) = le_bytes n v.
Proof.
  intros. unfold store_le. rewrite drop_app_length' by (rewrite length_take; lia).
  apply take_app_length'. by rewrite length_le_bytes.
Qed.

Lemma load_seq_store m v : (24 <= length m)%nat -> is_u64 v -> load_seq (store_seq m v) = v.
Proof.
  intros Hl Hv. unfold load_seq, load_u64, store_seq.
  rewrite load_store by (rewrite SEQ_OFFSET_eq; lia).
  rewrite le_value_bytes. by apply Z.mod_small.
Qed.

Lemma length_store_seq m v : (24 <= length m)%nat -> length (store_seq m v) = length m.
Proof. intros. apply length_store_le. rewrite SEQ_OFFSET_eq. lia. Qed.

Lemma in_body_spec i : in_body i = true <-> (i < 16 \/ 24 <= i)%nat.
Proof.
  unfold in_body. rewrite SEQ_OFFSET_eq, POST_SEQ_OFFSET_eq, orb_true_iff.
  by rewrite Nat.ltb_lt, Nat.leb_le.
Qed.

Lemma lookup_store_seq_body m v i :
  (24 <= length m)%nat -> in_body i = true -> store_seq m v !! i = m !! i.
Proof.
  intros Hl Hi. apply in_body_spec in Hi. apply lookup_store_le_out; rewrite SEQ_OFFSET_eq; lia.
Qed.

Lemma lookup_nth_lt (l : list Z) i : (i < length l)%nat -> l !! i = Some (nth i l 0).
Proof. intros. destruct (nth_lookup_or_length l i 0); [done|lia]. Qed.

(** The word as the bytes it is made of. *)
Definition seq_bytes (m : list Z) : list Z := take 8 (drop SEQ_OFFSET m).

Lemma seq_bytes_store m v : (24 <= length m)%nat -> seq_bytes (store_seq m v) = le_bytes 8 v.
Proof. intros. apply load_store. rewrite SEQ_OFFSET_eq. lia. Qed.

(** Two segments with the same body and the same word are the same. *)
Lemma segment_ext m1 m2 :
  length m1 = length m2 -> (24 <= length m1)%nat -> seq_bytes m1 = seq_bytes m2 ->
  (forall i, (i < length m1)%nat -> in_body i = true -> m1 !! i = m2 !! i) -> m1 = m2.
Proof.
  intros Hlen Hl Hseq Hbody. apply list_eq_same_length with (length m1); [done|done|].
  intros i x y Hi H1 H2. enough (m1 !! i = m2 !! i) by congruence.
  destruct (in_body i) eqn:E; [by apply Hbody|].
  assert (16 <= i < 24)%nat as Hr.
  { destruct (decide (16 <= i < 24)%nat) as [|Hn]; [done|].
    enough (in_body i = true) by congruence. apply in_body_spec. lia. }
  assert (forall m : list Z, m !! i = seq_bytes m !! (i - 16)%nat) as Hm; [|by rewrite !Hm, Hseq].
  intros m. unfold seq_bytes. rewrite lookup_take_lt, lookup_drop, SEQ_OFFSET_eq by lia.
  f_equal. lia.
Qed.

Lemma le_bytes_store_seq_bytes m v :
  (24 <= length m)%nat -> seq_bytes m = le_bytes 8 v -> is_u64 v -> load_seq m = v.
Proof.
  intros Hl E Hv. unfold load_seq, load_u64. fold (seq_bytes m). rewrite E, le_value_bytes.
  by apply Z.mod_small.
Qed.

Lemma elem_of_without i j l : i ∈ without j l <-> i <> j /\ i ∈ l.
Proof. unfold without. by rewrite list_elem_of_filter. Qed.

Lemma without_cons i l : NoDup (i :: l) -> without i (i :: l) = l.
Proof.
  intros [Hi Hl]%NoDup_cons. unfold without. rewrite filter_cons_False by auto.
  clear Hl. induction l as [|j l IH]; [done|].
  rewrite filter_cons_True by set_solver. f_equal. apply IH. set_solver.
Qed.

Lemma length_without i l : i ∈ l -> (length (without i l) < length l)%nat.
Proof.
  intros Hi. apply (length_filter_lt _ _ i Hi). auto.
Qed.

Lemma land_1_even z : Z.land z 1 = 0 <-> Z.even z = true.
Proof.
  change 1 with (Z.ones 1). rewrite Z.land_ones by lia. rewrite Zmod_even.
  destruct (Z.even z); split; done.
Qed.

(** ** The invariant *)

(** What the segment holds after the [k]-th completed [publish] (from 0): the
    snapshot with the sequence word [2 * (k + 1)]. *)
Definition image (k : nat) (snap : list Z) : list Z := store_seq snap (2 * (Z.of_nat k + 1)).

(** The returned bytes are a published image, the one [seq1] numbers. *)
Definition published (s : sys) (seq1 : Z) (out : list Z) : Prop :=
  exists k snap, pub s !! k = Some snap /\ seq1 = 2 * (Z.of_nat k + 1) /\ out = image k snap.

Section Invariant.
Context (size : nat) (Hsize : (64 <= size)%nat).

(** The sequence counter has not wrapped: fewer than 2^63 publishes. *)
Definition no_wrap (s : sys) : Prop := 2 * Z.of_nat (length (pub s)) + 1 < 2 ^ 64.

Definition agree (todo : list nat) (m1 m2 : list Z) : Prop :=
  forall i, (i < size)%nat -> i ∉ todo -> m1 !! i = m2 !! i.

Definition phase_inv (s : sys) : Prop :=
  match wphase s with
  | WIdle =>
      local_seq s = 2 * Z.of_nat (length (pub s))
      /\ forall snap, last (pub s) = Some snap ->
           forall i, (i < size)%nat -> in_body i = true -> mem s !! i = snap !! i
  | WCopying snap todo =>
      local_seq s = 2 * Z.of_nat (length (pub s)) + 1 /\ length snap = size
      /\ (forall i, i ∈ todo -> in_body i = true /\ (i < size)%nat)
      /\ forall i, (i < size)%nat -> in_body i = true -> i ∉ todo -> mem s !! i = snap !! i
  end.

Definition reader_inv (s : sys) : Prop :=
  match rd s with
  | RLoop _ out => length out = size
  | RCopy _ seq1 todo out =>
      length out = size /\ Z.even seq1 = true /\ seq1 <= local_seq s
      /\ (seq1 = local_seq s -> agree todo out (mem s))
  | ROk seq1 out => seq1 <> 0 -> published s seq1 out
  | RBudget => True
  end.

Record inv (s : sys) : Prop := {
  inv_len : length (mem s) = size;
  inv_word : seq_bytes (mem s) = le_bytes 8 (local_seq s);
  inv_u64 : is_u64 (local_seq s);
  inv_pub : Forall (fun p => length p = size) (pub s);
  inv_phase : phase_inv s;
  inv_reader : reader_inv s }.

Lemma inv_load s : inv s -> load_seq (mem s) = local_seq s.
Proof. intros []. apply le_bytes_store_seq_bytes; [lia|done|done]. Qed.

Lemma init_empty_stores :
  exists m0 m1, init_empty size = store_le 4 m1 32 (as_u32 (Z.of_nat size))
    /\ m1 = store_le 4 m0 8 SHM_VERSION /\ m0 = store_le 8 (replicate size 0) 0 SHM_MAGIC
    /\ length m0 = size /\ length m1 = size /\ length (init_empty size) = size.
Proof.
  eexists _, _. split; [done|split; [done|split; [done|]]].
  assert (length (store_le 8 (replicate size 0) 0 SHM_MAGIC) = size) as E0.
  { rewrite length_store_le; rewrite length_replicate; lia. }
  assert (length (store_le 4 (store_le 8 (replicate size 0) 0 SHM_MAGIC) 8 SHM_VERSION) = size) as E1.
  { rewrite length_store_le; lia. }
  split; [done|split; [done|]]. unfold init_empty. rewrite length_store_le; lia.
Qed.
Lemma length_init_empty : length (init_empty size) = size.
Proof. by destruct init_empty_stores as (? & ? & ? & ? & ? & ? & ? & ?). Qed.

Lemma inv_start : inv (start size).
Proof.
  constructor; cbn; try done.
  - apply length_init_empty.
  - apply list_eq_same_length with 8%nat.
    + done.
    + unfold seq_bytes. rewrite length_take, length_drop, length_init_empty, SEQ_OFFSET_eq. lia.
    + intros i x y Hi Hx Hy. unfold seq_bytes in Hx.
      rewrite lookup_take_lt, lookup_drop, SEQ_OFFSET_eq in Hx by lia.
      destruct init_empty_stores as (m0 & m1 & E & -> & -> & E0 & E1 & _).
      rewrite E, !lookup_store_le_out in Hx by (rewrite ?length_replicate; lia).
      apply lookup_replicate in Hx as [-> _].
      do 8 (destruct i as [|i]; [by injection Hy|]). lia.
  - unfold reader_inv. cbn. apply length_replicate.
Qed.

(** *** Preservation, one action at a time *)

Lemma wrapping_add_1 s : inv s -> local_seq s + 1 < 2 ^ 64 -> wrapping_add (local_seq s) 1 = local_seq s + 1.
Proof. intros [_ _ [? ?] _ _ _] ?. apply wrapping_add_exact. lia. Qed.

(** The writer bumps the word: whatever the reader was doing survives. *)
Lemma reader_inv_bump s s' :
  inv s -> rd s' = rd s -> pub s `prefix_of` pub s' -> local_seq s < local_seq s' ->
  reader_inv s'.
Proof.
  intros [_ _ _ _ _ Hr] E [l El] Hlt. unfold reader_inv in *. rewrite E.
  destruct (rd s) as [a out|a q todo out|q out|]; try done.
  - destruct Hr as (? & ? & ? & ?). split; [done|split; [done|split; [lia|intros; lia]]].
  - intros Hq. destruct (Hr Hq) as (k & snap & Hk & ?). exists k, snap. split; [|done].
    rewrite El. by apply lookup_app_l_Some.
Qed.

Lemma body_offsets_spec i : i ∈ body_offsets size <-> in_body i = true /\ (i < size)%nat.
Proof.
  unfold body_offsets. rewrite list_elem_of_filter, elem_of_seq, Is_true_true.
  split; intros [? ?]; (split; [done|lia]).
Qed.

Lemma inv_WBegin s s' snap :
  inv s -> no_wrap s' -> exec size (WBegin snap) s = Some s' -> inv s'.
Proof.
  intros Hi Hw H. pose proof (inv_phase s Hi) as Hp. unfold phase_inv in Hp. cbn in H.
  destruct (wphase s) as [|? ?] eqn:E; [|done].
  destruct (Nat.eqb_spec (length snap) size); [|done]. simplify_eq/=.
  unfold no_wrap in Hw. cbn in Hw. destruct Hp as [Hq _].
  rewrite wrapping_add_1 by (done || lia). pose proof (inv_len s Hi) as Hlen.
  constructor; cbn.
  - rewrite length_store_seq; lia.
  - apply seq_bytes_store. lia.
  - unfold is_u64. destruct (inv_u64 s Hi). lia.
  - apply Hi.
  - unfold phase_inv. cbn. split; [lia|split; [done|split]].
    + intros i. apply body_offsets_spec.
    + intros i Hs Hb Hn. destruct Hn. by apply body_offsets_spec.
  - eapply (reader_inv_bump s); [done|done|done|cbn; lia].
Qed.

Lemma inv_WByte s s' i : inv s -> exec size (WByte i) s = Some s' -> inv s'.
Proof.
  intros Hi H. destruct Hi as [Hlen Hw Hu Hpub Hp Hr]. unfold phase_inv in Hp. cbn in H.
  destruct (wphase s) as [|snap todo] eqn:E; [done|].
  case_bool_decide as Hin; [|done]. simplify_eq/=.
  destruct Hp as (Hq & Hsnap & Htodo & Hm). destruct (Htodo i Hin) as [Hb Hs].
  assert (forall j, in_body j = false -> <[i:=nth i snap 0]> (mem s) !! j = mem s !! j) as Hword.
  { intros j Hj. apply list_lookup_insert_ne. congruence. }
  constructor; cbn; try done.
  - by rewrite length_insert.
  - rewrite <- Hw. unfold seq_bytes. apply list_eq. intros j.
    destruct (decide (j < 8)%nat); [|rewrite !lookup_take_ge by lia; done].
    rewrite !lookup_take_lt, !lookup_drop by lia. apply Hword.
    destruct (in_body (SEQ_OFFSET + j)) eqn:Ej; [|done].
    apply in_body_spec in Ej. rewrite SEQ_OFFSET_eq in Ej. lia.
  - unfold phase_inv. cbn. split; [done|split; [done|split]].
    + intros j Hj. apply elem_of_without in Hj as [_ Hj]. by apply Htodo.
    + intros j Hj Hjb Hn. destruct (decide (i = j)) as [->|Hne].
      * rewrite list_lookup_insert_eq by lia.
        symmetry. apply lookup_nth_lt. lia.
      * rewrite list_lookup_insert_ne by done. apply Hm; [done..|].
        intros Hin'. apply Hn. apply elem_of_without. split; congruence.
  - unfold reader_inv in *. cbn. destruct (rd s) as [a out|a q todo' out|q out|]; try done.
    destruct Hr as (? & He & ? & _). split; [done|split; [done|split; [done|]]].
    intros ->. exfalso. by rewrite Hq, Z.add_comm, Z.even_add_mul_2 in He.
Qed.

Lemma inv_WEnd s s' : inv s -> no_wrap s' -> exec size WEnd s = Some s' -> inv s'.
Proof.
  intros Hi Hw H. pose proof (inv_phase s Hi) as Hp. unfold phase_inv in Hp. cbn in H.
  destruct (wphase s) as [|snap [|]] eqn:E; [done| |done]. simplify_eq/=.
  unfold no_wrap in Hw. cbn in Hw. destruct Hp as (Hq & Hsnap & _ & Hm).
  rewrite length_app in Hw. cbn in Hw.
  rewrite wrapping_add_1 by (done || lia). pose proof (inv_len s Hi) as Hlen.
  constructor; cbn.
  - rewrite length_store_seq; lia.
  - apply seq_bytes_store. lia.
  - unfold is_u64. destruct (inv_u64 s Hi). lia.
  - apply Forall_app. split; [apply Hi|by repeat constructor].
  - unfold phase_inv. cbn. split; [rewrite length_app; cbn; lia|].
    intros snap'. rewrite last_snoc. intros [= <-] i Hs Hb.
    rewrite lookup_store_seq_body by (done || lia). apply Hm; [done..|set_solver].
  - eapply (reader_inv_bump s); [done|done|by apply prefix_app_r|cbn; lia].
Qed.

Lemma inv_RSeq1 s s' : inv s -> exec size RSeq1 s = Some s' -> inv s'.
Proof.
  intros Hi H. pose proof (inv_load s Hi) as Hl. pose proof (inv_reader s Hi) as Hr.
  unfold reader_inv in Hr. cbn in H.
  destruct (rd s) as [a out|a q todo out|q out|] eqn:E;
    try done. injection H as <-.
  destruct Hi as [Hlen Hw Hu Hpub Hp _]. constructor; try done.
  unfold reader_inv. cbn. unfold after_seq1. rewrite Hl.
  destruct (a <? RETRY_BUDGET)%nat; [|done].
  destruct (Z.land (local_seq s) 1 =? 0) eqn:El; cbn; [|done].
  split; [done|]. apply Z.eqb_eq, land_1_even in El. split; [done|split; [lia|]].
  intros _ i Hs Hn. destruct Hn. apply elem_of_seq. lia.
Qed.

Lemma inv_RByte s s' i : inv s -> exec size (RByte i) s = Some s' -> inv s'.
Proof.
  intros Hi H. pose proof (inv_reader s Hi) as Hr. unfold reader_inv in Hr. cbn in H.
  destruct (rd s) as [a out|a q todo out|q out|] eqn:E;
    try done.
  case_bool_decide as Hin; [|done]. injection H as <-.
  destruct Hi as [Hlen Hw Hu Hpub Hp _]. constructor; try done.
  unfold reader_inv. cbn. destruct Hr as (Hout & He & Hle & Hag).
  rewrite length_insert. split; [done|split; [done|split; [done|]]].
  intros Hq j Hj Hn. specialize (Hag Hq). destruct (decide (i = j)) as [->|Hne].
  - rewrite list_lookup_insert_eq by lia. symmetry. apply lookup_nth_lt. lia.
  - rewrite list_lookup_insert_ne by done. apply Hag; [done|].
    intros Hj'. apply Hn. apply elem_of_without. split; congruence.
Qed.

(** An even word means an idle writer, whose last snapshot is in memory. *)
Lemma even_image s :
  inv s -> Z.even (local_seq s) = true -> local_seq s <> 0 -> published s (local_seq s) (mem s).
Proof.
  intros [Hlen Hw Hu Hpub Hp _] He H0. unfold phase_inv in Hp.
  destruct (wphase s) as [|snap todo].
  2:{ destruct Hp as [Hq _]. by rewrite Hq, Z.add_comm, Z.even_add_mul_2 in He. }
  destruct Hp as [Hq Hm]. destruct (last (pub s)) as [snap|] eqn:El.
  2:{ apply last_None in El. rewrite El in Hq. cbn in Hq. lia. }
  rewrite last_lookup in El. exists (pred (length (pub s))), snap.
  assert (length (pub s) <> 0%nat) by (destruct (pub s); done).
  assert (length snap = size) as Hsnap.
  { rewrite Forall_lookup in Hpub. by apply (Hpub (pred (length (pub s)))). }
  split; [done|split; [lia|]]. unfold image.
  replace (Z.of_nat (pred (length (pub s))) + 1) with (Z.of_nat (length (pub s))) by lia.
  rewrite <- Hq. apply segment_ext.
  - rewrite length_store_seq; lia.
  - lia.
  - rewrite Hw, seq_bytes_store by lia. done.
  - intros i Hi Hb. rewrite lookup_store_seq_body by (done || lia). by apply Hm; [|lia|].
Qed.

Lemma inv_RSeq2 s s' : inv s -> exec size RSeq2 s = Some s' -> inv s'.
Proof.
  intros Hi H. pose proof (inv_load s Hi) as Hl. pose proof (inv_reader s Hi) as Hr.
  unfold reader_inv in Hr. cbn in H.
  destruct (rd s) as [a out|a q [|] out|q out|] eqn:E;
    try done. injection H as <-.
  destruct Hr as (Hout & He & Hle & Hag). pose proof (even_image s Hi) as Him.
  destruct Hi as [Hlen Hw Hu Hpub Hp _]. constructor; try done.
  unfold reader_inv. cbn. unfold after_seq2. rewrite Hl.
  destruct (Z.eqb_spec q (local_seq s)) as [Hq|Hq]; destruct (Z.eqb_spec q 0) as [H0|H0];
    cbn [andb negb]; try (destruct (4 <? a)%nat; [by intros ?|done]); [|done].
  intros _. assert (out = mem s) as ->; [|subst q; apply Him; done].
  apply list_eq_same_length with size; [done|done|].
  intros i x y Hlt Hx Hy. specialize (Hag Hq i Hlt ltac:(set_solver)). congruence.
Qed.

(** *** Reachable states *)

Lemma no_wrap_step s s' : step size s s' -> no_wrap s' -> no_wrap s.
Proof.
  intros [a H] Hw. unfold no_wrap in *.
  enough (length (pub s) <= length (pub s'))%nat by lia.
  destruct a; cbn in H; repeat case_match; simplify_eq/=; rewrite ?length_app; lia.
Qed.

Lemma inv_step s s' : inv s -> step size s s' -> no_wrap s' -> inv s'.
Proof.
  intros Hi [a H] Hw. destruct a.
  - by eapply inv_WBegin.
  - by eapply inv_WByte.
  - by eapply inv_WEnd.
  - by eapply inv_RSeq1.
  - by eapply inv_RByte.
  - by eapply inv_RSeq2.
Qed.

Lemma inv_reachable s : rtc (step size) (start size) s -> no_wrap s -> inv s.
Proof.
  intros H. remember (start size) as s0 eqn:E0. assert (inv s0) as Hi by (subst; apply inv_start).
  clear E0. revert Hi. induction H as [|s0 s1 s Hs H IH]; intros Hi Hw; [done|].
  apply IH; [|done]. apply (inv_step s0); [done|done|].
  clear IH Hi Hs. induction H; [done|]. eapply no_wrap_step; eauto.
Qed.

(** A read that returns through the normal exit is never torn. *)
Lemma read_published s seq1 out :
  rtc (step size) (start size) s -> no_wrap s -> rd s = ROk seq1 out -> seq1 <> 0 ->
  published s seq1 out.
Proof.
  intros H Hw E. pose proof (inv_reader s (inv_reachable s H Hw)) as Hr.
  unfold reader_inv in Hr. by rewrite E in Hr.
Qed.
End Invariant.

(** ** [publish] as a function and as a schedule *)

Definition is_reader_act (a : act) : bool :=
  match a with RSeq1 | RByte _ | RSeq2 => true | _ => false end.

Section Sequential.
Context (size : nat) (Hsize : (64 <= size)%nat).

Lemma length_blit src dst off n :
  (off + n <= length src)%nat -> (off + n <= length dst)%nat -> length (blit src dst off n) = length dst.
Proof. intros. unfold blit. rewrite !length_app, !length_take, !length_drop. lia. Qed.

Lemma lookup_blit src dst off n i :
  (off + n <= length src)%nat -> (off + n <= length dst)%nat ->
  blit src dst off n !! i = if bool_decide (off <= i < off + n)%nat then src !! i else dst !! i.
Proof.
  intros Hs Hd. unfold blit. case_bool_decide as Hi.
  - rewrite lookup_app_r, lookup_app_l; rewrite ?length_take, ?length_drop; try lia.
    rewrite lookup_take_lt, lookup_drop by lia. f_equal. lia.
  - destruct (decide (i < off)%nat).
    + rewrite lookup_app_l, lookup_take_lt by (rewrite ?length_take; lia). done.
    + rewrite !lookup_app_r, lookup_drop; rewrite ?length_take, ?length_drop; try lia. f_equal. lia.
Qed.

(** One [publish] leaves the snapshot in the segment, its sequence word
    replaced by the counter advanced by two. *)
Lemma publish_image p snap :
  length (shm_mmap p) = size -> length snap = size ->
  publish size p snap =
    {| shm_mmap := store_seq snap (wrapping_add (wrapping_add (shm_local_seq p) 1) 1);
       shm_local_seq := wrapping_add (wrapping_add (shm_local_seq p) 1) 1 |}.
Proof.
  intros Hm Hs. unfold publish. f_equal. set (v := wrapping_add _ 1).
  set (m0 := store_seq (shm_mmap p) _). assert (length m0 = size) as H0.
  { subst m0. rewrite length_store_seq; lia. }
  set (m1 := blit snap m0 0 SEQ_OFFSET).
  assert (length m1 = size) as H1 by (subst m1; rewrite length_blit; rewrite ?SEQ_OFFSET_eq; lia).
  set (m2 := blit snap m1 _ _). assert (length m2 = size) as H2.
  { subst m2. rewrite length_blit; rewrite ?POST_SEQ_OFFSET_eq; lia. }
  apply segment_ext; rewrite ?length_store_seq; try lia.
  - rewrite !seq_bytes_store by lia. done.
  - intros i Hi Hb. rewrite !lookup_store_seq_body by (done || lia).
    apply in_body_spec in Hb. subst m2 m1.
    rewrite lookup_blit; rewrite ?POST_SEQ_OFFSET_eq; try lia. case_bool_decide; [done|].
    rewrite lookup_blit; rewrite ?SEQ_OFFSET_eq; try lia. case_bool_decide; [done|lia].
Qed.

Definition publish_acts (snap : list Z) : list act :=
  WBegin snap :: map WByte (body_offsets size) ++ [WEnd].

Lemma run_app l1 l2 s :
  run size (l1 ++ l2) s = match run size l1 s with Some s' => run size l2 s' | None => None end.
Proof. revert s. induction l1 as [|a l1 IH]; intros s; cbn [app run]; [done|]. by case_match. Qed.

Lemma run_bytes snap l s :
  NoDup l -> wphase s = WCopying snap l -> (forall i, i ∈ l -> (i < length (mem s))%nat) ->
  length snap = length (mem s) ->
  exists m, run size (map WByte l) s = Some (s <| mem := m |> <| wphase := WCopying snap [] |>)
    /\ length m = length (mem s)
    /\ (forall i, i ∈ l -> m !! i = snap !! i) /\ (forall i, i ∉ l -> m !! i = mem s !! i).
Proof.
  revert s. induction l as [|i l IH]; intros s Hnd Hw Hl Hlen.
  - exists (mem s). cbn. split; [|set_solver]. f_equal. destruct s; cbn in *. by subst.
  - cbn [map run exec]. rewrite Hw, bool_decide_eq_true_2 by left.
    rewrite without_cons by done. cbn [upd].
    set (s1 := {| mem := _ |}).
    destruct (IH s1) as (m & Hr & Hml & Hin & Hout).
    + by apply NoDup_cons in Hnd as [_ ?].
    + done.
    + intros j Hj. cbn. rewrite length_insert. apply Hl. by right.
    + cbn. by rewrite length_insert.
    + exists m. rewrite Hr. cbn in *. rewrite length_insert in Hml.
      split; [done|split; [done|split]].
      * intros j [->|Hj]%elem_of_cons; [|by apply Hin].
        apply NoDup_cons in Hnd as [Hnd _]. rewrite Hout by done.
        rewrite list_lookup_insert_eq by (apply Hl; left). symmetry. apply lookup_nth_lt.
        rewrite Hlen. apply Hl. left.
      * intros j Hj. rewrite Hout by set_solver. apply list_lookup_insert_ne. set_solver.
Qed.

(** Running the writer's actions without interference is [publish]. *)
Lemma publish_run snap s :
  length (mem s) = size -> length snap = size -> wphase s = WIdle ->
  let p := publish size {| shm_mmap := mem s; shm_local_seq := local_seq s |} snap in
  run size (publish_acts snap) s =
    Some {| mem := shm_mmap p; local_seq := shm_local_seq p; wphase := WIdle;
            pub := pub s ++ [snap]; rd := rd s |}.
Proof.
  intros Hm Hs Hw. cbv zeta. rewrite publish_image by done. cbn [shm_mmap shm_local_seq].
  unfold publish_acts. cbn [run exec]. rewrite Hw, Hs, Nat.eqb_refl. cbn [upd].
  rewrite run_app.
  set (s1 := {| mem := _ |}).
  destruct (run_bytes snap (body_offsets size) s1) as (m & Hr & Hml & Hin & _).
  - apply NoDup_filter, NoDup_seq.
  - done.
  - intros i Hi. apply body_offsets_spec in Hi as [_ Hi]; [|done]. cbn. rewrite length_store_seq; lia.
  - cbn. rewrite length_store_seq; lia.
  - rewrite Hr. cbn in *. rewrite length_store_seq in Hml by lia. do 2 f_equal.
    apply segment_ext; rewrite ?length_store_seq; try lia.
    + rewrite !seq_bytes_store by lia. done.
    + intros i Hi Hb. rewrite !lookup_store_seq_body by (done || lia).
      apply Hin, body_offsets_spec; [done|]. split; [done|lia].
Qed.

End Sequential.

(** ** The reader's work is bounded *)

Section Bounded.
Variable size : nat.

Definition rank (r : reader) : nat :=
  match r with
  | RLoop a _ => (RETRY_BUDGET - a) * (size + 3) + 1
  | RCopy a _ todo _ => (RETRY_BUDGET - S a) * (size + 3) + length todo + 2
  | ROk _ _ | RBudget => 0
  end.

Lemma rank_writer a s s' : is_reader_act a = false -> exec size a s = Some s' -> rd s' = rd s.
Proof. destruct a; cbn; intros Ha H; try done; repeat case_match; simplify_eq/=; done. Qed.

Lemma rank_reader a s s' :
  is_reader_act a = true -> exec size a s = Some s' -> (rank (rd s') < rank (rd s))%nat.
Proof.
  destruct a as [| | | |i|]; cbn [is_reader_act exec]; intros Ha H; try done.
  - destruct (rd s) as [a out| | |]; try done; [].
    injection H as <-. cbn [rd upd rank]. unfold after_seq1.
    destruct (Nat.ltb_spec a RETRY_BUDGET) as [Hlt|]; [|cbn [rank]; lia].
    replace (RETRY_BUDGET - a)%nat with (S (RETRY_BUDGET - S a)) by lia.
    destruct (negb _); cbn [rank]; rewrite ?length_seq; lia.
  - destruct (rd s) as [|a q todo out| |]; try done; [].
    case_bool_decide as Hi; [|done]. injection H as <-. cbn [rd upd rank].
    pose proof (length_without i todo Hi). lia.
  - destruct (rd s) as [|a q [|] out| |]; try done; [].
    injection H as <-. cbn [rd upd rank length]. unfold after_seq2.
    set (k := ((RETRY_BUDGET - S a) * (size + 3))%nat).
    destruct (_ && _); [cbn [rank]; lia|]. destruct (_ && _); cbn [rank]; fold k; lia.
Qed.

(** However the writer interleaves, a read takes at most [rank] actions. *)
Lemma reader_work l s s' :
  run size l s = Some s' ->
  (length (filter (fun a => is_reader_act a = true) l) + rank (rd s') <= rank (rd s))%nat.
Proof.
  revert s. induction l as [|a l IH]; intros s H; cbn [run] in H.
  - simplify_eq. cbn. lia.
  - destruct (exec size a s) as [s1|] eqn:E; [|done]. specialize (IH s1 H).
    rewrite filter_cons. case_decide as Ha; cbn [length].
    + pose proof (rank_reader a s s1 Ha E). lia.
    + apply not_true_is_false in Ha. by rewrite (rank_writer a s s1 Ha E) in IH.
Qed.

(** The reader is never stuck before it returns. *)
Lemma reader_progress s :
  (exists q out, rd s = ROk q out) \/ rd s = RBudget
  \/ exists a s', is_reader_act a = true /\ exec size a s = Some s'.
Proof.
  destruct (rd s) as [a out|a q [|i todo] out|q out|] eqn:E; [| | |by eauto|by eauto].
  - right; right. exists RSeq1. eexists. cbn. by rewrite E.
  - right; right. exists RSeq2. eexists. cbn. by rewrite E.
  - right; right. exists (RByte i). eexists. cbn. rewrite E, bool_decide_eq_true_2 by left. done.
Qed.
End Bounded.

(** ** A read beside an idle writer *)

Section Quiescent.
Context (size : nat) (Hsize : (64 <= size)%nat).

Definition read_acts : list act := RSeq1 :: map RByte (seq 0 size) ++ [RSeq2].

Lemma run_rbytes a q l out s :
  NoDup l -> rd s = RCopy a q l out -> length out = length (mem s) ->
  (forall i, i ∈ l -> (i < length (mem s))%nat) ->
  exists out', run size (map RByte l) s = Some (s <| rd := RCopy a q [] out' |>)
    /\ length out' = length (mem s)
    /\ (forall i, i ∈ l -> out' !! i = mem s !! i) /\ (forall i, i ∉ l -> out' !! i = out !! i).
Proof.
  revert s out. induction l as [|i l IH]; intros s out Hnd Hr Hlen Hl.
  - exists out. cbn. split; [|set_solver]. f_equal. destruct s; cbn in *. by subst.
  - cbn [map run exec]. rewrite Hr, bool_decide_eq_true_2 by left.
    rewrite without_cons by done. cbn [upd].
    set (s1 := {| mem := _ |}).
    destruct (IH s1 (<[i:=nth i (mem s) 0]> out)) as (out' & Hrun & Hl' & Hin & Hout).
    + by apply NoDup_cons in Hnd as [_ ?].
    + done.
    + cbn. by rewrite length_insert.
    + intros j Hj. cbn. apply Hl. by right.
    + exists out'. rewrite Hrun. cbn in *. split; [done|split; [done|split]].
      * intros j [->|Hj]%elem_of_cons; [|by apply Hin].
        apply NoDup_cons in Hnd as [Hnd _]. assert (i < length (mem s))%nat by (apply Hl; left).
        rewrite Hout, list_lookup_insert_eq by (done || lia). symmetry. by apply lookup_nth_lt.
      * intros j Hj. rewrite Hout by set_solver. apply list_lookup_insert_ne. set_solver.
Qed.

(** Undisturbed, one attempt copies what is in memory. *)
Lemma read_attempt s a out :
  inv size s -> wphase s = WIdle -> rd s = RLoop a out -> (a < RETRY_BUDGET)%nat ->
  run size read_acts s = Some (s <| rd := after_seq2 a (local_seq s) (local_seq s) (mem s) |>).
Proof.
  intros Hi Hw Hr Ha. pose proof (inv_load size Hsize s Hi) as Hload.
  destruct Hi as [Hlen _ _ _ Hp Hri]. unfold phase_inv in Hp. unfold reader_inv in Hri.
  rewrite Hw in Hp. rewrite Hr in Hri. destruct Hp as [Hp _].
  unfold read_acts. cbn [run exec]. rewrite Hr, run_app. unfold after_seq1.
  rewrite (proj2 (Nat.ltb_lt _ _) Ha), Hload.
  replace (Z.land (local_seq s) 1 =? 0) with true.
  2:{ symmetry. apply Z.eqb_eq, land_1_even. by rewrite Hp, Z.even_mul. }
  cbn [negb upd]. set (s1 := {| mem := _ |}).
  destruct (run_rbytes a (local_seq s) (seq 0 size) out s1) as (out' & Hrun & Hl & Hin & _).
  - apply NoDup_seq.
  - done.
  - cbn. by rewrite Hri.
  - intros i. rewrite elem_of_seq. cbn. lia.
  - rewrite Hrun. cbn [run exec upd rd]. cbn in Hl, Hin.
    assert (out' = mem s) as ->.
    { apply list_eq_same_length with size; [lia|lia|]. intros i x y Hi Hx Hy.
      rewrite Hin in Hx by (apply elem_of_seq; lia). congruence. }
    unfold s1. cbn [mem]. by rewrite Hload.
Qed.

(** Of a segment that has been published, that is accepted ... *)
Lemma read_alone s a out :
  inv size s -> wphase s = WIdle -> local_seq s <> 0 -> rd s = RLoop a out -> (a < RETRY_BUDGET)%nat ->
  run size read_acts s = Some (s <| rd := ROk (local_seq s) (mem s) |>).
Proof.
  intros Hi Hw Hq Hr Ha. rewrite (read_attempt s a out) by done. unfold after_seq2.
  by rewrite Z.eqb_refl, (proj2 (Z.eqb_neq _ _) Hq).
Qed.

(** ... and of one that has not, the first five attempts are not ... *)
Lemma read_misses k a s out :
  inv size s -> wphase s = WIdle -> local_seq s = 0 -> rd s = RLoop a out -> (a + k <= 5)%nat ->
  exists out', let s' := s <| rd := RLoop (a + k) out' |> in
    run size (concat (replicate k read_acts)) s = Some s' /\ inv size s'.
Proof.
  revert a s out. induction k as [|k IH]; intros a s out Hi Hw Hq Hr Hak.
  - exists out. rewrite Nat.add_0_r. destruct s; cbn in *; subst. by split.
  - cbn [replicate concat]. rewrite run_app, (read_attempt s a out Hi Hw Hr) by (unfold RETRY_BUDGET; lia).
    unfold after_seq2. rewrite Hq. replace (4 <? a)%nat with false by (symmetry; apply Nat.ltb_ge; lia).
    cbn [Z.eqb andb negb]. set (s1 := s <| rd := RLoop (S a) (mem s) |>).
    assert (inv size s1) as Hi1.
    { destruct Hi as [Hlen ? ? ? ? _]. by constructor. }
    destruct (IH (S a) s1 (mem s) Hi1 Hw Hq eq_refl ltac:(lia)) as (out' & Hrun & Hi').
    exists out'. replace (a + S k)%nat with (S a + k)%nat by lia. by split.
Qed.

(** ... and the sixth is. *)
Lemma read_unpublished s out :
  inv size s -> wphase s = WIdle -> local_seq s = 0 -> rd s = RLoop 0 out ->
  run size (concat (replicate 6 read_acts)) s = Some (s <| rd := ROk 0 (mem s) |>).
Proof.
  intros Hi Hw Hq Hr. replace (replicate 6 read_acts) with (replicate 5 read_acts ++ [read_acts]) by done.
  rewrite concat_app, run_app.
  destruct (read_misses 5 0 s out Hi Hw Hq Hr ltac:(lia)) as (out' & -> & Hi').
  cbn [concat]. rewrite app_nil_r, (read_attempt _ 5 out' Hi' Hw eq_refl) by (unfold RETRY_BUDGET; lia).
  cbn [upd updater local_seq mem]. by rewrite Hq.
Qed.
End Quiescent.

(** ** Properties *)

(** A seqlock read that returns through the [seq1 == seq2] exit returns a
    snapshot the writer published, whole: for every interleaving of a writer
    issuing any number of [publish]es with one reader, the returned bytes are
    exactly the image of the publish that the accepted sequence number counts,
    never a mixture of two snapshots (as long as the 64-bit counter has not
    wrapped). *)
Theorem seqlock_read_untorn (size : nat) (s : sys) (seq1 : Z) (out : list Z)
    (Hsize : (64 <= size)%nat) (Hreach : rtc (step size) (start size) s) (Hwrap : no_wrap s)
    (Hret : rd s = ROk seq1 out) (Hexit : seq1 <> 0) :
  published s seq1 out.
Proof. by apply (read_published size). Qed.

(** A reader that overlaps a second publish: its first attempt is torn and
    retried, and it returns the second snapshot. *)
Definition demo_snap (b : Z) : list Z := replicate 64 b.
Definition demo_acts : list act :=
  publish_acts 64 (demo_snap 1) ++ [RSeq1] ++ map RByte (seq 0 40)
  ++ publish_acts 64 (demo_snap 2) ++ map RByte (seq 40 24) ++ [RSeq2] ++ read_acts 64.
Definition demo_state : sys := default (start 64) (run 64 demo_acts (start 64)).

Lemma seqlock_read_untorn_witness :
  rd demo_state = ROk 4 (store_seq (demo_snap 2) 4)
  /\ published demo_state 4 (store_seq (demo_snap 2) 4).
Proof.
  split; [vm_compute; reflexivity|].
  apply (seqlock_read_untorn 64 demo_state 4).
  - lia.
  - apply (run_rtc 64 demo_acts). vm_compute. reflexivity.
  - vm_compute. reflexivity.
  - vm_compute. reflexivity.
  - discriminate.
Defined.

(** [publish] is what its actions do when nothing interferes, and it
    leaves the whole snapshot in the segment with only the sequence word
    replaced, by the previous counter advanced by two. *)
Theorem publish_refines (size : nat) (s : sys) (snap : list Z)
    (Hsize : (64 <= size)%nat) (Hlen : length (mem s) = size) (Hsnap : length snap = size)
    (Hidle : wphase s = WIdle) :
  let p := publish size {| shm_mmap := mem s; shm_local_seq := local_seq s |} snap in
  run size (publish_acts size snap) s =
    Some {| mem := shm_mmap p; local_seq := shm_local_seq p; wphase := WIdle;
            pub := pub s ++ [snap]; rd := rd s |}
  /\ shm_local_seq p = wrapping_add (wrapping_add (local_seq s) 1) 1
  /\ shm_mmap p = store_seq snap (shm_local_seq p).
Proof.
  intros p. split; [by apply publish_run|]. unfold p.
  by rewrite publish_image.
Qed.

Lemma publish_refines_witness :
  shm_mmap (publish 64 (create 64) (demo_snap 3)) = store_seq (demo_snap 3) 2.
Proof.
  exact (proj2 (proj2 (publish_refines 64 (start 64) (demo_snap 3) ltac:(lia)
    ltac:(vm_compute; reflexivity) ltac:(vm_compute; reflexivity) ltac:(reflexivity)))).
Defined.

(** C38: a read always ends, whatever the writer does: in any interleaving the
    reader performs at most [RETRY_BUDGET * (size + 3) + 1] actions, and until
    it has returned it always has an enabled action. *)
Theorem seqlock_read_terminates (size : nat) (l : list act) (s : sys) :
  run size l (start size) = Some s ->
  (length (filter (fun a => is_reader_act a = true) l) <= RETRY_BUDGET * (size + 3) + 1)%nat
  /\ ((exists q out, rd s = ROk q out) \/ rd s = RBudget
      \/ exists a s', is_reader_act a = true /\ exec size a s = Some s').
Proof.
  intros H. split; [|apply reader_progress].
  pose proof (reader_work size l (start size) s H) as Hw.
  set (n := (RETRY_BUDGET * (size + 3))%nat). cbn [rank rd start] in Hw.
  rewrite Nat.sub_0_r in Hw. fold n in Hw. lia.
Qed.

Lemma seqlock_read_terminates_witness :
  (length (filter (fun a => is_reader_act a = true) demo_acts) <= RETRY_BUDGET * 67 + 1)%nat.
Proof.
  refine (proj1 (seqlock_read_terminates 64 demo_acts demo_state _)). vm_compute. reflexivity.
Defined.

(** Beside an idle writer that has published, one attempt suffices: from
    any reachable state, at any attempt within the budget, the reader running
    alone returns the segment as it is, and that is the last snapshot
    published. *)
Theorem seqlock_read_quiescent (size : nat) (s : sys) (attempt : nat) (out : list Z)
    (Hsize : (64 <= size)%nat) (Hreach : rtc (step size) (start size) s) (Hwrap : no_wrap s)
    (Hidle : wphase s = WIdle) (Hpub : pub s <> [])
    (Hrd : rd s = RLoop attempt out) (Hatt : (attempt < RETRY_BUDGET)%nat) :
  run size (read_acts size) s = Some (s <| rd := ROk (local_seq s) (mem s) |>)
  /\ exists snap, last (pub s) = Some snap /\ mem s = store_seq snap (local_seq s).
Proof.
  pose proof (inv_reachable size Hsize s Hreach Hwrap) as Hi.
  pose proof (inv_phase size s Hi) as Hp. unfold phase_inv in Hp. rewrite Hidle in Hp.
  destruct Hp as [Hq _].
  assert (local_seq s <> 0) as H0 by (destruct (pub s); [done|cbn in Hq; lia]).
  split; [by apply (read_alone size Hsize s attempt out)|].
  destruct (even_image size Hsize s Hi) as (k & snap & Hk & Ek & Em); [by rewrite Hq, Z.even_mul|done|].
  exists snap. split; [|by rewrite Ek].
  rewrite last_lookup. by replace (pred (length (pub s))) with k by lia.
Qed.

Lemma seqlock_read_quiescent_witness :
  exists s, run 64 (publish_acts 64 (demo_snap 5)) (start 64) = Some s
    /\ run 64 (read_acts 64) s = Some (s <| rd := ROk 2 (store_seq (demo_snap 5) 2) |>).
Proof.
  eexists. split; [vm_compute; reflexivity|].
  refine (proj1 (seqlock_read_quiescent 64 _ 0 (replicate 64 0) _ _ _ _ _ _ _)).
  - lia.
  - apply (run_rtc 64 (publish_acts 64 (demo_snap 5))). vm_compute. reflexivity.
  - vm_compute. reflexivity.
  - reflexivity.
  - discriminate.
  - reflexivity.
  - vm_compute. lia.
Defined.

(** The other exit is not protected.  With [seq1 == 0] and [attempt > 4]
    the reader returns without comparing [seq2], so a read that starts before
    the first publish and overlaps it returns a mixture: a reachable state
    where the sequence word is already non-zero, and the returned bytes are
    neither the initial segment nor any published image. *)
Theorem seqlock_zero_exit_torn :
  exists s out, rtc (step 64) (start 64) s /\ rd s = ROk 0 out /\ load_seq (mem s) = 1
    /\ out <> init_empty 64 /\ ~ (exists q, published s q out)
    /\ exists s', rtc (step 64) s s' /\ load_seq (mem s') = 2 /\ rd s' = ROk 0 out
       /\ ~ (exists q, published s' q out).
Proof.
  set (early := concat (replicate 5 (read_acts 64))).
  set (acts := early ++ [RSeq1] ++ map RByte (seq 0 50) ++ [WBegin (demo_snap 1)]
                ++ map WByte (body_offsets 64) ++ map RByte (seq 50 14) ++ [RSeq2]).
  set (s := default (start 64) (run 64 acts (start 64))).
  set (s' := default s (exec 64 WEnd s)).
  set (out := take 50 (init_empty 64) ++ replicate 14 1).
  exists s, out. split; [|split; [|split; [|split; [|split]]]].
  - apply (run_rtc 64 acts). vm_compute. reflexivity.
  - vm_compute. reflexivity.
  - vm_compute. reflexivity.
  - vm_compute. discriminate.
  - intros (q & k & snap & Hk & _). vm_compute in Hk. by destruct k.
  - exists s'. split; [|split; [|split]].
    + apply (run_rtc 64 [WEnd]). vm_compute. reflexivity.
    + vm_compute. reflexivity.
    + vm_compute. reflexivity.
    + intros (q & k & snap & Hk & _ & E). destruct k as [|k]; [|by vm_compute in Hk].
      vm_compute in Hk. injection Hk as <-. vm_compute in E. discriminate.
Qed.
