(* ===== verification/Register.v ===== *)
(** The segment as an atomic register.  [Seqlock.v] follows one reader through
    one [seqlock_read]; here any number of processes have the segment mapped
    and each calls [seqlock_read] again and again, while the daemon's writer
    keeps publishing.  What such a run returns is what a register returns
    whose writes and reads each happen at one instant: the last store of
    [publish], and the second load of an accepted attempt. *)
From S2P Require Import Prelude Float Types Layout Pods Seqlock.

(** ** The specification *)

(** What a run does that its processes can tell: [publish] returned, or the
    [i]-th reader's [seqlock_read] did, through one of its three ways out. *)
Inductive event :=
  | Published (snap : list Z)
  | Returned (i : nat) (out : list Z)
  | Unprotected (i : nat) (out : list Z)   (* [Ok] with [seq1 == 0] *)
  | GaveUp (i : nat).

(** The register: how many values were written before the current one, and the
    current one; nothing before the first write. *)
Definition register : Type := option (nat * list Z).

(** A write replaces the value.  A read returns the bytes of the current value
    with the sequence number of its write.  The two exits that promise nothing
    leave the register alone. *)
Definition reg_exec (e : event) (v : register) : option register :=
  match e, v with
  | Published snap, None => Some (Some (0%nat, snap))
  | Published snap, Some (k, _) => Some (Some (S k, snap))
  | Returned _ out, Some (k, snap) => if decide (out = image k snap) then Some v else None
  | Returned _ _, None => None
  | Unprotected _ _, _ | GaveUp _, _ => Some v
  end.

Fixpoint reg_run (es : list event) (v : register) : option register :=
  match es with
  | [] => Some v
  | e :: es => match reg_exec e v with Some v' => reg_run es v' | None => None end
  end.

Lemma reg_run_app es1 es2 v :
  reg_run (es1 ++ es2) v = match reg_run es1 v with Some v' => reg_run es2 v' | None => None end.
Proof. revert v. induction es1 as [|e es1 IH]; intros v; cbn [app reg_run]; [done|]. by case_match. Qed.

(** ** The segment with its writer and its readers *)

Record net := {
  n_mem : list Z; n_local_seq : Z; n_wphase : phase; n_pub : list (list Z);
  n_readers : list reader }.

(** The part of the state one reader works with. *)
Definition view (r : reader) (n : net) : sys :=
  {| mem := n_mem n; local_seq := n_local_seq n; wphase := n_wphase n; pub := n_pub n; rd := r |}.

Definition with_readers (s : sys) (rs : list reader) : net :=
  {| n_mem := mem s; n_local_seq := local_seq s; n_wphase := wphase s; n_pub := pub s;
     n_readers := rs |}.

Inductive net_act :=
  | Writer (a : act)
  | Open                      (* a process maps the segment and calls [seqlock_read] *)
  | Call (i : nat)            (* a reader whose call returned calls again *)
  | Reader (i : nat) (a : act).

Definition finished (r : reader) : bool :=
  match r with ROk _ _ | RBudget => true | _ => false end.

(** What a reader's process sees when its call has come to [r]. *)
Definition outcome (i : nat) (r : reader) : list event :=
  match r with
  | ROk q out => if q =? 0 then [Unprotected i out] else [Returned i out]
  | RBudget => [GaveUp i]
  | _ => []
  end.

Definition publication (a : act) (p : phase) : list event :=
  match a, p with WEnd, WCopying snap [] => [Published snap] | _, _ => [] end.

Section Net.
Variable size : nat.

(** [let mut out = MetricSnapshotV3::zeroed();] and the head of the loop. *)
Definition entered : reader := RLoop 0 (replicate size 0).

Definition net_exec (a : net_act) (n : net) : option (net * list event) :=
  match a with
  | Writer a =>
      if is_reader_act a then None
      else
        match exec size a (view RBudget n) with
        | Some s => Some (with_readers s (n_readers n), publication a (n_wphase n))
        | None => None
        end
  | Open => Some (with_readers (view RBudget n) (n_readers n ++ [entered]), [])
  | Call i =>
      match n_readers n !! i with
      | Some r => if finished r then Some (with_readers (view r n) (<[i := entered]> (n_readers n)), [])
                  else None
      | None => None
      end
  | Reader i a =>
      if is_reader_act a then
        match n_readers n !! i with
        | Some r =>
            match exec size a (view r n) with
            | Some s => Some (with_readers s (<[i := rd s]> (n_readers n)), outcome i (rd s))
            | None => None
            end
        | None => None
        end
      else None
  end.

Fixpoint net_run (l : list net_act) (n : net) : option (net * list event) :=
  match l with
  | [] => Some (n, [])
  | a :: l =>
      match net_exec a n with
      | Some (n', es) =>
          match net_run l n' with Some (n'', es') => Some (n'', es ++ es') | None => None end
      | None => None
      end
  end.

(** The daemon has created the segment and nobody reads it yet. *)
Definition net_start : net := with_readers (start size) [].
End Net.

(** ** The simulation *)

(** The value of the register a state stands for. *)
Definition value (n : net) : register :=
  match last (n_pub n) with
  | Some snap => Some (pred (length (n_pub n)), snap)
  | None => None
  end.

Lemma value_pub n n' : n_pub n' = n_pub n -> value n' = value n.
Proof. unfold value. by intros ->. Qed.

Lemma value_publish n n' snap :
  n_pub n' = n_pub n ++ [snap] -> reg_exec (Published snap) (value n) = Some (value n').
Proof.
  intros E. unfold value. rewrite E, last_snoc, length_app, last_lookup. cbn [length].
  rewrite Nat.add_1_r. destruct (n_pub n) as [|x l]; [done|]. cbn [length pred].
  by destruct (lookup_lt_is_Some_2 (x :: l) (length l) ltac:(cbn; lia)) as [y ->].
Qed.

Definition net_no_wrap (n : net) : Prop := no_wrap (view RBudget n).

Section Simulation.
Context (size : nat) (Hsize : (64 <= size)%nat).

(** Every process's view of the segment satisfies the invariant of
    [Seqlock.v]; [RBudget] stands for a process that does not read. *)
Definition net_inv (n : net) : Prop := Forall (fun r => inv size (view r n)) (RBudget :: n_readers n).

Lemma net_inv_start : net_inv (net_start size).
Proof. constructor; [|done]. destruct (inv_start size Hsize). by constructor. Qed.

(** A writer action does the same in every view ... *)
Lemma exec_writer_view a n r s :
  is_reader_act a = false -> exec size a (view RBudget n) = Some s ->
  exec size a (view r n) = Some (view r (with_readers s (n_readers n))).
Proof.
  destruct a; cbn [is_reader_act exec view wphase]; intros Ha H; try done;
    by repeat case_match; simplify_eq/=.
Qed.

(** The snapshots it publishes are those its events tell. *)
Lemma writer_publication a n s :
  is_reader_act a = false -> exec size a (view RBudget n) = Some s ->
  exists p, publication a (n_wphase n) = map Published p /\ pub s = n_pub n ++ p /\ (length p <= 1)%nat.
Proof.
  destruct a; cbn; intros Ha E; try done; repeat case_match; simplify_eq/=;
    first [by exists []; rewrite app_nil_r; split; [|split; [|cbn; lia]]
          |by exists [snap]; split; [|split; [|cbn; lia]]].
Qed.

(** ... and a reader action changes nothing but its reader. *)
Lemma exec_reader_view a n r s :
  is_reader_act a = true -> exec size a (view r n) = Some s -> s = view (rd s) n.
Proof.
  destruct a; cbn [is_reader_act exec view rd]; intros Ha H; try done;
    by repeat case_match; simplify_eq/=.
Qed.

Lemma with_readers_view s rs : view (rd s) (with_readers s rs) = s.
Proof. by destruct s. Qed.

(** The invariant of a view is that of the segment and of the one reader. *)
Lemma inv_view r r' n : inv size (view r n) -> reader_inv size (view r' n) -> inv size (view r' n).
Proof. intros [] ?. by constructor. Qed.

Lemma inv_view_entered r n : inv size (view r n) -> inv size (view (entered size) n).
Proof. intros H. apply (inv_view r); [done|]. apply length_replicate. Qed.

(** Views depend on the readers only through the one they show. *)
Lemma net_inv_ext n rs :
  net_inv n -> Forall (fun r => inv size (view r n)) rs ->
  net_inv (with_readers (view RBudget n) rs).
Proof. intros [H _]%Forall_cons Hrs. by constructor. Qed.

Lemma net_inv_insert n i r :
  net_inv n -> inv size (view r n) -> Forall (fun r => inv size (view r n)) (<[i := r]> (n_readers n)).
Proof. intros [_ H]%Forall_cons Hr. by apply Forall_insert. Qed.

(** A read accepted now returns the value of the register now. *)
Lemma accepted_value n i r s a :
  inv size (view r n) -> is_reader_act a = true -> exec size a (view r n) = Some s -> inv size s ->
  reg_run (outcome i (rd s)) (value n) = Some (value n).
Proof.
  intros Hi Ha He Hs. pose proof (inv_load size Hsize _ Hi) as Hload.
  destruct (rd s) as [| |q out|] eqn:Hrd; [done|done| |done].
  unfold outcome. destruct (Z.eqb_spec q 0) as [|Hq]; [done|].
  pose proof (inv_reader size s Hs) as Hr. unfold reader_inv in Hr. rewrite Hrd in Hr.
  destruct (Hr Hq) as (k & snap & Hk & Eq & ->).
  rewrite (exec_reader_view a n r s Ha He) in Hk. cbn [view pub] in Hk.
  (* the number accepted is the one in memory *)
  assert (q = n_local_seq n) as Eseq.
  { destruct a; cbn in Ha, He; try done; destruct r as [att o|att q1 [|j todo] o|q1 o|]; try done;
      repeat case_bool_decide; simplify_eq/=.
    - unfold after_seq1 in Hrd. by repeat case_match.
    - unfold after_seq2 in Hrd. rewrite Hload in Hrd. cbn [view local_seq] in Hrd.
      destruct (Z.eqb_spec q1 (n_local_seq n)) as [<-|]; destruct (Z.eqb_spec q1 0);
        cbn [andb negb] in Hrd; try destruct (4 <? att)%nat; congruence. }
  (* so the writer is idle and that publish is the last *)
  assert (S k = length (n_pub n)) as Hlast.
  { pose proof (inv_phase size _ Hi) as Hp. unfold phase_inv in Hp. cbn [view wphase local_seq pub] in Hp.
    destruct (n_wphase n); destruct Hp as [Hp _]; lia. }
  unfold value. rewrite last_lookup, <- Hlast. cbn [pred]. rewrite Hk. cbn [reg_run reg_exec].
  by rewrite decide_True.
Qed.

(** One action of anybody, matched by the register. *)
Lemma net_simulation a n n' es :
  net_inv n -> net_exec size a n = Some (n', es) -> net_no_wrap n' ->
  net_inv n' /\ reg_run es (value n) = Some (value n').
Proof.
  intros Hn H Hw. destruct a as [a| |i|i a]; cbn [net_exec] in H.
  - (* the writer *)
    destruct (is_reader_act a) eqn:Ha; [done|].
    destruct (exec size a (view RBudget n)) as [s|] eqn:He; [|done]. injection H as <- <-.
    split.
    + unfold net_inv in *. cbn [with_readers n_readers]. eapply Forall_impl; [exact Hn|].
      intros r Hr. eapply inv_step; [exact Hsize|exact Hr|exists a; by apply exec_writer_view|].
      exact Hw.
    + destruct (writer_publication a n s Ha He) as (p & -> & Hp & Hl).
      destruct p as [|snap [|? ?]]; cbn [map reg_run]; [|by rewrite (value_publish n (with_readers s (n_readers n)))|cbn in Hl; lia].
      f_equal. symmetry. apply value_pub. by rewrite <- (app_nil_r (n_pub n)).
  - (* a new reader *)
    injection H as <- <-. split; [|done]. apply net_inv_ext; [done|].
    apply Forall_cons in Hn as [Hb Hn]. apply Forall_app. split; [done|].
    constructor; [|done]. by apply (inv_view_entered RBudget).
  - (* a new call *)
    destruct (n_readers n !! i) as [r|] eqn:Hr; [|done]. destruct (finished r); [|done].
    injection H as <- <-. split; [|done]. apply net_inv_ext; [done|].
    apply net_inv_insert; [done|]. apply Forall_cons in Hn as [Hb _].
    by apply (inv_view_entered RBudget).
  - (* a reader *)
    destruct (is_reader_act a) eqn:Ha; [|done].
    destruct (n_readers n !! i) as [r|] eqn:Hr; [|done].
    destruct (exec size a (view r n)) as [s|] eqn:He; [|done]. injection H as <- <-.
    assert (inv size (view r n)) as Hi.
    { apply Forall_cons in Hn as [_ Hn]. by apply (Forall_lookup_1 _ _ _ _ Hn Hr). }
    pose proof (exec_reader_view a n r s Ha He) as Es.
    assert (inv size s) as Hs.
    { eapply inv_step; [exact Hsize|exact Hi|by exists a|exact Hw]. }
    split.
    + assert (inv size (view (rd s) n)) as Hv by (by rewrite <- Es).
      rewrite Es. apply net_inv_ext; [done|]. by apply net_inv_insert.
    + rewrite (accepted_value n i r s a) by done. unfold value.
      by replace (n_pub (with_readers s _)) with (n_pub n) by (by rewrite Es).
Qed.

(** The counter only grows, so a bound on the last state bounds them all. *)
Lemma net_no_wrap_exec a n n' es :
  net_exec size a n = Some (n', es) -> net_no_wrap n' -> net_no_wrap n.
Proof.
  unfold net_no_wrap. intros H Hw. destruct a as [a| |i|i a]; cbn [net_exec] in H.
  - repeat case_match; simplify_eq.
    match goal with E : exec _ _ _ = Some ?s |- _ =>
      apply (no_wrap_step size Hsize _ s); [by eexists|]; by destruct s end.
  - by simplify_eq.
  - by repeat case_match; simplify_eq.
  - repeat case_match; simplify_eq.
    match goal with E : exec _ _ _ = Some ?s |- _ =>
      pose proof (exec_reader_view a n _ s ltac:(done) E) as Es end.
    by rewrite Es in Hw.
Qed.

Lemma net_no_wrap_run l n n' es : net_run size l n = Some (n', es) -> net_no_wrap n' -> net_no_wrap n.
Proof.
  revert n es. induction l as [|a l IH]; intros n es H Hw; cbn [net_run] in H; [by simplify_eq|].
  destruct (net_exec size a n) as [[n1 es1]|] eqn:E; [|done].
  destruct (net_run size l n1) as [[n2 es2]|] eqn:E2; [|done]. simplify_eq.
  eapply net_no_wrap_exec; [exact E|]. by eapply IH.
Qed.

Lemma net_run_simulation l n n' es :
  net_inv n -> net_run size l n = Some (n', es) -> net_no_wrap n' ->
  net_inv n' /\ reg_run es (value n) = Some (value n').
Proof.
  revert n es. induction l as [|a l IH]; intros n es Hn H Hw; cbn [net_run] in H; [by simplify_eq|].
  destruct (net_exec size a n) as [[n1 es1]|] eqn:E; [|done].
  destruct (net_run size l n1) as [[n2 es2]|] eqn:E2; [|done]. simplify_eq.
  pose proof (net_no_wrap_run _ _ _ _ E2 Hw) as Hw1.
  destruct (net_simulation a n n1 es1 Hn E Hw1) as [Hn1 Hr].
  destruct (IH n1 es2 Hn1 E2 Hw) as [Hn2 Hr2].
  split; [done|]. by rewrite reg_run_app, Hr.
Qed.
End Simulation.

(** ** Every behaviour of the register is one of the segment *)

Section Realization.
Context (size : nat) (Hsize : (64 <= size)%nat).

(** A run of the writer alone. *)
Lemma writer_alone l n s :
  Forall (fun a => is_reader_act a = false) l -> run size l (view RBudget n) = Some s ->
  exists ps, net_run size (map Writer l) n = Some (with_readers s (n_readers n), map Published ps)
    /\ pub s = n_pub n ++ ps.
Proof.
  revert n. induction l as [|a l IH]; intros n Hl H; cbn [run] in H.
  - injection H as <-. exists []. cbn. rewrite app_nil_r. by destruct n.
  - apply Forall_cons in Hl as [Ha Hl]. destruct (exec size a (view RBudget n)) as [s1|] eqn:E; [|done].
    pose proof (rank_writer size a _ _ Ha E) as Hrd. cbn [view rd] in Hrd.
    destruct (IH (with_readers s1 (n_readers n)) Hl) as (ps & Hrun & Hpub).
    { rewrite <- H. f_equal. rewrite <- Hrd. by destruct s1. }
    destruct (writer_publication size Hsize a n s1 Ha E) as (p & Hp & Hp1 & _).
    exists (p ++ ps). cbn [map net_run net_exec]. rewrite Ha, E, Hp. rewrite Hrun, map_app.
    split; [done|]. rewrite Hpub. cbn [with_readers n_pub]. by rewrite Hp1, app_assoc.
Qed.

(** A run of one reader alone: only its last action can return. *)
Lemma reader_alone i l a n r s :
  Forall (fun a => is_reader_act a = true) (a :: l) -> n_readers n !! i = Some r ->
  run size (a :: l) (view r n) = Some s ->
  net_run size (map (Reader i) (a :: l)) n =
    Some (with_readers (view (rd s) n) (<[i := rd s]> (n_readers n)), outcome i (rd s)).
Proof.
  revert a n r. induction l as [|b l IH]; intros a n r Hl Hr H; cbn [run] in H;
    apply Forall_cons in Hl as [Ha Hl]; rewrite (map_cons (Reader i)); cbn [net_run net_exec];
    rewrite Ha, Hr;
    destruct (exec size a (view r n)) as [s1|] eqn:E; try done.
  - injection H as <-. cbn [map net_run]. rewrite app_nil_r. by rewrite <- (exec_reader_view size a n r s1 Ha E).
  - pose proof (exec_reader_view size a n r s1 Ha E) as Es.
    assert (outcome i (rd s1) = []) as Ho.
    { destruct (exec size b s1) as [s2|] eqn:Eb; [|done]. apply Forall_cons in Hl as [Hb _].
      rewrite Es in Eb. destruct (rd s1); [done|done| |]; destruct b; done. }
    specialize (IH b (with_readers s1 (<[i := rd s1]> (n_readers n))) (rd s1) Hl).
    rewrite with_readers_view in IH. cbn [with_readers n_readers] in IH.
    rewrite IH; [|apply list_lookup_insert_eq; by eapply lookup_lt_Some|done].
    rewrite Ho. cbn [app]. rewrite list_insert_insert_eq. do 2 f_equal.
    unfold with_readers, view. cbn [mem local_seq wphase pub n_mem n_local_seq n_wphase n_pub].
    by rewrite Es.
Qed.

(** Nobody is in the middle of anything. *)
Definition at_rest (n : net) : Prop :=
  net_inv size n /\ n_wphase n = WIdle
  /\ Forall (fun r => finished r = true \/ r = entered size) (n_readers n).

(** The events a caller can ask for, of [m] readers. *)
Definition event_ok (m : nat) (e : event) : Prop :=
  match e with
  | Published snap => length snap = size
  | Returned i _ => (i < m)%nat
  | _ => False
  end.

Lemma publish_acts_writer snap : Forall (fun a => is_reader_act a = false) (publish_acts size snap).
Proof.
  constructor; [done|]. apply Forall_app. split; [|by repeat constructor].
  by apply Forall_fmap, Forall_true.
Qed.
Lemma read_acts_reader : Forall (fun a => is_reader_act a = true) (read_acts size).
Proof.
  constructor; [done|]. apply Forall_app. split; [|by repeat constructor].
  by apply Forall_fmap, Forall_true.
Qed.

Lemma net_run_app l1 l2 n n1 es1 n2 es2 :
  net_run size l1 n = Some (n1, es1) -> net_run size l2 n1 = Some (n2, es2) ->
  net_run size (l1 ++ l2) n = Some (n2, es1 ++ es2).
Proof.
  revert n es1. induction l1 as [|a l1 IH]; intros n es1 H1 H2; cbn [app net_run] in *; [by simplify_eq|].
  destruct (net_exec size a n) as [[n3 es3]|]; [|done].
  destruct (net_run size l1 n3) as [[n4 es4]|] eqn:E; [|done]. simplify_eq.
  by rewrite (IH n3 es4 E H2), app_assoc.
Qed.

Lemma realize_publish n snap :
  at_rest n -> length snap = size ->
  2 * (Z.of_nat (length (n_pub n)) + 1) + 1 < 2 ^ 64 ->
  exists l n', net_run size l n = Some (n', [Published snap]) /\ at_rest n'
    /\ n_pub n' = n_pub n ++ [snap] /\ length (n_readers n') = length (n_readers n).
Proof.
  intros (Hn & Hidle & Hrs) Hsnap Hw. pose proof Hn as [Hb _]%Forall_cons.
  pose proof (publish_run size Hsize snap (view RBudget n) (inv_len _ _ Hb) Hsnap Hidle) as Hrun.
  cbn zeta in Hrun. destruct (writer_alone _ _ _ (publish_acts_writer snap) Hrun) as (ps & Hnet & Hps).
  cbn [pub view] in Hps. apply app_inv_head in Hps as <-.
  eexists _, _. split; [exact Hnet|]. split; [|done]. split; [|done].
  eapply net_run_simulation; [exact Hsize|exact Hn|exact Hnet|].
  unfold net_no_wrap, no_wrap. cbn. rewrite length_app. cbn. lia.
Qed.

(** A reader whose call returned, or did not start, is at the head of one. *)
Lemma realize_call n i :
  at_rest n -> (i < length (n_readers n))%nat ->
  exists l n', net_run size l n = Some (n', []) /\ at_rest n' /\ n_pub n' = n_pub n
    /\ length (n_readers n') = length (n_readers n) /\ n_readers n' !! i = Some (entered size).
Proof.
  intros (Hn & Hidle & Hrs) Hi. destruct (lookup_lt_is_Some_2 _ _ Hi) as [r Hr].
  destruct (Forall_lookup_1 _ _ _ _ Hrs Hr) as [Hf| ->]; [|by exists [], n].
  eexists [Call i], _. cbn [net_run net_exec]. rewrite Hr, Hf. split; [done|].
  cbn [with_readers n_readers n_pub view pub]. rewrite length_insert, list_lookup_insert_eq by done.
  split; [|done]. split; [|split; [done|]].
  - apply net_inv_ext; [done|]. apply net_inv_insert; [done|].
    apply Forall_cons in Hn as [Hb _]. by apply (inv_view_entered size RBudget).
  - apply Forall_insert; [done|by right].
Qed.

Lemma realize_read n i v :
  at_rest n -> (i < length (n_readers n))%nat -> value n = Some v -> net_no_wrap n ->
  exists l n', net_run size l n = Some (n', [Returned i (image v.1 v.2)]) /\ at_rest n'
    /\ n_pub n' = n_pub n /\ length (n_readers n') = length (n_readers n).
Proof.
  intros Hrest Hi Hv Hw. destruct (realize_call n i Hrest Hi) as (l0 & n0 & Hrun0 & Hrest0 & Hpub & Hlen & Hr).
  assert (net_no_wrap n0) as Hw0 by (unfold net_no_wrap, no_wrap in *; cbn in *; by rewrite Hpub).
  assert (value n0 = Some v) as Hv0 by (unfold value in *; by rewrite Hpub).
  destruct Hrest0 as (Hn & Hidle & Hrs).
  assert (inv size (view (entered size) n0)) as Hinv by (apply Forall_cons in Hn as [_ Hn]; by apply (Forall_lookup_1 _ _ _ _ Hn Hr)).
  assert (n_local_seq n0 <> 0) as H0.
  { pose proof (inv_phase size _ Hinv) as Hp. unfold phase_inv in Hp. cbn [view wphase local_seq pub] in Hp.
    rewrite Hidle in Hp. destruct Hp as [-> _]. unfold value in Hv0. destruct (n_pub n0); [done|cbn; lia]. }
  pose proof (read_alone size Hsize (view (entered size) n0) 0 (replicate size 0) Hinv Hidle H0 eq_refl
    ltac:(unfold RETRY_BUDGET; lia)) as Hrun.
  apply (reader_alone i _ _ _ _ _ read_acts_reader Hr) in Hrun. cbn [view rd upd outcome local_seq] in Hrun.
  rewrite (proj2 (Z.eqb_neq _ _) H0) in Hrun.
  assert (mem (view (entered size) n0) = image v.1 v.2) as Hmem.
  { destruct (net_run_simulation size Hsize _ _ _ _ Hn Hrun Hw0) as [_ Hacc].
    rewrite Hv0 in Hacc. destruct v as [k snap]. cbn in Hacc. by case_decide. }
  rewrite Hmem in Hrun. pose proof (net_run_app _ _ _ _ _ _ _ Hrun0 Hrun) as Hall.
  eexists _, _. split; [exact Hall|]. split; [split; [|split]|].
  - eapply net_run_simulation; [exact Hsize|exact Hn|exact Hrun|exact Hw0].
  - done.
  - cbn. apply Forall_insert; [done|by left].
  - cbn. by rewrite length_insert, Hlen.
Qed.

Lemma realize es n v :
  at_rest n -> Forall (event_ok (length (n_readers n))) es -> reg_run es (value n) = Some v ->
  2 * (Z.of_nat (length (n_pub n)) + Z.of_nat (length es)) + 1 < 2 ^ 64 ->
  exists l n', net_run size l n = Some (n', es).
Proof.
  revert n. induction es as [|e es IH]; intros n Hrest Hok H Hw; [by exists [], n|].
  apply Forall_cons in Hok as [He Hok]. cbn [reg_run length] in H, Hw.
  assert (exists l1 n1, net_run size l1 n = Some (n1, [e]) /\ at_rest n1
    /\ length (n_readers n1) = length (n_readers n) /\ reg_exec e (value n) = Some (value n1)
    /\ (length (n_pub n1) <= S (length (n_pub n)))%nat) as (l1 & n1 & Hrun & Hrest1 & Hlen & Hv & Hpub).
  { destruct e as [snap|i out|i out|i]; cbn [event_ok] in He; try done.
    - destruct (realize_publish n snap Hrest He ltac:(lia)) as (l1 & n1 & Hrun & Hr & Hpub & Hlen).
      exists l1, n1. split; [done|split; [done|split; [done|split]]].
      + by apply value_publish.
      + rewrite Hpub, length_app. cbn. lia.
    - destruct (value n) as [v'|] eqn:Hv; [|done].
      assert (out = image v'.1 v'.2) as -> by (destruct v'; cbn in *; by case_decide).
      destruct (realize_read n i v' Hrest He Hv) as (l1 & n1 & Hrun & Hr & Hpub & Hlen);
        [unfold net_no_wrap, no_wrap; cbn [view pub]; lia|].
      exists l1, n1. split; [done|split; [done|split; [done|split]]].
      + rewrite (value_pub _ _ Hpub), Hv. destruct v'; cbn. by rewrite decide_True.
      + rewrite Hpub. lia. }
  rewrite Hv in H. rewrite <- Hlen in Hok.
  destruct (IH n1 Hrest1 Hok H ltac:(lia)) as (l2 & n2 & Hrun2).
  exists (l1 ++ l2), n2. exact (net_run_app _ _ _ _ _ _ _ Hrun Hrun2).
Qed.

(** Any number of readers can open the segment first. *)
Lemma open_readers m :
  exists n, net_run size (replicate m Open) (net_start size) = Some (n, [])
    /\ at_rest n /\ n_pub n = [] /\ length (n_readers n) = m.
Proof.
  induction m as [|m (n & Hrun & (Hn & Hidle & Hrs) & Hpub & Hlen)].
  - exists (net_start size). split; [done|]. split; [|done]. split; [by apply net_inv_start|]. done.
  - exists (with_readers (view RBudget n) (n_readers n ++ [entered size])).
    rewrite replicate_S_end. split; [by apply (net_run_app _ _ _ n []); [|cbn]|].
    cbn. rewrite length_app, Hlen. cbn. split; [|split; [done|lia]].
    split; [|split; [done|]].
    + apply net_inv_ext; [done|]. apply Forall_cons in Hn as [Hb Hn]. apply Forall_app. split; [done|].
      constructor; [|done]. by apply (inv_view_entered size RBudget).
    + apply Forall_app. split; [done|]. constructor; [by right|done].
Qed.
End Realization.

(** ** What the register returns *)

Definition published_of (es : list event) : list (list Z) :=
  omap (fun e => match e with Published snap => Some snap | _ => None end) es.

Definition value_of (ps : list (list Z)) : register :=
  match last ps with Some snap => Some (pred (length ps), snap) | None => None end.

Lemma value_of_snoc ps snap : reg_exec (Published snap) (value_of ps) = Some (value_of (ps ++ [snap])).
Proof.
  pose proof (value_publish (with_readers {| mem := []; local_seq := 0; wphase := WIdle; pub := ps; rd := RBudget |} [])
    (with_readers {| mem := []; local_seq := 0; wphase := WIdle; pub := ps ++ [snap]; rd := RBudget |} [])
    snap eq_refl) as H. exact H.
Qed.

(** The register is determined by the writes so far. *)
Lemma reg_run_value es ps v :
  reg_run es (value_of ps) = Some v -> v = value_of (ps ++ published_of es).
Proof.
  revert ps. induction es as [|e es IH]; intros ps H; cbn [reg_run] in H.
  - cbn. rewrite app_nil_r. congruence.
  - destruct (reg_exec e (value_of ps)) as [v1|] eqn:E; [|done].
    destruct e as [snap|i out|i out|i]; cbn [published_of omap list_omap] in *.
    + rewrite value_of_snoc in E. injection E as <-. rewrite (IH _ H). by rewrite <- app_assoc.
    + assert (v1 = value_of ps) as -> by (cbn in E; repeat case_match; congruence). by apply IH.
    + cbn in E. destruct (value_of ps) eqn:Ev; injection E as <-; rewrite <- Ev in H; by apply IH.
    + cbn in E. destruct (value_of ps) eqn:Ev; injection E as <-; rewrite <- Ev in H; by apply IH.
Qed.

(** ** Properties *)

(** C2: The segment is an atomic register.  In every interleaving of the
    writer's stores with the loads of any number of readers, each calling
    [seqlock_read] any number of times, the calls return what a register
    returns that changes at the last store of each [publish] and is read at the
    second load of each accepted attempt; the register's value is then the last
    snapshot published. *)
Theorem segment_is_atomic_register (size : nat) (acts : list net_act) (n : net) (es : list event)
    (Hsize : (64 <= size)%nat) (Hrun : net_run size acts (net_start size) = Some (n, es))
    (Hwrap : net_no_wrap n) :
  reg_run es None = Some (value n).
Proof. by destruct (net_run_simulation size Hsize _ _ _ _ (net_inv_start size Hsize) Hrun Hwrap). Qed.

(** C39: And it shows every behaviour of the register: whatever the writes and
    the reads of a register's run, some schedule of the writer and the readers
    publishes those snapshots and returns those bytes, in that order. *)
Theorem register_is_realized (size m : nat) (es : list event) (v : register)
    (Hsize : (64 <= size)%nat) (Hok : Forall (event_ok size m) es)
    (Hrun : reg_run es None = Some v) (Hwrap : 2 * Z.of_nat (length es) + 1 < 2 ^ 64) :
  exists acts n, net_run size acts (net_start size) = Some (n, es).
Proof.
  destruct (open_readers size Hsize m) as (n0 & Hrun0 & Hrest & Hpub & Hlen).
  destruct (realize size Hsize es n0 v Hrest) as (l & n & Hl).
  - by rewrite Hlen.
  - unfold value. by rewrite Hpub.
  - rewrite Hpub. cbn. lia.
  - exists (replicate m Open ++ l), n. exact (net_run_app size _ _ _ _ _ _ _ Hrun0 Hl).
Qed.

(** On a sequentially consistent memory reads are fresh and never go back (for
    the orderings of the code see [Weak.v]): a read accepted at some point of
    the run returns the whole snapshot whose [publish] was the last to complete
    before, numbered by the publishes so far; so of two reads, by whichever
    processes, the later never returns the older snapshot. *)
Theorem reads_return_latest (size : nat) (acts : list net_act) (n : net) (es1 es2 : list event)
    (i : nat) (out : list Z)
    (Hsize : (64 <= size)%nat)
    (Hrun : net_run size acts (net_start size) = Some (n, es1 ++ Returned i out :: es2))
    (Hwrap : net_no_wrap n) :
  exists snap, last (published_of es1) = Some snap
    /\ out = image (pred (length (published_of es1))) snap.
Proof.
  destruct (net_run_simulation size Hsize _ _ _ _ (net_inv_start size Hsize) Hrun Hwrap) as [_ H].
  change (value (net_start size)) with (value_of []) in H. rewrite reg_run_app in H.
  destruct (reg_run es1 (value_of [])) as [v|] eqn:E; [|done].
  apply reg_run_value in E as ->. cbn [app reg_run reg_exec] in H. unfold value_of in H.
  destruct (last (published_of es1)) as [snap|]; [|done].
  case_decide; [|done]. by exists snap.
Qed.

(** Two readers and two publishes.  The first reader is overtaken by the
    second publish and retries; the second reads between the two, then again. *)
Definition demo_net_acts : list net_act :=
  [Open; Open] ++ map Writer (publish_acts 64 (demo_snap 1))
  ++ [Reader 0 RSeq1] ++ map (fun i => Reader 0 (RByte i)) (seq 0 40)
  ++ map (Reader 1) (read_acts 64)
  ++ map Writer (publish_acts 64 (demo_snap 2))
  ++ map (fun i => Reader 0 (RByte i)) (seq 40 24) ++ [Reader 0 RSeq2]
  ++ [Call 1] ++ map (Reader 1) (read_acts 64) ++ map (Reader 0) (read_acts 64).
Definition demo_net : net * list event :=
  default (net_start 64, []) (net_run 64 demo_net_acts (net_start 64)).

Lemma demo_events :
  demo_net.2 =
    [Published (demo_snap 1); Returned 1 (image 0 (demo_snap 1)); Published (demo_snap 2);
     Returned 1 (image 1 (demo_snap 2)); Returned 0 (image 1 (demo_snap 2))].
Proof. vm_compute. reflexivity. Qed.

Lemma segment_is_atomic_register_witness :
  reg_run demo_net.2 None = Some (Some (1%nat, demo_snap 2)).
Proof.
  refine (segment_is_atomic_register 64 demo_net_acts demo_net.1 demo_net.2 _ _ _).
  - lia.
  - vm_compute. reflexivity.
  - vm_compute. reflexivity.
Defined.

Lemma register_is_realized_witness :
  exists acts n, net_run 64 acts (net_start 64) =
    Some (n, [Published (demo_snap 1); Returned 1 (image 0 (demo_snap 1)); Published (demo_snap 2);
              Published (demo_snap 3); Returned 0 (image 2 (demo_snap 3))]).
Proof.
  refine (register_is_realized 64 2 _ (Some (2%nat, demo_snap 3)) _ _ _ _).
  - lia.
  - repeat constructor.
  - vm_compute. reflexivity.
  - vm_compute. reflexivity.
Defined.

Lemma reads_return_latest_witness :
  exists snap, Some (demo_snap 1) = Some snap /\ image 0 (demo_snap 1) = image 0 snap.
Proof.
  refine (reads_return_latest 64 demo_net_acts demo_net.1 [Published (demo_snap 1)]
    [Published (demo_snap 2); Returned 1 (image 1 (demo_snap 2)); Returned 0 (image 1 (demo_snap 2))]
    1 (image 0 (demo_snap 1)) _ _ _).
  - lia.
  - vm_compute. reflexivity.
  - vm_compute. reflexivity.
Defined.
