(* ===== verification/Weak.v ===== *)
(** The seqlock on a memory that reorders: [publish] of [shm.rs] and
    [seqlock_read] of [bin/shm_dump.rs] with the orderings the code gives its
    accesses, over release/acquire memory as a view machine.

    A location keeps every message stored to it; a thread has a view, the
    oldest message of each location it may still read.  An acquire load takes
    over the view the message was released with; a relaxed load only keeps it
    for a later acquire fence.  The bytes of the two copies, which the code
    moves without any ordering, are relaxed accesses of one byte in any order;
    the sequence word is one location, of which the copy reads single bytes.
    There are no loads in the writer, so no store can overtake one. *)
From S2P Require Import Prelude Float Types Layout Pods Seqlock.

(** ** Views *)

Definition timemap : Type := nat -> nat.
Definition vbot : timemap := fun _ => 0%nat.
Definition vone (l t : nat) : timemap := fun l' => if (l' =? l)%nat then t else 0%nat.
Definition vjoin (a b : timemap) : timemap := fun l => Nat.max (a l) (b l).
Definition vle (a b : timemap) : Prop := forall l, (a l <= b l)%nat.

#[export] Instance vle_preorder : PreOrder vle.
Proof. split; [intros ??; lia|]. intros a b c Hab Hbc l. specialize (Hab l). specialize (Hbc l). lia. Qed.

Lemma vone_eq l t : vone l t l = t.
Proof. unfold vone. by rewrite Nat.eqb_refl. Qed.

(** ** Messages and threads *)

Record message := { m_val : Z; m_view : timemap }.
(** The messages of a location, oldest first: a timestamp is a position. *)
Definition memory : Type := nat -> list message.
Definition append (l : nat) (x : message) (m : memory) : memory :=
  fun l' => if (l' =? l)%nat then m l' ++ [x] else m l'.

Record tview := { v_cur : timemap; v_acq : timemap; v_rel : timemap }.
Definition tview_bot : tview := {| v_cur := vbot; v_acq := vbot; v_rel := vbot |}.

(** A load of the message [t] of [l], with [Acquire] or relaxed ordering. *)
Definition v_load (acquire : bool) (l t : nat) (m : memory) (v : tview) : option (Z * tview) :=
  match m l !! t with
  | Some x =>
      if (v_cur v l <=? t)%nat then
        Some (m_val x,
          {| v_cur := vjoin (vjoin (v_cur v) (vone l t)) (if acquire then m_view x else vbot);
             v_acq := vjoin (vjoin (v_acq v) (vone l t)) (m_view x);
             v_rel := v_rel v |})
      else None
  | None => None
  end.

(** A store by the only thread that stores to [l]. *)
Definition v_store (release : bool) (l : nat) (z : Z) (m : memory) (v : tview) : memory * tview :=
  let t := length (m l) in
  let cur := vjoin (v_cur v) (vone l t) in
  (append l {| m_val := z; m_view := if release then cur else vjoin (v_rel v) (vone l t) |} m,
   {| v_cur := cur; v_acq := vjoin (v_acq v) (vone l t); v_rel := v_rel v |}).

Definition fence_release (v : tview) : tview :=
  {| v_cur := v_cur v; v_acq := v_acq v; v_rel := v_cur v |}.
Definition fence_acquire (v : tview) : tview :=
  {| v_cur := v_acq v; v_acq := v_acq v; v_rel := v_rel v |}.

(** ** The program *)

(** The location byte [i] of the segment is in, and the byte of its value. *)
Definition place (i : nat) : nat := if in_body i then i else SEQ_OFFSET.
Definition byte_at (i : nat) (z : Z) : Z :=
  if in_body i then z else nth (i - SEQ_OFFSET) (le_bytes 8 z) 0.

Record wsys := {
  ws_mem : memory; ws_writer : tview; ws_local_seq : Z; ws_phase : phase; ws_pub : list (list Z);
  ws_reader : tview; ws_rd : reader }.
#[export] Instance eta_wsys : Eta wsys := fun r =>
  Build_wsys (ws_mem r) (ws_writer r) (ws_local_seq r) (ws_phase r) (ws_pub r) (ws_reader r) (ws_rd r).

Inductive wact :=
  | Begin (snap : list Z) | Put (i : nat) | Finish
  | Seq1 (t : nat) | Get (i t : nat) | Seq2 (t : nat)
  | Again.

Section Machine.
Variable size : nat.
(** The reader has an acquire fence between its copy and its second load.  The
    code has none: there this is [false]. *)
Variable fence : bool.

Definition wexec (a : wact) (s : wsys) : option wsys :=
  match a, ws_phase s, ws_rd s with
  | Begin snap, WIdle, _ =>
      if (length snap =? size)%nat then
        let s1 := wrapping_add (ws_local_seq s) 1 in
        let '(m, v) := v_store true SEQ_OFFSET s1 (ws_mem s) (ws_writer s) in
        Some (s <| ws_local_seq := s1 |> <| ws_mem := m |> <| ws_writer := fence_release v |>
                <| ws_phase := WCopying snap (body_offsets size) |>)
      else None
  | Put i, WCopying snap todo, _ =>
      if bool_decide (i ∈ todo) then
        let '(m, v) := v_store false i (nth i snap 0) (ws_mem s) (ws_writer s) in
        Some (s <| ws_mem := m |> <| ws_writer := v |> <| ws_phase := WCopying snap (without i todo) |>)
      else None
  | Finish, WCopying snap [], _ =>
      let s2 := wrapping_add (ws_local_seq s) 1 in
      let '(m, v) := v_store true SEQ_OFFSET s2 (ws_mem s) (fence_release (ws_writer s)) in
      Some (s <| ws_local_seq := s2 |> <| ws_mem := m |> <| ws_writer := v |>
              <| ws_phase := WIdle |> <| ws_pub ::= fun l => l ++ [snap] |>)
  | Seq1 t, _, RLoop attempt out =>
      match v_load true SEQ_OFFSET t (ws_mem s) (ws_reader s) with
      | Some (seq1, v) => Some (s <| ws_reader := v |> <| ws_rd := after_seq1 size attempt seq1 out |>)
      | None => None
      end
  | Get i t, _, RCopy attempt seq1 todo out =>
      if bool_decide (i ∈ todo) then
        match v_load false (place i) t (ws_mem s) (ws_reader s) with
        | Some (z, v) =>
            Some (s <| ws_reader := v |>
                    <| ws_rd := RCopy attempt seq1 (without i todo) (<[i := byte_at i z]> out) |>)
        | None => None
        end
      else None
  | Seq2 t, _, RCopy attempt seq1 [] out =>
      match v_load true SEQ_OFFSET t (ws_mem s) (if fence then fence_acquire (ws_reader s) else ws_reader s) with
      | Some (seq2, v) => Some (s <| ws_reader := v |> <| ws_rd := after_seq2 attempt seq1 seq2 out |>)
      | None => None
      end
  | Again, _, (ROk _ _ | RBudget) => Some (s <| ws_rd := RLoop 0 (replicate size 0) |>)
  | _, _, _ => None
  end.

(** The segment as [create] leaves it, opened by a reader afterwards. *)
Definition wstart : wsys :=
  {| ws_mem := fun l => [{| m_val := if in_body l then nth l (init_empty size) 0 else 0; m_view := vbot |}];
     ws_writer := tview_bot; ws_local_seq := 0; ws_phase := WIdle; ws_pub := [];
     ws_reader := tview_bot; ws_rd := RLoop 0 (replicate size 0) |}.

Fixpoint wrun (l : list wact) (s : wsys) : option wsys :=
  match l with
  | [] => Some s
  | a :: l => match wexec a s with Some s => wrun l s | None => None end
  end.

(** The publishes that have begun, the last one perhaps not complete. *)
Definition started (s : wsys) : list (list Z) :=
  ws_pub s ++ match ws_phase s with WCopying snap _ => [snap] | WIdle => [] end.
End Machine.

(** ** Lemmas: memory and views *)

Lemma append_eq l x m : append l x m l = m l ++ [x].
Proof. unfold append. by rewrite Nat.eqb_refl. Qed.
Lemma append_ne l l' x m : l' <> l -> append l x m l' = m l'.
Proof. intros. unfold append. by rewrite (proj2 (Nat.eqb_neq _ _)). Qed.
Lemma append_keeps l x m l' t y : m l' !! t = Some y -> append l x m l' !! t = Some y.
Proof.
  intros H. unfold append. case_match; [|done]. by apply lookup_app_l_Some.
Qed.
Lemma append_lookup l x m l' t y :
  append l x m l' !! t = Some y -> m l' !! t = Some y \/ l' = l /\ t = length (m l) /\ y = x.
Proof.
  destruct (decide (l' = l)) as [->|Hn]; [|rewrite append_ne by done; by left].
  rewrite append_eq. intros [H|[Hl H]]%lookup_app_Some; [by left|].
  apply list_lookup_singleton_Some in H as [Ht ->]. right. split; [done|]. split; [lia|done].
Qed.

Lemma v_load_inv b l t m v z v' :
  v_load b l t m v = Some (z, v') ->
  exists x, m l !! t = Some x /\ z = m_val x /\ (v_cur v l <= t)%nat
    /\ (t <= v_cur v' l)%nat /\ (vle (v_cur v) (v_acq v) -> vle (v_cur v') (v_acq v'))
    /\ vle (v_cur v) (v_cur v') /\ vle (v_acq v) (v_acq v') /\ vle (m_view x) (v_acq v')
    /\ (b = true -> vle (m_view x) (v_cur v')).
Proof.
  unfold v_load. destruct (m l !! t) as [x|] eqn:E; [|done]. case_match eqn:Hle; [|done].
  apply Nat.leb_le in Hle. intros [= <- <-]. exists x. cbn [v_cur v_acq].
  split; [done|]. split; [done|]. split; [done|].
  split; [unfold vjoin; rewrite vone_eq; lia|].
  split; [intros H l'; specialize (H l'); unfold vjoin; destruct b; unfold vbot; lia|].
  repeat split; try (intros l'; unfold vjoin; lia).
  intros -> l'. unfold vjoin. lia.
Qed.

Lemma place_body i : in_body i = true -> place i = i.
Proof. unfold place. by intros ->. Qed.
Lemma body_not_seq i : in_body i = true -> i <> SEQ_OFFSET.
Proof. rewrite in_body_spec, SEQ_OFFSET_eq. lia. Qed.
Lemma not_body_range i : in_body i = false -> (16 <= i < 24)%nat.
Proof.
  intros H. destruct (decide (16 <= i < 24)%nat) as [|Hn]; [done|].
  enough (in_body i = true) by congruence. apply in_body_spec. lia.
Qed.

(** ** The invariant *)

Section Invariant.
Context (size : nat) (Hsize : (64 <= size)%nat) (fence : bool).

Definition stored (s : wsys) (i : nat) : nat :=
  length (ws_pub s) +
    match ws_phase s with WCopying _ todo => if decide (i ∈ todo) then 0 else 1 | WIdle => 0 end.
Definition opened (s : wsys) : nat :=
  2 * length (ws_pub s) + match ws_phase s with WCopying _ _ => 1 | WIdle => 0 end.

Definition is_byte (i : nat) : Prop := (i < size)%nat /\ in_body i = true.

(** Memory and writer.  The message [t] of the sequence word says [t] and was
    released with every byte of the first [t / 2] publishes; the message [j + 1]
    of a body byte is the byte of publish [j] and carries the odd sequence of
    that publish. *)
Record winv (s : wsys) : Prop := {
  wi_sizes : Forall (fun p => length p = size) (started s);
  wi_todo : match ws_phase s with WCopying _ todo => forall i, i ∈ todo -> is_byte i | WIdle => True end;
  wi_local : ws_local_seq s = Z.of_nat (opened s);
  wi_seq_len : length (ws_mem s SEQ_OFFSET) = S (opened s);
  wi_seq : forall t x, ws_mem s SEQ_OFFSET !! t = Some x ->
    m_val x = Z.of_nat t /\ forall i, is_byte i -> (t <= 2 * m_view x i + 1)%nat;
  wi_len : forall i, is_byte i -> length (ws_mem s i) = S (stored s i);
  wi_body : forall i j x, is_byte i -> ws_mem s i !! S j = Some x ->
    (exists snap, started s !! j = Some snap /\ snap !! i = Some (m_val x))
    /\ (2 * j + 1 <= m_view x SEQ_OFFSET)%nat;
  wi_cur : forall i, is_byte i -> (stored s i <= v_cur (ws_writer s) i)%nat;
  wi_rel : match ws_phase s with
           | WCopying _ _ => (opened s <= v_rel (ws_writer s) SEQ_OFFSET)%nat
           | WIdle => True
           end }.

Definition wno_wrap (s : wsys) : Prop := 2 * Z.of_nat (length (ws_pub s)) + 1 < 2 ^ 64.

(** A copied byte: of a publish not older than [k], whose odd sequence a
    fence would see; of the sequence word, none the reader has not seen. *)
Definition copied (s : wsys) (k : nat) (out : list Z) (i : nat) : Prop :=
  exists t x, ws_mem s (place i) !! t = Some x /\ out !! i = Some (byte_at i (m_val x))
    /\ if in_body i then (k <= t /\ 2 * t <= v_acq (ws_reader s) SEQ_OFFSET + 1)%nat
       else (2 * k <= t <= v_cur (ws_reader s) SEQ_OFFSET)%nat.

(** What an accepted read is. *)
Record accepted (s : wsys) (q : Z) (out : list Z) : Prop := {
  ac_length : length out = size;
  ac_number : exists k, q = 2 * (Z.of_nat k + 1) /\ (k < length (ws_pub s))%nat
    /\ (forall i, is_byte i -> exists j snap, (k <= j)%nat /\ started s !! j = Some snap /\ out !! i = snap !! i)
    /\ (fence = true \/ length (started s) = S k ->
        exists snap, ws_pub s !! k = Some snap /\ out = image k snap);
  ac_word : seq_bytes out = le_bytes 8 q;
  ac_seen : q <= Z.of_nat (v_cur (ws_reader s) SEQ_OFFSET) }.

Record rinv (s : wsys) : Prop := {
  ri_views : vle (v_cur (ws_reader s)) (v_acq (ws_reader s));
  ri_reader :
    match ws_rd s with
    | RLoop _ out => length out = size
    | RCopy _ seq1 todo out =>
        length out = size /\ exists k : nat, seq1 = 2 * Z.of_nat k
          /\ (2 * k <= v_cur (ws_reader s) SEQ_OFFSET)%nat
          /\ (forall i, is_byte i -> (k <= v_cur (ws_reader s) i)%nat)
          /\ forall i, (i < size)%nat -> i ∉ todo -> copied s k out i
    | ROk q out => q <> 0 -> accepted s q out
    | RBudget => True
    end }.

Lemma elem_of_offsets i : i ∈ body_offsets size <-> is_byte i.
Proof. unfold is_byte. rewrite body_offsets_spec by done. tauto. Qed.

Lemma stored_le_started s i : winv s -> is_byte i -> (stored s i <= length (started s))%nat.
Proof.
  intros _ _. unfold stored, started. rewrite length_app. repeat case_match; cbn; lia.
Qed.

Lemma winv_start : winv (wstart size).
Proof.
  assert (forall (x y : message) t, [x] !! t = Some y -> t = 0%nat /\ y = x) as Hone.
  { intros x y t H. by apply list_lookup_singleton_Some in H as [-> ->]. }
  constructor; cbn; try done.
  - intros t x [-> ->]%Hone. cbn. split; [done|]. intros i _. cbn. lia.
Qed.

Lemma rinv_start : rinv (wstart size).
Proof. constructor; cbn; [done|]. apply length_replicate. Qed.

(** *** The writer *)

Lemma wrapping_next n : Z.of_nat n + 1 < 2 ^ 64 -> wrapping_add (Z.of_nat n) 1 = Z.of_nat (S n).
Proof. intros. unfold wrapping_add, as_u64. rewrite Z.mod_small; lia. Qed.

Lemma winv_Begin snap s s' :
  winv s -> wno_wrap s -> wexec size fence (Begin snap) s = Some s' -> winv s'.
Proof.
  intros [Hsz _ Hlo Hlen Hseq Hbl Hbody Hcur _] Hw E. unfold wexec in E.
  destruct (ws_phase s) eqn:Hph; [|done]. case_match eqn:Hl; [|done]. apply Nat.eqb_eq in Hl.
  cbn in E. injection E as <-. unfold started, stored, opened in *. rewrite Hph in *.
  rewrite app_nil_r, Nat.add_0_r in *.
  assert (forall i, is_byte i -> (length (ws_pub s) <= v_cur (ws_writer s) i)%nat) as Hcur'.
  { intros i Hi. specialize (Hcur i Hi). lia. }
  constructor; cbn.
  - apply Forall_app. split; [done|]. by repeat constructor.
  - intros i Hi. by apply elem_of_offsets.
  - rewrite Hlo. unfold opened. cbn [ws_pub ws_phase]. unfold wno_wrap in Hw. rewrite wrapping_next; lia.
  - rewrite append_eq, length_app, Hlen. unfold opened. cbn. lia.
  - intros t x [H|(_ & -> & ->)]%append_lookup; [by apply Hseq|]. cbn [m_val m_view]. split.
    + rewrite Hlo, Hlen, wrapping_next; [done|]. unfold wno_wrap in Hw. lia.
    + intros i Hi. specialize (Hcur' i Hi). unfold vjoin. rewrite Hlen. lia.
  - intros i Hi. rewrite append_ne by by apply body_not_seq, Hi. rewrite (Hbl i Hi).
    unfold stored. cbn [ws_pub ws_phase]. rewrite decide_True by by apply elem_of_offsets. lia.
  - intros i j x Hi. rewrite append_ne by by apply body_not_seq, Hi. intros H.
    destruct (Hbody i j x Hi H) as [(sn & Hsn & Hv) Hview]. split; [|done]. exists sn.
    split; [|done]. by apply lookup_app_l_Some.
  - intros i Hi. unfold stored. cbn [ws_pub ws_phase]. specialize (Hcur' i Hi). unfold vjoin.
    rewrite decide_True by by apply elem_of_offsets. lia.
  - unfold vjoin. rewrite vone_eq, Hlen. unfold opened. cbn [ws_pub ws_phase]. lia.
Qed.

Lemma decide_without i j todo (a b : nat) :
  j <> i -> (if decide (j ∈ without i todo) then a else b) = (if decide (j ∈ todo) then a else b).
Proof. intros. apply decide_ext. rewrite elem_of_without. tauto. Qed.

Lemma winv_Put i s s' : winv s -> wexec size fence (Put i) s = Some s' -> winv s'.
Proof.
  intros [Hsz Htodo Hlo Hlen Hseq Hbl Hbody Hcur Hrel] E. unfold wexec in E.
  destruct (ws_phase s) as [|snap todo] eqn:Hph; [done|]. case_bool_decide as Hi; [|done].
  cbn in E. injection E as <-. pose proof (Htodo i Hi) as Hib.
  assert (stored s i = length (ws_pub s)) as Hst by (unfold stored; rewrite Hph, decide_True by done; lia).
  assert (length (ws_mem s i) = S (length (ws_pub s))) as Hli by (rewrite (Hbl i Hib); congruence).
  unfold started, opened in *. rewrite Hph in *.
  apply Forall_app in Hsz as Hsn. destruct Hsn as [_ Hsn%Forall_inv].
  assert (SEQ_OFFSET <> i) as Hne by (apply not_eq_sym, body_not_seq, Hib).
  constructor; cbn.
  - exact Hsz.
  - intros j [_ Hj]%elem_of_without. by apply Htodo.
  - exact Hlo.
  - rewrite append_ne by done. exact Hlen.
  - intros t x. rewrite append_ne by done. apply Hseq.
  - intros j Hj. unfold stored. cbn [ws_pub ws_phase]. destruct (decide (j = i)) as [->|Hji].
    + rewrite append_eq, length_app, Hli, decide_False by (rewrite elem_of_without; tauto). cbn. lia.
    + rewrite append_ne, (Hbl j Hj) by done. unfold stored. rewrite Hph. by rewrite decide_without.
  - intros j k x Hj [H|(-> & Ht & ->)]%append_lookup; [by apply Hbody|].
    rewrite Hli in Ht. injection Ht as ->. cbn [m_val m_view]. split.
    + exists snap. unfold started. cbn [ws_pub ws_phase]. split.
      * by rewrite lookup_app_r, Nat.sub_diag.
      * apply lookup_nth_lt. rewrite Hsn. apply Hib.
    + unfold vjoin. lia.
  - intros j Hj. unfold stored, vjoin. cbn [ws_pub ws_phase]. specialize (Hcur j Hj).
    destruct (decide (j = i)) as [->|Hji].
    + rewrite vone_eq, Hli, decide_False by (rewrite elem_of_without; tauto). lia.
    + unfold stored in Hcur. rewrite Hph in Hcur.
      rewrite decide_without by done. lia.
  - exact Hrel.
Qed.

Lemma winv_Finish s s' :
  winv s -> wno_wrap s' -> wexec size fence Finish s = Some s' -> winv s'.
Proof.
  intros [Hsz _ Hlo Hlen Hseq Hbl Hbody Hcur _] Hw E. unfold wexec in E.
  destruct (ws_phase s) as [|snap [|]] eqn:Hph; [done| |done].
  cbn in E. injection E as <-. unfold wno_wrap in Hw. cbn [ws_pub] in Hw. rewrite length_app in Hw. cbn in Hw.
  unfold started, stored, opened in *. rewrite Hph in *.
  constructor; cbn.
  - unfold started. cbn [ws_pub ws_phase]. by rewrite app_nil_r.
  - done.
  - rewrite Hlo, wrapping_next by lia. unfold opened. cbn [ws_pub ws_phase]. rewrite length_app. cbn. lia.
  - rewrite append_eq, length_app, Hlen. unfold opened. cbn [ws_pub ws_phase]. rewrite length_app. cbn. lia.
  - intros t x [H|(_ & -> & ->)]%append_lookup; [by apply Hseq|]. cbn [m_val m_view]. split.
    + rewrite Hlo, Hlen, wrapping_next by lia. f_equal.
    + intros i Hi. specialize (Hcur i Hi). rewrite decide_False in Hcur by apply not_elem_of_nil.
      unfold vjoin. cbn. rewrite Hlen. lia.
  - intros i Hi. rewrite append_ne by by apply body_not_seq, Hi. rewrite (Hbl i Hi).
    unfold stored. cbn [ws_pub ws_phase]. rewrite decide_False by apply not_elem_of_nil. rewrite length_app. cbn. lia.
  - intros i j x Hi. rewrite append_ne by by apply body_not_seq, Hi. unfold started. cbn [ws_pub ws_phase].
    rewrite app_nil_r. by apply Hbody.
  - intros i Hi. specialize (Hcur i Hi). rewrite decide_False in Hcur by apply not_elem_of_nil.
    unfold stored, vjoin. cbn. rewrite length_app. cbn. lia.
  - done.
Qed.

(** *** What the writer's steps mean to the reader *)

Definition by_writer (a : wact) : bool :=
  match a with Begin _ | Put _ | Finish => true | _ => false end.

Record later (s s' : wsys) : Prop := {
  la_mem : forall l t x, ws_mem s l !! t = Some x -> ws_mem s' l !! t = Some x;
  la_started : started s `prefix_of` started s';
  la_pub : ws_pub s `prefix_of` ws_pub s' }.

Lemma wexec_writer a s s' :
  by_writer a = true -> wexec size fence a s = Some s' ->
  ws_reader s' = ws_reader s /\ ws_rd s' = ws_rd s /\ later s s'.
Proof.
  intros Ha E. unfold wexec in E.
  destruct a, (ws_phase s) as [|sn [|? ?]] eqn:Hph; try done; repeat case_match; try done; injection E as <-;
    (split; [done|]; split; [done|]); unfold v_store in *; simplify_eq;
    (constructor; [intros; by apply append_keeps| |]); unfold started; rewrite ?Hph; cbn; try done;
    try (by apply prefix_app_r); rewrite ?app_nil_r; try done; by apply prefix_app_r.
Qed.

Lemma wexec_reader a s s' :
  by_writer a = false -> wexec size fence a s = Some s' ->
  exists v r, s' = s <| ws_reader := v |> <| ws_rd := r |>.
Proof.
  intros Ha E. unfold wexec in E. destruct s.
  destruct a; try done; repeat case_match; try done; injection E as <-; by eexists _, _.
Qed.

Lemma winv_reader s v r : winv s -> winv (s <| ws_reader := v |> <| ws_rd := r |>).
Proof. intros []. by constructor. Qed.

Lemma accepted_later s s' q out :
  later s s' -> ws_reader s' = ws_reader s -> accepted s q out -> accepted s' q out.
Proof.
  intros [_ Hst Hpub] Hr [Hl (k & Hq & Hk & Hbytes & Hexact) Hword Hseen].
  constructor; [done| |done|by rewrite Hr].
  exists k. split; [done|]. split; [pose proof (prefix_length _ _ Hpub); lia|]. split.
  - intros i Hi. destruct (Hbytes i Hi) as (j & snap & Hj & Hs & Ho). exists j, snap.
    split; [done|]. split; [by eapply prefix_lookup_Some|done].
  - intros H. destruct Hexact as (snap & Hs & Ho).
    + destruct H as [H|H]; [by left|right]. pose proof (prefix_length _ _ Hst).
      assert (k < length (started s))%nat by (unfold started; rewrite length_app; lia). lia.
    + exists snap. split; [by eapply prefix_lookup_Some|done].
Qed.

Lemma rinv_later s s' :
  later s s' -> ws_reader s' = ws_reader s -> ws_rd s' = ws_rd s -> rinv s -> rinv s'.
Proof.
  intros Hl Hr Hrd [Hv Hi]. constructor; rewrite Hr, ?Hrd; [done|].
  destruct (ws_rd s); [done| |intros Hq; by eapply accepted_later, Hi|done].
  destruct Hi as (Ho & k & H1 & H2 & H3 & H4). split; [done|]. exists k. split_and!; [done..|].
  intros i Hi Hn. destruct (H4 i Hi Hn) as (t & x & Hx & Hout & Hb). exists t, x.
  split; [by apply Hl|]. split; [done|]. by rewrite Hr.
Qed.

(** *** The reader *)

Lemma wexec_Seq1 t s :
  wexec size fence (Seq1 t) s =
    match ws_rd s with
    | RLoop attempt out =>
        match v_load true SEQ_OFFSET t (ws_mem s) (ws_reader s) with
        | Some (seq1, v) => Some (s <| ws_reader := v |> <| ws_rd := after_seq1 size attempt seq1 out |>)
        | None => None
        end
    | _ => None
    end.
Proof. unfold wexec. by destruct (ws_phase s), (ws_rd s). Qed.

Lemma wexec_Get i t s :
  wexec size fence (Get i t) s =
    match ws_rd s with
    | RCopy attempt seq1 todo out =>
        if bool_decide (i ∈ todo) then
          match v_load false (place i) t (ws_mem s) (ws_reader s) with
          | Some (z, v) =>
              Some (s <| ws_reader := v |>
                      <| ws_rd := RCopy attempt seq1 (without i todo) (<[i := byte_at i z]> out) |>)
          | None => None
          end
        else None
    | _ => None
    end.
Proof. unfold wexec. by destruct (ws_phase s), (ws_rd s). Qed.

Lemma wexec_Seq2 t s :
  wexec size fence (Seq2 t) s =
    match ws_rd s with
    | RCopy attempt seq1 [] out =>
        match v_load true SEQ_OFFSET t (ws_mem s)
                (if fence then fence_acquire (ws_reader s) else ws_reader s) with
        | Some (seq2, v) => Some (s <| ws_reader := v |> <| ws_rd := after_seq2 attempt seq1 seq2 out |>)
        | None => None
        end
    | _ => None
    end.
Proof. unfold wexec. by destruct (ws_phase s), (ws_rd s). Qed.

Lemma wexec_Again s :
  wexec size fence Again s =
    match ws_rd s with
    | ROk _ _ | RBudget => Some (s <| ws_rd := RLoop 0 (replicate size 0) |>)
    | _ => None
    end.
Proof. unfold wexec. by destruct (ws_phase s), (ws_rd s). Qed.

Lemma rinv_Seq1 t s s' : winv s -> rinv s -> wexec size fence (Seq1 t) s = Some s' -> rinv s'.
Proof.
  intros Hw [Hv Hi]. rewrite wexec_Seq1. destruct (ws_rd s) as [attempt out| | |]; [|done..].
  destruct (v_load _ _ _ _ _) as [[z v]|] eqn:El; [|done]. intros [= <-].
  apply v_load_inv in El as (x & Hx & -> & _ & Ht & Hle & _ & _ & _ & Hacq).
  apply Hw in Hx as [Hval Hview].
  constructor; cbn; [by apply Hle|]. unfold after_seq1.
  destruct (attempt <? RETRY_BUDGET)%nat; [|done]. destruct (negb _) eqn:Hodd; [done|].
  split; [done|]. apply negb_false_iff, Z.eqb_eq, land_1_even in Hodd. rewrite Hval in *.
  rewrite Z.even_spec in Hodd. destruct Hodd as [k Hk]. exists (Z.to_nat k).
  split; [lia|]. split; [lia|]. split.
  - intros i Hb. specialize (Hview i Hb). specialize (Hacq eq_refl i). lia.
  - intros i Hs Hn. destruct Hn. apply elem_of_seq. lia.
Qed.

Lemma rinv_Get i t s s' : winv s -> rinv s -> wexec size fence (Get i t) s = Some s' -> rinv s'.
Proof.
  intros Hw [Hv Hi]. rewrite wexec_Get. destruct (ws_rd s) as [|attempt seq1 todo out| |]; [done| |done..].
  case_bool_decide as Hin; [|done].
  destruct (v_load _ _ _ _ _) as [[z v]|] eqn:El; [|done]. intros [= <-].
  apply v_load_inv in El as (x & Hx & -> & Hcur & Ht & Hle & Hc & Ha & Hxa & _).
  destruct Hi as (Ho & k & H1 & H2 & H3 & H4).
  constructor; cbn; [by apply Hle|]. split; [by rewrite length_insert|]. exists k. split; [done|].
  split; [specialize (Hc SEQ_OFFSET); lia|].
  split; [intros j Hj; specialize (H3 j Hj); specialize (Hc j); lia|].
  intros j Hj Hn. destruct (decide (j = i)) as [->|Hji].
  - exists t, x. split; [done|]. split; [apply list_lookup_insert_eq; lia|]. cbn [ws_reader].
    destruct (in_body i) eqn:Hb.
    + rewrite place_body in * by done. specialize (H3 i (conj Hj Hb)). split; [lia|].
      destruct t as [|t]; [lia|]. destruct (wi_body _ Hw i t x (conj Hj Hb) Hx) as [_ Hvx].
      specialize (Hxa SEQ_OFFSET). lia.
    + unfold place in *. rewrite Hb in *. lia.
  - destruct (H4 j Hj) as (u & y & Hy & Hout & Hb); [rewrite elem_of_without in Hn; tauto|].
    exists u, y. split; [done|]. split; [by rewrite list_lookup_insert_ne by done|]. cbn [ws_reader].
    specialize (Hc SEQ_OFFSET). specialize (Ha SEQ_OFFSET). case_match; lia.
Qed.

(** The second load accepts, and so bounds what the copy can have seen: the
    word entirely, and with the fence the body too. *)
Lemma copied_word s k out :
  winv s -> length out = size -> (forall i, (i < size)%nat -> copied s k out i) ->
  (v_cur (ws_reader s) SEQ_OFFSET <= 2 * k)%nat ->
  seq_bytes out = le_bytes 8 (2 * Z.of_nat k).
Proof.
  intros Hw Ho Hcop Hcur. apply list_eq_same_length with 8%nat; [apply length_le_bytes| |].
  { unfold seq_bytes. rewrite length_take, length_drop, SEQ_OFFSET_eq. lia. }
  intros i a b Hi Ha Hb. unfold seq_bytes in Ha.
  rewrite lookup_take_lt, lookup_drop, SEQ_OFFSET_eq in Ha by lia.
  assert (in_body (16 + i) = false) as Hnb by (apply not_true_is_false; rewrite in_body_spec; lia).
  destruct (Hcop (16 + i)%nat ltac:(lia)) as (u & x & Hx & Hout & Hu). unfold place, byte_at in *.
  rewrite Hnb in *. destruct (wi_seq _ Hw u x Hx) as [Hval _].
  replace (m_val x) with (2 * Z.of_nat k) in Hout by lia. rewrite SEQ_OFFSET_eq in Hout.
  replace (16 + i - 16)%nat with i in Hout by lia. rewrite (nth_lookup_Some _ _ _ _ Hb) in Hout. congruence.
Qed.

Lemma copied_body s k out i :
  winv s -> (0 < k)%nat -> copied s k out i -> is_byte i ->
  exists j snap, (k - 1 <= j)%nat /\ started s !! j = Some snap /\ out !! i = snap !! i
    /\ ((v_acq (ws_reader s) SEQ_OFFSET <= 2 * k)%nat -> j = k - 1)%nat.
Proof.
  intros Hw Hk (u & x & Hx & Hout & Hu) [Hi Hb]. unfold byte_at in Hout. rewrite Hb in *.
  rewrite place_body in Hx by done.
  destruct u as [|j]; [lia|]. destruct (wi_body _ Hw i j x (conj Hi Hb) Hx) as [(snap & Hs & Hv) _].
  exists j, snap. split; [lia|]. split; [done|]. split; [congruence|]. lia.
Qed.

Lemma image_ext snap out k :
  length snap = size -> length out = size -> seq_bytes out = le_bytes 8 (2 * (Z.of_nat k + 1)) ->
  (forall i, is_byte i -> out !! i = snap !! i) -> out = image k snap.
Proof.
  intros Hl Ho Hword Hbody. unfold image. apply segment_ext.
  - rewrite length_store_seq; lia.
  - lia.
  - by rewrite Hword, seq_bytes_store by lia.
  - intros i Hi Hb. rewrite lookup_store_seq_body by (done || lia). apply Hbody. split; [lia|done].
Qed.

Lemma accepts s v t out (k : nat) :
  winv s -> length out = size -> (0 < k)%nat ->
  (forall i, (i < size)%nat -> copied s k out i) ->
  (2 * k < length (ws_mem s SEQ_OFFSET))%nat ->
  (v_cur (ws_reader s) SEQ_OFFSET <= 2 * k)%nat ->
  (fence = true -> (v_acq (ws_reader s) SEQ_OFFSET <= 2 * k)%nat) ->
  (2 * k <= v_cur v SEQ_OFFSET)%nat ->
  accepted (s <| ws_reader := v |> <| ws_rd := t |>) (2 * Z.of_nat k) out.
Proof.
  intros Hw Ho Hk Hcop Hlen Hcur Hacq Hseen. pose proof (copied_word s k out Hw Ho Hcop Hcur) as Hword.
  assert (k <= length (ws_pub s))%nat as Hkp.
  { rewrite (wi_seq_len _ Hw) in Hlen. unfold opened in Hlen. destruct (ws_phase s); lia. }
  constructor; [done| |done|cbn; lia].
  exists (k - 1)%nat. split; [lia|]. split; [cbn; lia|]. split.
  - intros i Hi. destruct (copied_body s k out i Hw Hk (Hcop i (proj1 Hi)) Hi) as (j & snap & Hj & Hs & Hout & _).
    by exists j, snap.
  - intros Hex. destruct (lookup_lt_is_Some_2 (ws_pub s) (k - 1) ltac:(lia)) as [snap Hsnap]. exists snap.
    split; [done|]. assert (started s !! (k - 1)%nat = Some snap) as Hst by (by apply lookup_app_l_Some).
    pose proof (wi_sizes _ Hw) as Hsz. rewrite Forall_lookup in Hsz.
    apply image_ext; [by apply (Hsz _ _ Hst)|done|rewrite Hword; f_equal; lia|].
    intros i Hi. destruct (copied_body s k out i Hw Hk (Hcop i (proj1 Hi)) Hi) as (j & sn & Hj & Hs & -> & Hf).
    assert (j = k - 1)%nat as ->; [|congruence].
    destruct Hex as [Hex|Hex]; [by apply Hf, Hacq|]. apply lookup_lt_Some in Hs.
    unfold started in Hs, Hex. change (started s) with (ws_pub s ++ match ws_phase s with WCopying snap _ => [snap] | WIdle => [] end) in Hs. cbn in Hex. lia.
Qed.

Lemma rinv_Seq2 t s s' : winv s -> rinv s -> wexec size fence (Seq2 t) s = Some s' -> rinv s'.
Proof.
  intros Hw [Hv Hi]. rewrite wexec_Seq2. destruct (ws_rd s) as [|attempt seq1 [|] out| |]; try done.
  destruct (v_load _ _ _ _ _) as [[z v]|] eqn:El; [|done]. intros [= <-].
  apply v_load_inv in El as (x & Hx & -> & Hcur & Ht & Hle & Hc & _).
  pose proof Hx as Hlt. apply lookup_lt_Some in Hlt. apply Hw in Hx as [Hval _]. rewrite Hval in *.
  destruct Hi as (Ho & k & Hk & Hks & _ & Hcop).
  assert (vle (v_cur (ws_reader s)) (v_cur (if fence then fence_acquire (ws_reader s) else ws_reader s))) as Hf
    by (by destruct fence).
  constructor; cbn; [apply Hle; by destruct fence|]. unfold after_seq2.
  destruct (Z.eqb_spec seq1 0) as [H0|H0]; cbn [negb andb];
    [rewrite andb_false_r; destruct (4 <? attempt)%nat; [by intros []|done]|].
  rewrite andb_true_r. destruct (Z.eqb_spec seq1 (Z.of_nat t)); [|done]. intros _. rewrite Hk.
  specialize (Hf SEQ_OFFSET). apply accepts; try done.
  - lia.
  - intros i Hi. apply Hcop; [done|]. apply not_elem_of_nil.
  - lia.
  - lia.
  - intros Hfe. rewrite Hfe in Hcur. cbn in Hcur. lia.
  - lia.
Qed.

Lemma rinv_Again s s' : rinv s -> wexec size fence Again s = Some s' -> rinv s'.
Proof.
  intros [Hv _]. rewrite wexec_Again.
  destruct (ws_rd s); try done; intros [= <-]; constructor; cbn; (done || apply length_replicate).
Qed.

(** *** Runs *)

Lemma wexec_pub a s s' :
  wexec size fence a s = Some s' -> (length (ws_pub s) <= length (ws_pub s'))%nat.
Proof.
  intros E. destruct (by_writer a) eqn:Ha.
  - destruct (wexec_writer _ _ _ Ha E) as (_ & _ & Hl). apply prefix_length, Hl.
  - by destruct (wexec_reader _ _ _ Ha E) as (v & r & ->).
Qed.

Lemma wexec_inv a s s' :
  winv s -> rinv s -> wno_wrap s' -> wexec size fence a s = Some s' -> winv s' /\ rinv s'.
Proof.
  intros Hw Hr Hn E. pose proof (wexec_pub _ _ _ E) as Hp. destruct (by_writer a) eqn:Ha.
  - split.
    + destruct a; try done.
      * eapply winv_Begin; [done| |done]. unfold wno_wrap in *. lia.
      * by eapply winv_Put.
      * by eapply winv_Finish.
    + destruct (wexec_writer _ _ _ Ha E) as (H1 & H2 & Hl). by eapply rinv_later.
  - split.
    + destruct (wexec_reader _ _ _ Ha E) as (v & r & ->). by apply winv_reader.
    + destruct a; try done.
      * by eapply rinv_Seq1.
      * by eapply rinv_Get.
      * by eapply rinv_Seq2.
      * by eapply rinv_Again.
Qed.

Lemma wrun_pub l s s' :
  wrun size fence l s = Some s' -> (length (ws_pub s) <= length (ws_pub s'))%nat.
Proof.
  revert s. induction l as [|a l IH]; intros s E; cbn in E; [by injection E as <-|].
  destruct (wexec _ _ a s) as [s1|] eqn:E1; [|done]. apply wexec_pub in E1. apply IH in E. lia.
Qed.

Lemma wrun_inv l s s' :
  winv s -> rinv s -> wno_wrap s' -> wrun size fence l s = Some s' -> winv s' /\ rinv s'.
Proof.
  revert s. induction l as [|a l IH]; intros s Hw Hr Hn E; cbn in E; [by injection E as <-|].
  destruct (wexec _ _ a s) as [s1|] eqn:E1; [|done].
  destruct (wexec_inv a s s1 Hw Hr) as [Hw1 Hr1]; [|done|by eapply IH].
  apply wrun_pub in E. unfold wno_wrap in *. lia.
Qed.

(** The reader has seen the sequence [b] and accepts nothing older. *)
Definition past (b : Z) (s : wsys) : Prop :=
  b <= Z.of_nat (v_cur (ws_reader s) SEQ_OFFSET)
  /\ match ws_rd s with
     | RCopy _ q _ _ => b <= q
     | ROk q _ => q <> 0 -> b <= q
     | _ => True
     end.

Lemma past_exec b a s s' : winv s -> past b s -> wexec size fence a s = Some s' -> rinv s -> past b s'.
Proof.
  intros Hw [Hc Hq] E Hr. destruct (by_writer a) eqn:Ha.
  { destruct (wexec_writer _ _ _ Ha E) as (H1 & H2 & _). unfold past. by rewrite H1, H2. }
  destruct a; try done; clear Ha.
  - rewrite wexec_Seq1 in E. destruct (ws_rd s); try done.
    destruct (v_load _ _ _ _ _) as [[z v]|] eqn:El; [|done]. injection E as <-.
    apply v_load_inv in El as (x & Hx & -> & Hle & Ht & _). apply Hw in Hx as [-> _].
    split; cbn; [lia|]. unfold after_seq1.
    destruct (attempt <? RETRY_BUDGET)%nat; [|done]. destruct (negb _); [done|lia].
  - rewrite wexec_Get in E. destruct (ws_rd s); try done. case_bool_decide; [|done].
    destruct (v_load _ _ _ _ _) as [[z v]|] eqn:El; [|done]. injection E as <-.
    apply v_load_inv in El as (x & _ & _ & _ & _ & _ & Hle & _). specialize (Hle SEQ_OFFSET).
    split; cbn; [lia|done].
  - rewrite wexec_Seq2 in E. destruct (ws_rd s) as [|attempt q [|] out| |]; try done.
    destruct (v_load _ _ _ _ _) as [[z v]|] eqn:El; [|done]. injection E as <-.
    apply v_load_inv in El as (x & _ & _ & _ & _ & _ & Hle & _). specialize (Hle SEQ_OFFSET).
    pose proof (ri_views _ Hr SEQ_OFFSET). split; cbn; [destruct fence; cbn in *; lia|].
    unfold after_seq2. destruct (_ && _); [done|]. by destruct (_ && _).
  - rewrite wexec_Again in E. destruct (ws_rd s); try done; injection E as <-; (split; [exact Hc|exact I]).
Qed.

Lemma past_run b l s s' :
  winv s -> rinv s -> wno_wrap s' -> past b s -> wrun size fence l s = Some s' -> past b s'.
Proof.
  revert s. induction l as [|a l IH]; intros s Hw Hr Hn Hp E; cbn in E; [by injection E as <-|].
  destruct (wexec _ _ a s) as [s1|] eqn:E1; [|done].
  assert (wno_wrap s1) as Hn1 by (apply wrun_pub in E; unfold wno_wrap in *; lia).
  destruct (wexec_inv a s s1 Hw Hr Hn1 E1) as [Hw1 Hr1]. eapply IH; [done|done|done| |done]. exact (past_exec b a s s1 Hw Hp E1 Hr).
Qed.
End Invariant.

(** ** Every sequentially consistent run is one of these

    The runs of [Seqlock.v] are those in which every load takes the newest
    message. *)

Definition closed (m : memory) (v : timemap) : Prop := forall l, (v l < length (m l))%nat.

Lemma closed_join m a b : closed m a -> closed m b -> closed m (vjoin a b).
Proof. intros Ha Hb l. specialize (Ha l). specialize (Hb l). unfold vjoin. lia. Qed.
Lemma closed_append m l x v : closed m v -> closed (append l x m) v.
Proof. intros H l'. specialize (H l'). unfold append. case_match; rewrite ?length_app; lia. Qed.
Lemma closed_one m l x : closed m vbot -> closed (append l x m) (vone l (length (m l))).
Proof.
  intros H l'. destruct (decide (l' = l)) as [->|Hn].
  - rewrite vone_eq, append_eq, length_app. cbn. lia.
  - specialize (H l'). rewrite append_ne by done. unfold vone. by rewrite (proj2 (Nat.eqb_neq _ _)).
Qed.
Lemma closed_bot m v : closed m v -> closed m vbot.
Proof. intros H l. specialize (H l). unfold vbot. lia. Qed.
Lemma closed_le m a b : vle a b -> closed m b -> closed m a.
Proof. intros Hle H l. specialize (Hle l). specialize (H l). lia. Qed.

Record cinv (m : memory) (v : tview) : Prop := {
  ci_msg : forall l t x, m l !! t = Some x -> closed m (m_view x);
  ci_cur : closed m (v_cur v); ci_acq : closed m (v_acq v); ci_rel : closed m (v_rel v) }.

Lemma cinv_store m v b l z : cinv m v -> cinv (v_store b l z m v).1 (v_store b l z m v).2.
Proof.
  intros [Hm Hc Ha Hr]. pose proof (closed_bot _ _ Hc) as Hb. unfold v_store. constructor; cbn.
  - intros l' t x [H|(_ & _ & ->)]%append_lookup; [by eapply closed_append, Hm|]. cbn.
    destruct b; (apply closed_join; [by apply closed_append|by apply closed_one]).
  - apply closed_join; [by apply closed_append|by apply closed_one].
  - apply closed_join; [by apply closed_append|by apply closed_one].
  - by apply closed_append.
Qed.

(** Another thread stores. *)
Lemma cinv_other m v w b l z : cinv m v -> cinv m w -> cinv (v_store b l z m w).1 v.
Proof.
  intros [_ Hc Ha Hr] Hw. destruct (cinv_store m w b l z Hw) as [Hm _ _ _].
  constructor; [exact Hm| | |]; by apply closed_append.
Qed.

(** The newest message can always be loaded. *)
Lemma v_load_newest b l m v :
  cinv m v -> exists x v', last (m l) = Some x /\ v_load b l (pred (length (m l))) m v = Some (m_val x, v') /\ cinv m v'.
Proof.
  intros [Hm Hc Ha Hr]. rewrite last_lookup. pose proof (Hc l) as Hl.
  destruct (lookup_lt_is_Some_2 (m l) (pred (length (m l))) ltac:(lia)) as [x Hx]. exists x.
  unfold v_load. rewrite Hx, (proj2 (Nat.leb_le _ _)) by lia. eexists. split; [done|]. split; [done|].
  assert (closed m (vone l (pred (length (m l))))) as Hone.
  { intros l'. unfold vone. case_match eqn:E; [apply Nat.eqb_eq in E as ->; lia|]. specialize (Hc l'). lia. }
  assert (closed m vbot) as Hb by by eapply closed_bot.
  constructor; cbn; try done; repeat apply closed_join; try done; [|by eapply Hm].
  destruct b; [by eapply Hm|done].
Qed.

Section Sequential.
Context (size : nat) (Hsize : (64 <= size)%nat) (fence : bool).

Record sc_sim (s : sys) (w : wsys) : Prop := {
  ss_phase : ws_phase w = wphase s; ss_pub : ws_pub w = pub s; ss_rd : ws_rd w = rd s;
  ss_local : ws_local_seq w = local_seq s;
  ss_mem : forall i x, (i < size)%nat -> last (ws_mem w (place i)) = Some x -> mem s !! i = Some (byte_at i (m_val x));
  ss_writer : cinv (ws_mem w) (ws_writer w);
  ss_reader : cinv (ws_mem w) (ws_reader w) }.

Lemma lookup_word m v i :
  seq_bytes m = le_bytes 8 v -> in_body i = false -> m !! i = Some (nth (i - SEQ_OFFSET) (le_bytes 8 v) 0).
Proof.
  intros E Hi%not_body_range. rewrite SEQ_OFFSET_eq.
  assert (seq_bytes m !! (i - 16)%nat = Some (nth (i - 16) (le_bytes 8 v) 0)) as H.
  { rewrite E. apply lookup_nth_lt. rewrite length_le_bytes. lia. }
  unfold seq_bytes in H. rewrite lookup_take_lt, lookup_drop, SEQ_OFFSET_eq in H by lia.
  by replace (16 + (i - 16))%nat with i in H by lia.
Qed.

(** A store to the word, in both memories. *)
Lemma sim_word s w z x i :
  (24 <= length (mem s))%nat ->
  (forall i x, (i < size)%nat -> last (ws_mem w (place i)) = Some x -> mem s !! i = Some (byte_at i (m_val x))) ->
  m_val x = z -> (i < size)%nat ->
  forall y, last (append SEQ_OFFSET x (ws_mem w) (place i)) = Some y ->
  store_seq (mem s) z !! i = Some (byte_at i (m_val y)).
Proof.
  intros Hl Hm <- Hi y. destruct (in_body i) eqn:Hb.
  - rewrite lookup_store_seq_body, append_ne; [by apply Hm|by rewrite place_body; [apply body_not_seq|]|done|done].
  - unfold place at 1. rewrite Hb, append_eq, last_snoc. intros [= <-].
    rewrite (lookup_word _ (m_val x)) by (done || by apply seq_bytes_store). unfold byte_at. by rewrite Hb.
Qed.

Lemma sim_start : sc_sim (start size) (wstart size).
Proof.
  assert (cinv (ws_mem (wstart size)) tview_bot) as Hc.
  { constructor; cbn; try (intros l; cbn; unfold vbot; lia).
    intros l t x H. apply list_lookup_singleton_Some in H as [_ <-]. intros l'. cbn. unfold vbot. lia. }
  constructor; try done. cbn. intros i x Hi [= <-]. cbn. unfold place.
  destruct (in_body i) eqn:Hb; unfold byte_at; rewrite Hb; [apply lookup_nth_lt; by rewrite length_init_empty|].
  change (in_body SEQ_OFFSET) with false. apply lookup_word; [|done].
  exact (inv_word _ _ (inv_start size Hsize)).
Qed.

(** The newest message of the word is what the segment holds. *)
Lemma newest_word s w x :
  sc_sim s w -> inv size s -> winv size w -> last (ws_mem w SEQ_OFFSET) = Some x -> m_val x = load_seq (mem s).
Proof.
  intros Hs Hi Hw Hx. rewrite (inv_load size Hsize s Hi), <- (ss_local _ _ Hs), (wi_local _ _ Hw).
  rewrite last_lookup, (wi_seq_len _ _ Hw) in Hx. by apply (wi_seq _ _ Hw) in Hx as [-> _].
Qed.

Lemma sim_writer a s s' w :
  is_reader_act a = false -> sc_sim s w -> inv size s -> winv size w -> exec size a s = Some s' ->
  exists a' w', wexec size fence a' w = Some w' /\ sc_sim s' w'.
Proof.
  intros Ha [Hph Hpub Hrd Hloc Hmem Hcw Hcr] Hi Hw E. unfold exec in E.
  pose proof (inv_len _ _ Hi) as Hlen.
  destruct a as [snap|i| | | |]; try done; clear Ha.
  - destruct (wphase s) eqn:Ep; [|done]. destruct (Nat.eqb _ _) eqn:El; [|done]. injection E as <-.
    exists (Begin snap). unfold wexec. rewrite Hph, El. eexists. split; [reflexivity|].
    constructor; cbn; try done; [by rewrite Hloc| | |].
    + intros i x Hi' Hx. eapply (sim_word s w); [lia|done| |done|exact Hx]. cbn. by rewrite Hloc.
    + destruct (cinv_store _ _ true SEQ_OFFSET (wrapping_add (ws_local_seq w) 1) Hcw) as [? ? ? ?]. by constructor.
    + exact (cinv_other _ _ _ true SEQ_OFFSET _ Hcr Hcw).
  - destruct (wphase s) as [|snap todo] eqn:Ep; [done|]. case_bool_decide as Hin; [|done]. injection E as <-.
    exists (Put i). unfold wexec. rewrite Hph, bool_decide_eq_true_2 by done. eexists. split; [reflexivity|].
    pose proof (wi_todo _ _ Hw) as Ht. rewrite Hph in Ht. destruct (Ht i Hin) as [Hi' Hb].
    constructor; cbn; try done.
    + intros j x Hj. destruct (decide (place j = i)) as [<-|Hn].
      * rewrite append_eq, last_snoc. intros [= <-]. cbn.
        destruct (in_body j) eqn:Hbj; [|by unfold place in Hb; rewrite Hbj in Hb].
        rewrite place_body in * by done. unfold byte_at. rewrite Hbj. apply list_lookup_insert_eq. lia.
      * rewrite append_ne by done. intros Hx. rewrite list_lookup_insert_ne; [by apply Hmem|].
        intros ->. by apply Hn, place_body.
    + exact (cinv_store _ _ false i _ Hcw).
    + exact (cinv_other _ _ _ false i _ Hcr Hcw).
  - destruct (wphase s) as [|snap [|]] eqn:Ep; [done| |done]. injection E as <-.
    exists Finish. unfold wexec. rewrite Hph. eexists. split; [reflexivity|].
    assert (cinv (ws_mem w) (fence_release (ws_writer w))) as Hcf by (destruct Hcw; by constructor).
    constructor; cbn; try done; [by rewrite Hpub|by rewrite Hloc| | |].
    + intros i x Hi' Hx. eapply (sim_word s w); [lia|done| |done|exact Hx]. cbn. by rewrite Hloc.
    + exact (cinv_store _ _ true SEQ_OFFSET _ Hcf).
    + exact (cinv_other _ _ _ true SEQ_OFFSET _ Hcr Hcf).
Qed.

Lemma sim_reader a s s' w :
  is_reader_act a = true -> sc_sim s w -> inv size s -> winv size w -> exec size a s = Some s' ->
  exists a' w', wexec size fence a' w = Some w' /\ sc_sim s' w'.
Proof.
  intros Ha Hs Hi Hw E. pose proof Hs as [Hph Hpub Hrd Hloc Hmem Hcw Hcr].
  destruct a as [| | | |i|]; try done; clear Ha.
  - assert (exists attempt out, rd s = RLoop attempt out
      /\ s' = s <| rd := after_seq1 size attempt (load_seq (mem s)) out |>) as (attempt & out & Er & ->).
    { unfold exec in E. destruct (wphase s), (rd s); try done; injection E as <-; by eexists _, _. }
    destruct (v_load_newest true SEQ_OFFSET _ _ Hcr) as (x & v & Hx & Hv & Hc).
    eexists (Seq1 _), _. rewrite wexec_Seq1, Hrd, Er, Hv. split; [reflexivity|].
    rewrite (newest_word s w x Hs Hi Hw Hx). by constructor.
  - assert (exists attempt q todo out, rd s = RCopy attempt q todo out /\ i ∈ todo
      /\ s' = s <| rd := RCopy attempt q (without i todo) (<[i := nth i (mem s) 0]> out) |>)
      as (attempt & q & todo & out & Er & Hin & ->).
    { unfold exec in E. destruct (wphase s), (rd s); try done; (case_bool_decide; [|done]);
        injection E as <-; by eexists _, _, _, _. }
    destruct (v_load_newest false (place i) _ _ Hcr) as (x & v & Hx & Hv & Hc).
    eexists (Get i _), _. rewrite wexec_Get, Hrd, Er, bool_decide_eq_true_2, Hv by done. split; [reflexivity|].
    constructor; cbn; try done. f_equal. pose proof (inv_reader _ _ Hi) as Hri. unfold reader_inv in Hri.
    rewrite Er in Hri. destruct Hri as [Ho _]. destruct (decide (i < size)%nat) as [Hlt|Hge].
    + f_equal. symmetry. apply nth_lookup_Some. by apply Hmem.
    + by rewrite !list_insert_ge by lia.
  - assert (exists attempt q out, rd s = RCopy attempt q [] out
      /\ s' = s <| rd := after_seq2 attempt q (load_seq (mem s)) out |>) as (attempt & q & out & Er & ->).
    { unfold exec in E. destruct (wphase s) as [|? []], (rd s) as [|? ? []| |]; try done;
        injection E as <-; by eexists _, _, _. }
    assert (cinv (ws_mem w) (if fence then fence_acquire (ws_reader w) else ws_reader w)) as Hcf
      by (destruct fence; [destruct Hcr; by constructor|done]).
    destruct (v_load_newest true SEQ_OFFSET _ _ Hcf) as (x & v & Hx & Hv & Hc).
    eexists (Seq2 _), _. rewrite wexec_Seq2, Hrd, Er, Hv. split; [reflexivity|].
    rewrite (newest_word s w x Hs Hi Hw Hx). by constructor.
Qed.

Lemma run_no_wrap l s s' : run size l s = Some s' -> no_wrap s' -> no_wrap s.
Proof.
  revert s. induction l as [|a l IH]; intros s E Hn; cbn in E; [by injection E as <-|].
  destruct (exec _ a s) as [s1|] eqn:E1; [|done]. apply (no_wrap_step size Hsize s s1); [exists a; exact E1|by eapply IH].
Qed.

Lemma sim_run l s w s' :
  sc_sim s w -> inv size s -> winv size w -> rinv size fence w -> no_wrap s' -> run size l s = Some s' ->
  exists l' w', wrun size fence l' w = Some w' /\ sc_sim s' w'.
Proof.
  revert s w. induction l as [|a l IH]; intros s w Hs Hi Hw Hr Hn E; cbn in E.
  { injection E as <-. by exists [], w. }
  destruct (exec _ a s) as [s1|] eqn:E1; [|done].
  pose proof (run_no_wrap _ _ _ E Hn) as Hn1.
  assert (exists a' w1, wexec size fence a' w = Some w1 /\ sc_sim s1 w1) as (a' & w1 & Ew & Hs1).
  { destruct (is_reader_act a) eqn:Ha; [by eapply sim_reader|by eapply sim_writer]. }
  assert (inv size s1) as Hi1 by (exact (inv_step size Hsize s s1 Hi (ex_intro _ a E1) Hn1)).
  destruct (wexec_inv size Hsize fence a' w w1 Hw Hr) as [Hw1 Hr1]; [|done|].
  { unfold wno_wrap. by rewrite (ss_pub _ _ Hs1). }
  destruct (IH s1 w1 Hs1 Hi1 Hw1 Hr1 Hn E) as (l' & w' & El & Hs'). exists (a' :: l'), w'.
  split; [|done]. cbn. by rewrite Ew.
Qed.
End Sequential.

(** ** Properties *)

(** C9: What an accepted read is on hardware that reorders reads.  With the
    orderings of the code (no fence between the copy and the second load) it
    is never stale: no byte is older than the publish its sequence numbers, and
    it is exactly that snapshot if no later publish had begun.  An acquire
    fence there would make it exactly that snapshot always. *)
Theorem weak_reads_not_stale (size : nat) (fence : bool) (acts : list wact) (s : wsys) (q : Z) (out : list Z)
    (Hsize : (64 <= size)%nat) (Hrun : wrun size fence acts (wstart size) = Some s) (Hwrap : wno_wrap s)
    (Hread : ws_rd s = ROk q out) (Hq : q <> 0) :
  exists k, q = 2 * (Z.of_nat k + 1) /\ (k < length (ws_pub s))%nat
    /\ length out = size /\ load_seq out = q
    /\ (forall i, (i < size)%nat -> in_body i = true ->
          exists j snap, (k <= j)%nat /\ started s !! j = Some snap /\ out !! i = snap !! i)
    /\ (fence = true \/ length (started s) = S k ->
          exists snap, ws_pub s !! k = Some snap /\ out = image k snap).
Proof.
  destruct (wrun_inv size Hsize fence acts _ _ (winv_start size Hsize) (rinv_start size fence) Hwrap Hrun) as [_ [_ Hr]].
  rewrite Hread in Hr. destruct (Hr Hq) as [Hl (k & Hk & Hp & Hbytes & Hexact) Hword _].
  exists k. split; [done|]. split; [done|]. split; [done|]. split.
  - apply le_bytes_store_seq_bytes; [lia|done|]. unfold wno_wrap in Hwrap. unfold is_u64. lia.
  - split; [intros i Hi Hb; by apply Hbytes|done].
Qed.

(** C6: Nor do reads go back, under the orderings of the code: of two accepted
    reads of one reader, the later is numbered by the same or a newer publish,
    and no byte of it is older than the publish that numbered the earlier. *)
Theorem weak_reads_monotone (size : nat) (fence : bool) (acts1 acts2 : list wact) (s1 s2 : wsys)
    (q1 q2 : Z) (out1 out2 : list Z)
    (Hsize : (64 <= size)%nat) (Hrun1 : wrun size fence acts1 (wstart size) = Some s1)
    (Hrun2 : wrun size fence acts2 s1 = Some s2) (Hwrap : wno_wrap s2)
    (Hread1 : ws_rd s1 = ROk q1 out1) (Hread2 : ws_rd s2 = ROk q2 out2) (Hq1 : q1 <> 0) (Hq2 : q2 <> 0) :
  exists k1 k2, q1 = 2 * (Z.of_nat k1 + 1) /\ q2 = 2 * (Z.of_nat k2 + 1) /\
    (k1 <= k2)%nat /\ (k2 < length (ws_pub s2))%nat /\
    forall i, (i < size)%nat -> in_body i = true ->
      exists j snap, (k1 <= j)%nat /\ started s2 !! j = Some snap /\ out2 !! i = snap !! i.
Proof.
  assert (wno_wrap s1) as Hwrap1 by (apply wrun_pub in Hrun2; unfold wno_wrap in *; lia).
  destruct (wrun_inv size Hsize fence acts1 _ _ (winv_start size Hsize) (rinv_start size fence) Hwrap1 Hrun1) as [Hw Hr].
  pose proof (ri_reader _ _ _ Hr) as Hacc. rewrite Hread1 in Hacc.
  assert (past q1 s1) as Hp by (split; [apply Hacc, Hq1|by rewrite Hread1]).
  destruct (past_run size Hsize fence q1 acts2 s1 s2 Hw Hr Hwrap Hp Hrun2) as [_ H]. rewrite Hread2 in H.
  specialize (H Hq2).
  destruct (wrun_inv size Hsize fence acts2 _ _ Hw Hr Hwrap Hrun2) as [_ [_ Hacc2]]. rewrite Hread2 in Hacc2.
  destruct (Hacc Hq1) as [_ (k1 & Hk1 & _ & _ & _) _ _].
  destruct (Hacc2 Hq2) as [_ (k2 & Hk2 & Hlt & Hbytes & _) _ _].
  exists k1, k2. split; [done|]. split; [done|]. split; [lia|]. split; [done|].
  intros i Hi Hb. destruct (Hbytes i) as (j & snap & Hj & Hs & Ho); [by split|]. exists j, snap. split; [lia|done].
Qed.

(** The orderings only add behaviours: whatever writer and reader do on a
    sequentially consistent memory, they can do here, with or without the
    fence. *)
Theorem sequential_runs_are_weak (size : nat) (fence : bool) (acts : list act) (s : sys)
    (Hsize : (64 <= size)%nat) (Hrun : run size acts (start size) = Some s) (Hwrap : no_wrap s) :
  exists acts' w, wrun size fence acts' (wstart size) = Some w
    /\ ws_rd w = rd s /\ ws_pub w = pub s /\ ws_phase w = wphase s /\ ws_local_seq w = local_seq s.
Proof.
  destruct (sim_run size Hsize fence acts _ _ s (sim_start size Hsize) (inv_start size Hsize)
    (winv_start size Hsize) (rinv_start size fence) Hwrap Hrun) as (l & w & Hl & []).
  by exists l, w.
Qed.

(** Without the fence the copy can mix two snapshots: a byte of the second
    publish is read while its odd sequence is not yet seen, and the second load
    still returns the sequence of the first. *)
Definition put_all (snap : list Z) : list wact := [Begin snap] ++ map Put (body_offsets 64) ++ [Finish].
Definition get_all (ts : nat -> nat) : list wact := map (fun i => Get i (ts i)) (seq 0 64).
Definition torn_acts : list wact :=
  put_all (demo_snap 1) ++ [Seq1 2; Begin (demo_snap 2); Put 40]
  ++ get_all (fun i => if in_body i then if (i =? 40)%nat then 2 else 1 else 2)%nat ++ [Seq2 2].

Lemma option_map_some {A B} (f : A -> B) (o : option A) y :
  option_map f o = Some y -> exists x, o = Some x /\ f x = y.
Proof. destruct o as [x|]; [|done]. intros [= <-]. by exists x. Qed.

Lemma unfenced_read_torn :
  (exists s, wrun 64 false torn_acts (wstart 64) = Some s
    /\ ws_rd s = ROk 2 (<[40%nat := 2]> (image 0 (demo_snap 1))))
  /\ demo_snap 1 !! 40%nat = Some 1 /\ demo_snap 2 !! 40%nat = Some 2
  /\ option_map ws_rd (wrun 64 true torn_acts (wstart 64)) = None.
Proof.
  split; [apply option_map_some; vm_compute; reflexivity|].
  repeat split; vm_compute; reflexivity.
Qed.

(** A read while the next publish has begun but not been seen, then a read
    of that publish. *)
Definition calm_acts : list wact :=
  put_all (demo_snap 1) ++ [Seq1 2] ++ get_all (fun i => if in_body i then 1 else 2)%nat ++ [Seq2 2].
Definition next_acts : list wact :=
  put_all (demo_snap 2) ++ [Again; Seq1 4] ++ get_all (fun i => if in_body i then 2 else 4)%nat ++ [Seq2 4].
Definition run_or_start (l : list wact) (s : wsys) : wsys := default (wstart 64) (wrun 64 false l s).
Definition calm : wsys := run_or_start calm_acts (wstart 64).
Definition after_next : wsys := run_or_start next_acts calm.

Lemma run_or_start_run l s : option_map (fun _ => tt) (wrun 64 false l s) = Some tt ->
  wrun 64 false l s = Some (run_or_start l s).
Proof. unfold run_or_start. by destruct (wrun 64 false l s). Qed.
Lemma calm_run : wrun 64 false calm_acts (wstart 64) = Some calm.
Proof. apply run_or_start_run. vm_compute. reflexivity. Qed.
Lemma next_run : wrun 64 false next_acts calm = Some after_next.
Proof. apply run_or_start_run. vm_compute. reflexivity. Qed.

Lemma weak_reads_not_stale_witness :
  exists k snap, 2 = 2 * (Z.of_nat k + 1) /\ ws_pub calm !! k = Some snap /\ image 0 (demo_snap 1) = image k snap.
Proof.
  destruct (weak_reads_not_stale 64 false calm_acts calm 2 (image 0 (demo_snap 1)))
    as (k & Hk & _ & _ & _ & _ & Hex).
  - lia.
  - apply calm_run.
  - vm_compute. reflexivity.
  - vm_compute. reflexivity.
  - lia.
  - exists k. destruct Hex as (snap & H1 & H2).
    + right. assert (k = 0%nat) as -> by lia. vm_compute. reflexivity.
    + exists snap. split; [exact Hk|]. by split.
Defined.

(** The two publishes and the two reads of them happen. *)
Lemma weak_reads_monotone_witness :
  wrun 64 false calm_acts (wstart 64) = Some calm /\ wrun 64 false next_acts calm = Some after_next /\
  ws_rd calm = ROk 2 (image 0 (demo_snap 1)) /\ ws_rd after_next = ROk 4 (image 1 (demo_snap 2)) /\
  exists k1 k2, 2 = 2 * (Z.of_nat k1 + 1) /\ 4 = 2 * (Z.of_nat k2 + 1) /\ (k1 <= k2)%nat /\
    exists j snap, (k1 <= j)%nat /\ started after_next !! j = Some snap /\ image 1 (demo_snap 2) !! 40%nat = snap !! 40%nat.
Proof.
  split; [apply calm_run|]. split; [apply next_run|]. split; [vm_compute; reflexivity|]. split; [vm_compute; reflexivity|].
  destruct (weak_reads_monotone 64 false calm_acts next_acts calm after_next 2 4
    (image 0 (demo_snap 1)) (image 1 (demo_snap 2))) as (k1 & k2 & H1 & H2 & H3 & _ & H4).
  - lia.
  - apply calm_run.
  - apply next_run.
  - vm_compute. reflexivity.
  - vm_compute. reflexivity.
  - vm_compute. reflexivity.
  - lia.
  - lia.
  - exists k1, k2. split; [exact H1|]. split; [exact H2|]. split; [exact H3|]. apply (H4 40%nat); [lia|reflexivity].
Defined.

Lemma sequential_runs_are_weak_witness :
  exists acts' w, wrun 64 false acts' (wstart 64) = Some w /\ ws_rd w = RLoop 0 (replicate 64 0)
    /\ ws_pub w = [demo_snap 1].
Proof.
  destruct (sequential_runs_are_weak 64 false (publish_acts 64 (demo_snap 1))
    (default (start 64) (run 64 (publish_acts 64 (demo_snap 1)) (start 64)))) as (l & w & Hl & Hr & Hp & _).
  - lia.
  - vm_compute. reflexivity.
  - vm_compute. reflexivity.
  - exists l, w. split; [exact Hl|]. split; [exact Hr|exact Hp].
Defined.
