(* ===== verification/Bpf.v ===== *)
(** The kernel side of [agl-health-ebpf]: the BPF maps the programs share, what
    a program invocation receives from its context and helpers, and the map
    operations.

    The maps are one record, [kernel].  A hash map is a [gmap] from its key, a
    per-CPU array of one slot is the list of the slots by CPU, and a ring or
    perf buffer is the list of the records submitted and not yet consumed,
    oldest first.  A pointer into a map slot is its key: writing through it is
    [alter] at that key.

    What a helper returns is decided outside the program, so it is an input
    of the invocation ([ctx]): the clock, the current task, the outcome of map
    updates, deletes, reservations and probe reads.  [ctx_ok] collects what
    the helpers document.  An invocation runs to its end before the next one
    starts. *)
From S2P Require Import Prelude Float Types Layout Pods.

(** ** Maps *)

Inductive map_id :=
  | PROCESS_STATS_map
  | ONCPU_SINCE_map
  | EXIT_CODES_map
  | WAKEUP_TIMES_map
  | BLOCK_STATS_map
  | NET_CGROUP_STATS_map.
#[export] Instance map_id_eq : EqDecision map_id.
Proof. solve_decision. Defined.

(** Capacities, as declared by the [#[map]] statics. *)
Definition PROCESS_STATS_MAX : nat := 4096.
Definition ONCPU_SINCE_MAX : nat := 4096.
Definition EXIT_CODES_MAX : nat := 4096.
Definition WAKEUP_TIMES_MAX : nat := 10240.
Definition BLOCK_STATS_MAX : nat := 32.
Definition NET_CGROUP_STATS_MAX : nat := 1024.

Definition max_entries (id : map_id) : nat :=
  match id with
  | PROCESS_STATS_map => PROCESS_STATS_MAX
  | ONCPU_SINCE_map => ONCPU_SINCE_MAX
  | EXIT_CODES_map => EXIT_CODES_MAX
  | WAKEUP_TIMES_map => WAKEUP_TIMES_MAX
  | BLOCK_STATS_map => BLOCK_STATS_MAX
  | NET_CGROUP_STATS_map => NET_CGROUP_STATS_MAX
  end.

(** [security.rs]: the last emission of each gated kind on a CPU. *)
Record EmitGate := { last_ns : list Z }.
#[export] Instance eta_EmitGate : Eta EmitGate := fun r => Build_EmitGate (last_ns r).
Definition EmitGate_zeroed : EmitGate := {| last_ns := replicate 4 0 |}.

Record kernel := {
  (* stats.rs *)
  PROCESS_STATS : gmap Z ProcessStats;
  ONCPU_SINCE : gmap Z Z;
  EXIT_CODES : gmap Z Z;
  EVENT_DROPS : list EventDropCounts;
  (* scheduler.rs *)
  WAKEUP_TIMES : gmap Z Z;
  SCHED_HISTOGRAM : list SchedHistogram;
  (* process.rs *)
  PROCESS_EVENTS : list ProcessEvent;
  PROCESS_EVENT_SCRATCH : list ProcessEvent;
  (* memory.rs *)
  MEMORY_STATS : list MemorySnapshot;
  (* cpu.rs *)
  CPU_STATS : list CpuStats;
  IRQ_ENTRY_TS : list Z;
  SOFTIRQ_ENTRY_TS : list Z;
  (* block.rs *)
  BLOCK_STATS : gmap Z BlockStats;
  (* network.rs *)
  NET_EVENTS : list NetEvent;
  NET_EVENT_SCRATCH : list NetEvent;
  NET_IFACE_STATS : list NetIfaceStats;
  TCP_STATE : list TcpStateSnapshot;
  (* netproc.rs *)
  NET_CGROUP_STATS : gmap Z CgroupNetBytes;
  (* security.rs *)
  SECURITY_EVENTS : list SecurityEvent;
  SEC_EVENT_SCRATCH : list SecurityEvent;
  SECURITY_COUNTS : list SecurityEventCounts;
  SEC_EMIT_GATE : list EmitGate }.
#[export] Instance eta_kernel : Eta kernel := fun k =>
  Build_kernel (PROCESS_STATS k) (ONCPU_SINCE k) (EXIT_CODES k) (EVENT_DROPS k)
    (WAKEUP_TIMES k) (SCHED_HISTOGRAM k) (PROCESS_EVENTS k) (PROCESS_EVENT_SCRATCH k)
    (MEMORY_STATS k) (CPU_STATS k) (IRQ_ENTRY_TS k) (SOFTIRQ_ENTRY_TS k) (BLOCK_STATS k)
    (NET_EVENTS k) (NET_EVENT_SCRATCH k) (NET_IFACE_STATS k) (TCP_STATE k)
    (NET_CGROUP_STATS k) (SECURITY_EVENTS k) (SEC_EVENT_SCRATCH k) (SECURITY_COUNTS k)
    (SEC_EMIT_GATE k).

(** The maps as the loader creates them on a machine with [n] possible CPUs. *)
Definition kernel_init (n : nat) : kernel :=
  {| PROCESS_STATS := ∅; ONCPU_SINCE := ∅; EXIT_CODES := ∅;
     EVENT_DROPS := replicate n EventDropCounts_zeroed;
     WAKEUP_TIMES := ∅; SCHED_HISTOGRAM := replicate n SchedHistogram_zeroed;
     PROCESS_EVENTS := []; PROCESS_EVENT_SCRATCH := replicate n ProcessEvent_zeroed;
     MEMORY_STATS := replicate n MemorySnapshot_zeroed;
     CPU_STATS := replicate n CpuStats_zeroed;
     IRQ_ENTRY_TS := replicate n 0; SOFTIRQ_ENTRY_TS := replicate n 0;
     BLOCK_STATS := ∅; NET_EVENTS := []; NET_EVENT_SCRATCH := replicate n NetEvent_zeroed;
     NET_IFACE_STATS := replicate n NetIfaceStats_zeroed;
     TCP_STATE := replicate n TcpStateSnapshot_zeroed; NET_CGROUP_STATS := ∅;
     SECURITY_EVENTS := []; SEC_EVENT_SCRATCH := replicate n SecurityEvent_zeroed;
     SECURITY_COUNTS := replicate n SecurityEventCounts_zeroed;
     SEC_EMIT_GATE := replicate n EmitGate_zeroed |}.

(** ** Invocations *)

(** The call sites of [bpf_ktime_get_ns]: no program passes one of them twice,
    so one reading per site is any sequence of readings. *)
Inductive ktime_site := In_record_exec | In_body.

Record ctx := {
  cx_cpu : nat;                               (* the CPU the program runs on *)
  cx_ktime : ktime_site -> Z;                 (* bpf_ktime_get_ns() *)
  cx_pid_tgid : Z;                            (* bpf_get_current_pid_tgid() *)
  cx_uid_gid : Z;                             (* bpf_get_current_uid_gid() *)
  cx_comm : option (list Z);                  (* bpf_get_current_comm().ok() *)
  cx_cgroup_id : Z;                           (* bpf_get_current_cgroup_id() *)
  cx_update : map_id -> bool -> nat -> bool;  (* does bpf_map_update_elem succeed, from whether
                                                 the key is present and the number of entries *)
  cx_delete : map_id -> bool;                 (* does bpf_map_delete_elem succeed *)
  cx_reserve : bool;                          (* does bpf_ringbuf_reserve find room *)
  cx_output : bool;                           (* does bpf_perf_event_output find room *)
  cx_record : Z -> Z -> option (list Z) }.    (* bytes [off, off+len) of the tracepoint record *)

Definition bpf_ktime_get_ns (c : ctx) (s : ktime_site) : Z := cx_ktime c s.
(** [bpf_get_current_comm().unwrap_or([0u8; 16])]. *)
Definition current_comm (c : ctx) : list Z := unwrap_or (replicate COMM_LEN 0) (cx_comm c).
(** [(bpf_get_current_pid_tgid() >> 32) as u32] and the low half. *)
Definition current_tgid (c : ctx) : Z := as_u32 (Z.shiftr (cx_pid_tgid c) 32).
Definition current_tid (c : ctx) : Z := as_u32 (cx_pid_tgid c).
(** [bpf_get_current_uid_gid() as u32]. *)
Definition current_uid (c : ctx) : Z := as_u32 (cx_uid_gid c).

(** [ctx.read_at::<T>(off)] for a struct and for an integer. *)
Definition read_at {T} `{Pod T} (c : ctx) (off : Z) : option T :=
  option_map read_pod (cx_record c off (size_of T)).
Definition read_at_int (sz : nat) (signed : bool) (c : ctx) (off : Z) : option Z :=
  option_map (of_bytes sz signed) (cx_record c off (Z.of_nat sz)).

(** The fields of a [struct task_struct] the programs read: for each, what
    [bpf_probe_read_kernel(addr_of!(task->field))] returns. *)
Record task_struct := {
  task_pid : option Z;           (* i32 *)
  task_tgid : option Z;          (* i32 *)
  task_comm : option (list Z) }. (* [i8; 16] *)

(** A 16-byte comm. *)
Definition comm_ok (l : list Z) : Prop := length l = COMM_LEN /\ Forall is_u8 l.

(** What the helpers document. *)
Record ctx_ok (c : ctx) : Prop := {
  ok_ktime : forall s, is_u64 (cx_ktime c s);
  ok_pid_tgid : is_u64 (cx_pid_tgid c);
  ok_uid_gid : is_u64 (cx_uid_gid c);
  ok_comm : forall l, cx_comm c = Some l -> comm_ok l;
  ok_cgroup_id : is_u64 (cx_cgroup_id c);
  (* a full hash map takes no new key *)
  ok_full : forall id n, (max_entries id <= n)%nat -> cx_update c id false n = false;
  ok_record : forall off len bs, cx_record c off len = Some bs ->
    Z.of_nat (length bs) = len /\ Forall is_u8 bs }.

Lemma comm_ok_length l : comm_ok l -> length l = COMM_LEN.
Proof. by intros []. Qed.
Lemma comm_ok_bytes l : comm_ok l -> Forall is_u8 l.
Proof. by intros []. Qed.
Lemma current_comm_ok c : ctx_ok c -> comm_ok (current_comm c).
Proof.
  intros Hc. unfold current_comm. destruct (cx_comm c) eqn:E; cbn; [by apply (ok_comm c Hc)|].
  split; [done|]. by apply (Forall_replicate is_u8 COMM_LEN 0).
Qed.
Lemma current_tgid_range c : is_u32 (current_tgid c).
Proof. apply as_u32_range. Qed.
Lemma current_tid_range c : is_u32 (current_tid c).
Proof. apply as_u32_range. Qed.
Lemma current_uid_range c : is_u32 (current_uid c).
Proof. apply as_u32_range. Qed.
Lemma ktime_range c s : ctx_ok c -> is_u64 (bpf_ktime_get_ns c s).
Proof. intros Hc. apply (ok_ktime c Hc). Qed.
#[export] Hint Resolve comm_ok_length comm_ok_bytes current_comm_ok current_tgid_range
  current_tid_range current_uid_range ktime_range : pod.

(** ** Hash-map operations *)
Section HashMaps.
Context {V : Type}.
Implicit Types m : gmap Z V.

(** [MAP.insert(&k, &v, 0)]: the map after it when it returns [Ok]. *)
Definition hash_insert (c : ctx) (id : map_id) (k : Z) (v : V) m : option (gmap Z V) :=
  if cx_update c id (bool_decide (is_Some (m !! k))) (size m) then Some (<[k:=v]> m) else None.
(** [let _ = MAP.insert(&k, &v, 0)]. *)
Definition hash_insert_ (c : ctx) (id : map_id) (k : Z) (v : V) m : gmap Z V :=
  unwrap_or m (hash_insert c id k v m).
(** [let _ = MAP.remove(&k)]. *)
Definition hash_remove (c : ctx) (id : map_id) (k : Z) m : gmap Z V :=
  if cx_delete c id then delete k m else m.

(** A property of the entries that the written entry has is kept. *)
Lemma hash_insert_forall (P : Z -> V -> Prop) c id k v m m' :
  hash_insert c id k v m = Some m' -> P k v -> map_Forall P m -> map_Forall P m'.
Proof. unfold hash_insert. intros. case_match; simplify_eq. by apply map_Forall_insert_2. Qed.

Lemma hash_insert_forall_ (P : Z -> V -> Prop) c id k v m :
  P k v -> map_Forall P m -> map_Forall P (hash_insert_ c id k v m).
Proof.
  unfold hash_insert_. destruct (hash_insert c id k v m) eqn:E; [|done].
  eauto using hash_insert_forall.
Qed.

Lemma hash_remove_forall (P : Z -> V -> Prop) c id k m :
  map_Forall P m -> map_Forall P (hash_remove c id k m).
Proof. unfold hash_remove. case_match; [apply map_Forall_delete|done]. Qed.

Lemma alter_forall (P : Z -> V -> Prop) f k m :
  (forall v, P k v -> P k (f v)) -> map_Forall P m -> map_Forall P (alter f k m).
Proof.
  intros Hf Hm i v. destruct (decide (k = i)) as [<-|Hne].
  - rewrite lookup_alter_eq. intros (w & Hw & Hv)%fmap_Some. subst. eauto.
  - rewrite lookup_alter_ne by done. apply Hm.
Qed.

(** Capacity: an insert never takes the map beyond its declared size. *)
Lemma hash_insert_size c id k v m m' :
  ctx_ok c -> hash_insert c id k v m = Some m' ->
  (size m <= max_entries id)%nat -> (size m' <= max_entries id)%nat.
Proof.
  unfold hash_insert. intros Hc Hi Hs. case_match eqn:Hu; simplify_eq.
  destruct (m !! k) eqn:Hk.
  - by rewrite map_size_insert_Some.
  - rewrite map_size_insert_None by done. rewrite bool_decide_eq_false_2 in Hu by (intros [??]; done).
    destruct (decide (max_entries id <= size m)%nat) as [Hf|]; [|lia].
    by rewrite (ok_full c Hc id _ Hf) in Hu.
Qed.

Lemma hash_insert_size_ c id k v m :
  ctx_ok c -> (size m <= max_entries id)%nat ->
  (size (hash_insert_ c id k v m) <= max_entries id)%nat.
Proof.
  unfold hash_insert_. destruct (hash_insert c id k v m) eqn:E; [|done].
  eauto using hash_insert_size.
Qed.

Lemma hash_remove_size c id k m n :
  (size m <= n)%nat -> (size (hash_remove c id k m) <= n)%nat.
Proof. unfold hash_remove. case_match; [rewrite map_size_delete; case_match|]; simpl; lia. Qed.

Lemma alter_size (f : V -> V) k m : size (alter f k m) = size m.
Proof.
  destruct (m !! k) as [v|] eqn:Hk.
  - rewrite <- (insert_id m k v Hk) at 1. rewrite alter_insert_eq.
    by rewrite map_size_insert_Some by done.
  - replace (alter f k m) with m; [done|]. apply map_eq. intros i.
    destruct (decide (k = i)) as [<-|]; [by rewrite lookup_alter_eq, Hk|by rewrite lookup_alter_ne].
Qed.

(** The map takes new keys as long as it has room. *)
Definition accepts (c : ctx) (id : map_id) : Prop :=
  forall present n, (n < max_entries id)%nat -> cx_update c id present n = true.

Lemma accepts_insert_ c id k v m :
  accepts c id -> (size m < max_entries id)%nat -> hash_insert_ c id k v m = <[k:=v]> m.
Proof. intros Ha Hs. unfold hash_insert_, hash_insert. by rewrite Ha. Qed.

Lemma hash_remove_lookup_ne c id k m i : i <> k -> hash_remove c id k m !! i = m !! i.
Proof. intros. unfold hash_remove. case_match; [by rewrite lookup_delete_ne|done]. Qed.
Lemma hash_remove_lookup_eq c id k m : cx_delete c id = true -> hash_remove c id k m !! k = None.
Proof. intros Hd. unfold hash_remove. rewrite Hd. apply lookup_delete_eq. Qed.

Lemma hash_insert_lookup c id k v m m' i :
  hash_insert c id k v m = Some m' -> m' !! i = if decide (k = i) then Some v else m !! i.
Proof.
  unfold hash_insert. intros. case_match; simplify_eq. case_decide; subst.
  - by rewrite lookup_insert_eq.
  - by rewrite lookup_insert_ne.
Qed.
End HashMaps.

(** ** Per-CPU arrays *)
Section PerCpu.
Context {V : Type}.

(** [ARRAY.get_ptr_mut(0)] and a write through the pointer. *)
Definition cpu_slot (c : ctx) (l : list V) : option V := l !! cx_cpu c.
Definition cpu_write (c : ctx) (f : V -> V) (l : list V) : list V := alter f (cx_cpu c) l.

Lemma cpu_write_forall (P : V -> Prop) c f l :
  (forall v, P v -> P (f v)) -> Forall P l -> Forall P (cpu_write c f l).
Proof. intros. apply Forall_alter; auto. Qed.

Lemma length_cpu_write c f l : length (cpu_write c f l) = length l.
Proof. apply length_alter. Qed.

Lemma cpu_slot_write c c' f l :
  cpu_slot c' (cpu_write c f l)
    = if decide (cx_cpu c = cx_cpu c') then f <$> cpu_slot c' l else cpu_slot c' l.
Proof.
  unfold cpu_slot, cpu_write. case_decide as E.
  - by rewrite E, list_lookup_alter_eq.
  - by rewrite list_lookup_alter_ne.
Qed.
Lemma cpu_slot_write_same c c' f l v :
  cx_cpu c = cx_cpu c' -> cpu_slot c' l = Some v -> cpu_slot c' (cpu_write c f l) = Some (f v).
Proof. intros Hc Hv. rewrite cpu_slot_write, decide_True, Hv; done. Qed.
Lemma cpu_slot_write_other c c' f l :
  cx_cpu c <> cx_cpu c' -> cpu_slot c' (cpu_write c f l) = cpu_slot c' l.
Proof. intros Hc. by rewrite cpu_slot_write, decide_False. Qed.

Lemma cpu_write_none c f l : cpu_slot c l = None -> cpu_write c f l = l.
Proof.
  unfold cpu_slot, cpu_write. intros H. apply list_eq. intros i.
  destruct (decide (i = cx_cpu c)) as [->|]; [|by rewrite list_lookup_alter_ne].
  by rewrite list_lookup_alter_eq, H.
Qed.
End PerCpu.

Create HintDb bpf.
#[export] Hint Resolve hash_insert_forall_ hash_remove_forall hash_insert_size_
  hash_remove_size length_cpu_write : bpf.

(** ** A concrete invocation

    On CPU [cpu], at time [t], by thread [tid] of process [tgid] with uid 0;
    every helper succeeds as far as the capacities allow, and [record] is the
    tracepoint record. *)
Definition ideal_ctx (cpu : nat) (t tgid tid : Z) (record : list Z) : ctx :=
  {| cx_cpu := cpu; cx_ktime := fun _ => t; cx_pid_tgid := tgid * 2 ^ 32 + tid; cx_uid_gid := 0;
     cx_comm := None; cx_cgroup_id := 1;
     cx_update := fun id present n => present || (n <? max_entries id)%nat;
     cx_delete := fun _ => true; cx_reserve := true; cx_output := true;
     cx_record := fun off len =>
       if (0 <=? off) && (0 <=? len) && (off + len <=? Z.of_nat (length record))
       then Some (take (Z.to_nat len) (drop (Z.to_nat off) record)) else None |}.

Lemma ideal_ctx_ok cpu t tgid tid record :
  is_u64 t -> is_u32 tgid -> is_u32 tid -> Forall is_u8 record ->
  ctx_ok (ideal_ctx cpu t tgid tid record).
Proof.
  intros Ht Hg Hi Hr. constructor; cbn; try done.
  - unfold is_u32, is_u64 in *. lia.
  - intros id n Hn. apply Nat.ltb_ge. done.
  - intros off len bs. destruct (_ && _) eqn:E; [|done]. intros [= <-].
    apply andb_prop in E as [[H1 H2]%andb_prop H3]. split; [|auto using Forall_take, Forall_drop].
    rewrite length_take, length_drop. lia.
Qed.

Lemma ideal_ctx_accepts cpu t tgid tid record id : accepts (ideal_ctx cpu t tgid tid record) id.
Proof. intros present n Hn. change (present || (n <? max_entries id)%nat = true). rewrite (proj2 (Nat.ltb_lt _ _) Hn). apply orb_true_r. Qed.
