(* ===== verification/Stats.v ===== *)
(** [stats.rs]: per-process accounting shared by the lifecycle, scheduler and
    file-I/O probes, and the counters of dropped ring events.  Each function
    of the file is a function on the [kernel] maps; [upsert] returns the key
    of the slot it found or created. *)
From S2P Require Import Prelude Float Types Layout Pods Bpf.

(** ** Event drops *)

Definition bump_drop (c : ctx) (f : EventDropCounts -> EventDropCounts) (k : kernel) : kernel :=
  match cpu_slot c (EVENT_DROPS k) with
  | Some _ => k <| EVENT_DROPS ::= cpu_write c f |>
  | None => k
  end.
Definition drop_process (c : ctx) (k : kernel) : kernel :=
  bump_drop c (fun d => d <| dc_process := wrapping_add (dc_process d) 1 |>) k.
Definition drop_security (c : ctx) (k : kernel) : kernel :=
  bump_drop c (fun d => d <| dc_security := wrapping_add (dc_security d) 1 |>) k.
Definition drop_network (c : ctx) (k : kernel) : kernel :=
  bump_drop c (fun d => d <| dc_network := wrapping_add (dc_network d) 1 |>) k.

(** ** Process entries *)

Definition upsert (c : ctx) (pid : Z) (k : kernel) : option Z * kernel :=
  match PROCESS_STATS k !! pid with
  | Some _ => (Some pid, k)
  | None =>
      match hash_insert c PROCESS_STATS_map pid ProcessStats_zeroed (PROCESS_STATS k) with
      | Some m => (Some pid, k <| PROCESS_STATS := m |>)
      | None => (None, k)
      end
  end.

(** Writing through the pointer [upsert] returned. *)
Definition write_process (ptr : Z) (f : ProcessStats -> ProcessStats) (k : kernel) : kernel :=
  k <| PROCESS_STATS ::= alter f ptr |>.

Definition record_exec (c : ctx) (pid uid : Z) (k : kernel) : kernel :=
  match upsert c pid k with
  | (None, k) => k
  | (Some ptr, k) =>
      let ts := bpf_ktime_get_ns c In_record_exec in
      let comm := current_comm c in
      write_process ptr (fun p =>
        p <| ps_pid := pid |> <| ps_uid := uid |> <| ps_start_time_ns := ts |>
          <| ps_comm := comm |>) k
  end.

Definition record_exit (c : ctx) (pid : Z) (k : kernel) : kernel :=
  k <| PROCESS_STATS ::= hash_remove c PROCESS_STATS_map pid |>
    <| ONCPU_SINCE ::= hash_remove c ONCPU_SINCE_map pid |>
    <| EXIT_CODES ::= hash_remove c EXIT_CODES_map pid |>.

Definition record_thread_exit (c : ctx) (tid : Z) (k : kernel) : kernel :=
  k <| ONCPU_SINCE ::= hash_remove c ONCPU_SINCE_map tid |>
    <| WAKEUP_TIMES ::= hash_remove c WAKEUP_TIMES_map tid |>.

Definition set_ppid (c : ctx) (pid ppid : Z) (k : kernel) : kernel :=
  match upsert c pid k with
  | (None, k) => k
  | (Some ptr, k) => write_process ptr (fun p => p <| ps_pid := pid |> <| ps_ppid := ppid |>) k
  end.

Definition fetch_ppid (pid : Z) (k : kernel) : Z :=
  unwrap_or 0 (option_map ps_ppid (PROCESS_STATS k !! pid)).

(** ** Exit codes *)

Definition stash_exit_code (c : ctx) (pid code : Z) (k : kernel) : kernel :=
  k <| EXIT_CODES ::= hash_insert_ c EXIT_CODES_map pid code |>.

Definition take_exit_code (c : ctx) (pid : Z) (k : kernel) : Z * kernel :=
  let code := unwrap_or 0 (EXIT_CODES k !! pid) in
  (code, k <| EXIT_CODES ::= hash_remove c EXIT_CODES_map pid |>).

(** ** What [upsert] and the writes through it do *)

(** [update_process c pid f k] is the source's idiom
    [if let Some(p) = upsert(pid) { f(&mut *p) }]. *)
Definition update_process (c : ctx) (pid : Z) (f : ProcessStats -> ProcessStats) (k : kernel) : kernel :=
  match upsert c pid k with
  | (Some p, k) => write_process p f k
  | (None, k) => k
  end.

(** Its effect on the map, in one equation. *)
Lemma update_process_stats c pid f k :
  PROCESS_STATS (update_process c pid f k) =
    match PROCESS_STATS k !! pid with
    | Some p => <[pid := f p]> (PROCESS_STATS k)
    | None => unwrap_or (PROCESS_STATS k)
        (hash_insert c PROCESS_STATS_map pid (f ProcessStats_zeroed) (PROCESS_STATS k))
    end.
Proof.
  unfold update_process, upsert, hash_insert.
  destruct (PROCESS_STATS k !! pid) as [p|] eqn:Hk; cbn.
  - rewrite <- (insert_id _ _ _ Hk) at 1. by rewrite alter_insert_eq.
  - destruct (cx_update _ _ _ _); cbn; [|done]. by rewrite alter_insert_eq, ?insert_insert_eq.
Qed.

(** It touches no other map. *)
Lemma update_process_frame c pid f k :
  exists m, update_process c pid f k = k <| PROCESS_STATS := m |>.
Proof.
  unfold update_process, upsert, hash_insert. destruct k as [ps]; cbn.
  destruct (ps !! pid); [|destruct (cx_update _ _ _ _)]; cbn; eauto.
Qed.

(** Every entry keeps a property that the written entry has. *)
Lemma update_process_forall (P : Z -> ProcessStats -> Prop) c pid f k :
  (forall p, PROCESS_STATS k !! pid = Some p -> P pid (f p)) ->
  P pid (f ProcessStats_zeroed) ->
  map_Forall P (PROCESS_STATS k) -> map_Forall P (PROCESS_STATS (update_process c pid f k)).
Proof.
  intros Hf H0 HP. rewrite update_process_stats. destruct (PROCESS_STATS k !! pid) eqn:Hk.
  - apply map_Forall_insert_2; auto.
  - by apply (hash_insert_forall_ P).
Qed.

Lemma update_process_size c pid f k :
  ctx_ok c -> (size (PROCESS_STATS k) <= PROCESS_STATS_MAX)%nat ->
  (size (PROCESS_STATS (update_process c pid f k)) <= PROCESS_STATS_MAX)%nat.
Proof.
  intros Hc Hs. rewrite update_process_stats. destruct (PROCESS_STATS k !! pid) eqn:Hk.
  - by rewrite map_size_insert_Some.
  - by apply (hash_insert_size_ c PROCESS_STATS_map).
Qed.

(** An existing entry is always updated. *)
Lemma update_process_present c pid f k p :
  PROCESS_STATS k !! pid = Some p ->
  PROCESS_STATS (update_process c pid f k) !! pid = Some (f p).
Proof. intros Hk. rewrite update_process_stats, Hk. by rewrite lookup_insert_eq. Qed.

Lemma update_process_other c pid f k i :
  i <> pid -> PROCESS_STATS (update_process c pid f k) !! i = PROCESS_STATS k !! i.
Proof.
  intros Hi. rewrite update_process_stats. case_match; [by rewrite lookup_insert_ne|].
  unfold hash_insert. destruct (cx_update _ _ _ _); cbn; [by rewrite lookup_insert_ne|done].
Qed.

Lemma record_exec_update c pid uid k :
  record_exec c pid uid k = update_process c pid (fun p =>
    p <| ps_pid := pid |> <| ps_uid := uid |>
      <| ps_start_time_ns := bpf_ktime_get_ns c In_record_exec |>
      <| ps_comm := current_comm c |>) k.
Proof. unfold record_exec, update_process. destruct (upsert c pid k) as [[?|] ?]; done. Qed.

Lemma set_ppid_update c pid ppid k :
  set_ppid c pid ppid k = update_process c pid (fun p => p <| ps_pid := pid |> <| ps_ppid := ppid |>) k.
Proof. unfold set_ppid, update_process. destruct (upsert c pid k) as [[?|] ?]; done. Qed.
