(* ===== verification/Scheduler.v ===== *)
(** [scheduler.rs]: the runqueue-wait histogram and the on-CPU slice accounting
    behind [sched_wakeup] and [sched_switch], in the BTF build (5.5 and later
    kernels) and in the [kernel-5-4] build (suffix [_54]). *)
From S2P Require Import Prelude Float Types Layout Pods Bpf Stats.

(** ** Tracepoint records of the 5.4 build *)

Record SchedWakeupArgs := {
  swa_pad : list Z;
  swa_comm : list Z;
  swa_pid : Z;
  swa_prio : Z;
  swa_success : Z;
  swa_target_cpu : Z }.
#[export] Instance eta_SchedWakeupArgs : Eta SchedWakeupArgs := fun r =>
  Build_SchedWakeupArgs (swa_pad r) (swa_comm r) (swa_pid r) (swa_prio r)
    (swa_success r) (swa_target_cpu r).
Definition SchedWakeupArgs_ty : cty := CStruct [("_pad", CArr 8 CU8);
  ("comm", CArr 16 CU8); ("pid", CU32); ("prio", CI32); ("success", CI32);
  ("target_cpu", CI32)].
#[export, refine] Instance SchedWakeupArgs_pod : Pod SchedWakeupArgs := {|
  pod_ty := SchedWakeupArgs_ty;
  pod_val x := VSeq [v_ints (swa_pad x); v_ints (swa_comm x); VInt (swa_pid x);
    VInt (swa_prio x); VInt (swa_success x); VInt (swa_target_cpu x)];
  pod_of v := {| swa_pad := ints_v (v_nth 0 v); swa_comm := ints_v (v_nth 1 v);
    swa_pid := v_int (v_nth 2 v); swa_prio := v_int (v_nth 3 v);
    swa_success := v_int (v_nth 4 v); swa_target_cpu := v_int (v_nth 5 v) |} |}.
Proof. all: [> solve_ty_ok | solve_pod_law | solve_pod_val_of SchedWakeupArgs_ty ]. Defined.

Record SchedSwitchArgs := {
  ssa_pad : list Z;
  ssa_prev_comm : list Z;
  ssa_prev_pid : Z;
  ssa_prev_prio : Z;
  ssa_prev_state : Z;
  ssa_next_comm : list Z;
  ssa_next_pid : Z;
  ssa_next_prio : Z }.
#[export] Instance eta_SchedSwitchArgs : Eta SchedSwitchArgs := fun r =>
  Build_SchedSwitchArgs (ssa_pad r) (ssa_prev_comm r) (ssa_prev_pid r) (ssa_prev_prio r)
    (ssa_prev_state r) (ssa_next_comm r) (ssa_next_pid r) (ssa_next_prio r).
Definition SchedSwitchArgs_ty : cty := CStruct [("_pad", CArr 8 CU8);
  ("prev_comm", CArr 16 CU8); ("prev_pid", CU32); ("prev_prio", CI32);
  ("prev_state", CI64); ("next_comm", CArr 16 CU8); ("next_pid", CU32);
  ("next_prio", CI32)].
#[export, refine] Instance SchedSwitchArgs_pod : Pod SchedSwitchArgs := {|
  pod_ty := SchedSwitchArgs_ty;
  pod_val x := VSeq [v_ints (ssa_pad x); v_ints (ssa_prev_comm x); VInt (ssa_prev_pid x);
    VInt (ssa_prev_prio x); VInt (ssa_prev_state x); v_ints (ssa_next_comm x);
    VInt (ssa_next_pid x); VInt (ssa_next_prio x)];
  pod_of v := {| ssa_pad := ints_v (v_nth 0 v); ssa_prev_comm := ints_v (v_nth 1 v);
    ssa_prev_pid := v_int (v_nth 2 v); ssa_prev_prio := v_int (v_nth 3 v);
    ssa_prev_state := v_int (v_nth 4 v); ssa_next_comm := ints_v (v_nth 5 v);
    ssa_next_pid := v_int (v_nth 6 v); ssa_next_prio := v_int (v_nth 7 v) |} |}.
Proof. all: [> solve_ty_ok | solve_pod_law | solve_pod_val_of SchedSwitchArgs_ty ]. Defined.

(** ** Wait histogram *)

Definition bucket_of (ns : Z) : nat :=
  if ns <? 10_000 then 0
  else if ns <? 100_000 then 1
  else if ns <? 1_000_000 then 2
  else if ns <? 10_000_000 then 3
  else if ns <? 100_000_000 then 4
  else if ns <? 1_000_000_000 then 5
  else if ns <? 10_000_000_000 then 6
  else 7.

(** The body of [update_histogram] on the histogram of the current CPU. *)
Definition hist_add (delta : Z) (h : SchedHistogram) : SchedHistogram :=
  let idx := bucket_of delta in
  let h := if (idx <? SCHED_HIST_BUCKETS)%nat
           then h <| sh_buckets ::= alter (fun b => wrapping_add b 1) idx |> else h in
  let h := h <| sh_total_count := wrapping_add (sh_total_count h) 1 |> in
  let h := h <| sh_total_latency_ns := wrapping_add (sh_total_latency_ns h) delta |> in
  if sh_max_latency_ns h <? delta then h <| sh_max_latency_ns := delta |> else h.

Definition update_histogram (c : ctx) (delta : Z) (k : kernel) : kernel :=
  match cpu_slot c (SCHED_HISTOGRAM k) with
  | Some _ => k <| SCHED_HISTOGRAM ::= cpu_write c (hist_add delta) |>
  | None => k
  end.

(** ** Switch accounting *)

(** [record_switch], part (1): the wait of the incoming task. *)
Definition switch_wait (c : ctx) (next_pid now : Z) (k : kernel) : kernel :=
  if next_pid =? 0 then k else
  match WAKEUP_TIMES k !! next_pid with
  | Some wakeup_ts =>
      let delta := saturating_sub now wakeup_ts in
      update_histogram c delta (k <| WAKEUP_TIMES ::= hash_remove c WAKEUP_TIMES_map next_pid |>)
  | None => k
  end.

(** The write to [PROCESS_STATS[prev_pid]]. *)
Definition charge_slice (prev_pid : Z) (prev_comm : list Z) (prev_state slice : Z)
    (p : ProcessStats) : ProcessStats :=
  let p := p <| ps_pid := prev_pid |> <| ps_comm := prev_comm |>
             <| ps_cpu_user_ns := wrapping_add (ps_cpu_user_ns p) slice |> in
  if prev_state =? 0
  then p <| ps_involuntary_ctx_sw := wrapping_add (ps_involuntary_ctx_sw p) 1 |>
  else p <| ps_voluntary_ctx_sw := wrapping_add (ps_voluntary_ctx_sw p) 1 |>.

(** Part (2): the slice of the outgoing task. *)
Definition switch_slice (c : ctx) (prev_pid : Z) (prev_comm : list Z) (prev_state now : Z)
    (k : kernel) : kernel :=
  if prev_pid =? 0 then k else
  match ONCPU_SINCE k !! prev_pid with
  | Some on_ts =>
      let slice := saturating_sub now on_ts in
      update_process c prev_pid (charge_slice prev_pid prev_comm prev_state slice)
        (k <| ONCPU_SINCE ::= hash_remove c ONCPU_SINCE_map prev_pid |>)
  | None => k
  end.

(** Part (3): the incoming task is on the CPU from now. *)
Definition switch_in (c : ctx) (next_pid : Z) (next_comm : list Z) (now : Z) (k : kernel) : kernel :=
  if next_pid =? 0 then k else
  let k := update_process c next_pid
    (fun p => p <| ps_pid := next_pid |> <| ps_comm := next_comm |>) k in
  k <| ONCPU_SINCE ::= hash_insert_ c ONCPU_SINCE_map next_pid now |>.

Definition record_switch (c : ctx) (prev_pid next_pid : Z) (prev_comm next_comm : list Z)
    (prev_state : Z) (k : kernel) : kernel :=
  let now := bpf_ktime_get_ns c In_body in
  let k := switch_wait c next_pid now k in
  let k := switch_slice c prev_pid prev_comm prev_state now k in
  switch_in c next_pid next_comm now k.

(** ** Programs: BTF build *)

Definition try_wakeup_btf (c : ctx) (task : task_struct) (k : kernel) : result kernel unit :=
  match task_pid task with
  | None => Err ()
  | Some pid =>
      let ts := bpf_ktime_get_ns c In_body in
      let pid := as_u32 pid in
      Ok (k <| WAKEUP_TIMES ::= hash_insert_ c WAKEUP_TIMES_map pid ts |>)
  end.

(** A failed program returns 1 and leaves the maps as they were. *)
Definition run_result (k : kernel) (r : result kernel unit) : Z * kernel :=
  match r with Ok k' => (0, k') | Err _ => (1, k) end.

Definition sched_wakeup (c : ctx) (task : task_struct) (k : kernel) : Z * kernel :=
  run_result k (try_wakeup_btf c task k).

Definition try_switch_btf (c : ctx) (prev next : task_struct) (prev_state : Z) (k : kernel)
    : result kernel unit :=
  match task_pid prev, task_pid next, task_comm prev, task_comm next with
  | Some prev_pid, Some next_pid, Some prev_comm, Some next_comm =>
      let prev_pid := as_u32 prev_pid in
      let next_pid := as_u32 next_pid in
      (* transmute from [i8; 16] to [u8; 16] *)
      let prev_comm := map as_u8 prev_comm in
      let next_comm := map as_u8 next_comm in
      Ok (record_switch c prev_pid next_pid prev_comm next_comm prev_state k)
  | _, _, _, _ => Err ()
  end.

Definition sched_switch (c : ctx) (prev next : task_struct) (prev_state : Z) (k : kernel)
    : Z * kernel :=
  run_result k (try_switch_btf c prev next prev_state k).

(** ** Programs: [kernel-5-4] build *)

Definition sched_wakeup_54 (c : ctx) (k : kernel) : Z * kernel :=
  match read_at (T := SchedWakeupArgs) c 0 with
  | None => (1, k)
  | Some args =>
      let ts := bpf_ktime_get_ns c In_body in
      let pid := swa_pid args in
      (0, k <| WAKEUP_TIMES ::= hash_insert_ c WAKEUP_TIMES_map pid ts |>)
  end.

Definition sched_switch_54 (c : ctx) (k : kernel) : Z * kernel :=
  match read_at (T := SchedSwitchArgs) c 0 with
  | None => (1, k)
  | Some args =>
      let prev_state := if ssa_prev_state args =? 0 then 0 else 1 in
      (0, record_switch c (ssa_prev_pid args) (ssa_next_pid args) (ssa_prev_comm args)
            (ssa_next_comm args) prev_state k)
  end.

(** ** The histogram as a function of the samples *)

Lemma bucket_of_lt d : (bucket_of d < SCHED_HIST_BUCKETS)%nat.
Proof. unfold bucket_of, SCHED_HIST_BUCKETS. repeat case_match; lia. Qed.

(** The histogram of a list of waits, oldest first. *)
Definition count_bucket (i : nat) (ds : list Z) : nat := length (filter (fun d => bucket_of d = i) ds).
Definition hist_of (ds : list Z) : SchedHistogram :=
  {| sh_buckets := map (fun i => as_u64 (Z.of_nat (count_bucket i ds))) (seq 0 SCHED_HIST_BUCKETS);
     sh_total_count := as_u64 (Z.of_nat (length ds));
     sh_total_latency_ns := as_u64 (zsum ds);
     sh_max_latency_ns := foldr Z.max 0 ds |}.

Lemma count_bucket_snoc i ds d :
  count_bucket i (ds ++ [d]) = (count_bucket i ds + if decide (bucket_of d = i) then 1 else 0)%nat.
Proof.
  unfold count_bucket. rewrite filter_app, length_app. f_equal.
  rewrite filter_cons. case_decide; done.
Qed.

Lemma as_u64_succ z d : wrapping_add (as_u64 z) d = as_u64 (z + d).
Proof. unfold wrapping_add, as_u64. by rewrite Zplus_mod_idemp_l. Qed.

Lemma foldr_max_snoc ds d : foldr Z.max 0 (ds ++ [d]) = foldr Z.max (Z.max 0 d) ds.
Proof. rewrite foldr_app. cbn. f_equal. lia. Qed.
Lemma foldr_max_init ds a : 0 <= a -> foldr Z.max a ds = Z.max (foldr Z.max 0 ds) a.
Proof. intros. induction ds as [|x ds IH]; cbn [foldr]; lia. Qed.
Lemma foldr_max_nonneg ds : 0 <= foldr Z.max 0 ds.
Proof. induction ds; cbn [foldr]; lia. Qed.

(** One more sample. *)
Lemma hist_of_snoc ds d : 0 <= d -> hist_add d (hist_of ds) = hist_of (ds ++ [d]).
Proof.
  intros Hd. unfold hist_add. rewrite (proj2 (Nat.ltb_lt _ _) (bucket_of_lt d)).
  assert (alter (fun b => wrapping_add b 1) (bucket_of d) (sh_buckets (hist_of ds))
    = sh_buckets (hist_of (ds ++ [d]))) as Hb.
  { cbn [sh_buckets hist_of]. apply list_eq. intros i. rewrite list_lookup_alter.
    rewrite !lookup_map_seq, count_bucket_snoc.
    pose proof (bucket_of_lt d). destruct (decide (bucket_of d = i)) as [<-|Hne].
    - rewrite !decide_True by done. cbn [fmap option_fmap option_map].
      by rewrite as_u64_succ, Nat2Z.inj_add.
    - case_decide; [|done]. do 3 f_equal. lia. }
  assert (sh_max_latency_ns (hist_of (ds ++ [d])) = Z.max (sh_max_latency_ns (hist_of ds)) d) as Hm.
  { cbn. rewrite foldr_max_snoc, foldr_max_init by lia. pose proof (foldr_max_nonneg ds). lia. }
  assert (sh_total_count (hist_of (ds ++ [d])) = wrapping_add (sh_total_count (hist_of ds)) 1) as Hc.
  { cbn. by rewrite as_u64_succ, length_app, Nat2Z.inj_add. }
  assert (sh_total_latency_ns (hist_of (ds ++ [d])) = wrapping_add (sh_total_latency_ns (hist_of ds)) d)
    as Hl by (cbn; rewrite as_u64_succ, zsum_app, zsum_singleton; done).
  destruct (hist_of ds) as [b0 c0 l0 m0], (hist_of (ds ++ [d])) as [b1 c1 l1 m1].
  cbn in Hb, Hm, Hc, Hl |- *. subst.
  destruct (Z.ltb_spec m0 d); cbn; f_equal; lia.
Qed.

(** The histogram a CPU accumulates is the histogram of the waits recorded
    on it: each bucket counts the waits in its range, with the number of
    waits, their sum (both modulo 2^64) and their maximum beside it. *)
Theorem histogram_of_waits ds :
  Forall is_u64 ds -> foldl (fun h d => hist_add d h) SchedHistogram_zeroed ds = hist_of ds.
Proof.
  induction ds as [|d ds IH] using rev_ind; intros Hds; [done|].
  apply Forall_app in Hds as [Hds Hd]. inversion Hd as [|? ? [H0 _]]; subst.
  rewrite foldl_app, IH by done. by apply hist_of_snoc.
Qed.
Lemma histogram_of_waits_witness :
  foldl (fun h d => hist_add d h) SchedHistogram_zeroed [5_000; 70_000; 7_000; 20_000_000_000]
    = {| sh_buckets := [2; 1; 0; 0; 0; 0; 0; 1]; sh_total_count := 4;
         sh_total_latency_ns := 20_000_082_000; sh_max_latency_ns := 20_000_000_000 |}.
Proof.
  rewrite (histogram_of_waits [5_000; 70_000; 7_000; 20_000_000_000]);
    [reflexivity|decide_now].
Defined.

(** ** Time on the CPU and time waited *)

(** What part (2) and part (3) leave alone. *)
Lemma switch_wait_frame c next now k :
  PROCESS_STATS (switch_wait c next now k) = PROCESS_STATS k /\
  ONCPU_SINCE (switch_wait c next now k) = ONCPU_SINCE k.
Proof. unfold switch_wait, update_histogram. repeat case_match; done. Qed.

Lemma update_process_oncpu c pid f k : ONCPU_SINCE (update_process c pid f k) = ONCPU_SINCE k.
Proof. destruct (update_process_frame c pid f k) as [m ->]. done. Qed.
Lemma update_process_hist c pid f k :
  SCHED_HISTOGRAM (update_process c pid f k) = SCHED_HISTOGRAM k /\
  WAKEUP_TIMES (update_process c pid f k) = WAKEUP_TIMES k.
Proof. destruct (update_process_frame c pid f k) as [m ->]. done. Qed.

Lemma switch_slice_oncpu_size c prev pc st now k :
  (size (ONCPU_SINCE (switch_slice c prev pc st now k)) <= size (ONCPU_SINCE k))%nat.
Proof.
  unfold switch_slice. repeat case_match; try done. rewrite update_process_oncpu.
  by apply hash_remove_size.
Qed.

(** The task switched in is marked as running since now. *)
Lemma record_switch_marks c prev next pc nc st k :
  next <> 0 -> accepts c ONCPU_SINCE_map -> (size (ONCPU_SINCE k) < ONCPU_SINCE_MAX)%nat ->
  ONCPU_SINCE (record_switch c prev next pc nc st k) !! next = Some (bpf_ktime_get_ns c In_body).
Proof.
  intros Hn Ha Hs. unfold record_switch, switch_in. rewrite (proj2 (Z.eqb_neq _ _) Hn). cbn.
  rewrite update_process_oncpu, accepts_insert_; [apply lookup_insert_eq|done|].
  eapply Nat.le_lt_trans; [apply switch_slice_oncpu_size|].
  by rewrite (proj2 (switch_wait_frame _ _ _ _)).
Qed.

(** The slice of the task switched out is charged to its entry. *)
Lemma record_switch_charges c prev next pc nc st k p t0 :
  prev <> 0 -> next <> prev -> PROCESS_STATS k !! prev = Some p -> ONCPU_SINCE k !! prev = Some t0 ->
  PROCESS_STATS (record_switch c prev next pc nc st k) !! prev
    = Some (charge_slice prev pc st (saturating_sub (bpf_ktime_get_ns c In_body) t0) p).
Proof.
  intros Hp Hne Hk Hon. unfold record_switch. set (now := bpf_ktime_get_ns c In_body).
  destruct (switch_wait_frame c next now k) as [E1 E2].
  assert (PROCESS_STATS (switch_slice c prev pc st now (switch_wait c next now k)) !! prev
    = Some (charge_slice prev pc st (saturating_sub now t0) p)) as Hs.
  { unfold switch_slice. rewrite (proj2 (Z.eqb_neq _ _) Hp), E2, Hon.
    apply update_process_present. cbn. by rewrite E1. }
  unfold switch_in. case_match; [done|]. cbn. by rewrite update_process_other.
Qed.

(** C21: the time a task spends on a CPU is charged to it.  When [t] is switched
    in at time t0 and, after anything that leaves its two entries there, is
    switched out at t1, its entry's cpu_user_ns has grown by t1 - t0 (modulo
    2^64; 0 if the clock went back), exactly one of its context-switch counters
    has grown, by one, the involuntary one if it was still runnable, and its
    on-CPU mark is gone. *)
Theorem slice_charged c0 c1 t prev next pc0 nc0 st0 pc1 nc1 st1 k0 k1 p :
  t <> 0 -> next <> t ->
  accepts c0 ONCPU_SINCE_map -> (size (ONCPU_SINCE k0) < ONCPU_SINCE_MAX)%nat ->
  cx_delete c1 ONCPU_SINCE_map = true ->
  ONCPU_SINCE k1 !! t = ONCPU_SINCE (record_switch c0 prev t pc0 nc0 st0 k0) !! t ->
  PROCESS_STATS k1 !! t = Some p ->
  let t0 := bpf_ktime_get_ns c0 In_body in
  let t1 := bpf_ktime_get_ns c1 In_body in
  let k2 := record_switch c1 t next pc1 nc1 st1 k1 in
  ONCPU_SINCE k2 !! t = None /\
  exists p', PROCESS_STATS k2 !! t = Some p' /\
    ps_cpu_user_ns p' = wrapping_add (ps_cpu_user_ns p) (saturating_sub t1 t0) /\
    ps_comm p' = pc1 /\
    if st1 =? 0
    then ps_involuntary_ctx_sw p' = wrapping_add (ps_involuntary_ctx_sw p) 1 /\
         ps_voluntary_ctx_sw p' = ps_voluntary_ctx_sw p
    else ps_voluntary_ctx_sw p' = wrapping_add (ps_voluntary_ctx_sw p) 1 /\
         ps_involuntary_ctx_sw p' = ps_involuntary_ctx_sw p.
Proof.
  intros Ht Hne Ha Hs Hd Hon Hp t0 t1 k2. rewrite record_switch_marks in Hon by done. split.
  - subst k2. unfold record_switch. destruct (switch_wait_frame c1 next t1 k1) as [_ E2].
    assert (ONCPU_SINCE (switch_slice c1 t pc1 st1 t1 (switch_wait c1 next t1 k1)) !! t = None) as Hs2.
    { unfold switch_slice. rewrite (proj2 (Z.eqb_neq _ _) Ht), E2, Hon, update_process_oncpu.
      by apply hash_remove_lookup_eq. }
    unfold switch_in. case_match; [done|]. cbn. rewrite update_process_oncpu.
    unfold hash_insert_, hash_insert. case_match; cbn; [by rewrite lookup_insert_ne|done].
  - eexists. split; [by apply record_switch_charges|]. unfold charge_slice.
    destruct (st1 =? 0); done.
Qed.

Lemma slice_charged_witness :
  let c0 := ideal_ctx 0 1_000 0 0 [] in
  let c1 := ideal_ctx 0 5_000 7 7 [] in
  let comm := replicate COMM_LEN 65 in
  let k1 := record_switch c0 0 7 comm comm 0 (kernel_init 1) in
  let k2 := record_switch c1 7 0 comm comm 1 k1 in
  ONCPU_SINCE k2 !! 7 = None /\
  exists p', PROCESS_STATS k2 !! 7 = Some p' /\ ps_cpu_user_ns p' = 4_000 /\
    ps_comm p' = comm /\ ps_voluntary_ctx_sw p' = 1 /\ ps_involuntary_ctx_sw p' = 0.
Proof.
  destruct (slice_charged (ideal_ctx 0 1_000 0 0 []) (ideal_ctx 0 5_000 7 7 []) 7 0 0
    (replicate COMM_LEN 65) (replicate COMM_LEN 65) 0 (replicate COMM_LEN 65) (replicate COMM_LEN 65) 1
    (kernel_init 1)
    (record_switch (ideal_ctx 0 1_000 0 0 []) 0 7 (replicate COMM_LEN 65) (replicate COMM_LEN 65) 0
      (kernel_init 1))
    (ProcessStats_zeroed <| ps_pid := 7 |> <| ps_comm := replicate COMM_LEN 65 |>))
    as [H1 (p' & H2 & H3 & H4 & H5 & H6)].
  1-7: first [apply ideal_ctx_accepts|decide_now|reflexivity].
  split; [exact H1|]. exists p'. split; [exact H2|].
  split; [exact H3|]. split; [exact H4|]. split; [exact H5|exact H6].
Defined.

(** C22: the time a task waits for a CPU is recorded.  When [sched_wakeup] marks
    [t] at time t0 and [t] is later switched in on a CPU at t1, that CPU's
    histogram gains exactly the sample t1 - t0 and the wake-up mark is gone; a
    task that was not marked adds no sample. *)
Theorem wait_recorded c0 c1 task t prev pc nc st k0 k1 h :
  task_pid task = Some t -> as_u32 t <> 0 ->
  accepts c0 WAKEUP_TIMES_map -> (size (WAKEUP_TIMES k0) < WAKEUP_TIMES_MAX)%nat ->
  cx_delete c1 WAKEUP_TIMES_map = true -> cpu_slot c1 (SCHED_HISTOGRAM k1) = Some h ->
  let t0 := bpf_ktime_get_ns c0 In_body in
  let t1 := bpf_ktime_get_ns c1 In_body in
  let k2 := record_switch c1 prev (as_u32 t) pc nc st k1 in
  (WAKEUP_TIMES k1 !! as_u32 t = WAKEUP_TIMES (sched_wakeup c0 task k0).2 !! as_u32 t ->
     cpu_slot c1 (SCHED_HISTOGRAM k2) = Some (hist_add (saturating_sub t1 t0) h) /\
     WAKEUP_TIMES k2 !! as_u32 t = None) /\
  (WAKEUP_TIMES k1 !! as_u32 t = None -> SCHED_HISTOGRAM k2 = SCHED_HISTOGRAM k1).
Proof.
  intros Htask Ht Ha Hs Hd Hh t0 t1 k2.
  assert (forall now k, SCHED_HISTOGRAM (switch_in c1 (as_u32 t) nc now
      (switch_slice c1 prev pc st now k)) = SCHED_HISTOGRAM k /\
    WAKEUP_TIMES (switch_in c1 (as_u32 t) nc now (switch_slice c1 prev pc st now k))
      = WAKEUP_TIMES k) as Hrest.
  { intros now k. unfold switch_in. rewrite (proj2 (Z.eqb_neq _ _) Ht). cbn.
    rewrite (proj1 (update_process_hist _ _ _ _)), (proj2 (update_process_hist _ _ _ _)).
    unfold switch_slice. repeat case_match; try done.
    by rewrite (proj1 (update_process_hist _ _ _ _)), (proj2 (update_process_hist _ _ _ _)). }
  subst k2. unfold record_switch. fold t1. rewrite (proj1 (Hrest _ _)), (proj2 (Hrest _ _)).
  unfold switch_wait. rewrite (proj2 (Z.eqb_neq _ _) Ht). split.
  - intros ->. unfold sched_wakeup, try_wakeup_btf, run_result. rewrite Htask. cbn.
    rewrite accepts_insert_, lookup_insert_eq by done. fold t0.
    unfold update_histogram. cbn. rewrite Hh. cbn. split.
    + unfold cpu_slot, cpu_write in *. by rewrite list_lookup_alter_eq, Hh.
    + by apply hash_remove_lookup_eq.
  - by intros ->.
Qed.
Lemma wait_recorded_witness :
  let c0 := ideal_ctx 0 1_000 0 0 [] in
  let c1 := ideal_ctx 0 31_000 0 0 [] in
  let comm := replicate COMM_LEN 65 in
  let task := {| task_pid := Some 7; task_tgid := Some 7; task_comm := Some comm |} in
  let k1 := (sched_wakeup c0 task (kernel_init 1)).2 in
  let k2 := record_switch c1 0 7 comm comm 0 k1 in
  SCHED_HISTOGRAM k2 = [hist_add 30_000 SchedHistogram_zeroed] /\ WAKEUP_TIMES k2 !! 7 = None.
Proof.
  destruct (wait_recorded (ideal_ctx 0 1_000 0 0 []) (ideal_ctx 0 31_000 0 0 [])
    {| task_pid := Some 7; task_tgid := Some 7; task_comm := Some (replicate COMM_LEN 65) |} 7 0
    (replicate COMM_LEN 65) (replicate COMM_LEN 65) 0 (kernel_init 1)
    (sched_wakeup (ideal_ctx 0 1_000 0 0 [])
      {| task_pid := Some 7; task_tgid := Some 7; task_comm := Some (replicate COMM_LEN 65) |}
      (kernel_init 1)).2 SchedHistogram_zeroed) as [H _].
  1-6: first [apply ideal_ctx_accepts|decide_now|reflexivity].
  destruct (H eq_refl) as [_ Hw]. split; [reflexivity|exact Hw].
Defined.
