(* ===== verification/Process.v ===== *)
(** [process.rs]: process lifecycle probes (exec, exit, fork, [do_exit]) and the
    emission of [ProcessEvent]s, in the BTF build and in the [kernel-5-4] build
    (suffix [_54], events through a per-CPU scratch slot and a perf array). *)
From S2P Require Import Prelude Float Types Layout Pods Bpf Stats Scheduler.

(** ** Tracepoint records of the 5.4 build *)

Record SchedProcessExecArgs := {
  exa_pad : list Z;
  exa_filename_off : Z;
  exa_pid : Z;
  exa_old_pid : Z }.
#[export] Instance eta_SchedProcessExecArgs : Eta SchedProcessExecArgs := fun r =>
  Build_SchedProcessExecArgs (exa_pad r) (exa_filename_off r) (exa_pid r)
    (exa_old_pid r).
Definition SchedProcessExecArgs_ty : cty := CStruct [("_pad", CArr 8 CU8);
  ("filename_off", CU32); ("pid", CU32); ("old_pid", CU32)].
#[export, refine] Instance SchedProcessExecArgs_pod : Pod SchedProcessExecArgs := {|
  pod_ty := SchedProcessExecArgs_ty;
  pod_val x := VSeq [v_ints (exa_pad x); VInt (exa_filename_off x); VInt (exa_pid x);
    VInt (exa_old_pid x)];
  pod_of v := {| exa_pad := ints_v (v_nth 0 v); exa_filename_off := v_int (v_nth 1 v);
    exa_pid := v_int (v_nth 2 v); exa_old_pid := v_int (v_nth 3 v) |} |}.
Proof. all: [> solve_ty_ok | solve_pod_law | solve_pod_val_of SchedProcessExecArgs_ty ]. Defined.

Record SchedProcessForkArgs := {
  fka_pad : list Z;
  fka_parent_comm : list Z;
  fka_parent_pid : Z;
  fka_child_comm : list Z;
  fka_child_pid : Z }.
#[export] Instance eta_SchedProcessForkArgs : Eta SchedProcessForkArgs := fun r =>
  Build_SchedProcessForkArgs (fka_pad r) (fka_parent_comm r) (fka_parent_pid r)
    (fka_child_comm r) (fka_child_pid r).
Definition SchedProcessForkArgs_ty : cty := CStruct [("_pad", CArr 8 CU8);
  ("parent_comm", CArr 16 CU8); ("parent_pid", CU32); ("child_comm", CArr 16 CU8);
  ("child_pid", CU32)].
#[export, refine] Instance SchedProcessForkArgs_pod : Pod SchedProcessForkArgs := {|
  pod_ty := SchedProcessForkArgs_ty;
  pod_val x := VSeq [v_ints (fka_pad x); v_ints (fka_parent_comm x);
    VInt (fka_parent_pid x); v_ints (fka_child_comm x); VInt (fka_child_pid x)];
  pod_of v := {| fka_pad := ints_v (v_nth 0 v); fka_parent_comm := ints_v (v_nth 1 v);
    fka_parent_pid := v_int (v_nth 2 v); fka_child_comm := ints_v (v_nth 3 v);
    fka_child_pid := v_int (v_nth 4 v) |} |}.
Proof. all: [> solve_ty_ok | solve_pod_law | solve_pod_val_of SchedProcessForkArgs_ty ]. Defined.

(** ** Emission *)

(** The stores into the zeroed entry. *)
Definition basic_event (c : ctx) (kind : ProcessEventKind) (pid ppid uid exit_code : Z) : ProcessEvent :=
  ProcessEvent_zeroed
    <| pe_timestamp_ns := bpf_ktime_get_ns c In_body |> <| pe_comm := current_comm c |>
    <| pe_kind := ProcessEventKind_repr kind |> <| pe_pid := pid |> <| pe_ppid := ppid |>
    <| pe_uid := uid |> <| pe_exit_code := exit_code |>.

Definition emit_basic (c : ctx) (kind : ProcessEventKind) (pid ppid uid exit_code : Z) (k : kernel)
    : result unit unit * kernel :=
  if cx_reserve c
  then (Ok (), k <| PROCESS_EVENTS ::= fun es => es ++ [basic_event c kind pid ppid uid exit_code] |>)
  else (Err (), drop_process c k).

Definition emit_basic_perf (c : ctx) (kind : ProcessEventKind) (pid ppid uid exit_code : Z) (k : kernel)
    : result unit unit * kernel :=
  match cpu_slot c (PROCESS_EVENT_SCRATCH k) with
  | None => (Err (), drop_process c k)
  | Some _ =>
      let e := basic_event c kind pid ppid uid exit_code in
      let k := k <| PROCESS_EVENT_SCRATCH ::= cpu_write c (fun _ => e) |> in
      (* the result of [output] is not looked at *)
      (Ok (), if cx_output c then k <| PROCESS_EVENTS ::= fun es => es ++ [e] |> else k)
  end.

(** ** Programs: BTF build *)

Definition sched_process_exec (c : ctx) (k : kernel) : Z * kernel :=
  let pid := current_tgid c in
  let uid := current_uid c in
  let k := record_exec c pid uid k in
  let ppid := fetch_ppid pid k in
  let '(_, k) := emit_basic c Exec pid ppid uid 0 k in
  (0, k).

Definition sched_process_exit (c : ctx) (k : kernel) : Z * kernel :=
  let pid := current_tgid c in
  let tid := current_tid c in
  let uid := current_uid c in
  let ppid := fetch_ppid pid k in
  let '(exit_code, k) := take_exit_code c pid k in
  let k := if tid =? pid then
             let '(_, k) := emit_basic c Exit pid ppid uid exit_code k in
             record_exit c pid k
           else k in
  (0, record_thread_exit c tid k).

Definition sched_process_fork (c : ctx) (parent child : task_struct) (k : kernel) : Z * kernel :=
  let parent_tgid := unwrap_or 0 (task_tgid parent) in
  let child_tgid := unwrap_or 0 (task_tgid child) in
  let parent_pid := as_u32 parent_tgid in
  let child_pid := as_u32 child_tgid in
  let uid := current_uid c in
  let '(_, k) := emit_basic c Fork child_pid parent_pid uid 0 k in
  let k := record_exec c child_pid uid k in
  (0, set_ppid c child_pid parent_pid k).

(** ** Programs: [kernel-5-4] build *)

Definition sched_process_exec_54 (c : ctx) (k : kernel) : Z * kernel :=
  match read_at (T := SchedProcessExecArgs) c 0 with
  | None => (1, k)
  | Some args =>
      let pid := exa_pid args in
      let uid := current_uid c in
      let k := record_exec c pid uid k in
      let ppid := fetch_ppid pid k in
      let '(_, k) := emit_basic_perf c Exec pid ppid uid 0 k in
      (0, k)
  end.

Definition sched_process_exit_54 (c : ctx) (k : kernel) : Z * kernel :=
  let pid := current_tgid c in
  let tid := current_tid c in
  let uid := current_uid c in
  let ppid := fetch_ppid pid k in
  let '(exit_code, k) := take_exit_code c pid k in
  let k := if tid =? pid then
             let '(_, k) := emit_basic_perf c Exit pid ppid uid exit_code k in
             record_exit c pid k
           else k in
  (0, record_thread_exit c tid k).

Definition sched_process_fork_54 (c : ctx) (k : kernel) : Z * kernel :=
  match read_at (T := SchedProcessForkArgs) c 0 with
  | None => (1, k)
  | Some args =>
      let parent_pid := fka_parent_pid args in
      let child_pid := fka_child_pid args in
      let uid := current_uid c in
      let '(_, k) := emit_basic_perf c Fork child_pid parent_pid uid 0 k in
      let k := record_exec c child_pid uid k in
      (0, set_ppid c child_pid parent_pid k)
  end.

(** [kprobe:do_exit]; [code] is [ctx.arg::<u64>(0)]. *)
Definition do_exit (c : ctx) (code : option Z) (k : kernel) : Z * kernel :=
  let code := unwrap_or 0 code in
  let pid := current_tgid c in
  (0, stash_exit_code c pid (as_i32 code) k).

(** ** What the programs leave of a process *)

(** An event reports this. *)
Definition reports (e : ProcessEvent) (kind : ProcessEventKind) (pid ppid code : Z) : Prop :=
  pe_kind e = ProcessEventKind_repr kind /\ pe_pid e = pid /\ pe_ppid e = ppid /\ pe_exit_code e = code.

Lemma basic_event_reports c kind pid ppid uid code :
  reports (basic_event c kind pid ppid uid code) kind pid ppid code.
Proof. done. Qed.

(** The parent recorded for [pid]. *)
Definition known_ppid (pid : Z) (k : kernel) : option Z := option_map ps_ppid (PROCESS_STATS k !! pid).

Lemma fetch_known pid k : fetch_ppid pid k = unwrap_or 0 (known_ppid pid k).
Proof. done. Qed.

(** [record_exec] keeps the parent of a known process; a new entry has none. *)
Lemma record_exec_ppid c pid uid k ppid :
  known_ppid pid k = Some ppid -> known_ppid pid (record_exec c pid uid k) = Some ppid.
Proof.
  unfold known_ppid. destruct (PROCESS_STATS k !! pid) as [p|] eqn:E; [|done]. intros [= <-].
  rewrite record_exec_update. by erewrite update_process_present.
Qed.

(** [record_exec] and [set_ppid] touch only PROCESS_STATS. *)
Lemma record_exec_frame c pid uid k : exists m, record_exec c pid uid k = k <| PROCESS_STATS := m |>.
Proof. rewrite record_exec_update. apply update_process_frame. Qed.
Lemma set_ppid_frame c pid ppid k : exists m, set_ppid c pid ppid k = k <| PROCESS_STATS := m |>.
Proof. rewrite set_ppid_update. apply update_process_frame. Qed.

(** With room for it, an updated entry exists. *)
Lemma update_process_accepts c pid f k :
  accepts c PROCESS_STATS_map -> (size (PROCESS_STATS k) < PROCESS_STATS_MAX)%nat ->
  PROCESS_STATS (update_process c pid f k) !! pid
    = Some (f (default ProcessStats_zeroed (PROCESS_STATS k !! pid))).
Proof.
  intros Ha Hs. rewrite update_process_stats. destruct (PROCESS_STATS k !! pid) as [p|] eqn:E.
  - by rewrite lookup_insert_eq.
  - change (hash_insert_ c PROCESS_STATS_map pid (f ProcessStats_zeroed) (PROCESS_STATS k) !! pid
      = Some (f ProcessStats_zeroed)).
    rewrite accepts_insert_ by done. apply lookup_insert_eq.
Qed.

(** The fork program: the child's entry, and the event. *)
Lemma fork_child c parent child P G k :
  task_tgid parent = Some P -> task_tgid child = Some G -> cx_reserve c = true ->
  accepts c PROCESS_STATS_map -> (size (PROCESS_STATS k) < PROCESS_STATS_MAX)%nat ->
  let k' := (sched_process_fork c parent child k).2 in
  PROCESS_EVENTS k' = PROCESS_EVENTS k ++ [basic_event c Fork (as_u32 G) (as_u32 P) (current_uid c) 0] /\
  PROCESS_STATS k' !! as_u32 G =
    Some ((default ProcessStats_zeroed (PROCESS_STATS k !! as_u32 G))
      <| ps_pid := as_u32 G |> <| ps_uid := current_uid c |>
      <| ps_start_time_ns := bpf_ktime_get_ns c In_record_exec |>
      <| ps_comm := current_comm c |> <| ps_ppid := as_u32 P |>) /\
  EXIT_CODES k' = EXIT_CODES k.
Proof.
  intros HP HG Hr Ha Hs.
  set (k1 := k <| PROCESS_EVENTS ::= fun es =>
    es ++ [basic_event c Fork (as_u32 G) (as_u32 P) (current_uid c) 0] |>).
  assert ((sched_process_fork c parent child k).2
    = set_ppid c (as_u32 G) (as_u32 P) (record_exec c (as_u32 G) (current_uid c) k1)) as ->
    by (unfold sched_process_fork, emit_basic; by rewrite HP, HG, Hr).
  cbv zeta.
  assert (PROCESS_STATS k1 = PROCESS_STATS k) as Es by done.
  pose proof (update_process_accepts c (as_u32 G) (fun p =>
    p <| ps_pid := as_u32 G |> <| ps_uid := current_uid c |>
      <| ps_start_time_ns := bpf_ktime_get_ns c In_record_exec |>
      <| ps_comm := current_comm c |>) k1 Ha Hs) as Hex.
  rewrite <- record_exec_update in Hex. rewrite Es in Hex.
  destruct (record_exec_frame c (as_u32 G) (current_uid c) k1) as [m Hm].
  rewrite set_ppid_update.
  destruct (update_process_frame c (as_u32 G) (fun p => p <| ps_pid := as_u32 G |>
    <| ps_ppid := as_u32 P |>) (record_exec c (as_u32 G) (current_uid c) k1)) as [m2 Hm2].
  split_and!.
  - rewrite Hm2, Hm. done.
  - erewrite update_process_present by exact Hex. done.
  - rewrite Hm2, Hm. done.
Qed.

(** The exec program: the event carries the recorded parent. *)
Lemma exec_event c k ppid :
  cx_reserve c = true -> known_ppid (current_tgid c) k = Some ppid ->
  let k' := (sched_process_exec c k).2 in
  PROCESS_EVENTS k' = PROCESS_EVENTS k
    ++ [basic_event c Exec (current_tgid c) ppid (current_uid c) 0] /\
  known_ppid (current_tgid c) k' = Some ppid /\ EXIT_CODES k' = EXIT_CODES k.
Proof.
  intros Hr Hp. unfold sched_process_exec, emit_basic. rewrite Hr. cbn.
  pose proof (record_exec_ppid c _ (current_uid c) k ppid Hp) as Hp'.
  rewrite fetch_known, Hp'. destruct (record_exec_frame c (current_tgid c) (current_uid c) k) as [m Hm].
  rewrite Hm in *. split_and!; [done|exact Hp'|done].
Qed.

(** The exit program, run by the thread-group leader. *)
Lemma leader_exit c k :
  current_tid c = current_tgid c -> cx_reserve c = true ->
  let G := current_tgid c in
  let k' := (sched_process_exit c k).2 in
  PROCESS_EVENTS k' = PROCESS_EVENTS k ++
    [basic_event c Exit G (unwrap_or 0 (known_ppid G k)) (current_uid c) (unwrap_or 0 (EXIT_CODES k !! G))] /\
  ((forall id, cx_delete c id = true) ->
   PROCESS_STATS k' !! G = None /\ ONCPU_SINCE k' !! G = None /\
   EXIT_CODES k' !! G = None /\ WAKEUP_TIMES k' !! G = None).
Proof.
  intros Htid Hr G k'. subst k'. unfold sched_process_exit, emit_basic, take_exit_code.
  rewrite Htid, Z.eqb_refl, Hr. split; [done|]. intros Hd. cbn.
  split_and!; unfold hash_remove; rewrite !Hd; try apply lookup_delete_eq.
Qed.

(** The exit program, run by another thread of the process. *)
Lemma thread_exit c k :
  current_tid c <> current_tgid c ->
  let k' := (sched_process_exit c k).2 in
  PROCESS_EVENTS k' = PROCESS_EVENTS k /\ PROCESS_STATS k' = PROCESS_STATS k /\
  EXIT_CODES k' = hash_remove c EXIT_CODES_map (current_tgid c) (EXIT_CODES k).
Proof.
  intros Htid k'. subst k'. unfold sched_process_exit, take_exit_code.
  by rewrite (proj2 (Z.eqb_neq _ _) Htid).
Qed.

(** ** Properties *)

(** C27: the life of a process is reported to user space.  When a process [P]
    forks [G], and [G] executes a program, passes [code] to do_exit and its
    leader exits, each program appends its event, naming [G], its parent [P]
    and, at the end, [code]; and nothing about [G] is left in the maps.  Other
    programs may run in between, as long as they leave [G]'s recorded parent and
    exit code alone. *)
Theorem lifecycle_reported cf ce cd cx parent child P G code k0 k1 k2 k3 :
  is_u32 G -> task_tgid parent = Some P -> task_tgid child = Some G ->
  current_tgid ce = G -> current_tgid cd = G -> current_tgid cx = G -> current_tid cx = G ->
  cx_reserve cf = true -> cx_reserve ce = true -> cx_reserve cx = true ->
  accepts cf PROCESS_STATS_map -> (size (PROCESS_STATS k0) < PROCESS_STATS_MAX)%nat ->
  accepts cd EXIT_CODES_map -> (size (EXIT_CODES k2) < EXIT_CODES_MAX)%nat ->
  (forall id, cx_delete cx id = true) ->
  let kf := (sched_process_fork cf parent child k0).2 in
  let ke := (sched_process_exec ce k1).2 in
  let kd := (do_exit cd (Some code) k2).2 in
  let kx := (sched_process_exit cx k3).2 in
  known_ppid G k1 = known_ppid G kf -> known_ppid G k2 = known_ppid G ke ->
  known_ppid G k3 = known_ppid G kd -> EXIT_CODES k3 !! G = EXIT_CODES kd !! G ->
  exists ef ee ex,
    PROCESS_EVENTS kf = PROCESS_EVENTS k0 ++ [ef] /\ reports ef Fork G (as_u32 P) 0 /\
    PROCESS_EVENTS ke = PROCESS_EVENTS k1 ++ [ee] /\ reports ee Exec G (as_u32 P) 0 /\
    PROCESS_EVENTS kx = PROCESS_EVENTS k3 ++ [ex] /\ reports ex Exit G (as_u32 P) (as_i32 code) /\
    PROCESS_STATS kx !! G = None /\ ONCPU_SINCE kx !! G = None /\
    EXIT_CODES kx !! G = None /\ WAKEUP_TIMES kx !! G = None.
Proof.
  intros HG HP HC He Hd Hx Ht Hrf Hre Hrx Haf Hsf Had Hsd Hdel kf ke kd kx E1 E2 E3 E4.
  destruct (fork_child cf parent child P G k0 HP HC Hrf Haf Hsf) as (Hf & Hpf & _).
  rewrite (as_u32_small G HG) in *. fold kf in Hf, Hpf.
  assert (known_ppid (current_tgid ce) k1 = Some (as_u32 P)) as Hk1.
  { rewrite He, E1. unfold known_ppid. by rewrite Hpf. }
  destruct (exec_event ce k1 (as_u32 P) Hre Hk1) as (Hev & Hke & _). fold ke in Hev, Hke.
  rewrite He in *.
  destruct (leader_exit cx k3) as [Hex Hgone]; [by rewrite Ht, Hx|done|]. fold kx in Hex, Hgone.
  rewrite Hx in *.
  assert (known_ppid G kd = known_ppid G k2) as Ed by done.
  assert (EXIT_CODES kd !! G = Some (as_i32 code)) as Hcode.
  { unfold kd, do_exit. cbn. rewrite accepts_insert_, Hd by done. apply lookup_insert_eq. }
  rewrite E3, Ed, E2, Hke, E4, Hcode in Hex. cbn [unwrap_or default] in Hex.
  eexists _, _, _. split; [exact Hf|]. split; [apply basic_event_reports|].
  split; [exact Hev|]. split; [apply basic_event_reports|].
  split; [exact Hex|]. split; [apply basic_event_reports|]. by apply Hgone.
Qed.
Lemma lifecycle_reported_witness :
  let task tgid := {| task_pid := Some tgid; task_tgid := Some tgid; task_comm := None |} in
  let c t tgid := ideal_ctx 0 t tgid tgid [] in
  let kf := (sched_process_fork (c 10 1) (task 1) (task 7) (kernel_init 1)).2 in
  let ke := (sched_process_exec (c 20 7) kf).2 in
  let kd := (do_exit (c 30 7) (Some 256) ke).2 in
  let kx := (sched_process_exit (c 40 7) kd).2 in
  exists ef ee ex,
    PROCESS_EVENTS kf = [ef] /\ reports ef Fork 7 1 0 /\
    PROCESS_EVENTS ke = PROCESS_EVENTS kf ++ [ee] /\ reports ee Exec 7 1 0 /\
    PROCESS_EVENTS kx = PROCESS_EVENTS kd ++ [ex] /\ reports ex Exit 7 1 256 /\
    PROCESS_STATS kx !! 7 = None /\ ONCPU_SINCE kx !! 7 = None /\
    EXIT_CODES kx !! 7 = None /\ WAKEUP_TIMES kx !! 7 = None.
Proof.
  intros task c kf ke kd kx.
  apply (lifecycle_reported (c 10 1) (c 20 7) (c 30 7) (c 40 7) (task 1) (task 7) 1 7 256
    (kernel_init 1) kf ke kd).
  all: first [apply ideal_ctx_accepts|reflexivity|decide_now].
Defined.

(** A defect.  The exit code of a process whose leader has passed [code] to
    do_exit is lost when another of its threads exits before the leader: the
    leader's Exit event reports 0. *)
Theorem exit_code_lost_to_sibling cd ct cx code k :
  current_tgid ct = current_tgid cd -> current_tid ct <> current_tgid cd ->
  current_tgid cx = current_tgid cd -> current_tid cx = current_tgid cd ->
  cx_reserve cx = true -> cx_delete ct EXIT_CODES_map = true ->
  let k1 := (do_exit cd (Some code) k).2 in
  let k2 := (sched_process_exit ct k1).2 in
  let k3 := (sched_process_exit cx k2).2 in
  exists e, PROCESS_EVENTS k3 = PROCESS_EVENTS k ++ [e] /\
    pe_kind e = ProcessEventKind_repr Exit /\ pe_pid e = current_tgid cd /\ pe_exit_code e = 0.
Proof.
  intros Hg Ht Hgx Htx Hr Hd k1 k2 k3.
  destruct (thread_exit ct k1) as (Hev & _ & Hc); [by rewrite Hg|]. fold k2 in Hev, Hc.
  destruct (leader_exit cx k2) as [Hex _]; [by rewrite Htx, Hgx|done|]. fold k3 in Hex.
  rewrite Hgx, Hc, Hg, hash_remove_lookup_eq, Hev in Hex by done.
  eexists. split; [exact Hex|]. done.
Qed.
Lemma exit_code_lost_to_sibling_witness :
  let k1 := (do_exit (ideal_ctx 0 10 7 7 []) (Some 256) (kernel_init 1)).2 in
  let k2 := (sched_process_exit (ideal_ctx 0 20 7 8 []) k1).2 in
  let k3 := (sched_process_exit (ideal_ctx 0 30 7 7 []) k2).2 in
  exists e, PROCESS_EVENTS k3 = [e] /\ pe_kind e = 1 /\ pe_pid e = 7 /\ pe_exit_code e = 0.
Proof.
  apply (exit_code_lost_to_sibling (ideal_ctx 0 10 7 7 []) (ideal_ctx 0 20 7 8 [])
    (ideal_ctx 0 30 7 7 []) 256 (kernel_init 1)).
  all: first [reflexivity|decide_now].
Defined.

(** A defect.  sched_process_fork also fires when a process creates a
    thread, whose task has the tgid of its creator: the program then records
    the process as its own parent, restarts its start time, and reports a fork
    of the process by itself. *)
Theorem thread_creation_recorded_as_fork c parent child G k p :
  is_u32 G -> task_tgid parent = Some G -> task_tgid child = Some G ->
  cx_reserve c = true -> accepts c PROCESS_STATS_map ->
  (size (PROCESS_STATS k) < PROCESS_STATS_MAX)%nat -> PROCESS_STATS k !! G = Some p ->
  let k' := (sched_process_fork c parent child k).2 in
  (exists e, PROCESS_EVENTS k' = PROCESS_EVENTS k ++ [e] /\ reports e Fork G G 0) /\
  exists p', PROCESS_STATS k' !! G = Some p' /\ ps_ppid p' = G /\
    ps_start_time_ns p' = bpf_ktime_get_ns c In_record_exec /\ ps_cpu_user_ns p' = ps_cpu_user_ns p.
Proof.
  intros HG HP HC Hr Ha Hs Hp k'.
  destruct (fork_child c parent child G G k HP HC Hr Ha Hs) as (He & Hk & _).
  fold k' in He, Hk. rewrite (as_u32_small G HG) in *. rewrite Hp in Hk. split.
  - eexists. split; [exact He|apply basic_event_reports].
  - eexists. split; [exact Hk|]. done.
Qed.
Lemma thread_creation_recorded_as_fork_witness :
  let task pid := {| task_pid := Some pid; task_tgid := Some 7; task_comm := None |} in
  let k := (sched_process_exec (ideal_ctx 0 10 7 7 []) (kernel_init 1)).2 in
  let k' := (sched_process_fork (ideal_ctx 0 500 7 7 []) (task 7) (task 8) k).2 in
  (exists e, PROCESS_EVENTS k' = PROCESS_EVENTS k ++ [e] /\ reports e Fork 7 7 0) /\
  exists p', PROCESS_STATS k' !! 7 = Some p' /\ ps_ppid p' = 7 /\ ps_start_time_ns p' = 500 /\
    ps_cpu_user_ns p' = 0.
Proof.
  intros task k k'.
  destruct (thread_creation_recorded_as_fork (ideal_ctx 0 500 7 7 []) (task 7) (task 8) 7 k
    (ProcessStats_zeroed <| ps_pid := 7 |> <| ps_start_time_ns := 10 |>))
    as [He (p' & H1 & H2 & H3 & H4)].
  1-7: first [apply ideal_ctx_accepts|reflexivity|decide_now].
  split; [exact He|]. exists p'. split; [exact H1|]. split; [exact H2|]. split; [exact H3|exact H4].
Defined.

(** A defect.  sched_switch files an entry of PROCESS_STATS under the id of
    every thread it sees, but the exit of a thread that does not lead its
    process leaves that entry in the map: the map is not bounded by the live
    processes. *)
Theorem thread_entry_outlives_thread cs cx prev t pc nc st k k1 :
  t <> 0 -> accepts cs PROCESS_STATS_map ->
  (size (PROCESS_STATS (switch_slice cs prev pc st (bpf_ktime_get_ns cs In_body)
     (switch_wait cs t (bpf_ktime_get_ns cs In_body) k))) < PROCESS_STATS_MAX)%nat ->
  current_tid cx = t -> current_tgid cx <> t ->
  PROCESS_STATS k1 !! t = PROCESS_STATS (record_switch cs prev t pc nc st k) !! t ->
  exists p, PROCESS_STATS (sched_process_exit cx k1).2 !! t = Some p /\ ps_pid p = t /\ ps_comm p = nc.
Proof.
  intros Ht Ha Hs Hid Hg Hk1.
  destruct (thread_exit cx k1) as (_ & -> & _); [by rewrite Hid|]. rewrite Hk1.
  unfold record_switch, switch_in. rewrite (proj2 (Z.eqb_neq _ _) Ht). cbn.
  rewrite update_process_accepts by done. eexists. split; [done|]. done.
Qed.
Lemma thread_entry_outlives_thread_witness :
  let comm := replicate COMM_LEN 65 in
  let k1 := record_switch (ideal_ctx 0 10 0 0 []) 0 8 comm comm 0 (kernel_init 1) in
  exists p, PROCESS_STATS (sched_process_exit (ideal_ctx 0 20 7 8 []) k1).2 !! 8 = Some p /\
    ps_pid p = 8 /\ ps_comm p = comm.
Proof.
  apply (thread_entry_outlives_thread (ideal_ctx 0 10 0 0 []) (ideal_ctx 0 20 7 8 []) 0 8
    (replicate COMM_LEN 65) (replicate COMM_LEN 65) 0 (kernel_init 1)).
  all: first [apply ideal_ctx_accepts|reflexivity|decide_now].
Defined.
