(* ===== verification/Fileio.v ===== *)
(** [fileio.rs]: per-process byte accounting of [vfs_read] and [vfs_write].
    [count] is [ctx.arg::<usize>(2)]. *)
From S2P Require Import Prelude Float Types Layout Pods Bpf Stats.

Definition vfs_read (c : ctx) (count : option Z) (k : kernel) : Z * kernel :=
  let count := unwrap_or 0 count in
  if count =? 0 then (0, k) else
  let pid := current_tgid c in
  (0, update_process c pid (fun p =>
        p <| ps_pid := pid |> <| ps_read_bytes := wrapping_add (ps_read_bytes p) count |>) k).

Definition vfs_write (c : ctx) (count : option Z) (k : kernel) : Z * kernel :=
  let count := unwrap_or 0 count in
  if count =? 0 then (0, k) else
  let pid := current_tgid c in
  (0, update_process c pid (fun p =>
        p <| ps_pid := pid |> <| ps_write_bytes := wrapping_add (ps_write_bytes p) count |>) k).
