(* ===== verification/Memory.v ===== *)
(** [memory.rs]: user page faults and OOM kills, counted per CPU. *)
From S2P Require Import Prelude Float Types Layout Pods Bpf.

Definition FAULT_FLAG_USER : Z := 0x40.

(** [flags] is [ctx.arg::<u32>(2)]. *)
Definition handle_mm_fault (c : ctx) (flags : option Z) (k : kernel) : Z * kernel :=
  let flags := unwrap_or 0 flags in
  if Z.land flags FAULT_FLAG_USER =? 0 then (0, k) else
  match cpu_slot c (MEMORY_STATS k) with
  | None => (1, k)
  | Some _ =>
      (0, k <| MEMORY_STATS ::= cpu_write c (fun m =>
            m <| mem_page_faults_minor := wrapping_add (mem_page_faults_minor m) 1 |>) |>)
  end.

Definition oom_kill_process (c : ctx) (k : kernel) : Z * kernel :=
  match cpu_slot c (MEMORY_STATS k) with
  | None => (1, k)
  | Some _ =>
      (0, k <| MEMORY_STATS ::= cpu_write c (fun m =>
            m <| mem_oom_kills_total := wrapping_add (mem_oom_kills_total m) 1 |>) |>)
  end.
