(* ===== verification/Cpu.v ===== *)
(** [cpu.rs]: time in hardware-IRQ and softirq handlers, per CPU, from
    entry/exit tracepoint pairs. *)
From S2P Require Import Prelude Float Types Layout Pods Bpf.

Definition MAX_HANDLER_NS : Z := 1_000_000_000.

Definition irq_handler_entry (c : ctx) (k : kernel) : Z * kernel :=
  match cpu_slot c (IRQ_ENTRY_TS k) with
  | None => (0, k)
  | Some _ => (0, k <| IRQ_ENTRY_TS ::= cpu_write c (fun _ => bpf_ktime_get_ns c In_body) |>)
  end.

Definition irq_handler_exit (c : ctx) (k : kernel) : Z * kernel :=
  let now := bpf_ktime_get_ns c In_body in
  match cpu_slot c (IRQ_ENTRY_TS k) with
  | None => (0, k)
  | Some entry =>
      if entry =? 0 then (0, k) else
      let k := k <| IRQ_ENTRY_TS ::= cpu_write c (fun _ => 0) |> in
      let delta := saturating_sub now entry in
      if MAX_HANDLER_NS <? delta then (0, k) else
      match cpu_slot c (CPU_STATS k) with
      | None => (0, k)
      | Some _ =>
          (0, k <| CPU_STATS ::= cpu_write c (fun s =>
                s <| cpu_irq_ns := wrapping_add (cpu_irq_ns s) delta |>) |>)
      end
  end.

Definition softirq_entry (c : ctx) (k : kernel) : Z * kernel :=
  match cpu_slot c (SOFTIRQ_ENTRY_TS k) with
  | None => (0, k)
  | Some _ => (0, k <| SOFTIRQ_ENTRY_TS ::= cpu_write c (fun _ => bpf_ktime_get_ns c In_body) |>)
  end.

Definition softirq_exit (c : ctx) (k : kernel) : Z * kernel :=
  let now := bpf_ktime_get_ns c In_body in
  match cpu_slot c (SOFTIRQ_ENTRY_TS k) with
  | None => (0, k)
  | Some entry =>
      if entry =? 0 then (0, k) else
      let k := k <| SOFTIRQ_ENTRY_TS ::= cpu_write c (fun _ => 0) |> in
      let delta := saturating_sub now entry in
      if MAX_HANDLER_NS <? delta then (0, k) else
      match cpu_slot c (CPU_STATS k) with
      | None => (0, k)
      | Some _ =>
          (0, k <| CPU_STATS ::= cpu_write c (fun s =>
                s <| cpu_softirq_ns := wrapping_add (cpu_softirq_ns s) delta |>) |>)
      end
  end.

(** ** Pairing *)

(** What one handler-exit program does to its entry slot and its counter. *)
Definition charge (now entry counter : Z) : Z :=
  let delta := saturating_sub now entry in
  if (entry =? 0) || (MAX_HANDLER_NS <? delta) then counter else wrapping_add counter delta.

Lemma irq_handler_exit_charges c k entry s :
  cpu_slot c (IRQ_ENTRY_TS k) = Some entry -> cpu_slot c (CPU_STATS k) = Some s ->
  let k' := (irq_handler_exit c k).2 in
  cpu_slot c (IRQ_ENTRY_TS k') = Some 0 /\
  cpu_slot c (CPU_STATS k')
    = Some (s <| cpu_irq_ns := charge (bpf_ktime_get_ns c In_body) entry (cpu_irq_ns s) |>) /\
  SOFTIRQ_ENTRY_TS k' = SOFTIRQ_ENTRY_TS k.
Proof.
  intros He Hs. unfold irq_handler_exit, charge. rewrite He.
  destruct (Z.eqb_spec entry 0) as [->|Hne]; cbn [orb]; [by destruct s|].
  destruct (MAX_HANDLER_NS <? _); cbn; [|rewrite Hs; cbn].
  all: erewrite !cpu_slot_write_same by done; destruct s; done.
Qed.

Lemma softirq_exit_charges c k entry s :
  cpu_slot c (SOFTIRQ_ENTRY_TS k) = Some entry -> cpu_slot c (CPU_STATS k) = Some s ->
  let k' := (softirq_exit c k).2 in
  cpu_slot c (SOFTIRQ_ENTRY_TS k') = Some 0 /\
  cpu_slot c (CPU_STATS k')
    = Some (s <| cpu_softirq_ns := charge (bpf_ktime_get_ns c In_body) entry (cpu_softirq_ns s) |>) /\
  IRQ_ENTRY_TS k' = IRQ_ENTRY_TS k.
Proof.
  intros He Hs. unfold softirq_exit, charge. rewrite He.
  destruct (Z.eqb_spec entry 0) as [->|Hne]; cbn [orb]; [by destruct s|].
  destruct (MAX_HANDLER_NS <? _); cbn; [|rewrite Hs; cbn].
  all: erewrite !cpu_slot_write_same by done; destruct s; done.
Qed.

(** An interrupt handler's time is charged once, to its CPU, and no sample
    exceeds MAX_HANDLER_NS.  When a handler enters at t0 > 0 and exits at t1 on
    the same CPU, nothing else having used the slot in between, irq_ns grows by
    t1 - t0 if that is at most one second and is unchanged otherwise; the slot
    is consumed, so that a second exit without an entry charges nothing.  A
    softirq running inside the handler is charged in the same way and does not
    disturb it. *)
Theorem handler_time_charged c0 c1 s0 s1 c2 k0 s :
  cx_cpu c1 = cx_cpu c0 -> cx_cpu s0 = cx_cpu c0 -> cx_cpu s1 = cx_cpu c0 -> cx_cpu c2 = cx_cpu c0 ->
  is_Some (cpu_slot c0 (IRQ_ENTRY_TS k0)) -> is_Some (cpu_slot c0 (SOFTIRQ_ENTRY_TS k0)) ->
  cpu_slot c0 (CPU_STATS k0) = Some s ->
  bpf_ktime_get_ns c0 In_body <> 0 -> bpf_ktime_get_ns s0 In_body <> 0 ->
  let irq := saturating_sub (bpf_ktime_get_ns c1 In_body) (bpf_ktime_get_ns c0 In_body) in
  let softirq := saturating_sub (bpf_ktime_get_ns s1 In_body) (bpf_ktime_get_ns s0 In_body) in
  let k1 := (irq_handler_entry c0 k0).2 in
  let k2 := (softirq_exit s1 (softirq_entry s0 k1).2).2 in
  let k3 := (irq_handler_exit c1 k2).2 in
  let k4 := (irq_handler_exit c2 k3).2 in
  exists s', cpu_slot c0 (CPU_STATS k3) = Some s' /\
    cpu_irq_ns s' = (if irq <=? MAX_HANDLER_NS then wrapping_add (cpu_irq_ns s) irq else cpu_irq_ns s) /\
    cpu_softirq_ns s' = (if softirq <=? MAX_HANDLER_NS
                         then wrapping_add (cpu_softirq_ns s) softirq else cpu_softirq_ns s) /\
    cpu_slot c0 (CPU_STATS k4) = Some s'.
Proof.
  intros E1 Es0 Es1 E2 [x Hx] [y Hy] Hs Ht0 Hts irq softirq k1 k2 k3 k4.
  assert (forall (c : ctx) A (l : list A), cx_cpu c = cx_cpu c0 -> cpu_slot c l = cpu_slot c0 l) as Hcpu
    by (intros c A l E; unfold cpu_slot; by rewrite E).
  assert (cpu_slot c0 (IRQ_ENTRY_TS k1) = Some (bpf_ktime_get_ns c0 In_body) /\
    SOFTIRQ_ENTRY_TS k1 = SOFTIRQ_ENTRY_TS k0 /\ CPU_STATS k1 = CPU_STATS k0) as (H1a & H1b & H1c).
  { unfold k1, irq_handler_entry. rewrite Hx. cbn. by erewrite cpu_slot_write_same. }
  set (k1' := (softirq_entry s0 k1).2) in *.
  assert (cpu_slot s1 (SOFTIRQ_ENTRY_TS k1') = Some (bpf_ktime_get_ns s0 In_body) /\
    IRQ_ENTRY_TS k1' = IRQ_ENTRY_TS k1 /\ CPU_STATS k1' = CPU_STATS k1) as (H2a & H2b & H2c).
  { unfold k1', softirq_entry. rewrite (Hcpu s0), H1b, Hy by done. cbn.
    erewrite cpu_slot_write_same; [done|congruence|]. rewrite Hcpu, H1b by done. exact Hy. }
  destruct (softirq_exit_charges s1 k1' _ s H2a) as (_ & H3b & H3c).
  { by rewrite Hcpu, H2c, H1c by done. }
  fold k2 in H3b, H3c. rewrite Hcpu in H3b by done.
  rewrite <- (Hcpu c1) in H3b by done.
  assert (cpu_slot c1 (IRQ_ENTRY_TS k2) = Some (bpf_ktime_get_ns c0 In_body)) as H3a
    by (by rewrite Hcpu, H3c, H2b by done).
  destruct (irq_handler_exit_charges c1 k2 _ _ H3a H3b) as (H4a & H4b & _).
  fold k3 in H4a, H4b. rewrite (Hcpu c1), <- (Hcpu c2) in H4a, H4b by done.
  destruct (irq_handler_exit_charges c2 k3 _ _ H4a H4b) as (_ & H5b & _).
  fold k4 in H5b. rewrite Hcpu in H4b, H5b by done.
  eexists. split; [exact H4b|]. split_and!; [| |rewrite H5b; by destruct s].
  all: cbn; unfold charge; rewrite ?(proj2 (Z.eqb_neq _ _) Ht0), ?(proj2 (Z.eqb_neq _ _) Hts);
    cbn [orb]; rewrite Z.ltb_antisym; subst irq softirq; by destruct (_ <=? _).
Qed.
Lemma handler_time_charged_witness :
  let c t := ideal_ctx 0 t 0 0 [] in
  let k1 := (irq_handler_entry (c 1_000) (kernel_init 1)).2 in
  let k2 := (softirq_exit (c 3_000) (softirq_entry (c 2_000) k1).2).2 in
  let k3 := (irq_handler_exit (c 9_000) k2).2 in
  let k4 := (irq_handler_exit (c 9_500) k3).2 in
  exists s', cpu_slot (c 1_000) (CPU_STATS k3) = Some s' /\ cpu_irq_ns s' = 8_000 /\
    cpu_softirq_ns s' = 1_000 /\ cpu_slot (c 1_000) (CPU_STATS k4) = Some s'.
Proof.
  intros c k1 k2 k3 k4.
  destruct (handler_time_charged (c 1_000) (c 9_000) (c 2_000) (c 3_000) (c 9_500) (kernel_init 1)
    CpuStats_zeroed) as (s' & H1 & H2 & H3 & H4).
  1-9: first [reflexivity|eexists; reflexivity|decide_now].
  exists s'. split; [exact H1|]. split; [exact H2|]. split; [exact H3|exact H4].
Defined.
