(* ===== verification/Block.v ===== *)
(** [block.rs]: per-device I/O counters from [block_rq_complete]. *)
From S2P Require Import Prelude Float Types Layout Pods Bpf Scheduler.

Definition REQ_OP_MASK : Z := 0xFF.
Definition REQ_OP_READ : Z := 0.
Definition REQ_OP_WRITE : Z := 1.

(** ** Shared update *)

Definition fresh_block (major minor : Z) (is_read : bool) (nr_bytes : Z) : BlockStats :=
  let fresh := BlockStats_zeroed <| blk_device_major := major |> <| blk_device_minor := minor |> in
  if is_read
  then fresh <| blk_reads_completed := 1 |> <| blk_read_bytes := nr_bytes |>
  else fresh <| blk_writes_completed := 1 |> <| blk_write_bytes := nr_bytes |>.

Definition add_block (is_read : bool) (nr_bytes : Z) (s : BlockStats) : BlockStats :=
  if is_read
  then s <| blk_reads_completed := wrapping_add (blk_reads_completed s) 1 |>
         <| blk_read_bytes := wrapping_add (blk_read_bytes s) nr_bytes |>
  else s <| blk_writes_completed := wrapping_add (blk_writes_completed s) 1 |>
         <| blk_write_bytes := wrapping_add (blk_write_bytes s) nr_bytes |>.

Definition update_block_stats (c : ctx) (dev_key major minor : Z) (is_read : bool) (nr_bytes : Z)
    (k : kernel) : kernel :=
  match BLOCK_STATS k !! dev_key with
  | Some _ => k <| BLOCK_STATS ::= alter (add_block is_read nr_bytes) dev_key |>
  | None =>
      k <| BLOCK_STATS ::=
             hash_insert_ c BLOCK_STATS_map dev_key (fresh_block major minor is_read nr_bytes) |>
  end.

(** ** BTF build *)

(** What the probe reads return along [rq->q->disk]; a [q_disk] of [Some None]
    is the null pointer. *)
Record gendisk := { disk_major : option Z; disk_first_minor : option Z }.
Record request_queue := { q_disk : option (option gendisk) }.
Record request := { rq_cmd_flags : option Z; rq_q : option request_queue }.

(** [((major as u64) << 32) | (minor as u64 & 0xFFFF_FFFF)] for [i32]s. *)
Definition dev_key (major minor : Z) : Z :=
  Z.lor (as_u64 (Z.shiftl (as_u64 major) 32)) (Z.land (as_u64 minor) 0xFFFFFFFF).

Definition try_complete_btf (c : ctx) (rq : request) (nr_bytes : Z) (k : kernel)
    : result kernel unit :=
  match rq_cmd_flags rq with
  | None => Err ()
  | Some cmd_flags =>
      let op := Z.land cmd_flags REQ_OP_MASK in
      let is_read := op =? REQ_OP_READ in
      let is_write := op =? REQ_OP_WRITE in
      if negb is_read && negb is_write then Ok k else
      match rq_q rq with
      | None => Err ()
      | Some q =>
          match q_disk q with
          | None => Err ()
          | Some None => Ok k
          | Some (Some disk) =>
              match disk_major disk with
              | None => Err ()
              | Some major =>
                  match disk_first_minor disk with
                  | None => Err ()
                  | Some minor =>
                      Ok (update_block_stats c (dev_key major minor) (as_u32 major) (as_u32 minor)
                            is_read nr_bytes k)
                  end
              end
          end
      end
  end.

Definition block_rq_complete (c : ctx) (rq : request) (nr_bytes : Z) (k : kernel) : Z * kernel :=
  run_result k (try_complete_btf c rq nr_bytes k).

(** ** [kernel-5-4] build *)

Record BlockRqCompleteArgs := {
  bra_pad : list Z;
  bra_dev : Z;
  bra_align : Z;
  bra_sector : Z;
  bra_nr_sector : Z;
  bra_errors : Z;
  bra_rwbs : list Z }.
#[export] Instance eta_BlockRqCompleteArgs : Eta BlockRqCompleteArgs := fun r =>
  Build_BlockRqCompleteArgs (bra_pad r) (bra_dev r) (bra_align r) (bra_sector r)
    (bra_nr_sector r) (bra_errors r) (bra_rwbs r).
Definition BlockRqCompleteArgs_ty : cty := CStruct [("_pad", CArr 8 CU8); ("dev", CU32);
  ("_align", CU32); ("sector", CU64); ("nr_sector", CU32); ("errors", CI32);
  ("rwbs", CArr 8 CU8)].
#[export, refine] Instance BlockRqCompleteArgs_pod : Pod BlockRqCompleteArgs := {|
  pod_ty := BlockRqCompleteArgs_ty;
  pod_val x := VSeq [v_ints (bra_pad x); VInt (bra_dev x); VInt (bra_align x);
    VInt (bra_sector x); VInt (bra_nr_sector x); VInt (bra_errors x);
    v_ints (bra_rwbs x)];
  pod_of v := {| bra_pad := ints_v (v_nth 0 v); bra_dev := v_int (v_nth 1 v);
    bra_align := v_int (v_nth 2 v); bra_sector := v_int (v_nth 3 v);
    bra_nr_sector := v_int (v_nth 4 v); bra_errors := v_int (v_nth 5 v);
    bra_rwbs := ints_v (v_nth 6 v) |} |}.
Proof. all: [> solve_ty_ok | solve_pod_law | solve_pod_val_of BlockRqCompleteArgs_ty ]. Defined.

(** The bytes ['R'] and ['W']. *)
Definition byte_R : Z := 82.
Definition byte_W : Z := 87.

Definition block_rq_complete_54 (c : ctx) (k : kernel) : Z * kernel :=
  match read_at (T := BlockRqCompleteArgs) c 0 with
  | None => (1, k)
  | Some args =>
      let major := Z.shiftr (bra_dev args) 20 in
      let minor := Z.land (bra_dev args) 0xFFFFF in
      let is_read := nth 0 (bra_rwbs args) 0 =? byte_R in
      let is_write := nth 0 (bra_rwbs args) 0 =? byte_W in
      if negb is_read && negb is_write then (0, k) else
      let nr_bytes := as_u32 (Z.min (as_u64 (bra_nr_sector args * 512)) u32_max) in
      let dev_key := Z.lor (as_u64 (Z.shiftl major 32)) minor in
      (0, update_block_stats c dev_key major minor is_read nr_bytes k)
  end.

(** ** The device key *)

(** Disjoint halves: the bitwise or is the sum. *)
Lemma lor_halves hi lo : is_u32 lo -> Z.lor (Z.shiftl hi 32) lo = hi * 2 ^ 32 + lo.
Proof.
  intros Hlo. rewrite <- Z.shiftl_mul_pow2 by lia. rewrite <- Z.add_lor_land.
  assert (Z.land (Z.shiftl hi 32) lo = 0) as ->; [|lia].
  apply Z.bits_inj'. intros i Hi. rewrite Z.land_spec, Z.bits_0.
  destruct (Z_lt_dec i 32).
  - by rewrite Z.shiftl_spec_low.
  - rewrite <- (Z.mod_small lo (2 ^ 32) Hlo), Z.mod_pow2_bits_high by lia. apply andb_false_r.
Qed.

(** The key is [major * 2^32 + minor] on the [u32] values stored beside it. *)
Lemma dev_key_eq major minor : dev_key major minor = as_u32 major * 2 ^ 32 + as_u32 minor.
Proof.
  unfold dev_key. change 0xFFFFFFFF with (Z.ones 32). rewrite Z.land_ones by lia.
  assert (as_u64 minor mod 2 ^ 32 = as_u32 minor) as ->.
  { unfold as_u64, as_u32. rewrite Z.mod_mod_divide; [done|]. by exists (2 ^ 32). }
  assert (as_u64 (Z.shiftl (as_u64 major) 32) = Z.shiftl (as_u32 major) 32) as ->.
  { unfold as_u64, as_u32. rewrite !Z.shiftl_mul_pow2 by lia.
    change (2 ^ 64) with (2 ^ 32 * 2 ^ 32) at 2. rewrite Z.mul_mod_distr_r by lia.
    rewrite Z.mod_mod_divide; [done|]. by exists (2 ^ 32). }
  apply lor_halves, as_u32_range.
Qed.

(** The two builds count the same I/O.  The tracepoint of a 5.4 kernel gives
    the device as [major << 20 | minor], the operation as the first character
    of [rwbs] and the length in sectors; on a completion described both ways,
    the 5.4 program and the BTF program leave the same maps and return 0, and
    neither counts an operation that is not a read or a write. *)
Theorem block_builds_agree c k a flags major minor nsec :
  0 <= major < 2 ^ 12 -> 0 <= minor < 2 ^ 20 -> 0 <= nsec -> nsec * 512 < 2 ^ 32 ->
  read_at (T := BlockRqCompleteArgs) c 0 = Some a ->
  bra_dev a = Z.lor (Z.shiftl major 20) minor -> bra_nr_sector a = nsec ->
  (nth 0 (bra_rwbs a) 0 = byte_R <-> Z.land flags REQ_OP_MASK = REQ_OP_READ) ->
  (nth 0 (bra_rwbs a) 0 = byte_W <-> Z.land flags REQ_OP_MASK = REQ_OP_WRITE) ->
  let disk := {| disk_major := Some major; disk_first_minor := Some minor |} in
  let rq := {| rq_cmd_flags := Some flags; rq_q := Some {| q_disk := Some (Some disk) |} |} in
  block_rq_complete_54 c k = block_rq_complete c rq (nsec * 512) k /\
  (block_rq_complete c rq (nsec * 512) k).1 = 0 /\
  (Z.land flags REQ_OP_MASK <> REQ_OP_READ -> Z.land flags REQ_OP_MASK <> REQ_OP_WRITE ->
   (block_rq_complete c rq (nsec * 512) k).2 = k).
Proof.
  intros HM Hm Hn Hn' Ha Hdev Hsec HR HW disk rq.
  unfold block_rq_complete_54, block_rq_complete, try_complete_btf. rewrite Ha, Hdev, Hsec.
  cbn [rq_cmd_flags rq_q q_disk rq disk disk_major disk_first_minor].
  set (op := Z.land flags REQ_OP_MASK) in *. set (ch := nth 0 (bra_rwbs a) 0) in *.
  assert ((ch =? byte_R) = (op =? REQ_OP_READ)) as -> by lia.
  assert ((ch =? byte_W) = (op =? REQ_OP_WRITE)) as -> by lia.
  assert (Z.shiftr (Z.lor (Z.shiftl major 20) minor) 20 = major /\
    Z.land (Z.lor (Z.shiftl major 20) minor) 0xFFFFF = minor) as [-> ->].
  { change 0xFFFFF with (Z.ones 20). rewrite Z.shiftr_lor, Z.shiftr_shiftl_l, Z.shiftl_0_r by lia.
    rewrite Z.shiftr_div_pow2, Z.div_small, Z.lor_0_r by lia. split; [done|].
    rewrite Z.land_lor_distr_l, !Z.land_ones, Z.shiftl_mul_pow2, Z.mod_mul, Z.lor_0_l by lia.
    by apply Z.mod_small. }
  assert (Z.lor (as_u64 (Z.shiftl major 32)) minor = dev_key major minor) as ->.
  { rewrite dev_key_eq, !as_u32_small by (unfold is_u32; lia).
    rewrite as_u64_small by (unfold is_u64; rewrite Z.shiftl_mul_pow2; lia).
    apply lor_halves. unfold is_u32. lia. }
  rewrite !as_u32_small, as_u64_small, Z.min_l by (unfold is_u32, is_u64, u32_max; rewrite ?as_u64_small; unfold is_u64; lia).
  split; [by destruct (negb _ && negb _)|]. split; [by destruct (negb _ && negb _)|].
  intros H0 H1. by rewrite (proj2 (Z.eqb_neq _ _) H0), (proj2 (Z.eqb_neq _ _) H1).
Qed.
Lemma block_builds_agree_witness :
  let a := {| bra_pad := replicate 8 0; bra_dev := 8 * 2 ^ 20 + 3; bra_align := 0; bra_sector := 4096;
              bra_nr_sector := 16; bra_errors := 0; bra_rwbs := [87; 83; 0; 0; 0; 0; 0; 0] |} in
  let c := ideal_ctx 0 10 7 7 (write_pod a) in
  let disk := {| disk_major := Some 8; disk_first_minor := Some 3 |} in
  let rq := {| rq_cmd_flags := Some 0x801; rq_q := Some {| q_disk := Some (Some disk) |} |} in
  block_rq_complete_54 c (kernel_init 1) = block_rq_complete c rq 8192 (kernel_init 1).
Proof.
  intros a c disk rq.
  destruct (block_builds_agree c (kernel_init 1) a 0x801 8 3 16) as [H _];
    [..|exact H].
  all: first [decide_now|vm_compute; reflexivity|split; [intros E; discriminate E|intros E; discriminate E]
    |split; intros _; reflexivity].
Defined.
