(* ===== verification/Network.v ===== *)
(** [network.rs] and [offsets.rs]: interface byte counters, TCP state counters
    and skb-drop events. *)
From S2P Require Import Prelude Float Types Layout Pods Bpf Stats.

(** ** Tracepoint field offsets ([offsets.rs]) *)
Definition NETIF_RECEIVE_SKB_LEN : Z := 16.
Definition NET_DEV_XMIT_LEN : Z := 16.
Definition NET_DEV_XMIT_RC : Z := 20.
Definition RAW_SYSCALL_NR : Z := 8.
Definition SYSCALL_ARG0 : Z := 16.
Definition SYSCALL_ARG1 : Z := 24.

(** ** Interface counters *)

Definition netif_receive_skb (c : ctx) (k : kernel) : Z * kernel :=
  match read_at_int 4 false c NETIF_RECEIVE_SKB_LEN with
  | None => (1, k)
  | Some len =>
      match cpu_slot c (NET_IFACE_STATS k) with
      | None => (1, k)
      | Some _ =>
          (0, k <| NET_IFACE_STATS ::= cpu_write c (fun s =>
                s <| nif_rx_bytes := wrapping_add (nif_rx_bytes s) len |>
                  <| nif_rx_packets := wrapping_add (nif_rx_packets s) 1 |>) |>)
      end
  end.

Definition net_dev_xmit (c : ctx) (k : kernel) : Z * kernel :=
  match read_at_int 4 false c NET_DEV_XMIT_LEN with
  | None => (1, k)
  | Some len =>
      let rc := unwrap_or 0 (read_at_int 4 true c NET_DEV_XMIT_RC) in
      match cpu_slot c (NET_IFACE_STATS k) with
      | None => (1, k)
      | Some _ =>
          (0, k <| NET_IFACE_STATS ::= cpu_write c (fun s =>
                if rc =? 0
                then s <| nif_tx_bytes := wrapping_add (nif_tx_bytes s) len |>
                       <| nif_tx_packets := wrapping_add (nif_tx_packets s) 1 |>
                else s <| nif_tx_errors := wrapping_add (nif_tx_errors s) 1 |>) |>)
      end
  end.

(** ** TCP *)

Definition tcp_retransmit_skb (c : ctx) (k : kernel) : Z * kernel :=
  match cpu_slot c (TCP_STATE k) with
  | None => (1, k)
  | Some _ =>
      (0, k <| TCP_STATE ::= cpu_write c (fun t =>
            t <| tcp_retransmits := wrapping_add (tcp_retransmits t) 1 |>) |>)
  end.

Definition count_state (newstate : Z) (t : TcpStateSnapshot) : TcpStateSnapshot :=
  match newstate with
  | 1 => t <| tcp_established := wrapping_add (tcp_established t) 1 |>
  | 2 => t <| tcp_syn_sent := wrapping_add (tcp_syn_sent t) 1 |>
  | 3 => t <| tcp_syn_recv := wrapping_add (tcp_syn_recv t) 1 |>
  | 4 => t <| tcp_fin_wait1 := wrapping_add (tcp_fin_wait1 t) 1 |>
  | 5 => t <| tcp_fin_wait2 := wrapping_add (tcp_fin_wait2 t) 1 |>
  | 6 => t <| tcp_time_wait := wrapping_add (tcp_time_wait t) 1 |>
  | 8 => t <| tcp_close_wait := wrapping_add (tcp_close_wait t) 1 |>
  | 10 => t <| tcp_listen := wrapping_add (tcp_listen t) 1 |>
  | _ => t
  end.

Definition update_tcp_state (c : ctx) (newstate : Z) (k : kernel) : kernel :=
  match cpu_slot c (TCP_STATE k) with
  | None => k
  | Some _ => k <| TCP_STATE ::= cpu_write c (count_state newstate) |>
  end.

Definition inet_sock_set_state (c : ctx) (newstate : Z) (k : kernel) : Z * kernel :=
  (0, update_tcp_state c newstate k).

Record InetSockSetStateArgs := {
  isa_pad : list Z;
  isa_skaddr : Z;
  isa_oldstate : Z;
  isa_newstate : Z;
  isa_sport : Z;
  isa_dport : Z;
  isa_family : Z;
  isa_protocol : Z;
  isa_saddr : list Z;
  isa_daddr : list Z;
  isa_saddr_v6 : list Z;
  isa_daddr_v6 : list Z }.
#[export] Instance eta_InetSockSetStateArgs : Eta InetSockSetStateArgs := fun r =>
  Build_InetSockSetStateArgs (isa_pad r) (isa_skaddr r) (isa_oldstate r)
    (isa_newstate r) (isa_sport r) (isa_dport r) (isa_family r) (isa_protocol r)
    (isa_saddr r) (isa_daddr r) (isa_saddr_v6 r) (isa_daddr_v6 r).
Definition InetSockSetStateArgs_ty : cty := CStruct [("_pad", CArr 8 CU8);
  ("skaddr", CU64); ("oldstate", CI32); ("newstate", CI32); ("sport", CU16);
  ("dport", CU16); ("family", CU16); ("protocol", CU16); ("saddr", CArr 4 CU8);
  ("daddr", CArr 4 CU8); ("saddr_v6", CArr 16 CU8); ("daddr_v6", CArr 16 CU8)].
#[export, refine] Instance InetSockSetStateArgs_pod : Pod InetSockSetStateArgs := {|
  pod_ty := InetSockSetStateArgs_ty;
  pod_val x := VSeq [v_ints (isa_pad x); VInt (isa_skaddr x); VInt (isa_oldstate x);
    VInt (isa_newstate x); VInt (isa_sport x); VInt (isa_dport x); VInt (isa_family x);
    VInt (isa_protocol x); v_ints (isa_saddr x); v_ints (isa_daddr x);
    v_ints (isa_saddr_v6 x); v_ints (isa_daddr_v6 x)];
  pod_of v := {| isa_pad := ints_v (v_nth 0 v); isa_skaddr := v_int (v_nth 1 v);
    isa_oldstate := v_int (v_nth 2 v); isa_newstate := v_int (v_nth 3 v);
    isa_sport := v_int (v_nth 4 v); isa_dport := v_int (v_nth 5 v);
    isa_family := v_int (v_nth 6 v); isa_protocol := v_int (v_nth 7 v);
    isa_saddr := ints_v (v_nth 8 v); isa_daddr := ints_v (v_nth 9 v);
    isa_saddr_v6 := ints_v (v_nth 10 v); isa_daddr_v6 := ints_v (v_nth 11 v) |} |}.
Proof. all: [> solve_ty_ok | solve_pod_law | solve_pod_val_of InetSockSetStateArgs_ty ]. Defined.

Definition inet_sock_set_state_54 (c : ctx) (k : kernel) : Z * kernel :=
  match read_at (T := InetSockSetStateArgs) c 0 with
  | None => (1, k)
  | Some args => (0, update_tcp_state c (isa_newstate args) k)
  end.

(** ** Dropped packets *)

Definition skb_drop_event (c : ctx) (reason : Z) : NetEvent :=
  NetEvent_zeroed <| ne_kind := NetEventKind_repr SkbDrop |> <| ne_drop_reason := as_u16 reason |>
    <| ne_timestamp_ns := bpf_ktime_get_ns c In_body |>.

Definition emit_skb_drop_55 (c : ctx) (reason : Z) (k : kernel) : kernel :=
  if cx_reserve c
  then k <| NET_EVENTS ::= fun es => es ++ [skb_drop_event c reason] |>
  else drop_network c k.

Definition kfree_skb (c : ctx) (reason : Z) (k : kernel) : Z * kernel :=
  if reason <? 2 then (0, k) else (0, emit_skb_drop_55 c reason k).

Definition kfree_skb_54 (c : ctx) (k : kernel) : Z * kernel :=
  match cpu_slot c (NET_EVENT_SCRATCH k) with
  | None => (1, drop_network c k)
  | Some _ =>
      let e := skb_drop_event c 0 in
      let k := k <| NET_EVENT_SCRATCH ::= cpu_write c (fun _ => e) |> in
      (0, if cx_output c then k <| NET_EVENTS ::= fun es => es ++ [e] |> else k)
  end.
