(* ===== verification/Netproc.v ===== *)
(** [netproc.rs]: network bytes per cgroup ([cgroup_skb] programs) or, in the
    [kernel-5-4] build, per process (TCP kprobes), with the internet/local
    classification of the remote address. *)
From S2P Require Import Prelude Float Types Layout Pods Bpf.

(** ** Address classification *)

Definition byte (i : nat) (ip : list Z) : Z := nth i ip 0.

Definition is_ipv4_local (ip : list Z) : bool :=
  let a := byte 0 ip in
  let b := byte 1 ip in
  (a =? 10)
  || ((a =? 172) && (Z.land b 0xF0 =? 16))
  || ((a =? 192) && (b =? 168))
  || (a =? 127)
  || ((a =? 169) && (b =? 254))
  || (a =? 0)
  || (a =? 255).

Definition is_ipv6_local (ip : list Z) : bool :=
  let is_loopback := bool_decide (take 15 ip = replicate 15 0) && (byte 15 ip =? 1) in
  let is_link_local := (byte 0 ip =? 0xfe) && (Z.land (byte 1 ip) 0xc0 =? 0x80) in
  let is_ula := Z.land (byte 0 ip) 0xfe =? 0xfc in
  let is_unspecified := bool_decide (ip = replicate 16 0) in
  is_loopback || is_link_local || is_ula || is_unspecified.

(** ** [cgroup_skb] programs *)

Inductive Direction := Rx | Tx.

(** A packet: its length and [ctx.load::<[u8; n]>(off)]. *)
Record SkBuff := {
  skb_len : Z;
  skb_load : Z -> nat -> option (list Z) }.

Definition classify_ipv4 (ctx : SkBuff) (dir : Direction) : bool :=
  let offset := match dir with Rx => 12 | Tx => 16 end in
  match skb_load ctx offset 4 with
  | None => false
  | Some ip => negb (is_ipv4_local ip)
  end.

Definition classify_ipv6 (ctx : SkBuff) (dir : Direction) : bool :=
  let offset := match dir with Rx => 8 | Tx => 24 end in
  match skb_load ctx offset 16 with
  | None => false
  | Some ip => negb (is_ipv6_local ip)
  end.

Definition classify_internet (ctx : SkBuff) (dir : Direction) : bool :=
  match skb_load ctx 0 1 with
  | None => false
  | Some bs =>
      let version_byte := byte 0 bs in
      match Z.shiftr version_byte 4 with
      | 4 => classify_ipv4 ctx dir
      | 6 => classify_ipv6 ctx dir
      | _ => false
      end
  end.

(** The counters of a packet of [len] bytes: into an existing entry, and as a
    fresh one. *)
Definition add_bytes (dir : Direction) (len : Z) (is_internet : bool) (s : CgroupNetBytes)
    : CgroupNetBytes :=
  match dir with
  | Rx =>
      let s := s <| cg_rx_bytes := wrapping_add (cg_rx_bytes s) len |>
                 <| cg_rx_packets := wrapping_add (cg_rx_packets s) 1 |> in
      if is_internet
      then s <| cg_rx_internet_bytes := wrapping_add (cg_rx_internet_bytes s) len |> else s
  | Tx =>
      let s := s <| cg_tx_bytes := wrapping_add (cg_tx_bytes s) len |>
                 <| cg_tx_packets := wrapping_add (cg_tx_packets s) 1 |> in
      if is_internet
      then s <| cg_tx_internet_bytes := wrapping_add (cg_tx_internet_bytes s) len |> else s
  end.

Definition fresh_bytes (id : Z) (dir : Direction) (len : Z) (is_internet : bool) : CgroupNetBytes :=
  let fresh := CgroupNetBytes_zeroed <| cg_cgroup_id := id |> in
  match dir with
  | Rx =>
      let fresh := fresh <| cg_rx_bytes := len |> <| cg_rx_packets := 1 |> in
      if is_internet then fresh <| cg_rx_internet_bytes := len |> else fresh
  | Tx =>
      let fresh := fresh <| cg_tx_bytes := len |> <| cg_tx_packets := 1 |> in
      if is_internet then fresh <| cg_tx_internet_bytes := len |> else fresh
  end.

Definition account_cgroup (c : ctx) (ctx : SkBuff) (dir : Direction) (k : kernel) : kernel :=
  let cgid := cx_cgroup_id c in
  if cgid =? 0 then k else
  let len := skb_len ctx in
  let is_internet := classify_internet ctx dir in
  match NET_CGROUP_STATS k !! cgid with
  | Some _ => k <| NET_CGROUP_STATS ::= alter (add_bytes dir len is_internet) cgid |>
  | None =>
      k <| NET_CGROUP_STATS ::=
             hash_insert_ c NET_CGROUP_STATS_map cgid (fresh_bytes cgid dir len is_internet) |>
  end.

Definition cgroup_skb_ingress (c : ctx) (ctx : SkBuff) (k : kernel) : Z * kernel :=
  (1, account_cgroup c ctx Rx k).
Definition cgroup_skb_egress (c : ctx) (ctx : SkBuff) (k : kernel) : Z * kernel :=
  (1, account_cgroup c ctx Tx k).

(** ** [kernel-5-4] programs *)

Record SockCommonHead := {
  skh_skc_daddr : Z;
  skh_skc_rcv_saddr : Z;
  skh_pad : list Z;
  skh_skc_family : Z }.
#[export] Instance eta_SockCommonHead : Eta SockCommonHead := fun r =>
  Build_SockCommonHead (skh_skc_daddr r) (skh_skc_rcv_saddr r) (skh_pad r)
    (skh_skc_family r).
Definition SockCommonHead_ty : cty := CStruct [("skc_daddr", CU32);
  ("skc_rcv_saddr", CU32); ("_pad", CArr 8 CU8); ("skc_family", CU16)].
#[export, refine] Instance SockCommonHead_pod : Pod SockCommonHead := {|
  pod_ty := SockCommonHead_ty;
  pod_val x := VSeq [VInt (skh_skc_daddr x); VInt (skh_skc_rcv_saddr x);
    v_ints (skh_pad x); VInt (skh_skc_family x)];
  pod_of v := {| skh_skc_daddr := v_int (v_nth 0 v);
    skh_skc_rcv_saddr := v_int (v_nth 1 v); skh_pad := ints_v (v_nth 2 v);
    skh_skc_family := v_int (v_nth 3 v) |} |}.
Proof. all: [> solve_ty_ok | solve_pod_law | solve_pod_val_of SockCommonHead_ty ]. Defined.

Definition AF_INET : Z := 2.

(** The [struct sock *] argument of a kprobe: the register, and what
    [bpf_probe_read_kernel] returns through it. *)
Record sock_arg := {
  sk_ptr : option Z;
  sk_head : option SockCommonHead }.

Definition classify_sock_internet (sk : sock_arg) : bool :=
  match sk_ptr sk with
  | None => false
  | Some p =>
      if p =? 0 then false else
      match sk_head sk with
      | None => false
      | Some head =>
          if negb (skh_skc_family head =? AF_INET) then false else
          let ip := le_bytes 4 (skh_skc_daddr head) in
          negb (is_ipv4_local ip)
      end
  end.

Definition account_pid (c : ctx) (pid len : Z) (is_rx is_internet : bool) (k : kernel) : kernel :=
  let dir := if is_rx then Rx else Tx in
  match NET_CGROUP_STATS k !! pid with
  | Some _ => k <| NET_CGROUP_STATS ::= alter (add_bytes dir len is_internet) pid |>
  | None =>
      k <| NET_CGROUP_STATS ::=
             hash_insert_ c NET_CGROUP_STATS_map pid (fresh_bytes pid dir len is_internet) |>
  end.

(** [tcp_sendmsg]; [size] is [ctx.arg::<usize>(2)]. *)
Definition tcp_sendmsg (c : ctx) (sk : sock_arg) (size : option Z) (k : kernel) : Z * kernel :=
  match size with
  | None => (1, k)
  | Some len =>
      if len =? 0 then (0, k) else
      let pid := as_u64 (Z.shiftr (cx_pid_tgid c) 32) in
      if pid =? 0 then (0, k) else
      let is_internet := classify_sock_internet sk in
      (0, account_pid c pid len false is_internet k)
  end.

(** [tcp_cleanup_rbuf]; [copied] is [ctx.arg::<i32>(1)]. *)
Definition tcp_cleanup_rbuf (c : ctx) (sk : sock_arg) (copied : option Z) (k : kernel) : Z * kernel :=
  match copied with
  | None => (1, k)
  | Some copied =>
      if copied <=? 0 then (0, k) else
      let pid := as_u64 (Z.shiftr (cx_pid_tgid c) 32) in
      if pid =? 0 then (0, k) else
      let is_internet := classify_sock_internet sk in
      (0, account_pid c pid (as_u64 copied) true is_internet k)
  end.

(** ** Local networks as address prefixes *)

(** An address as the big-endian number its bytes spell. *)
Definition ip_value (ip : list Z) : Z := foldl (fun v b => v * 256 + b) 0 ip.

(** [v] is in the network [net/len] of [bits]-bit addresses. *)
Definition in_net (bits : Z) (net : list Z * Z) (v : Z) : Prop :=
  v / 2 ^ (bits - net.2) = ip_value net.1 / 2 ^ (bits - net.2).

Definition local_v4 : list (list Z * Z) :=
  [([10; 0; 0; 0], 8); ([172; 16; 0; 0], 12); ([192; 168; 0; 0], 16); ([127; 0; 0; 0], 8);
   ([169; 254; 0; 0], 16); ([0; 0; 0; 0], 8); ([255; 0; 0; 0], 8)].
Definition local_v6 : list (list Z * Z) :=
  [(replicate 15 0 ++ [1], 128); ([0xfe; 0x80] ++ replicate 14 0, 10);
   ([0xfc] ++ replicate 15 0, 7); (replicate 16 0, 128)].

Lemma land_f0 b : is_u8 b -> (Z.land b 0xF0 =? 16) = (b / 16 =? 1).
Proof.
  intros Hb. apply eqb_prop.
  by apply (byte_forall (fun b => eqb (Z.land b 0xF0 =? 16) (b / 16 =? 1)) b); [vm_compute|].
Qed.
Lemma land_c0 b : is_u8 b -> (Z.land b 0xc0 =? 0x80) = (b / 64 =? 2).
Proof.
  intros Hb. apply eqb_prop.
  by apply (byte_forall (fun b => eqb (Z.land b 0xc0 =? 0x80) (b / 64 =? 2)) b); [vm_compute|].
Qed.
Lemma land_fe b : is_u8 b -> (Z.land b 0xfe =? 0xfc) = (b / 2 =? 0x7e).
Proof.
  intros Hb. apply eqb_prop.
  by apply (byte_forall (fun b => eqb (Z.land b 0xfe =? 0xfc) (b / 2 =? 0x7e)) b); [vm_compute|].
Qed.

(** An IPv4 address is classified local exactly when it lies in one of the
    networks 10/8, 172.16/12, 192.168/16, 127/8, 169.254/16, 0/8 and 255/8. *)
Theorem ipv4_local_networks a b c d :
  Forall is_u8 [a; b; c; d] ->
  is_ipv4_local [a; b; c; d] = true <->
  Exists (fun net => in_net 32 net (ip_value [a; b; c; d])) local_v4.
Proof.
  intros H. repeat match goal with H : Forall _ (_ :: _) |- _ => inversion H; clear H; subst end.
  unfold is_ipv4_local, local_v4. cbn [byte nth]. rewrite land_f0 by done.
  rewrite !Exists_cons, Exists_nil. unfold in_net, ip_value. cbn [fst snd foldl].
  unfold is_u8 in *. repeat rewrite orb_true_iff. repeat rewrite andb_true_iff. rewrite !Z.eqb_eq.
  set (v := (((0 * 256 + a) * 256 + b) * 256 + c) * 256 + d).
  change (2 ^ (32 - 8)) with 16777216. change (2 ^ (32 - 12)) with 1048576.
  change (2 ^ (32 - 16)) with 65536.
  assert (v / 16777216 = a) as -> by (unfold v; div_lia).
  assert (v / 1048576 = 16 * a + b / 16) as -> by (unfold v; div_lia).
  assert (v / 65536 = 256 * a + b) as -> by (unfold v; div_lia). div_lia.
Qed.
Lemma ipv4_local_networks_witness : is_ipv4_local [172; 20; 3; 4] = true.
Proof.
  apply (ipv4_local_networks 172 20 3 4); [decide_now|].
  right. left. vm_compute. reflexivity.
Defined.

Lemma ip_value_snoc ip b : ip_value (ip ++ [b]) = ip_value ip * 256 + b.
Proof. unfold ip_value. by rewrite foldl_app. Qed.
Lemma ip_value_range ip : Forall is_u8 ip -> 0 <= ip_value ip < 256 ^ Z.of_nat (length ip).
Proof.
  induction ip as [|b ip IH] using rev_ind; intros Hf; [done|].
  apply Forall_app in Hf as [Hf Hb]. inversion Hb as [|? ? Hb' _]; subst. specialize (IH Hf).
  rewrite ip_value_snoc, length_app, Nat2Z.inj_add, Z.pow_add_r by lia. unfold is_u8 in Hb'. cbn. lia.
Qed.
Lemma ip_value_app ip ip' :
  ip_value (ip ++ ip') = ip_value ip * 256 ^ Z.of_nat (length ip') + ip_value ip'.
Proof.
  induction ip' as [|b ip' IH] using rev_ind; [rewrite app_nil_r; cbn; lia|].
  rewrite (assoc_L (++)), !ip_value_snoc, IH, length_app, Nat2Z.inj_add, Z.pow_add_r by lia. cbn. lia.
Qed.
(** Addresses of one length are equal when their numbers are. *)
Lemma ip_value_inj ip ip' :
  length ip = length ip' -> Forall is_u8 ip -> Forall is_u8 ip' -> ip_value ip = ip_value ip' -> ip = ip'.
Proof.
  revert ip'. induction ip as [|b ip IH] using rev_ind; intros ip' Hl Hf Hf' He.
  - by destruct ip'.
  - destruct ip' as [|b' ip' _] using rev_ind; [rewrite length_app in Hl; cbn in Hl; lia|].
    rewrite !length_app in Hl. cbn in Hl. rewrite !ip_value_snoc in He.
    apply Forall_app in Hf as [Hf Hb]. apply Forall_app in Hf' as [Hf' Hb'].
    inversion Hb as [|? ? Hb1 _]; inversion Hb' as [|? ? Hb2 _]; subst. unfold is_u8 in *.
    rewrite (IH ip'); [f_equal; f_equal; lia|lia|done|done|lia].
Qed.

Lemma loopback_v6 ip :
  length ip = 16%nat ->
  (bool_decide (take 15 ip = replicate 15 0) && (byte 15 ip =? 1) = true
   <-> ip = replicate 15 0 ++ [1]).
Proof.
  intros Hl. rewrite andb_true_iff, bool_decide_eq_true, Z.eqb_eq. split.
  - intros [Ht Hb]. rewrite <- (take_drop 15 ip), Ht. f_equal.
    destruct (drop 15 ip) as [|x [|y l]] eqn:Hd; apply (f_equal length) in Hd as Hd';
      rewrite length_drop, Hl in Hd'; cbn in Hd'; try lia.
    unfold byte in Hb. rewrite <- (take_drop 15 ip), Ht, Hd in Hb. cbn in Hb. by subst.
  - intros ->. done.
Qed.

(** An IPv6 address is classified local exactly when it lies in one of the
    networks ::1/128, fe80::/10, fc00::/7 and ::/128. *)
Theorem ipv6_local_networks ip :
  length ip = 16%nat -> Forall is_u8 ip ->
  is_ipv6_local ip = true <-> Exists (fun net => in_net 128 net (ip_value ip)) local_v6.
Proof.
  intros Hl Hf. unfold is_ipv6_local. rewrite !orb_true_iff, loopback_v6 by done.
  rewrite bool_decide_eq_true. unfold local_v6. rewrite !Exists_cons, Exists_nil.
  assert (forall ip', length ip' = 16%nat -> Forall is_u8 ip' ->
    ip = ip' <-> in_net 128 (ip', 128) (ip_value ip)) as Heq.
  { intros ip' Hl' Hf'. unfold in_net. cbn [fst snd]. rewrite Z.sub_diag, !Z.div_1_r.
    split; [by intros ->|]. intros He. by apply ip_value_inj; [rewrite Hl, Hl'| | |]. }
  rewrite <- !Heq by (done || decide_now).
  assert (forall x, (x = true <-> byte 0 ip / 2 = 0x7e) ->
    forall y, (y = true <-> 4 * byte 0 ip + byte 1 ip / 64 = 4 * 0xfe + 2) ->
    (((ip = replicate 15 0 ++ [1] \/ y = true) \/ x = true) \/ ip = replicate 16 0) <->
    (ip = replicate 15 0 ++ [1] \/ in_net 128 ([0xfe; 0x80] ++ replicate 14 0, 10) (ip_value ip) \/
     in_net 128 ([0xfc] ++ replicate 15 0, 7) (ip_value ip) \/ ip = replicate 16 0 \/ False)) as Hgo.
  { intros x Hx y Hy. rewrite Hx, Hy. clear x Hx y Hy.
    destruct ip as [|a [|b rest]]; try (cbn in Hl; lia).
    inversion Hf as [|? ? Ha Hf']; inversion Hf' as [|? ? Hb Hr]; subst. unfold is_u8 in Ha, Hb.
    pose proof (ip_value_app [a; b] rest) as Happ. cbn [app] in Happ.
    pose proof (ip_value_range rest Hr) as Hv. assert (length rest = 14%nat) as Hlr by (cbn in Hl; lia).
    rewrite Hlr in Hv, Happ. rewrite Happ. set (r := ip_value rest) in *.
    unfold in_net. cbn [fst snd byte nth].
    change (256 ^ Z.of_nat 14) with (2 ^ 112) in Hv |- *.
    change (ip_value [a; b]) with ((0 * 256 + a) * 256 + b).
    assert ((((0 * 256 + a) * 256 + b) * 2 ^ 112 + r) / 2 ^ (128 - 10) = 4 * a + b / 64) as ->.
    { change (128 - 10) with 118. div_lia. }
    assert ((((0 * 256 + a) * 256 + b) * 2 ^ 112 + r) / 2 ^ (128 - 7) = a / 2) as ->.
    { change (128 - 7) with 121. div_lia. }
    change (ip_value ([254; 128] ++ replicate 14 0) / 2 ^ (128 - 10)) with 1018.
    change (ip_value ([252] ++ replicate 15 0) / 2 ^ (128 - 7)) with 126.
    tauto. }
  assert (is_u8 (byte 0 ip) /\ is_u8 (byte 1 ip)) as [H0 H1].
  { destruct ip as [|a [|b rest]]; try (cbn in Hl; lia).
    inversion Hf as [|? ? ? Hf']; inversion Hf'; subst. done. }
  apply Hgo.
  - rewrite land_fe by done. apply Z.eqb_eq.
  - rewrite land_c0, andb_true_iff, !Z.eqb_eq by done. unfold is_u8 in *. div_lia.
Qed.
Lemma ipv6_local_networks_witness : is_ipv6_local ([0xfe; 0x91] ++ replicate 14 7) = true.
Proof.
  apply (ipv6_local_networks ([0xfe; 0x91] ++ replicate 14 7)); [reflexivity|decide_now|].
  right. left. vm_compute. reflexivity.
Defined.

(** ** Totals of a cgroup *)

(** One packet as it is accounted: direction, length, internet or local. *)
Record packet := { p_dir : Direction; p_len : Z; p_internet : bool }.
Definition is_rx (p : packet) : bool := match p_dir p with Rx => true | Tx => false end.
Definition bytes_of (sel : packet -> bool) (ps : list packet) : Z :=
  zsum (map p_len (List.filter sel ps)).
Definition count_of (sel : packet -> bool) (ps : list packet) : Z :=
  Z.of_nat (length (List.filter sel ps)).

Definition totals (id : Z) (ps : list packet) : CgroupNetBytes :=
  {| cg_cgroup_id := id;
     cg_rx_bytes := as_u64 (bytes_of is_rx ps);
     cg_tx_bytes := as_u64 (bytes_of (fun p => negb (is_rx p)) ps);
     cg_rx_packets := as_u64 (count_of is_rx ps);
     cg_tx_packets := as_u64 (count_of (fun p => negb (is_rx p)) ps);
     cg_rx_internet_bytes := as_u64 (bytes_of (fun p => is_rx p && p_internet p) ps);
     cg_tx_internet_bytes := as_u64 (bytes_of (fun p => negb (is_rx p) && p_internet p) ps) |}.

Lemma bytes_of_snoc sel ps p :
  as_u64 (bytes_of sel (ps ++ [p])) =
    if sel p then wrapping_add (as_u64 (bytes_of sel ps)) (p_len p) else as_u64 (bytes_of sel ps).
Proof.
  unfold bytes_of. rewrite List.filter_app, map_app, zsum_app. cbn [List.filter].
  destruct (sel p); cbn [map].
  - unfold wrapping_add, as_u64. rewrite zsum_singleton. by rewrite Zplus_mod_idemp_l.
  - unfold zsum at 2. cbn. by rewrite Z.add_0_r.
Qed.
Lemma count_of_snoc sel ps p :
  as_u64 (count_of sel (ps ++ [p])) =
    if sel p then wrapping_add (as_u64 (count_of sel ps)) 1 else as_u64 (count_of sel ps).
Proof.
  unfold count_of. rewrite List.filter_app, length_app, Nat2Z.inj_add. cbn [List.filter].
  destruct (sel p); cbn [length].
  - unfold wrapping_add, as_u64. by rewrite Zplus_mod_idemp_l.
  - by rewrite Z.add_0_r.
Qed.

Lemma totals_snoc id ps p :
  add_bytes (p_dir p) (p_len p) (p_internet p) (totals id ps) = totals id (ps ++ [p]).
Proof.
  unfold totals. rewrite !bytes_of_snoc, !count_of_snoc. unfold is_rx.
  destruct p as [[] len []]; reflexivity.
Qed.

Lemma fresh_totals id p :
  is_u64 (p_len p) -> fresh_bytes id (p_dir p) (p_len p) (p_internet p) = totals id [p].
Proof.
  intros Hl. change (totals id [p]) with (totals id ([] ++ [p])). rewrite <- totals_snoc.
  destruct p as [[] len []]; cbn in *; rewrite !wrapping_add_0_l by done; reflexivity.
Qed.

(** The packets of one cgroup, each under its own invocation. *)
Definition account_all (ps : list (ctx * SkBuff * Direction)) (k : kernel) : kernel :=
  foldl (fun k '(c, skb, dir) => account_cgroup c skb dir k) k ps.
Definition packet_of (x : ctx * SkBuff * Direction) : packet :=
  let '(_, skb, dir) := x in
  {| p_dir := dir; p_len := skb_len skb; p_internet := classify_internet skb dir |}.

Lemma account_totals c skb dir k id ps :
  cx_cgroup_id c = id -> id <> 0 -> NET_CGROUP_STATS k !! id = Some (totals id ps) ->
  NET_CGROUP_STATS (account_cgroup c skb dir k) !! id = Some (totals id (ps ++ [packet_of (c, skb, dir)])).
Proof.
  intros Hid Hne Hk. unfold account_cgroup. rewrite Hid, (proj2 (Z.eqb_neq _ _) Hne), Hk. cbn.
  rewrite lookup_alter_eq, Hk. cbn. f_equal.
  exact (totals_snoc id ps (packet_of (c, skb, dir))).
Qed.

(** A selection of packets weighs at most the whole. *)
Lemma bytes_of_mono (sel sel' : packet -> bool) ps :
  Forall (fun p => 0 <= p_len p) ps -> (forall p, sel p = true -> sel' p = true) ->
  0 <= bytes_of sel ps <= bytes_of sel' ps.
Proof.
  unfold bytes_of. intros Hps Hsel. induction Hps as [|p ps Hp _ IH]; cbn [List.filter map]; [done|].
  specialize (Hsel p). destruct (sel p), (sel' p); cbn [map]; rewrite ?zsum_cons; try lia.
Qed.

(** C40: The entry of a cgroup is the totals of its packets.  After the packets
    of a cgroup that had no entry, the first of which found room in the map,
    the entry holds for each direction the number of packets, the sum of their
    lengths and the sum over those classified internet, each modulo 2^64; while
    the bytes of a direction stay below 2^64, the internet part is at most the
    whole. *)
Theorem cgroup_totals id ps k :
  id <> 0 -> ps <> [] -> NET_CGROUP_STATS k !! id = None ->
  (size (NET_CGROUP_STATS k) < NET_CGROUP_STATS_MAX)%nat ->
  Forall (fun x => cx_cgroup_id x.1.1 = id /\ accepts x.1.1 NET_CGROUP_STATS_map /\
                   is_u32 (skb_len x.1.2)) ps ->
  let t := totals id (map packet_of ps) in
  NET_CGROUP_STATS (account_all ps k) !! id = Some t /\
  (bytes_of is_rx (map packet_of ps) < 2 ^ 64 -> cg_rx_internet_bytes t <= cg_rx_bytes t) /\
  (bytes_of (fun p => negb (is_rx p)) (map packet_of ps) < 2 ^ 64 ->
   cg_tx_internet_bytes t <= cg_tx_bytes t).
Proof.
  intros Hne Hps Hk Hs Hall t. split; [|].
  - subst t. revert Hps Hall. induction ps as [|[[c skb] dir] ps IH] using rev_ind; [done|].
    intros _ Hall. apply Forall_app in Hall as [Hall Hlast]. inversion Hlast as [|? ? (Hid & Ha & Hl) _].
    cbn [fst snd] in *. unfold account_all. rewrite foldl_app, map_app. cbn [foldl map].
    destruct ps as [|q ps].
    + cbn [foldl map app]. unfold account_cgroup. rewrite Hid, (proj2 (Z.eqb_neq _ _) Hne), Hk. cbn.
      rewrite accepts_insert_, lookup_insert_eq by done. f_equal.
      apply (fresh_totals id (packet_of (c, skb, dir))). unfold is_u32, is_u64 in *. cbn. lia.
    + apply account_totals; [done|done|]. by apply IH.
  - assert (Forall (fun p => 0 <= p_len p) (map packet_of ps)) as Hpos.
    { apply Forall_fmap. eapply Forall_impl; [exact Hall|]. intros [[c skb] dir] (_ & _ & Hl).
      unfold is_u32 in Hl. cbn in *. lia. }
    subst t. cbn [totals cg_rx_internet_bytes cg_rx_bytes cg_tx_internet_bytes cg_tx_bytes].
    split; intros Hlt.
    + destruct (bytes_of_mono (fun p => is_rx p && p_internet p) is_rx _ Hpos) as [H0 H1];
        [by intros p [? _]%andb_prop|].
      rewrite !as_u64_small by (unfold is_u64; lia). done.
    + destruct (bytes_of_mono (fun p => negb (is_rx p) && p_internet p) (fun p => negb (is_rx p)) _ Hpos)
        as [H0 H1]; [by intros p [? _]%andb_prop|].
      rewrite !as_u64_small by (unfold is_u64; lia). done.
Qed.
Lemma cgroup_totals_witness :
  let c := ideal_ctx 0 10 7 7 [] in
  let header src dst := [0x45] ++ replicate 11 0 ++ src ++ dst in
  let skb len src dst := {| skb_len := len;
    skb_load := fun off n => Some (take n (drop (Z.to_nat off) (header src dst))) |} in
  let ps := [(c, skb 100 [8; 8; 8; 8] [10; 0; 0; 2], Rx); (c, skb 60 [10; 0; 0; 2] [10; 0; 0; 3], Tx);
             (c, skb 40 [10; 0; 0; 2] [1; 1; 1; 1], Tx)] in
  NET_CGROUP_STATS (account_all ps (kernel_init 1)) !! 1
    = Some {| cg_cgroup_id := 1; cg_rx_bytes := 100; cg_tx_bytes := 100; cg_rx_packets := 1;
              cg_tx_packets := 2; cg_rx_internet_bytes := 100; cg_tx_internet_bytes := 40 |}.
Proof.
  intros c header skb ps. destruct (cgroup_totals 1 ps (kernel_init 1)) as [H _].
  1-4: first [discriminate|reflexivity|decide_now].
  - repeat constructor; try (apply ideal_ctx_accepts); cbn; lia.
  - exact H.
Defined.
