(* ===== verification/Security.v ===== *)
(** [security.rs]: counters of security-relevant syscalls and the rate-limited
    feed of [SecurityEvent]s, from per-syscall tracepoints or, in the
    [kernel-5-4] build, from one [raw_syscalls:sys_enter] dispatcher. *)
From S2P Require Import Prelude Float Types Layout Pods Bpf Stats Network.

Definition PR_SET_DUMPABLE : Z := 4.
Definition SYS_PTRACE : Z := 117.
Definition SYS_PRCTL : Z := 167.
Definition SYS_SETUID : Z := 146.
Definition SYS_MEMFD_CREATE : Z := 279.
Definition EMIT_MIN_INTERVAL_NS : Z := 50_000_000.

(** ** Counters *)

Definition bump (c : ctx) (f : SecurityEventCounts -> SecurityEventCounts) (k : kernel) : kernel :=
  match cpu_slot c (SECURITY_COUNTS k) with
  | None => k
  | Some _ => k <| SECURITY_COUNTS ::= cpu_write c f |>
  end.

(** ** Rate limiter *)

Definition rate_limited (c : ctx) (slot now : Z) (k : kernel) : bool * kernel :=
  let slot := Z.to_nat (Z.land slot 3) in
  match cpu_slot c (SEC_EMIT_GATE k) with
  | None => (false, k)
  | Some g =>
      if saturating_sub now (nth slot (last_ns g) 0) <? EMIT_MIN_INTERVAL_NS then (true, k)
      else (false, k <| SEC_EMIT_GATE ::= cpu_write c (fun g => g <| last_ns ::= <[slot := now]> |>) |>)
  end.

(** ** Emission *)

Definition security_event (c : ctx) (kind : SecurityEventKind) (severity : SecuritySeverity)
    (arg ts : Z) (k : kernel) : SecurityEvent :=
  let pid := current_tgid c in
  let uid := current_uid c in
  let comm := current_comm c in
  let ppid := fetch_ppid pid k in
  SecurityEvent_zeroed
    <| sev_kind := SecurityEventKind_repr kind |> <| sev_pid := pid |> <| sev_ppid := ppid |>
    <| sev_uid := uid |> <| sev_severity := SecuritySeverity_repr severity |> <| sev_arg := arg |>
    <| sev_timestamp_ns := ts |> <| sev_comm := comm |>.

Definition emit (c : ctx) (kind : SecurityEventKind) (severity : SecuritySeverity) (arg slot : Z)
    (k : kernel) : result unit unit * kernel :=
  let ts := bpf_ktime_get_ns c In_body in
  let '(limited, k) := rate_limited c slot ts k in
  if limited then (Ok (), k) else
  if cx_reserve c
  then (Ok (), k <| SECURITY_EVENTS ::= fun es => es ++ [security_event c kind severity arg ts k] |>)
  else (Err (), drop_security c k).

Definition emit_54 (c : ctx) (kind : SecurityEventKind) (severity : SecuritySeverity) (arg slot : Z)
    (k : kernel) : result unit unit * kernel :=
  let ts := bpf_ktime_get_ns c In_body in
  let '(limited, k) := rate_limited c slot ts k in
  if limited then (Ok (), k) else
  match cpu_slot c (SEC_EVENT_SCRATCH k) with
  | None => (Err (), drop_security c k)
  | Some _ =>
      let e := security_event c kind severity arg ts k in
      let k := k <| SEC_EVENT_SCRATCH ::= cpu_write c (fun _ => e) |> in
      (Ok (), if cx_output c then k <| SECURITY_EVENTS ::= fun es => es ++ [e] |> else k)
  end.

(** ** Per-syscall programs *)

Definition read_arg (c : ctx) (off : Z) : Z := unwrap_or 0 (read_at_int 8 false c off).

Definition sys_enter_ptrace (c : ctx) (k : kernel) : Z * kernel :=
  let request := read_arg c SYSCALL_ARG0 in
  let k := bump c (fun s => s <| sec_ptrace := wrapping_add (sec_ptrace s) 1 |>) k in
  let '(_, k) := emit c Ptrace Warn request 0 k in
  (0, k).

Definition sys_enter_memfd_create (c : ctx) (k : kernel) : Z * kernel :=
  let k := bump c (fun s => s <| sec_memfd_create := wrapping_add (sec_memfd_create s) 1 |>) k in
  let '(_, k) := emit c MemfdCreate Warn 0 1 k in
  (0, k).

Definition sys_enter_setuid (c : ctx) (k : kernel) : Z * kernel :=
  let new_uid := read_arg c SYSCALL_ARG0 in
  let k := bump c (fun s => s <| sec_setuid := wrapping_add (sec_setuid s) 1 |>) k in
  let '(_, k) := emit c Setuid Warn new_uid 2 k in
  (0, k).

Definition sys_enter_prctl (c : ctx) (k : kernel) : Z * kernel :=
  let option := read_arg c SYSCALL_ARG0 in
  let arg2 := read_arg c SYSCALL_ARG1 in
  let k := bump c (fun s => s <| sec_prctl := wrapping_add (sec_prctl s) 1 |>) k in
  if (option =? PR_SET_DUMPABLE) && (arg2 =? 0)
  then let '(_, k) := emit c Prctl Warn option 3 k in (0, k)
  else (0, k).

(** ** [kernel-5-4] dispatcher *)

Definition sys_enter (c : ctx) (k : kernel) : Z * kernel :=
  let nr := unwrap_or u64_max (read_at_int 8 false c RAW_SYSCALL_NR) in
  if nr =? SYS_PTRACE then
    let request := read_arg c SYSCALL_ARG0 in
    let k := bump c (fun s => s <| sec_ptrace := wrapping_add (sec_ptrace s) 1 |>) k in
    let '(_, k) := emit_54 c Ptrace Warn request 0 k in
    (0, k)
  else if nr =? SYS_MEMFD_CREATE then
    let k := bump c (fun s => s <| sec_memfd_create := wrapping_add (sec_memfd_create s) 1 |>) k in
    let '(_, k) := emit_54 c MemfdCreate Warn 0 1 k in
    (0, k)
  else if nr =? SYS_SETUID then
    let new_uid := read_arg c SYSCALL_ARG0 in
    let k := bump c (fun s => s <| sec_setuid := wrapping_add (sec_setuid s) 1 |>) k in
    let '(_, k) := emit_54 c Setuid Warn new_uid 2 k in
    (0, k)
  else if nr =? SYS_PRCTL then
    let option := read_arg c SYSCALL_ARG0 in
    let arg2 := read_arg c SYSCALL_ARG1 in
    let k := bump c (fun s => s <| sec_prctl := wrapping_add (sec_prctl s) 1 |>) k in
    if (option =? PR_SET_DUMPABLE) && (arg2 =? 0)
    then let '(_, k) := emit_54 c Prctl Warn option 3 k in (0, k)
    else (0, k)
  else (0, k).

(** ** The rate limiter over time *)

Definition gate_slot (slot : Z) : nat := Z.to_nat (Z.land slot 3).

(** The last emission recorded for a slot on a CPU. *)
Definition last_emit (k : kernel) (cpu slot : nat) : option Z :=
  option_map (fun g => nth slot (last_ns g) 0) (SEC_EMIT_GATE k !! cpu).

Definition gate_full (k : kernel) : Prop := Forall (fun g => length (last_ns g) = 4%nat) (SEC_EMIT_GATE k).

Lemma gate_slot_lt slot : (gate_slot slot < 4)%nat.
Proof.
  unfold gate_slot. change 3 with (Z.ones 2). rewrite Z.land_ones by lia.
  pose proof (Z.mod_pos_bound slot (2 ^ 2) ltac:(done)). lia.
Qed.

(** A call either is suppressed and changes nothing, or is let through, was due,
    and is recorded as the last of its slot and of no other. *)
Lemma rate_limited_spec c slot now k t0 :
  gate_full k -> last_emit k (cx_cpu c) (gate_slot slot) = Some t0 ->
  let limited := (rate_limited c slot now k).1 in
  let k' := (rate_limited c slot now k).2 in
  gate_full k' /\
  if limited
  then saturating_sub now t0 < EMIT_MIN_INTERVAL_NS /\ k' = k
  else EMIT_MIN_INTERVAL_NS <= now - t0 /\
       forall cpu s, last_emit k' cpu s =
         if decide (cpu = cx_cpu c /\ s = gate_slot slot) then Some now else last_emit k cpu s.
Proof.
  unfold last_emit, gate_full, rate_limited, cpu_slot, gate_slot. intros Hf Ht.
  destruct (SEC_EMIT_GATE k !! cx_cpu c) as [g|] eqn:Hg; [|done]. cbn in Ht. simplify_eq.
  set (s0 := Z.to_nat (Z.land slot 3)). pose proof (Forall_lookup_1 _ _ _ _ Hf Hg) as Hlen. cbn in Hlen.
  pose proof (gate_slot_lt slot) as Hs0. unfold gate_slot in Hs0. fold s0 in Hs0.
  destruct (Z.ltb_spec (saturating_sub now (nth s0 (last_ns g) 0)) EMIT_MIN_INTERVAL_NS) as [Hlt|Hge].
  - cbn. by split.
  - cbn. split; [apply Forall_alter; [done|]; intros; cbn; by rewrite length_insert|].
    unfold saturating_sub, EMIT_MIN_INTERVAL_NS in *. split; [lia|]. intros cpu s. unfold cpu_write.
    destruct (decide (cpu = cx_cpu c)) as [->|Hc].
    + rewrite list_lookup_alter_eq, Hg. cbn. destruct (decide (s = s0)) as [->|Hs].
      * rewrite decide_True by done. f_equal. apply nth_lookup_Some.
        apply list_lookup_insert_eq. by rewrite Hlen.
      * rewrite decide_False by (intros [_ ?]; done). f_equal.
        rewrite !nth_lookup. by rewrite list_lookup_insert_ne.
    + rewrite list_lookup_alter_ne, decide_False; [done|by intros [? _]|done].
Qed.

(** Two emissions in order, far enough apart. *)
Definition spaced (t t' : Z) : Prop := t + EMIT_MIN_INTERVAL_NS <= t'.

Lemma bump_drop_gate c f k : SEC_EMIT_GATE (bump_drop c f k) = SEC_EMIT_GATE k.
Proof. unfold bump_drop. by case_match. Qed.
Lemma emit_gate c kind sev arg slot k :
  SEC_EMIT_GATE (emit c kind sev arg slot k).2
    = SEC_EMIT_GATE (rate_limited c slot (bpf_ktime_get_ns c In_body) k).2.
Proof.
  unfold emit. destruct (rate_limited _ _ _ _) as [[] k1]; [done|]. case_match; [done|].
  cbn [snd]. apply bump_drop_gate.
Qed.
Lemma emit_54_gate c kind sev arg slot k :
  SEC_EMIT_GATE (emit_54 c kind sev arg slot k).2
    = SEC_EMIT_GATE (rate_limited c slot (bpf_ktime_get_ns c In_body) k).2.
Proof.
  unfold emit_54. destruct (rate_limited _ _ _ _) as [[] k1]; [done|]. case_match; cbn [snd].
  - by case_match.
  - apply bump_drop_gate.
Qed.

(** One call, seen from slot [s] of CPU [cpu]. *)
Lemma gate_step c slot now k cpu s t0 :
  gate_full k -> last_emit k cpu s = Some t0 ->
  let limited := (rate_limited c slot now k).1 in
  let k' := (rate_limited c slot now k).2 in
  gate_full k' /\
  if negb limited && bool_decide ((cx_cpu c, gate_slot slot) = (cpu, s))
  then spaced t0 now /\ last_emit k' cpu s = Some now
  else last_emit k' cpu s = Some t0.
Proof.
  intros Hf Ht limited k'.
  destruct (SEC_EMIT_GATE k !! cx_cpu c) as [g|] eqn:Hg.
  - destruct (rate_limited_spec c slot now k (nth (gate_slot slot) (last_ns g) 0) Hf) as [Hf' Hs];
      [unfold last_emit; by rewrite Hg|]. fold limited k' in Hf', Hs. split; [done|].
    destruct limited; cbn [negb andb]; [destruct Hs as [_ ->]; done|].
    destruct Hs as [Hdue Hlast]. rewrite Hlast.
    case_bool_decide as E.
    + injection E as <- <-. rewrite decide_True by done. split; [|done].
      unfold last_emit in Ht. rewrite Hg in Ht. cbn in Ht. simplify_eq. unfold spaced. lia.
    + rewrite decide_False; [done|]. intros [-> ->]. done.
  - assert (limited = false /\ k' = k) as [-> Hk]
      by (unfold limited, k', rate_limited, cpu_slot; by rewrite Hg).
    rewrite Hk. split; [done|]. rewrite bool_decide_eq_false_2; [done|].
    intros [= E _]. unfold last_emit in Ht. by rewrite <- E, Hg in Ht.
Qed.

(** [t] is in the second that starts at [T]. *)
Definition in_second (T t : Z) : Prop := T <= t < T + 1_000_000_000.
#[export] Instance in_second_dec T t : Decision (in_second T t) := _.

(** Spaced times in a window. *)
Lemma spaced_window T W l :
  StronglySorted spaced l -> Forall (fun t => T <= t < T + W) l -> l <> [] ->
  (Z.of_nat (length l) - 1) * EMIT_MIN_INTERVAL_NS < W.
Proof.
  intros Hs. revert T W. induction Hs as [|t l Hs IH Ht]; intros T W Hw Hne; [done|].
  inversion Hw as [|? ? Hin Hw']; subst. destruct l as [|t' l]; [cbn; lia|].
  assert (Forall (fun t => T + EMIT_MIN_INTERVAL_NS <= t
            < T + EMIT_MIN_INTERVAL_NS + (W - EMIT_MIN_INTERVAL_NS)) (t' :: l)) as Hw2.
  { apply Forall_forall. intros x Hx. rewrite Forall_forall in Ht, Hw'.
    specialize (Ht x Hx). specialize (Hw' x Hx). unfold spaced in Ht. cbn in *. lia. }
  specialize (IH _ _ Hw2 ltac:(done)). cbn [length] in *. lia.
Qed.

(** Spaced times: at most twenty in a second. *)
Lemma spaced_second T l : StronglySorted spaced l -> (length (filter (in_second T) l) <= 20)%nat.
Proof.
  intros Hs. set (w := filter (in_second T) l).
  assert (StronglySorted spaced w) as Hsw.
  { subst w. clear -Hs. induction Hs as [|t l' Hs IH Ht]; [constructor|].
    rewrite filter_cons. case_decide; [|done]. constructor; [done|].
    apply Forall_forall. intros x [_ Hx]%list_elem_of_filter. by eapply Forall_forall in Ht. }
  destruct (decide (w = [])) as [->|Hne]; [cbn; lia|].
  assert (Forall (fun t => T <= t < T + 1_000_000_000) w) as Hw
    by (apply Forall_forall; intros x [Hx _]%list_elem_of_filter; done).
  pose proof (spaced_window T 1_000_000_000 w Hsw Hw Hne) as Hlen.
  unfold EMIT_MIN_INTERVAL_NS in Hlen. lia.
Qed.

(** ** The four monitored system calls *)

Inductive monitored := M_ptrace | M_memfd_create | M_setuid | M_prctl.

Definition enter (m : monitored) (c : ctx) (k : kernel) : Z * kernel :=
  match m with
  | M_ptrace => sys_enter_ptrace c k
  | M_memfd_create => sys_enter_memfd_create c k
  | M_setuid => sys_enter_setuid c k
  | M_prctl => sys_enter_prctl c k
  end.
Definition syscall_nr (m : monitored) : Z :=
  match m with
  | M_ptrace => SYS_PTRACE
  | M_memfd_create => SYS_MEMFD_CREATE
  | M_setuid => SYS_SETUID
  | M_prctl => SYS_PRCTL
  end.

(** What a call is counted as, and what it is reported as: its kind, argument
    and gate slot, if it is reported at all. *)
Definition counted (m : monitored) (s : SecurityEventCounts) : SecurityEventCounts :=
  match m with
  | M_ptrace => s <| sec_ptrace := wrapping_add (sec_ptrace s) 1 |>
  | M_memfd_create => s <| sec_memfd_create := wrapping_add (sec_memfd_create s) 1 |>
  | M_setuid => s <| sec_setuid := wrapping_add (sec_setuid s) 1 |>
  | M_prctl => s <| sec_prctl := wrapping_add (sec_prctl s) 1 |>
  end.
Definition alarm (m : monitored) (c : ctx) : option (SecurityEventKind * Z * Z) :=
  match m with
  | M_ptrace => Some (Ptrace, read_arg c SYSCALL_ARG0, 0)
  | M_memfd_create => Some (MemfdCreate, 0, 1)
  | M_setuid => Some (Setuid, read_arg c SYSCALL_ARG0, 2)
  | M_prctl =>
      if (read_arg c SYSCALL_ARG0 =? PR_SET_DUMPABLE) && (read_arg c SYSCALL_ARG1 =? 0)
      then Some (Prctl, read_arg c SYSCALL_ARG0, 3) else None
  end.

Lemma let_snd {A} (x : A * kernel) : (let '(_, k) := x in (0, k)).2 = x.2.
Proof. by destruct x. Qed.

(** A program is: count, then emit the alarm if there is one. *)
Lemma enter_eq m c k :
  (enter m c k).2 =
    match alarm m c with
    | Some (kind, arg, slot) => (emit c kind Warn arg slot (bump c (counted m) k)).2
    | None => bump c (counted m) k
    end.
Proof.
  destruct m; cbn [enter alarm]; [apply let_snd..|].
  unfold sys_enter_prctl. destruct (_ && _); [apply let_snd|done].
Qed.

Lemma sys_enter_eq m c k :
  read_at_int 8 false c RAW_SYSCALL_NR = Some (syscall_nr m) ->
  (sys_enter c k).2 =
    match alarm m c with
    | Some (kind, arg, slot) => (emit_54 c kind Warn arg slot (bump c (counted m) k)).2
    | None => bump c (counted m) k
    end.
Proof.
  intros Hnr. unfold sys_enter. rewrite Hnr. destruct m; [apply let_snd..|].
  cbn [unwrap_or default syscall_nr alarm]. destruct (_ && _); [apply let_snd|done].
Qed.

Lemma bump_slot c f k s :
  cpu_slot c (SECURITY_COUNTS k) = Some s ->
  bump c f k = k <| SECURITY_COUNTS ::= cpu_write c f |>.
Proof. intros Hs. unfold bump. by rewrite Hs. Qed.

(** The rate limiter only touches the gates. *)
Lemma rate_limited_frame c slot now k :
  exists l, (rate_limited c slot now k).2 = k <| SEC_EMIT_GATE := l |>.
Proof.
  unfold rate_limited. destruct k as [ps oc ec dr wt sh pe psc ms cs irq sirq bs ne nsc ni ts nc se ssc sc g].
  cbn. repeat case_match; cbn; eauto.
Qed.

(** C25: every monitored system call is counted exactly once, and its alarm is
    never lost silently.  The per-syscall programs add one to their own counter
    of the CPU and leave the others alone, whether or not an event comes out;
    when the call raises an alarm whose kind was last reported at least 50 ms
    ago, the event is appended to the ring with the caller's identity, or, if
    the ring is full, counted as a dropped security event; otherwise nothing is
    emitted.  prctl raises one only for PR_SET_DUMPABLE with 0. *)
Theorem syscall_counted_and_reported m c k s g d :
  cpu_slot c (SECURITY_COUNTS k) = Some s -> cpu_slot c (SEC_EMIT_GATE k) = Some g ->
  cpu_slot c (EVENT_DROPS k) = Some d ->
  let now := bpf_ktime_get_ns c In_body in
  let k' := (enter m c k).2 in
  cpu_slot c (SECURITY_COUNTS k') = Some (counted m s) /\
  match alarm m c with
  | Some (kind, arg, slot) =>
      if saturating_sub now (nth (gate_slot slot) (last_ns g) 0) <? EMIT_MIN_INTERVAL_NS
      then SECURITY_EVENTS k' = SECURITY_EVENTS k /\ EVENT_DROPS k' = EVENT_DROPS k
      else if cx_reserve c
      then SECURITY_EVENTS k' = SECURITY_EVENTS k ++ [security_event c kind Warn arg now k] /\
           EVENT_DROPS k' = EVENT_DROPS k
      else SECURITY_EVENTS k' = SECURITY_EVENTS k /\
           cpu_slot c (EVENT_DROPS k') = Some (d <| dc_security := wrapping_add (dc_security d) 1 |>)
  | None => SECURITY_EVENTS k' = SECURITY_EVENTS k /\ EVENT_DROPS k' = EVENT_DROPS k
  end.
Proof.
  intros Hs Hg Hd now k'. subst k'. rewrite enter_eq, (bump_slot _ _ _ _ Hs).
  assert (cpu_slot c (cpu_write c (counted m) (SECURITY_COUNTS k)) = Some (counted m s)) as Hs'
    by (by erewrite cpu_slot_write_same).
  destruct (alarm m c) as [[[kind arg] slot]|]; [|by split].
  unfold emit. fold now. set (k1 := k <| SECURITY_COUNTS ::= _ |>).
  pose proof (rate_limited_frame c slot now k1) as [l Hl].
  assert ((rate_limited c slot now k1).1
    = (saturating_sub now (nth (gate_slot slot) (last_ns g) 0) <? EMIT_MIN_INTERVAL_NS)) as Hlim.
  { unfold rate_limited. change (SEC_EMIT_GATE k1) with (SEC_EMIT_GATE k). rewrite Hg.
    unfold gate_slot. by destruct (_ <? _). }
  destruct (rate_limited c slot now k1) as [lim k2]. cbn [fst snd] in Hl, Hlim. subst lim k2.
  destruct (_ <? _); [by split|]. destruct (cx_reserve c); [by split|].
  unfold drop_security, bump_drop. change (EVENT_DROPS (k1 <| SEC_EMIT_GATE := l |>)) with (EVENT_DROPS k).
  rewrite Hd. split; [done|]. split; [done|]. cbn; by erewrite cpu_slot_write_same.
Qed.
Lemma syscall_counted_and_reported_witness :
  let c := ideal_ctx 0 60_000_000 7 7 (replicate 16 0 ++ [4] ++ replicate 15 0) in
  let k' := (enter M_prctl c (kernel_init 1)).2 in
  cpu_slot c (SECURITY_COUNTS k') = Some (SecurityEventCounts_zeroed <| sec_prctl := 1 |>) /\
  SECURITY_EVENTS k' = [security_event c Prctl Warn 4 60_000_000 (kernel_init 1)].
Proof.
  destruct (syscall_counted_and_reported M_prctl
    (ideal_ctx 0 60_000_000 7 7 (replicate 16 0 ++ [4] ++ replicate 15 0)) (kernel_init 1)
    SecurityEventCounts_zeroed EmitGate_zeroed EventDropCounts_zeroed) as [H1 H2].
  1-3: reflexivity.
  split; [exact H1|]. vm_compute in H2. destruct H2 as [H2 _]. vm_compute. exact H2.
Defined.

(** C26: the two builds watch the same calls, and differ in what becomes of an
    event nobody has room for.  When the raw tracepoint reports the number of a
    monitored call, the dispatcher of the 5.4 build leaves the same counters and
    gates as the per-syscall program of the other build, in every case.  Both append
    the same record, or nothing when the call raises no alarm or the gate is
    shut: the one if the ring has room, the other if the perf buffer takes it.
    When they do not, the ring build counts a dropped security event, and the
    5.4 build counts nothing.  Any other number changes nothing. *)
Theorem dispatcher_agrees m c k nr d :
  read_at_int 8 false c RAW_SYSCALL_NR = Some nr ->
  is_Some (cpu_slot c (SEC_EVENT_SCRATCH k)) -> cpu_slot c (EVENT_DROPS k) = Some d ->
  let k54 := (sys_enter c k).2 in
  let k55 := (enter m c k).2 in
  (nr = syscall_nr m ->
   SECURITY_COUNTS k54 = SECURITY_COUNTS k55 /\ SEC_EMIT_GATE k54 = SEC_EMIT_GATE k55 /\
   exists es, (length es <= 1)%nat /\
     SECURITY_EVENTS k55 = SECURITY_EVENTS k ++ (if cx_reserve c then es else []) /\
     SECURITY_EVENTS k54 = SECURITY_EVENTS k ++ (if cx_output c then es else []) /\
     EVENT_DROPS k54 = EVENT_DROPS k /\
     cpu_slot c (EVENT_DROPS k55) =
       Some (if cx_reserve c then d
             else match es with [] => d | _ => d <| dc_security := wrapping_add (dc_security d) 1 |> end)) /\
  (nr <> SYS_PTRACE -> nr <> SYS_MEMFD_CREATE -> nr <> SYS_SETUID -> nr <> SYS_PRCTL -> k54 = k).
Proof.
  intros Hnr [x Hx] Hd k54 k55. split.
  - intros ->. subst k54 k55. rewrite (sys_enter_eq m) by done. rewrite enter_eq.
    assert (exists s, bump c (counted m) k = k <| SECURITY_COUNTS := s |>) as [s ->].
    { unfold bump. case_match; [by eexists|]. exists (SECURITY_COUNTS k). by destruct k. }
    destruct (alarm m c) as [[[kind arg] slot]|]; cycle 1.
    { do 2 (split; [done|]). exists []. split; [cbn; lia|]. change (EVENT_DROPS (k <| SECURITY_COUNTS := s |>)) with (EVENT_DROPS k).
      rewrite Hd. repeat case_match; by rewrite ?app_nil_r. }
    unfold emit, emit_54. set (now := bpf_ktime_get_ns c In_body). set (k1 := k <| SECURITY_COUNTS := s |>).
    destruct (rate_limited_frame c slot now k1) as [l Hl].
    destruct (rate_limited c slot now k1) as [lim k2]. cbn [snd] in Hl. subst k2.
    destruct lim.
    { do 2 (split; [done|]). exists []. split; [cbn; lia|]. cbn [snd].
      change (EVENT_DROPS (k1 <| SEC_EMIT_GATE := l |>)) with (EVENT_DROPS k).
      rewrite Hd. repeat case_match; by rewrite ?app_nil_r. }
    change (SEC_EVENT_SCRATCH (k1 <| SEC_EMIT_GATE := l |>)) with (SEC_EVENT_SCRATCH k). rewrite Hx.
    set (e := security_event c kind Warn arg now _).
    assert (security_event c kind Warn arg now (k1 <| SEC_EMIT_GATE := l |>) = e) as He by done.
    unfold drop_security, bump_drop.
    change (EVENT_DROPS (k1 <| SEC_EMIT_GATE := l |>)) with (EVENT_DROPS k). rewrite Hd.
    destruct (cx_reserve c), (cx_output c); cbn [snd]; (split; [done|]); (split; [done|]); exists [e];
      (split; [cbn; lia|]); cbn [app]; rewrite ?app_nil_r; split_and!; try done; cbn; by erewrite cpu_slot_write_same.
  - intros H1 H2 H3 H4. subst k54. unfold sys_enter. rewrite Hnr. cbn [unwrap_or default].
    by rewrite !(proj2 (Z.eqb_neq _ _)) by done.
Qed.
(** The same run when neither buffer has room. *)
Definition without_room (c : ctx) : ctx :=
  {| cx_cpu := cx_cpu c; cx_ktime := cx_ktime c; cx_pid_tgid := cx_pid_tgid c; cx_uid_gid := cx_uid_gid c;
     cx_comm := cx_comm c; cx_cgroup_id := cx_cgroup_id c; cx_update := cx_update c; cx_delete := cx_delete c;
     cx_reserve := false; cx_output := false; cx_record := cx_record c |}.
(** A ptrace whose record finds no room in either build, and one that does. *)
Lemma dispatcher_agrees_witness :
  let c := ideal_ctx 0 60_000_000 7 7 (replicate 8 0 ++ [117] ++ replicate 7 0 ++ [16] ++ replicate 7 0) in
  let full := without_room c in
  let k54 := (sys_enter full (kernel_init 1)).2 in
  let k55 := (enter M_ptrace full (kernel_init 1)).2 in
  SECURITY_COUNTS k54 = SECURITY_COUNTS k55 /\ SEC_EMIT_GATE k54 = SEC_EMIT_GATE k55 /\
  SECURITY_EVENTS k54 = [] /\ SECURITY_EVENTS k55 = [] /\ EVENT_DROPS k54 = [EventDropCounts_zeroed] /\
  EVENT_DROPS k55 = [EventDropCounts_zeroed <| dc_security := 1 |>] /\
  SECURITY_EVENTS (sys_enter c (kernel_init 1)).2 = SECURITY_EVENTS (enter M_ptrace c (kernel_init 1)).2.
Proof.
  intros c full k54 k55.
  destruct (dispatcher_agrees M_ptrace full (kernel_init 1) 117 EventDropCounts_zeroed) as [H _].
  1-3: first [reflexivity|eexists; reflexivity].
  destruct (H eq_refl) as (H1 & H2 & es & _ & H3 & H4 & H5 & _).
  split; [exact H1|]. split; [exact H2|]. split; [exact H4|]. split; [exact H3|]. split; [exact H5|].
  split; [vm_compute; reflexivity|].
  destruct (dispatcher_agrees M_ptrace c (kernel_init 1) 117 EventDropCounts_zeroed) as [G _].
  1-3: first [reflexivity|eexists; reflexivity].
  destruct (G eq_refl) as (_ & _ & es' & _ & G3 & G4 & _). exact (eq_trans G4 (eq_sym G3)).
Defined.
