(* ===== verification/Races.v ===== *)
(** Accounting on several CPUs at once.

    The maps of [netproc.rs] and [block.rs] are shared by all CPUs, and a
    program updates an entry with plain loads and stores through the pointer
    a lookup gave it.  [Netproc.v] and [Block.v] have the effect of one program that
    runs alone; here programs on different CPUs interleave at every map call, load
    and store. *)
From S2P Require Import Prelude Float Types Layout Pods Bpf Scheduler Block Netproc.

(** The counters of a record, by name. *)
Class Counters (V field : Type) := {
  counter : field -> V -> Z;
  set_counter : field -> Z -> V -> V;
  counter_set f x v : counter f (set_counter f x v) = x;
  counter_set_ne f g x v : f <> g -> counter f (set_counter g x v) = counter f v }.

Section Races.
Context {V field : Type} `{EqDecision field} `{!Counters V field}.

(** What one run of a program accounts: to the entry of a key, these additions,
    one after the other; without an entry, this fresh one. *)
Record accounting := { ac_key : Z; ac_incs : list (field * Z); ac_fresh : V }.

(** ** The program alone *)

Definition add_counter (v : V) (i : field * Z) : V := set_counter i.1 (wrapping_add (counter i.1 v) i.2) v.
Definition account (accepted : bool) (a : accounting) (m : gmap Z V) : gmap Z V :=
  match m !! ac_key a with
  | Some v => <[ac_key a := foldl add_counter v (ac_incs a)]> m
  | None => if accepted then <[ac_key a := ac_fresh a]> m else m
  end.

(** ** The program beside others *)

(** Where a run is: before the lookup; with the pointer and the additions left;
    between a load and its store; before the insert; at its end. *)
Inductive pc :=
  | Start
  | Ready (slot : nat) (todo : list (field * Z))
  | Loaded (slot : nat) (old : Z) (f : field) (d : Z) (todo : list (field * Z))
  | Inserting
  | Done.
Record run := { rn_acc : accounting; rn_pc : pc }.

(** The table points to elements, which keep their key; an insert makes a new
    element, and the one it replaces lives on for whoever points to it. *)
Record shared := { sh_table : gmap Z nat; sh_elems : list (Z * V); sh_runs : list run }.

Definition set_pc (t : nat) (p : pc) (s : shared) : shared :=
  {| sh_table := sh_table s; sh_elems := sh_elems s;
     sh_runs := alter (fun r => {| rn_acc := rn_acc r; rn_pc := p |}) t (sh_runs s) |}.

(** The next access of run [t]; [accepted]: the kernel takes the insert. *)
Definition cpu_step (t : nat) (accepted : bool) (s : shared) : option shared :=
  match sh_runs s !! t with
  | None => None
  | Some r =>
      match rn_pc r with
      | Start =>
          match sh_table s !! ac_key (rn_acc r) with
          | Some o => Some (set_pc t (Ready o (ac_incs (rn_acc r))) s)
          | None => Some (set_pc t Inserting s)
          end
      | Ready o ((f, d) :: todo) =>
          match sh_elems s !! o with
          | Some e => Some (set_pc t (Loaded o (counter f e.2) f d todo) s)
          | None => None
          end
      | Ready _ [] => Some (set_pc t Done s)
      | Loaded o old f d todo =>
          let s' := set_pc t (Ready o todo) s in
          Some {| sh_table := sh_table s';
                  sh_elems := alter (fun e => (e.1, set_counter f (wrapping_add old d) e.2)) o (sh_elems s');
                  sh_runs := sh_runs s' |}
      | Inserting =>
          let s' := set_pc t Done s in
          if accepted then
            let key := ac_key (rn_acc r) in
            Some {| sh_table := <[key := length (sh_elems s')]> (sh_table s');
                    sh_elems := sh_elems s' ++ [(key, ac_fresh (rn_acc r))]; sh_runs := sh_runs s' |}
          else Some s'
      | Done => None
      end
  end.
Definition cpus_step (s s' : shared) : Prop := exists t accepted, cpu_step t accepted s = Some s'.

(** What user space reads: the entry of every key. *)
Definition entries (s : shared) : gmap Z V := omap (fun o => snd <$> sh_elems s !! o) (sh_table s).

Definition begin_runs (as_ : list accounting) : shared :=
  {| sh_table := ∅; sh_elems := []; sh_runs := map (fun a => {| rn_acc := a; rn_pc := Start |}) as_ |}.

(** What the additions make of a field, and what the runs of a key make of it. *)
Definition total (f : field) (incs : list (field * Z)) : Z :=
  zsum (map (fun i => if decide (i.1 = f) then i.2 else 0) incs).
Definition key_total (key : Z) (f : field) (as_ : list accounting) : Z :=
  zsum (map (fun a => if decide (ac_key a = key) then total f (ac_incs a) else 0) as_).

(** No addition is negative, and a fresh entry is the additions to nothing. *)
Record accounting_ok (a : accounting) : Prop := {
  ao_incs : Forall (fun i => 0 <= i.2) (ac_incs a);
  ao_fresh f : counter f (ac_fresh a) = total f (ac_incs a) }.
End Races.
Arguments accounting V field : clear implicits.
Arguments shared V field : clear implicits.
Arguments run V field : clear implicits.

(** ** The programs of the source *)

Inductive net_field := RxBytes | TxBytes | RxPackets | TxPackets | RxInternet | TxInternet.
#[export] Instance net_field_dec : EqDecision net_field.
Proof. solve_decision. Defined.
#[export, refine] Instance net_counters : Counters CgroupNetBytes net_field := {|
  counter f := match f with
    | RxBytes => cg_rx_bytes | TxBytes => cg_tx_bytes | RxPackets => cg_rx_packets
    | TxPackets => cg_tx_packets | RxInternet => cg_rx_internet_bytes | TxInternet => cg_tx_internet_bytes end;
  set_counter f x v := match f with
    | RxBytes => v <| cg_rx_bytes := x |> | TxBytes => v <| cg_tx_bytes := x |>
    | RxPackets => v <| cg_rx_packets := x |> | TxPackets => v <| cg_tx_packets := x |>
    | RxInternet => v <| cg_rx_internet_bytes := x |> | TxInternet => v <| cg_tx_internet_bytes := x |> end |}.
Proof. - by intros [] x v. - by intros [] [] x v Hne. Defined.

(** A packet, or the bytes of a call, of [len] bytes. *)
Definition net_accounting (id : Z) (dir : Direction) (len : Z) (is_internet : bool) : accounting CgroupNetBytes net_field :=
  {| ac_key := id; ac_fresh := fresh_bytes id dir len is_internet;
     ac_incs := match dir with
       | Rx => [(RxBytes, len); (RxPackets, 1)] ++ (if is_internet then [(RxInternet, len)] else [])
       | Tx => [(TxBytes, len); (TxPackets, 1)] ++ (if is_internet then [(TxInternet, len)] else []) end |}.

Inductive block_field := Reads | ReadBytes | Writes | WriteBytes.
#[export] Instance block_field_dec : EqDecision block_field.
Proof. solve_decision. Defined.
#[export, refine] Instance block_counters : Counters BlockStats block_field := {|
  counter f := match f with
    | Reads => blk_reads_completed | ReadBytes => blk_read_bytes
    | Writes => blk_writes_completed | WriteBytes => blk_write_bytes end;
  set_counter f x v := match f with
    | Reads => v <| blk_reads_completed := x |> | ReadBytes => v <| blk_read_bytes := x |>
    | Writes => v <| blk_writes_completed := x |> | WriteBytes => v <| blk_write_bytes := x |> end |}.
Proof. - by intros [] x v. - by intros [] [] x v Hne. Defined.

Definition block_accounting (dev_key major minor : Z) (is_read : bool) (nr_bytes : Z) : accounting BlockStats block_field :=
  {| ac_key := dev_key; ac_fresh := fresh_block major minor is_read nr_bytes;
     ac_incs := if is_read then [(Reads, 1); (ReadBytes, nr_bytes)] else [(Writes, 1); (WriteBytes, nr_bytes)] |}.

(** The additions are those of the programs. *)
Lemma net_incs_add id dir len is_internet s :
  foldl add_counter s (ac_incs (net_accounting id dir len is_internet)) = add_bytes dir len is_internet s.
Proof. by destruct dir, is_internet. Qed.
Lemma block_incs_add key major minor is_read nr s :
  foldl add_counter s (ac_incs (block_accounting key major minor is_read nr)) = add_block is_read nr s.
Proof. by destruct is_read. Qed.

Lemma net_accounting_ok id dir len is_internet : 0 <= len -> accounting_ok (net_accounting id dir len is_internet).
Proof.
  intros Hl. constructor.
  - destruct dir, is_internet; cbn; repeat constructor; cbn; lia.
  - intros []; destruct dir, is_internet; cbv -[Z.add]; lia.
Qed.
Lemma block_accounting_ok key major minor is_read nr : 0 <= nr -> accounting_ok (block_accounting key major minor is_read nr).
Proof.
  intros Hl. constructor.
  - destruct is_read; cbn; repeat constructor; cbn; lia.
  - intros []; destruct is_read; cbv -[Z.add]; lia.
Qed.

Section Theorems.
Context {V field : Type} {field_dec : EqDecision field} {counters : Counters V field}.
Implicit Types (s : shared V field) (a : accounting V field).

(** Every pointer leads to an element of its key. *)
Definition points (s : shared V field) (o : nat) (key : Z) : Prop := exists v, sh_elems s !! o = Some (key, v).
Definition table_points (s : shared V field) : Prop := forall key o, sh_table s !! key = Some o -> points s o key.

Lemma entries_lookup s key : entries s !! key = (sh_table s !! key) ≫= fun o => snd <$> sh_elems s !! o.
Proof. unfold entries. apply lookup_omap. Qed.

Lemma runs_set_pc t p s t' r :
  sh_runs (set_pc t p s) !! t' = Some r <->
  (t' <> t /\ sh_runs s !! t' = Some r) \/
  (t' = t /\ exists r0, sh_runs s !! t = Some r0 /\ r = {| rn_acc := rn_acc r0; rn_pc := p |}).
Proof.
  cbn. destruct (decide (t' = t)) as [->|Hne].
  - rewrite list_lookup_alter_eq. destruct (sh_runs s !! t); cbn; naive_solver.
  - rewrite list_lookup_alter_ne by done. naive_solver.
Qed.

(** ** One run alone *)

Definition run_alone (n t : nat) (accepted : bool) (s : shared V field) : option (shared V field) :=
  Nat.iter n (fun o => o ≫= cpu_step t accepted) (Some s).

Lemma run_alone_S n t acc s : run_alone (S n) t acc s = cpu_step t acc s ≫= run_alone n t acc.
Proof.
  unfold run_alone. induction n as [|n IH]; [cbn; by destruct (cpu_step t acc s)|].
  change (Nat.iter (S (S n)) ?f ?x) with (f (Nat.iter (S n) f x)). rewrite IH.
  destruct (cpu_step t acc s) as [s'|]; [|done]. reflexivity.
Qed.

(** From the pointer on, the additions are made one by one. *)
Lemma ready_alone t acc todo o key v a s :
  sh_runs s !! t = Some {| rn_acc := a; rn_pc := Ready o todo |} -> sh_elems s !! o = Some (key, v) ->
  exists n s', run_alone n t acc s = Some s' /\
    sh_runs s' !! t = Some {| rn_acc := a; rn_pc := Done |} /\ sh_table s' = sh_table s /\
    sh_elems s' = <[o := (key, foldl add_counter v todo)]> (sh_elems s).
Proof.
  revert v s. induction todo as [|[f d] todo IH]; intros v s Hr He.
  - exists 1%nat, (set_pc t Done s). split; [cbn; unfold cpu_step; by rewrite Hr|].
    split; [apply runs_set_pc; right; split; [done|]; by eexists|]. split; [done|]. cbn. by rewrite list_insert_id.
  - set (s1 := set_pc t (Loaded o (counter f v) f d todo) s).
    assert (cpu_step t acc s = Some s1) as H1 by (unfold cpu_step; rewrite Hr; cbn; by rewrite He).
    assert (sh_runs s1 !! t = Some {| rn_acc := a; rn_pc := Loaded o (counter f v) f d todo |}) as Hr1
      by (apply runs_set_pc; right; split; [done|]; by eexists).
    set (s2 := {| sh_table := sh_table s1;
      sh_elems := alter (fun e => (e.1, set_counter f (wrapping_add (counter f v) d) e.2)) o (sh_elems s1);
      sh_runs := sh_runs (set_pc t (Ready o todo) s1) |}).
    assert (cpu_step t acc s1 = Some s2) as H2 by (unfold cpu_step; by rewrite Hr1).
    assert (sh_elems s2 = <[o := (key, add_counter v (f, d))]> (sh_elems s)) as He2.
    { cbn. apply list_eq. intros i. destruct (decide (i = o)) as [->|Hne].
      - rewrite list_lookup_alter_eq, He, list_lookup_insert_eq by (by eapply lookup_lt_Some). done.
      - by rewrite list_lookup_alter_ne, list_lookup_insert_ne by done. }
    destruct (IH (add_counter v (f, d)) s2) as (n & s' & Hn & Hd & Ht & He').
    + apply (runs_set_pc t (Ready o todo) s1). right. split; [done|]. by eexists.
    + rewrite He2. apply list_lookup_insert_eq. by eapply lookup_lt_Some.
    + exists (S (S n)), s'. rewrite !run_alone_S, H1. cbn [mbind option_bind]. rewrite run_alone_S, H2.
      split; [exact Hn|]. split; [done|]. split; [by rewrite Ht|]. rewrite He', He2. cbn [foldl]. by rewrite list_insert_insert_eq.
Qed.

(** A run that nobody disturbs accounts as the program alone does. *)
Lemma alone_accounts t acc a s :
  table_points s -> sh_runs s !! t = Some {| rn_acc := a; rn_pc := Start |} ->
  exists n s', run_alone n t acc s = Some s' /\
    sh_runs s' !! t = Some {| rn_acc := a; rn_pc := Done |} /\ entries s' = account acc a (entries s).
Proof.
  intros Hp Hr. unfold account. rewrite entries_lookup.
  destruct (sh_table s !! ac_key a) as [o|] eqn:Ho; cbn [mbind option_bind].
  - destruct (Hp _ _ Ho) as [v Hv]. rewrite Hv. cbn.
    set (s1 := set_pc t (Ready o (ac_incs a)) s).
    assert (cpu_step t acc s = Some s1) as H1 by (unfold cpu_step; rewrite Hr; cbn; by rewrite Ho).
    destruct (ready_alone t acc (ac_incs a) o (ac_key a) v a s1) as (n & s' & Hn & Hd & Ht & He); [|exact Hv|].
    { apply runs_set_pc. right. split; [done|]. by eexists. }
    exists (S n), s'. rewrite run_alone_S, H1. split; [exact Hn|]. split; [done|].
    apply map_eq. intros key. rewrite entries_lookup, Ht, He. cbn [sh_table sh_elems set_pc s1].
    destruct (decide (key = ac_key a)) as [->|Hne].
    + rewrite lookup_insert_eq, Ho. cbn. rewrite list_lookup_insert_eq by (by eapply lookup_lt_Some). done.
    + rewrite lookup_insert_ne, entries_lookup by done. destruct (sh_table s !! key) as [o'|] eqn:Ho'; [|done]. cbn.
      rewrite list_lookup_insert_ne; [done|]. intros <-. destruct (Hp _ _ Ho') as [v' Hv']. naive_solver.
  - cbn. set (s1 := set_pc t Inserting s).
    assert (cpu_step t acc s = Some s1) as H1 by (unfold cpu_step; rewrite Hr; cbn; by rewrite Ho).
    assert (sh_runs s1 !! t = Some {| rn_acc := a; rn_pc := Inserting |}) as Hr1
      by (apply runs_set_pc; right; split; [done|]; by eexists).
    assert (sh_runs (set_pc t Done s1) !! t = Some {| rn_acc := a; rn_pc := Done |}) as Hr2
      by (apply runs_set_pc; right; split; [done|]; by eexists).
    exists 2%nat. rewrite !run_alone_S, H1. cbn [mbind option_bind]. rewrite run_alone_S.
    unfold cpu_step at 1. rewrite Hr1. cbn [rn_pc rn_acc]. destruct acc; cbn [mbind option_bind];
      eexists; (split; [reflexivity|]; split; [exact Hr2|]); [|done].
    apply map_eq. intros key. rewrite entries_lookup. cbn [sh_table sh_elems set_pc s1].
    destruct (decide (key = ac_key a)) as [->|Hne].
    + rewrite !lookup_insert_eq. cbn. by rewrite lookup_app_r, Nat.sub_diag by done.
    + rewrite !lookup_insert_ne, entries_lookup by done. destruct (sh_table s !! key) as [o'|] eqn:Ho'; [|done]. cbn.
      destruct (Hp _ _ Ho') as [v' Hv']. rewrite lookup_app_l by (by eapply lookup_lt_Some). done.
Qed.

(** ** Any interleaving *)

(** What a run has stored of a field so far. *)
Definition stored (f : field) (r : run V field) : Z :=
  match rn_pc r with
  | Start | Inserting => 0
  | Ready _ todo => total f (ac_incs (rn_acc r)) - total f todo
  | Loaded _ _ g d todo => total f (ac_incs (rn_acc r)) - total f ((g, d) :: todo)
  | Done => total f (ac_incs (rn_acc r))
  end.
Definition key_stored (key : Z) (f : field) (rs : list (run V field)) : Z :=
  zsum (map (fun r => if decide (ac_key (rn_acc r) = key) then stored f r else 0) rs).

(** What is left to do of a run's additions, and where it points. *)
Definition run_ok (s : shared V field) (r : run V field) : Prop :=
  accounting_ok (rn_acc r) /\
  match rn_pc r with
  | Ready o todo => points s o (ac_key (rn_acc r)) /\ exists done_, ac_incs (rn_acc r) = done_ ++ todo
  | Loaded o old f d todo =>
      points s o (ac_key (rn_acc r)) /\ (exists done_, ac_incs (rn_acc r) = done_ ++ (f, d) :: todo) /\
      0 <= old <= key_stored (ac_key (rn_acc r)) f (sh_runs s)
  | _ => True
  end.

Record race_inv (s : shared V field) : Prop := {
  ri_table : table_points s;
  ri_runs : forall t r, sh_runs s !! t = Some r -> run_ok s r;
  ri_elems : forall o key v f, sh_elems s !! o = Some (key, v) -> 0 <= counter f v <= key_stored key f (sh_runs s) }.

Lemma total_cons (f : field) (i : field * Z) incs : total f (i :: incs) = (if decide (i.1 = f) then i.2 else 0) + total f incs.
Proof. reflexivity. Qed.
Lemma total_app (f : field) l l' : total f (l ++ l') = total f l + total f l'.
Proof. unfold total. by rewrite map_app, zsum_app. Qed.
Lemma total_nonneg (f : field) l : Forall (fun i : field * Z => 0 <= i.2) l -> 0 <= total f l.
Proof. induction 1 as [|i l Hi _ IH]; [done|]. rewrite total_cons. case_decide; lia. Qed.

Lemma stored_range s r f : run_ok s r -> 0 <= stored f r <= total f (ac_incs (rn_acc r)).
Proof.
  intros [[Ha _] Hr]. pose proof (total_nonneg f _ Ha) as Ht. unfold stored. destruct (rn_pc r); try lia.
  - destruct Hr as [_ [l Hl]]. rewrite Hl in *. rewrite total_app in *. apply Forall_app in Ha as [H1 H2].
    pose proof (total_nonneg f _ H1). pose proof (total_nonneg f _ H2). lia.
  - destruct Hr as [_ [[l Hl] _]]. rewrite Hl in *. rewrite total_app in *. apply Forall_app in Ha as [H1 H2].
    pose proof (total_nonneg f _ H1). pose proof (total_nonneg f _ H2). lia.
Qed.

Lemma key_stored_alter key f g t rs r :
  rs !! t = Some r ->
  key_stored key f (alter g t rs) = key_stored key f rs
    + ((if decide (ac_key (rn_acc (g r)) = key) then stored f (g r) else 0)
       - (if decide (ac_key (rn_acc r) = key) then stored f r else 0)).
Proof.
  unfold key_stored. revert t. induction rs as [|r' rs IH]; intros [|t] Hr; [done|done| |].
  - injection Hr as ->. change (alter g 0%nat (r :: rs)) with (g r :: rs). cbn [map]. rewrite !zsum_cons. lia.
  - change (alter g (S t) (r' :: rs)) with (r' :: alter g t rs). cbn [map]. rewrite !zsum_cons, IH by done. lia.
Qed.

(** A step of a run stores more of its key's fields, and of no others. *)
Lemma key_stored_step key f t p s r :
  sh_runs s !! t = Some r ->
  key_stored key f (sh_runs (set_pc t p s)) = key_stored key f (sh_runs s) +
    (if decide (ac_key (rn_acc r) = key) then stored f {| rn_acc := rn_acc r; rn_pc := p |} - stored f r else 0).
Proof.
  intros Hr. cbn [set_pc sh_runs]. rewrite (key_stored_alter key f _ t _ r) by done. cbn [rn_acc]. case_decide; lia.
Qed.
Definition stores_more (r : run V field) (p : pc) : Prop :=
  forall f, stored f r <= stored f {| rn_acc := rn_acc r; rn_pc := p |}.
Lemma key_stored_mono t p s r :
  sh_runs s !! t = Some r -> stores_more r p ->
  forall key f, key_stored key f (sh_runs s) <= key_stored key f (sh_runs (set_pc t p s)).
Proof. intros Hr Hp key f. rewrite (key_stored_step key f t p s r Hr). specialize (Hp f). case_decide; lia. Qed.

Lemma run_ok_mono s s' r :
  (forall o key, points s o key -> points s' o key) ->
  (forall key f, key_stored key f (sh_runs s) <= key_stored key f (sh_runs s')) -> run_ok s r -> run_ok s' r.
Proof.
  intros Hp Hk [Ha Hr]. split; [done|]. destruct (rn_pc r); try done.
  - destruct Hr as [H1 H2]. auto.
  - destruct Hr as (H1 & H2 & H3). split; [auto|]. split; [done|].
    specialize (Hk (ac_key (rn_acc r)) f). lia.
Qed.

(** The invariant of a step, from what it does to the run that moves. *)
Lemma runs_ok_step s s' t p r :
  race_inv s -> sh_runs s !! t = Some r -> stores_more r p -> sh_runs s' = sh_runs (set_pc t p s) ->
  (forall o key, points s o key -> points s' o key) -> run_ok s' {| rn_acc := rn_acc r; rn_pc := p |} ->
  forall t' r', sh_runs s' !! t' = Some r' -> run_ok s' r'.
Proof.
  intros Hi Hr Hp Hs Hpt Hok t' r' Hr'. rewrite Hs in Hr'.
  apply runs_set_pc in Hr' as [[Hne Hr']|(-> & r0 & Hr0 & ->)].
  - eapply run_ok_mono; [exact Hpt| |by eapply ri_runs]. rewrite Hs. by eapply key_stored_mono.
  - by simplify_eq.
Qed.

Lemma race_inv_move s t p r :
  race_inv s -> sh_runs s !! t = Some r -> stores_more r p ->
  run_ok (set_pc t p s) {| rn_acc := rn_acc r; rn_pc := p |} -> race_inv (set_pc t p s).
Proof.
  intros Hi Hr Hp Hok. constructor.
  - exact (ri_table _ Hi).
  - by apply (runs_ok_step s _ t p r).
  - intros o key v f Hv. pose proof (ri_elems _ Hi o key v f Hv) as H.
    pose proof (key_stored_mono t p s r Hr Hp key f). lia.
Qed.

Lemma wrapping_add_le x y : 0 <= x -> 0 <= y -> 0 <= wrapping_add x y <= x + y.
Proof.
  intros Hx Hy. unfold wrapping_add, as_u64. split; [by apply Z.mod_pos_bound|]. apply Z.mod_le; lia.
Qed.

Lemma race_inv_store s t o old f d todo r :
  race_inv s -> sh_runs s !! t = Some r -> rn_pc r = Loaded o old f d todo ->
  race_inv {| sh_table := sh_table s;
    sh_elems := alter (fun e => (e.1, set_counter f (wrapping_add old d) e.2)) o (sh_elems s);
    sh_runs := sh_runs (set_pc t (Ready o todo) s) |}.
Proof.
  intros Hi Hr Hpc. pose proof (ri_runs _ Hi t r Hr) as Hok. pose proof Hok as [[Ha Hf] Hrest]. rewrite Hpc in Hrest.
  destruct Hrest as (Hpt & (l & Hl) & Hold). set (s' := {| sh_table := _ |}).
  assert (0 <= d) as Hd.
  { rewrite Hl in Ha. apply Forall_app in Ha as [_ Ha]. by apply Forall_cons in Ha as [? _]. }
  assert (forall g, stored g {| rn_acc := rn_acc r; rn_pc := Ready o todo |} = stored g r + (if decide (f = g) then d else 0)) as Hst.
  { intros g. unfold stored. rewrite Hpc. cbn [rn_pc rn_acc]. rewrite total_cons. cbn [fst snd]. case_decide; lia. }
  assert (stores_more r (Ready o todo)) as Hmore by (intros g; rewrite Hst; case_decide; lia).
  assert (forall o' key, points s o' key -> points s' o' key) as Hpts.
  { intros o' key [v Hv]. unfold points. cbn [s' sh_elems]. destruct (decide (o' = o)) as [->|Hne].
    - rewrite list_lookup_alter_eq, Hv. cbn. by eexists.
    - rewrite list_lookup_alter_ne by done. by exists v. }
  constructor.
  - intros key o' Ho'. by apply Hpts, (ri_table _ Hi).
  - apply (runs_ok_step s s' t (Ready o todo) r); [done..|]. split; [done|]. split; [by apply Hpts|].
    exists (l ++ [(f, d)]). by rewrite <- app_assoc.
  - intros o' key v g Hv. cbn [s' sh_elems sh_runs] in Hv |- *.
    assert (forall key g, key_stored key g (sh_runs (set_pc t (Ready o todo) s)) = key_stored key g (sh_runs s) +
      (if decide (ac_key (rn_acc r) = key) then if decide (f = g) then d else 0 else 0)) as Hks.
    { intros key' g'. rewrite (key_stored_step key' g' t _ s r Hr), Hst. case_decide; [case_decide|]; lia. }
    rewrite Hks. destruct (decide (o' = o)) as [->|Hne].
    + rewrite list_lookup_alter_eq in Hv. destruct Hpt as [v0 Hv0]. rewrite Hv0 in Hv. cbn in Hv. injection Hv as <- <-.
      rewrite decide_True by done. destruct (decide (f = g)) as [<-|Hfg].
      * rewrite counter_set. pose proof (wrapping_add_le old d ltac:(lia) Hd). lia.
      * rewrite counter_set_ne by done. pose proof (ri_elems _ Hi _ _ _ g Hv0). lia.
    + rewrite list_lookup_alter_ne in Hv by done. pose proof (ri_elems _ Hi _ _ _ g Hv). repeat case_decide; lia.
Qed.

Lemma race_inv_insert s t r :
  race_inv s -> sh_runs s !! t = Some r -> rn_pc r = Inserting ->
  race_inv {| sh_table := <[ac_key (rn_acc r) := length (sh_elems s)]> (sh_table s);
    sh_elems := sh_elems s ++ [(ac_key (rn_acc r), ac_fresh (rn_acc r))]; sh_runs := sh_runs (set_pc t Done s) |}.
Proof.
  intros Hi Hr Hpc. pose proof (ri_runs _ Hi t r Hr) as [[Ha Hf] _]. set (s' := {| sh_table := _ |}).
  assert (stores_more r Done) as Hmore.
  { intros g. unfold stored. rewrite Hpc. cbn. by apply total_nonneg. }
  assert (forall o' key, points s o' key -> points s' o' key) as Hpts.
  { intros o' key [v Hv]. exists v. cbn [s' sh_elems]. by apply lookup_app_l_Some. }
  constructor.
  - intros key o' Ho'. cbn [s' sh_table] in Ho'. apply lookup_insert_Some in Ho' as [[<- <-]|[_ Ho']].
    + exists (ac_fresh (rn_acc r)). cbn [s' sh_elems]. by rewrite lookup_app_r, Nat.sub_diag by done.
    + by apply Hpts, (ri_table _ Hi).
  - by apply (runs_ok_step s s' t Done r).
  - intros o' key v g Hv. cbn [s' sh_elems sh_runs] in Hv |- *. rewrite (key_stored_step key g t Done s r Hr).
    unfold stored. rewrite Hpc. cbn [rn_pc rn_acc]. pose proof (total_nonneg g _ Ha) as Ht.
    apply lookup_app_Some in Hv as [Hv|[Hlen Hv]].
    + pose proof (ri_elems _ Hi _ _ _ g Hv). case_decide; lia.
    + apply list_lookup_singleton_Some in Hv as [_ [= <- <-]]. rewrite decide_True, Hf by done.
      enough (0 <= key_stored (ac_key (rn_acc r)) g (sh_runs s)) by lia.
      unfold key_stored. assert (forall r', r' ∈ sh_runs s -> 0 <= stored g r') as Hn.
      { intros r' [t' Hr']%list_elem_of_lookup_1. eapply stored_range. by eapply ri_runs. }
      clear -Hn. induction (sh_runs s) as [|r' rs IH]; [done|]. cbn [map]. rewrite zsum_cons.
      pose proof (Hn r' ltac:(left)). assert (0 <= zsum (map (fun r0 : run V field =>
        if decide (ac_key (rn_acc r0) = ac_key (rn_acc r)) then stored g r0 else 0) rs))
        by (apply IH; intros; apply Hn; by right). case_decide; lia.
Qed.

Lemma cpu_step_inv t acc s s' : cpu_step t acc s = Some s' -> race_inv s -> race_inv s'.
Proof.
  intros Hs Hi. unfold cpu_step in Hs. destruct (sh_runs s !! t) as [r|] eqn:Hr; [|done].
  pose proof (ri_runs _ Hi t r Hr) as Hok. pose proof (stored_range s r) as Hst. pose proof Hok as [Ha Hrest].
  destruct (rn_pc r) as [|o [|[f d] todo]|o old f d todo| |] eqn:Hpc.
  - destruct (sh_table s !! ac_key (rn_acc r)) as [o|] eqn:Ho; injection Hs as <-;
      (apply race_inv_move with r; [done|done| |]).
    + intros f. unfold stored. rewrite Hpc. cbn. lia.
    + split; [done|]. split; [by apply (ri_table _ Hi)|]. by exists [].
    + intros f. unfold stored. rewrite Hpc. cbn. lia.
    + done.
  - injection Hs as <-. apply race_inv_move with r; [done|done| |done].
    intros f. specialize (Hst f Hok). unfold stored in *. rewrite Hpc in *. cbn in *. lia.
  - destruct (sh_elems s !! o) as [[key v]|] eqn:He; [|done]. injection Hs as <-. destruct Hrest as [Hpt Hl].
    apply race_inv_move with r; [done|done| |].
    + intros g. unfold stored. rewrite Hpc. cbn [rn_pc rn_acc]. lia.
    + split; [done|]. split; [done|]. split; [done|]. destruct Hpt as [v' Hv']. rewrite He in Hv'. injection Hv' as -> ->.
      pose proof (ri_elems _ Hi _ _ _ f He) as H. cbn [snd rn_acc].
      rewrite (key_stored_step _ f t _ s r Hr), decide_True by done. unfold stored. rewrite Hpc. cbn [rn_pc rn_acc]. lia.
  - injection Hs as <-. by eapply race_inv_store.
  - destruct acc; injection Hs as <-; [by apply race_inv_insert|].
    apply race_inv_move with r; [done|done| |done].
    intros f. unfold stored. rewrite Hpc. cbn. destruct Ha as [Ha _]. by apply total_nonneg.
  - done.
Qed.

Lemma begin_runs_inv (as_ : list (accounting V field)) : Forall accounting_ok as_ -> race_inv (begin_runs as_).
Proof.
  intros Ha. constructor.
  - intros key o Ho. cbn in Ho. by rewrite lookup_empty in Ho.
  - intros t r Hr. cbn in Hr. change (map ?f ?l) with (f <$> l) in Hr. rewrite list_lookup_fmap in Hr.
    apply fmap_Some in Hr as (a & Hin & ->). split; [exact (Forall_lookup_1 _ _ _ _ Ha Hin)|done].
  - intros o key v f Hv. by apply lookup_nil in Hv || (cbn in Hv; rewrite lookup_nil in Hv).
Qed.

Lemma cpus_step_runs s s' : rtc cpus_step s s' -> map rn_acc (sh_runs s') = map rn_acc (sh_runs s).
Proof.
  intros H. induction H as [|s s1 s' (t & acc & Hs) _ IH]; [done|]. rewrite IH. clear IH.
  assert (forall p, map rn_acc (sh_runs (set_pc t p s)) = map rn_acc (sh_runs s)) as Hset.
  { intros p. cbn. generalize (sh_runs s). intros rs. revert t Hs. clear. intros t _. revert t.
    induction rs as [|r rs IH]; intros [|t]; cbn; [done|done|done|]. f_equal. apply IH. }
  unfold cpu_step in Hs. destruct (sh_runs s !! t) as [r|]; [|done].
  destruct (rn_pc r) as [|o [|[f d] todo]|o old f d todo| |]; try case_match; simplify_eq; cbn [sh_runs]; apply Hset.
Qed.

(** No interleaving counts anything twice. *)
Lemma entries_bounded (as_ : list (accounting V field)) s key v f :
  Forall accounting_ok as_ -> rtc cpus_step (begin_runs as_) s -> entries s !! key = Some v ->
  0 <= counter f v <= key_total key f as_.
Proof.
  intros Ha Hr Hv.
  assert (race_inv s) as Hi.
  { eapply (rtc_ind_r race_inv (begin_runs as_)); [by apply begin_runs_inv| |exact Hr].
    intros x y _ (t & acc & Hs) Hx. by eapply cpu_step_inv. }
  rewrite entries_lookup in Hv. apply bind_Some in Hv as (o & Ho & Hv). apply fmap_Some in Hv as ([k v'] & He & ->).
  destruct (ri_table _ Hi _ _ Ho) as [v Hv]. rewrite He in Hv. injection Hv as -> ->. cbn [snd].
  pose proof (ri_elems _ Hi _ _ _ f He) as Hb.
  enough (key_stored key f (sh_runs s) <= key_total key f as_) by lia.
  assert (as_ = map rn_acc (sh_runs s)) as ->.
  { rewrite (cpus_step_runs _ _ Hr). cbn. rewrite map_map. cbn. by rewrite List.map_id. }
  unfold key_stored, key_total. rewrite map_map.
  assert (forall r, r ∈ sh_runs s -> stored f r <= total f (ac_incs (rn_acc r))) as Hle.
  { intros r [t' Hr']%list_elem_of_lookup_1. eapply stored_range. by eapply ri_runs. }
  clear -Hle. induction (sh_runs s) as [|r rs IH]; [done|]. cbn [map]. rewrite !zsum_cons.
  pose proof (Hle r ltac:(left)). assert (forall r', r' ∈ rs -> stored f r' <= total f (ac_incs (rn_acc r')))
    as H' by (intros; apply Hle; by right). specialize (IH H'). case_decide; lia.
Qed.
End Theorems.

(** ** Packets and requests *)

(** A packet of a cgroup: its direction, length and class; a completed request
    of a device: whether it read, and its bytes. *)
Definition packet_accounting (p : Z * Direction * Z * bool) : accounting CgroupNetBytes net_field :=
  let '(id, dir, len, is_internet) := p in net_accounting id dir len is_internet.
Definition request_accounting (r : Z * Z * Z * bool * Z) : accounting BlockStats block_field :=
  let '(key, major, minor, is_read, nr) := r in block_accounting key major minor is_read nr.

(** C8: accounting on many CPUs never over-counts.  Let the programs that account
    packets (or completed block requests) run on any number of CPUs, interleaved at
    every map call, load and store, with inserts refused at will: at every moment
    each counter user space reads of a cgroup (of a device) is at most what the
    packets of that cgroup (the requests of that device) add up to. *)
Theorem concurrent_accounting_bounded :
  (forall ps (s : shared CgroupNetBytes net_field) id e f,
     Forall (fun p => 0 <= p.1.2) ps -> rtc cpus_step (begin_runs (map packet_accounting ps)) s ->
     entries s !! id = Some e -> 0 <= counter f e <= key_total id f (map packet_accounting ps)) /\
  (forall rs (s : shared BlockStats block_field) key e f,
     Forall (fun r => 0 <= r.2) rs -> rtc cpus_step (begin_runs (map request_accounting rs)) s ->
     entries s !! key = Some e -> 0 <= counter f e <= key_total key f (map request_accounting rs)).
Proof.
  split.
  - intros ps s id e f Hp Hr He. eapply entries_bounded; [|exact Hr|exact He]. apply Forall_map.
    eapply Forall_impl; [exact Hp|]. intros [[[i dir] len] inet] Hl. by apply net_accounting_ok.
  - intros rs s key e f Hp Hr He. eapply entries_bounded; [|exact Hr|exact He]. apply Forall_map.
    eapply Forall_impl; [exact Hp|]. intros [[[[i ma] mi] rd] nr] Hl. by apply block_accounting_ok.
Qed.

Lemma alter_entry {V} (f : V -> V) key v (m : gmap Z V) : m !! key = Some v -> alter f key m = <[key := f v]> m.
Proof.
  intros Hm. apply map_eq. intros i. destruct (decide (i = key)) as [->|Hne].
  - by rewrite lookup_alter_eq, lookup_insert_eq, Hm.
  - by rewrite lookup_alter_ne, lookup_insert_ne by done.
Qed.

Lemma hash_insert_fresh {V} c id key (v : V) (m : gmap Z V) :
  m !! key = None -> hash_insert_ c id key v m = if cx_update c id false (size m) then <[key := v]> m else m.
Proof.
  intros Hm. unfold hash_insert_, hash_insert. rewrite Hm, bool_decide_eq_false_2 by (by intros [? ?]). by case_match.
Qed.

(** C19: undisturbed, the accounting is the program's.  A run on one CPU, during
    which no other CPU touches the map, ends, and has made of the entries
    exactly what [account_cgroup], [account_pid] or [update_block_stats] make of the
    map; so the totals proved of those hold as long as no two programs are at one
    entry at a time. *)
Theorem undisturbed_accounting (c : ctx) (k : kernel) t :
  (forall (s : shared CgroupNetBytes net_field) skb dir,
     let a := net_accounting (cx_cgroup_id c) dir (skb_len skb) (classify_internet skb dir) in
     let acc := cx_update c NET_CGROUP_STATS_map (bool_decide (is_Some (NET_CGROUP_STATS k !! cx_cgroup_id c)))
                  (size (NET_CGROUP_STATS k)) in
     cx_cgroup_id c <> 0 -> table_points s -> entries s = NET_CGROUP_STATS k ->
     sh_runs s !! t = Some {| rn_acc := a; rn_pc := Start |} ->
     exists n s', run_alone n t acc s = Some s' /\ sh_runs s' !! t = Some {| rn_acc := a; rn_pc := Done |} /\
       entries s' = NET_CGROUP_STATS (account_cgroup c skb dir k)) /\
  (forall (s : shared CgroupNetBytes net_field) pid len (is_rx is_internet : bool),
     let a := net_accounting pid (if is_rx then Rx else Tx) len is_internet in
     let acc := cx_update c NET_CGROUP_STATS_map (bool_decide (is_Some (NET_CGROUP_STATS k !! pid)))
                  (size (NET_CGROUP_STATS k)) in
     table_points s -> entries s = NET_CGROUP_STATS k ->
     sh_runs s !! t = Some {| rn_acc := a; rn_pc := Start |} ->
     exists n s', run_alone n t acc s = Some s' /\ sh_runs s' !! t = Some {| rn_acc := a; rn_pc := Done |} /\
       entries s' = NET_CGROUP_STATS (account_pid c pid len is_rx is_internet k)) /\
  (forall (s : shared BlockStats block_field) key major minor (is_read : bool) nr,
     let a := block_accounting key major minor is_read nr in
     let acc := cx_update c BLOCK_STATS_map (bool_decide (is_Some (BLOCK_STATS k !! key))) (size (BLOCK_STATS k)) in
     table_points s -> entries s = BLOCK_STATS k ->
     sh_runs s !! t = Some {| rn_acc := a; rn_pc := Start |} ->
     exists n s', run_alone n t acc s = Some s' /\ sh_runs s' !! t = Some {| rn_acc := a; rn_pc := Done |} /\
       entries s' = BLOCK_STATS (update_block_stats c key major minor is_read nr k)).
Proof.
  split; [|split].
  - intros s skb dir a acc Hc Hp He Hr. destruct (alone_accounts t acc a s Hp Hr) as (n & s' & Hn & Hd & He').
    exists n, s'. split; [done|]. split; [done|]. rewrite He', He. unfold account_cgroup, account. cbn [ac_key a net_accounting].
    apply Z.eqb_neq in Hc. rewrite Hc. unfold acc. destruct (NET_CGROUP_STATS k !! cx_cgroup_id c) as [v|] eqn:Hv; cbn.
    + rewrite (alter_entry _ _ v) by done. f_equal. exact (net_incs_add (cx_cgroup_id c) _ _ _ v).
    + by rewrite hash_insert_fresh.
  - intros s pid len is_rx inet a acc Hp He Hr. destruct (alone_accounts t acc a s Hp Hr) as (n & s' & Hn & Hd & He').
    exists n, s'. split; [done|]. split; [done|]. rewrite He', He. unfold account_pid, account. cbn [ac_key a net_accounting].
    unfold acc. destruct (NET_CGROUP_STATS k !! pid) as [v|] eqn:Hv; cbn.
    + rewrite (alter_entry _ _ v) by done. f_equal. exact (net_incs_add pid _ _ _ v).
    + by rewrite hash_insert_fresh.
  - intros s key major minor is_read nr a acc Hp He Hr. destruct (alone_accounts t acc a s Hp Hr) as (n & s' & Hn & Hd & He').
    exists n, s'. split; [done|]. split; [done|]. rewrite He', He. unfold update_block_stats, account. cbn [ac_key a block_accounting].
    unfold acc. destruct (BLOCK_STATS k !! key) as [v|] eqn:Hv; cbn.
    + rewrite (alter_entry _ _ v) by done. f_equal. exact (block_incs_add key major minor _ _ v).
    + by rewrite hash_insert_fresh.
Qed.

(** ** Two packets at once *)

(** Moves by the number of the run that makes them; every insert is taken. *)
Definition run_cpus {V field} `{Counters V field} (ts : list nat) (s : shared V field) : option (shared V field) :=
  foldl (fun o t => o ≫= cpu_step t true) (Some s) ts.
Lemma run_cpus_steps {V field} `{Counters V field} ts (s s' : shared V field) :
  run_cpus ts s = Some s' -> rtc cpus_step s s'.
Proof.
  revert s s'. induction ts as [|t ts IH] using rev_ind; intros s s' Hs; [by injection Hs as <-|].
  unfold run_cpus in Hs. rewrite foldl_app in Hs. apply bind_Some in Hs as (s1 & H1 & H2).
  eapply rtc_r; [by eapply IH|]. by exists t, true.
Qed.

Definition ended {V field} (r : run V field) : bool := match rn_pc r with Done => true | _ => false end.

(** Three received packets of one cgroup; the second and the third begin together. *)
Definition demo_packets : list (Z * Direction * Z * bool) := [(7, Rx, 60, false); (7, Rx, 100, false); (7, Rx, 40, true)].

(** A plain load and store is not atomic: of the second and the third packet
    one is lost, though all three programs have ended. *)
Example concurrent_packets_lost :
  match run_cpus [0; 0; 1; 2; 1; 2; 1; 2; 1; 2; 1; 2; 1; 2; 2; 2]%nat (begin_runs (map packet_accounting demo_packets)) with
  | Some s => map ended (sh_runs s) = [true; true; true] /\
      (fun e => (cg_rx_bytes e, cg_rx_packets e, cg_rx_internet_bytes e)) <$> entries s !! 7 = Some (100, 2, 40)
  | None => False
  end.
Proof. vm_compute. split; reflexivity. Qed.
(** So is the insert: of two first packets one is lost. *)
Example concurrent_first_packets_lost :
  match run_cpus [1; 2; 1; 2]%nat (begin_runs (map packet_accounting demo_packets)) with
  | Some s => map ended (sh_runs s) = [false; true; true] /\
      (fun e => (cg_rx_bytes e, cg_rx_packets e)) <$> entries s !! 7 = Some (40, 1)
  | None => False
  end.
Proof. vm_compute. split; reflexivity. Qed.

Lemma concurrent_accounting_bounded_witness :
  exists s e, rtc cpus_step (begin_runs (map packet_accounting demo_packets)) s /\ entries s !! 7 = Some e /\
    cg_rx_bytes e <= 200 /\ cg_rx_packets e <= 3.
Proof.
  set (s0 := begin_runs (map packet_accounting demo_packets)).
  assert (match run_cpus [0; 0; 1; 2; 1; 1; 2; 1; 2; 1; 2]%nat s0 with Some s => bool_decide (is_Some (entries s !! 7)) | None => false end = true)
    as H by (vm_compute; reflexivity).
  destruct (run_cpus [0; 0; 1; 2; 1; 1; 2; 1; 2; 1; 2]%nat s0) as [s|] eqn:E; [|discriminate H].
  apply bool_decide_eq_true in H as [e He]. exists s, e. apply run_cpus_steps in E. split; [exact E|]. split; [exact He|].
  assert (Forall (fun p : Z * Direction * Z * bool => 0 <= p.1.2) demo_packets) as Hp
    by (repeat (apply Forall_cons; split; [cbn; lia|]); constructor).
  split.
  - exact (proj2 (proj1 concurrent_accounting_bounded demo_packets s 7 e RxBytes Hp E He)).
  - exact (proj2 (proj1 concurrent_accounting_bounded demo_packets s 7 e RxPackets Hp E He)).
Defined.

Lemma undisturbed_accounting_witness :
  let c := ideal_ctx 0 100 7 7 [] in
  let k := (kernel_init 1) <| BLOCK_STATS := ∅ |> in
  let s := begin_runs [block_accounting 5 1 2 true 512] in
  exists n s', run_alone n 0 true s = Some s' /\ entries s' = BLOCK_STATS (update_block_stats c 5 1 2 true 512 k).
Proof.
  intros c k s.
  destruct (proj2 (proj2 (undisturbed_accounting c k 0)) s 5 1 2 true 512) as (n & s' & Hn & _ & He).
  - intros key o Ho. cbn in Ho. by rewrite lookup_empty in Ho.
  - reflexivity.
  - reflexivity.
  - exists n, s'. split; [exact Hn|exact He].
Defined.
