(* ===== verification/Kernel.v ===== *)
(** The kernel side as a whole: every program of [agl-health-ebpf] as a step on
    the shared maps, the invariant every step preserves and its consequences
    for what user space can read. *)
From S2P Require Import Prelude Float Types Layout Pods Bpf Stats Scheduler Process Fileio Memory Cpu Block Network Netproc Security.

(** ** Programs as steps

    A hook firing carries the arguments the kernel passes to the program. *)
Inductive hook :=
  (* both builds *)
  | H_do_exit (code : option Z)
  | H_vfs_read (count : option Z)
  | H_vfs_write (count : option Z)
  | H_handle_mm_fault (flags : option Z)
  | H_oom_kill_process
  | H_irq_handler_entry | H_irq_handler_exit
  | H_softirq_entry | H_softirq_exit
  | H_netif_receive_skb | H_net_dev_xmit | H_tcp_retransmit_skb
  (* BTF build *)
  | H_sched_wakeup (p : task_struct)
  | H_sched_switch (prev next : task_struct) (prev_state : Z)
  | H_sched_process_exec | H_sched_process_exit
  | H_sched_process_fork (parent child : task_struct)
  | H_block_rq_complete (rq : request) (nr_bytes : Z)
  | H_inet_sock_set_state (newstate : Z)
  | H_kfree_skb (reason : Z)
  | H_cgroup_skb_ingress (skb : SkBuff)
  | H_cgroup_skb_egress (skb : SkBuff)
  | H_sys_enter_ptrace | H_sys_enter_memfd_create | H_sys_enter_setuid | H_sys_enter_prctl
  (* kernel-5-4 build *)
  | H_sched_wakeup_54 | H_sched_switch_54
  | H_sched_process_exec_54 | H_sched_process_exit_54 | H_sched_process_fork_54
  | H_block_rq_complete_54 | H_inet_sock_set_state_54 | H_kfree_skb_54
  | H_tcp_sendmsg (sk : sock_arg) (size : option Z)
  | H_tcp_cleanup_rbuf (sk : sock_arg) (copied : option Z)
  | H_sys_enter.

Definition fire (h : hook) (c : ctx) (k : kernel) : Z * kernel :=
  match h with
  | H_do_exit code => do_exit c code k
  | H_vfs_read count => vfs_read c count k
  | H_vfs_write count => vfs_write c count k
  | H_handle_mm_fault flags => handle_mm_fault c flags k
  | H_oom_kill_process => oom_kill_process c k
  | H_irq_handler_entry => irq_handler_entry c k
  | H_irq_handler_exit => irq_handler_exit c k
  | H_softirq_entry => softirq_entry c k
  | H_softirq_exit => softirq_exit c k
  | H_netif_receive_skb => netif_receive_skb c k
  | H_net_dev_xmit => net_dev_xmit c k
  | H_tcp_retransmit_skb => tcp_retransmit_skb c k
  | H_sched_wakeup p => sched_wakeup c p k
  | H_sched_switch prev next st => sched_switch c prev next st k
  | H_sched_process_exec => sched_process_exec c k
  | H_sched_process_exit => sched_process_exit c k
  | H_sched_process_fork parent child => sched_process_fork c parent child k
  | H_block_rq_complete rq n => block_rq_complete c rq n k
  | H_inet_sock_set_state st => inet_sock_set_state c st k
  | H_kfree_skb reason => kfree_skb c reason k
  | H_cgroup_skb_ingress skb => cgroup_skb_ingress c skb k
  | H_cgroup_skb_egress skb => cgroup_skb_egress c skb k
  | H_sys_enter_ptrace => sys_enter_ptrace c k
  | H_sys_enter_memfd_create => sys_enter_memfd_create c k
  | H_sys_enter_setuid => sys_enter_setuid c k
  | H_sys_enter_prctl => sys_enter_prctl c k
  | H_sched_wakeup_54 => sched_wakeup_54 c k
  | H_sched_switch_54 => sched_switch_54 c k
  | H_sched_process_exec_54 => sched_process_exec_54 c k
  | H_sched_process_exit_54 => sched_process_exit_54 c k
  | H_sched_process_fork_54 => sched_process_fork_54 c k
  | H_block_rq_complete_54 => block_rq_complete_54 c k
  | H_inet_sock_set_state_54 => inet_sock_set_state_54 c k
  | H_kfree_skb_54 => kfree_skb_54 c k
  | H_tcp_sendmsg sk size => tcp_sendmsg c sk size k
  | H_tcp_cleanup_rbuf sk copied => tcp_cleanup_rbuf c sk copied k
  | H_sys_enter => sys_enter c k
  end.

(** The arguments have the types the programs read them at. *)
Definition opt_ok {A} (P : A -> Prop) (o : option A) : Prop := match o with Some x => P x | None => True end.
Definition task_ok (t : task_struct) : Prop :=
  opt_ok (fun l => length l = COMM_LEN) (task_comm t).
Definition skb_ok (s : SkBuff) : Prop := is_u32 (skb_len s).
Definition hook_ok (h : hook) : Prop :=
  match h with
  | H_vfs_read count | H_vfs_write count => opt_ok is_u64 count
  | H_sched_wakeup p => task_ok p
  | H_sched_switch prev next _ => task_ok prev /\ task_ok next
  | H_sched_process_fork parent child => task_ok parent /\ task_ok child
  | H_block_rq_complete _ n => is_u32 n
  | H_cgroup_skb_ingress skb | H_cgroup_skb_egress skb => skb_ok skb
  | H_tcp_sendmsg _ size => opt_ok is_u64 size
  | H_tcp_cleanup_rbuf _ copied => opt_ok is_i32 copied
  | _ => True
  end.

Inductive step : kernel -> kernel -> Prop :=
  | step_fire h c k : ctx_ok c -> hook_ok h -> step k (fire h c k).2
  (* user space consumes the oldest record of a buffer *)
  | step_consume_process e es k : PROCESS_EVENTS k = e :: es -> step k (k <| PROCESS_EVENTS := es |>)
  | step_consume_net e es k : NET_EVENTS k = e :: es -> step k (k <| NET_EVENTS := es |>)
  | step_consume_security e es k : SECURITY_EVENTS k = e :: es -> step k (k <| SECURITY_EVENTS := es |>).

Definition reachable (n : nat) (k : kernel) : Prop := rtc step (kernel_init n) k.

(** ** The invariant *)

Definition process_ok (pid : Z) (p : ProcessStats) : Prop := is_u32 pid /\ ps_pid p = pid /\ pod_wf p.
Definition block_ok (key : Z) (s : BlockStats) : Prop :=
  key = blk_device_major s * 2 ^ 32 + blk_device_minor s /\ pod_wf s.
Definition cgroup_ok (id : Z) (s : CgroupNetBytes) : Prop :=
  id <> 0 /\ cg_cgroup_id s = id /\ pod_wf s.
Definition hist_ok (h : SchedHistogram) : Prop :=
  pod_wf h /\ as_u64 (zsum (sh_buckets h)) = sh_total_count h.
Definition gate_ok (g : EmitGate) : Prop := length (last_ns g) = 4%nat /\ Forall is_u64 (last_ns g).
(** The kinds the programs emit. *)
Definition process_event_ok (e : ProcessEvent) : Prop :=
  pod_wf e /\ exists kind, pe_kind e = ProcessEventKind_repr kind.
Definition net_event_ok (e : NetEvent) : Prop := pod_wf e /\ ne_kind e = NetEventKind_repr SkbDrop.
Definition security_event_ok (e : SecurityEvent) : Prop :=
  pod_wf e /\ (exists kind, sev_kind e = SecurityEventKind_repr kind)
  /\ exists sev, sev_severity e = SecuritySeverity_repr sev.
Definition time_ok (tid t : Z) : Prop := is_u32 tid /\ is_u64 t.
Definition code_ok (pid code : Z) : Prop := is_u32 pid /\ is_i32 code.

Definition table_ok {V} (id : map_id) (P : Z -> V -> Prop) (m : gmap Z V) : Prop :=
  map_Forall P m /\ (size m <= max_entries id)%nat.
Definition percpu_ok {V} (n : nat) (P : V -> Prop) (l : list V) : Prop := length l = n /\ Forall P l.

Record inv (n : nat) (k : kernel) : Prop := {
  inv_process : table_ok PROCESS_STATS_map process_ok (PROCESS_STATS k);
  inv_oncpu : table_ok ONCPU_SINCE_map time_ok (ONCPU_SINCE k);
  inv_codes : table_ok EXIT_CODES_map code_ok (EXIT_CODES k);
  inv_drops : percpu_ok n pod_wf (EVENT_DROPS k);
  inv_wakeup : table_ok WAKEUP_TIMES_map time_ok (WAKEUP_TIMES k);
  inv_hist : percpu_ok n hist_ok (SCHED_HISTOGRAM k);
  inv_pevents : Forall process_event_ok (PROCESS_EVENTS k);
  inv_pscratch : percpu_ok n pod_wf (PROCESS_EVENT_SCRATCH k);
  inv_memory : percpu_ok n pod_wf (MEMORY_STATS k);
  inv_cpu : percpu_ok n pod_wf (CPU_STATS k);
  inv_irq : percpu_ok n is_u64 (IRQ_ENTRY_TS k);
  inv_softirq : percpu_ok n is_u64 (SOFTIRQ_ENTRY_TS k);
  inv_block : table_ok BLOCK_STATS_map block_ok (BLOCK_STATS k);
  inv_nevents : Forall net_event_ok (NET_EVENTS k);
  inv_nscratch : percpu_ok n pod_wf (NET_EVENT_SCRATCH k);
  inv_iface : percpu_ok n pod_wf (NET_IFACE_STATS k);
  inv_tcp : percpu_ok n pod_wf (TCP_STATE k);
  inv_cgroup : table_ok NET_CGROUP_STATS_map cgroup_ok (NET_CGROUP_STATS k);
  inv_sevents : Forall security_event_ok (SECURITY_EVENTS k);
  inv_sscratch : percpu_ok n pod_wf (SEC_EVENT_SCRATCH k);
  inv_counts : percpu_ok n pod_wf (SECURITY_COUNTS k);
  inv_gate : percpu_ok n gate_ok (SEC_EMIT_GATE k) }.

(** *** Preservation by map operations *)
Section Tables.
Context {V : Type} (id : map_id) (P : Z -> V -> Prop).
Lemma table_insert c k v m :
  ctx_ok c -> P k v -> table_ok id P m -> table_ok id P (hash_insert_ c id k v m).
Proof. intros Hc Hv [Hm Hs]. split; eauto with bpf. Qed.
Lemma table_remove c k m : table_ok id P m -> table_ok id P (hash_remove c id k m).
Proof. intros [Hm Hs]. split; eauto with bpf. Qed.
Lemma table_alter f k m :
  (forall v, P k v -> P k (f v)) -> table_ok id P m -> table_ok id P (alter f k m).
Proof. intros Hf [Hm Hs]. split; [by apply alter_forall|by rewrite alter_size]. Qed.
Lemma table_lookup k v m : table_ok id P m -> m !! k = Some v -> P k v.
Proof. intros [Hm _] Hk. by apply (Hm k v). Qed.
End Tables.
Lemma percpu_write {V} n (P : V -> Prop) c f l :
  (forall v, P v -> P (f v)) -> percpu_ok n P l -> percpu_ok n P (cpu_write c f l).
Proof. intros Hf [Hl HP]. split; [by rewrite length_cpu_write|by apply cpu_write_forall]. Qed.
Lemma percpu_lookup {V} n (P : V -> Prop) c l v : percpu_ok n P l -> cpu_slot c l = Some v -> P v.
Proof. intros [_ HP] Hv. by apply (Forall_lookup_1 _ _ _ _ HP Hv). Qed.
Lemma events_snoc {V} (P : V -> Prop) es e : Forall P es -> P e -> Forall P (es ++ [e]).
Proof. intros. by apply Forall_app; split; [|constructor]. Qed.

(** Rebuild the invariant after an update: only the changed maps are left. *)
Ltac inv_split H := destruct H; constructor; cbn; try assumption.
Create HintDb kernel.
#[export] Hint Resolve table_insert table_remove table_alter percpu_write events_snoc : kernel.

(** Reads of the invocation context. *)
Lemma read_at_wf {T} `{Pod T} c off (x : T) : ctx_ok c -> read_at c off = Some x -> pod_wf x.
Proof.
  unfold read_at. intros Hc Hx. destruct (cx_record c off (size_of T)) as [bs|] eqn:E; simplify_eq/=.
  apply read_pod_wf. by destruct (ok_record c Hc _ _ _ E).
Qed.
Lemma read_at_int_range sz s c off z :
  (0 < sz)%nat -> ctx_ok c -> read_at_int sz s c off = Some z -> int_in_range sz s z.
Proof.
  unfold read_at_int. intros Hsz Hc Hz. destruct (cx_record c off _) as [bs|] eqn:E; simplify_eq/=.
  apply of_bytes_range; [done|]. by destruct (ok_record c Hc _ _ _ E).
Qed.

Section Preservation.
Variable n : nat.

Lemma bump_drop_inv c f k :
  (forall d, pod_wf d -> pod_wf (f d)) -> inv n k -> inv n (bump_drop c f k).
Proof.
  intros Hf Hk. unfold bump_drop. case_match; [|done]. inv_split Hk. by apply percpu_write.
Qed.
Lemma drop_process_inv c k : inv n k -> inv n (drop_process c k).
Proof. apply bump_drop_inv. intros [] ?. solve_pod. Qed.
Lemma drop_security_inv c k : inv n k -> inv n (drop_security c k).
Proof. apply bump_drop_inv. intros [] ?. solve_pod. Qed.
Lemma drop_network_inv c k : inv n k -> inv n (drop_network c k).
Proof. apply bump_drop_inv. intros [] ?. solve_pod. Qed.

Lemma update_process_inv c pid f k :
  ctx_ok c -> is_u32 pid -> (forall p, pod_wf p -> process_ok pid (f p)) ->
  inv n k -> inv n (update_process c pid f k).
Proof.
  intros Hc Hpid Hf Hk.
  assert (table_ok PROCESS_STATS_map process_ok (PROCESS_STATS (update_process c pid f k))) as Ht.
  { split; [|by apply update_process_size, Hk]. apply update_process_forall; [| |apply Hk].
    - intros p Hp. apply Hf. by apply (table_lookup _ _ _ _ _ (inv_process _ _ Hk) Hp).
    - apply Hf. solve_pod. }
  destruct (update_process_frame c pid f k) as [m Hm]. rewrite Hm in *. inv_split Hk.
Qed.

Lemma record_exec_inv c pid uid k :
  ctx_ok c -> is_u32 pid -> is_u32 uid -> inv n k -> inv n (record_exec c pid uid k).
Proof.
  intros Hc Hp Hu. rewrite record_exec_update. apply update_process_inv; [done..|].
  intros [] ?. split; [done|]. split; [done|]. solve_pod.
Qed.
Lemma set_ppid_inv c pid ppid k :
  ctx_ok c -> is_u32 pid -> is_u32 ppid -> inv n k -> inv n (set_ppid c pid ppid k).
Proof.
  intros Hc Hp Hu. rewrite set_ppid_update. apply update_process_inv; [done..|].
  intros [] ?. split; [done|]. split; [done|]. solve_pod.
Qed.
Lemma record_exit_inv c pid k : inv n k -> inv n (record_exit c pid k).
Proof. intros Hk. unfold record_exit. inv_split Hk; by apply table_remove. Qed.
Lemma record_thread_exit_inv c tid k : inv n k -> inv n (record_thread_exit c tid k).
Proof. intros Hk. unfold record_thread_exit. inv_split Hk; by apply table_remove. Qed.
Lemma stash_exit_code_inv c pid code k :
  ctx_ok c -> is_u32 pid -> is_i32 code -> inv n k -> inv n (stash_exit_code c pid code k).
Proof. intros Hc Hp Hi Hk. unfold stash_exit_code. inv_split Hk. by apply table_insert. Qed.
Lemma take_exit_code_inv c pid k code k' :
  inv n k -> take_exit_code c pid k = (code, k') -> is_i32 code /\ inv n k'.
Proof.
  intros Hk [= <- <-]. split; [|inv_split Hk; by apply table_remove].
  destruct (EXIT_CODES k !! pid) eqn:E; cbn; [|done].
  by apply (table_lookup _ _ _ _ _ (inv_codes _ _ Hk) E).
Qed.
Lemma fetch_ppid_range pid k : inv n k -> is_u32 (fetch_ppid pid k).
Proof.
  intros Hk. unfold fetch_ppid. destruct (PROCESS_STATS k !! pid) as [p|] eqn:E; [|done].
  destruct (table_lookup _ _ _ _ _ (inv_process _ _ Hk) E) as (_ & _ & Hp).
  destruct p. pod_unfold. destruct_and?. assumption.
Qed.

(** **** Scheduler *)

Lemma hist_add_ok d h : is_u64 d -> hist_ok h -> hist_ok (hist_add d h).
Proof.
  intros Hd [Hwf Hsum]. destruct h as [bs cnt lat mx]. unfold hist_add.
  assert (length bs = SCHED_HIST_BUCKETS /\ Forall is_u64 bs) as [Hl Hb].
  { pod_unfold. destruct_and?. rewrite length_map in *. split; [done|]. by apply ints_u64_ok. }
  cbn -[Nat.ltb]. rewrite (proj2 (Nat.ltb_lt _ _) (bucket_of_lt d)). cbn.
  assert (Forall is_u64 (alter (fun b => wrapping_add b 1) (bucket_of d) bs)).
  { apply Forall_alter; [done|]. intros. apply wrapping_add_range. }
  split; [case_match; solve_pod; by rewrite length_map, length_alter|].
  pose proof (bucket_of_lt d). rewrite <- Hl in *. cbn in Hsum.
  case_match; cbn; by rewrite zsum_alter_wrapping, Hsum.
Qed.

Lemma update_histogram_inv c d k : is_u64 d -> inv n k -> inv n (update_histogram c d k).
Proof.
  intros Hd Hk. unfold update_histogram. case_match; [|done]. inv_split Hk.
  apply percpu_write; [|done]. intros. by apply hist_add_ok.
Qed.

Lemma charge_slice_ok pid comm st slice p :
  is_u32 pid -> comm_ok comm -> pod_wf p -> process_ok pid (charge_slice pid comm st slice p).
Proof.
  intros Hp Hc Hwf. unfold charge_slice. destruct p. cbn.
  case_match; (split; [done|]; split; [done|]; solve_pod).
Qed.

Lemma record_switch_inv c prev next pcomm ncomm st k :
  ctx_ok c -> is_u32 prev -> is_u32 next -> comm_ok pcomm -> comm_ok ncomm ->
  inv n k -> inv n (record_switch c prev next pcomm ncomm st k).
Proof.
  intros Hc Hp Hn Hpc Hnc Hk. unfold record_switch.
  pose proof (ktime_range c In_body Hc) as Ht. set (now := bpf_ktime_get_ns c In_body) in *.
  assert (inv n (switch_wait c next now k)) as Hw.
  { unfold switch_wait. case_match; [done|]. case_match eqn:E; [|done]. apply update_histogram_inv.
    - apply saturating_sub_range; [done|]. by apply (table_lookup _ _ _ _ _ (inv_wakeup _ _ Hk) E).
    - inv_split Hk. by apply table_remove. }
  assert (inv n (switch_slice c prev pcomm st now (switch_wait c next now k))) as Hs.
  { unfold switch_slice. case_match; [done|]. case_match; [|done].
    apply update_process_inv; [done|done|intros; by apply charge_slice_ok|].
    inv_split Hw. by apply table_remove. }
  unfold switch_in. case_match; [done|].
  assert (inv n (update_process c next (fun p => p <| ps_pid := next |> <| ps_comm := ncomm |>)
    (switch_slice c prev pcomm st now (switch_wait c next now k)))) as Hu.
  { apply update_process_inv; [done..| |done]. intros [] ?. split; [done|]. split; [done|]. solve_pod. }
  inv_split Hu. by apply table_insert.
Qed.

Lemma map_as_u8_ok l : length l = COMM_LEN -> comm_ok (map as_u8 l).
Proof.
  intros Hl. split; [by rewrite length_map|]. apply Forall_fmap, Forall_true.
  intros x. apply Z.mod_pos_bound. done.
Qed.

Lemma sched_switch_inv c prev next st k :
  ctx_ok c -> task_ok prev -> task_ok next -> inv n k -> inv n (sched_switch c prev next st k).2.
Proof.
  unfold sched_switch, try_switch_btf, run_result, task_ok. intros Hc Hp Hn Hk.
  destruct (task_pid prev), (task_pid next), (task_comm prev), (task_comm next); cbn in *; try done.
  apply record_switch_inv; auto using as_u32_range, map_as_u8_ok.
Qed.

Lemma wakeup_inv c pid k :
  ctx_ok c -> is_u32 pid -> inv n k ->
  inv n (k <| WAKEUP_TIMES ::= hash_insert_ c WAKEUP_TIMES_map pid (bpf_ktime_get_ns c In_body) |>).
Proof.
  intros Hc Hp Hk. inv_split Hk. apply table_insert; [done| |done]. split; [done|]. by apply ktime_range.
Qed.

Lemma sched_switch_54_inv c k : ctx_ok c -> inv n k -> inv n (sched_switch_54 c k).2.
Proof.
  unfold sched_switch_54. intros Hc Hk.
  destruct (read_at c 0) as [a|] eqn:E; [|done]. apply read_at_wf in E; [|done].
  destruct a. pod_unfold. destruct_and?. rewrite length_map in *.
  apply record_switch_inv; try done; (split; [done|by apply ints_u8_ok]).
Qed.

(** **** Lifecycle events *)

Lemma basic_event_wf c kind pid ppid uid code :
  ctx_ok c -> is_u32 pid -> is_u32 ppid -> is_u32 uid -> is_i32 code ->
  pod_wf (basic_event c kind pid ppid uid code).
Proof. intros. unfold basic_event. destruct kind; solve_pod; split; vm_compute; congruence. Qed.

Lemma basic_event_ok c kind pid ppid uid code :
  ctx_ok c -> is_u32 pid -> is_u32 ppid -> is_u32 uid -> is_i32 code ->
  process_event_ok (basic_event c kind pid ppid uid code).
Proof. intros. split; [by apply basic_event_wf|by exists kind]. Qed.

Lemma emit_basic_inv c kind pid ppid uid code k r k' :
  ctx_ok c -> is_u32 pid -> is_u32 ppid -> is_u32 uid -> is_i32 code -> inv n k ->
  emit_basic c kind pid ppid uid code k = (r, k') -> inv n k'.
Proof.
  unfold emit_basic. intros ? ? ? ? ? Hk. case_match; intros [= <- <-]; [|by apply drop_process_inv].
  inv_split Hk. apply events_snoc; [done|]. by apply basic_event_ok.
Qed.

Lemma emit_basic_perf_inv c kind pid ppid uid code k r k' :
  ctx_ok c -> is_u32 pid -> is_u32 ppid -> is_u32 uid -> is_i32 code -> inv n k ->
  emit_basic_perf c kind pid ppid uid code k = (r, k') -> inv n k'.
Proof.
  unfold emit_basic_perf. intros ? ? ? ? ? Hk.
  case_match; intros [= <- <-]; [|by apply drop_process_inv].
  pose proof (basic_event_wf c kind pid ppid uid code) as Hev.
  case_match; inv_split Hk; try (apply percpu_write; auto).
  apply events_snoc; [done|]. by apply basic_event_ok.
Qed.

Lemma is_i32_0 : is_i32 0.
Proof. done. Qed.

Lemma sched_process_exec_inv c k : ctx_ok c -> inv n k -> inv n (sched_process_exec c k).2.
Proof.
  intros Hc Hk. unfold sched_process_exec.
  assert (inv n (record_exec c (current_tgid c) (current_uid c) k)) as Hk'
    by (apply record_exec_inv; auto with pod).
  destruct (emit_basic _ _ _ _ _ _ _) as [r k'] eqn:E.
  eapply emit_basic_inv in E; eauto using is_i32_0, fetch_ppid_range with pod.
Qed.

Lemma sched_process_exit_inv c k : ctx_ok c -> inv n k -> inv n (sched_process_exit c k).2.
Proof.
  intros Hc Hk. unfold sched_process_exit.
  destruct (take_exit_code c (current_tgid c) k) as [code k1] eqn:E1.
  destruct (take_exit_code_inv _ _ _ _ _ Hk E1) as [Hcode Hk1]. cbn.
  apply record_thread_exit_inv. case_match; [|done].
  destruct (emit_basic _ _ _ _ _ _ _) as [r k'] eqn:E. apply record_exit_inv.
  eapply emit_basic_inv in E; eauto using fetch_ppid_range with pod.
Qed.

Lemma sched_process_fork_inv c parent child k :
  ctx_ok c -> inv n k -> inv n (sched_process_fork c parent child k).2.
Proof.
  intros Hc Hk. unfold sched_process_fork.
  destruct (emit_basic _ _ _ _ _ _ _) as [r k'] eqn:E. cbn.
  eapply emit_basic_inv in E; eauto using is_i32_0, as_u32_range with pod.
  apply set_ppid_inv; auto using as_u32_range. apply record_exec_inv; auto using as_u32_range with pod.
Qed.

Lemma sched_process_exec_54_inv c k : ctx_ok c -> inv n k -> inv n (sched_process_exec_54 c k).2.
Proof.
  intros Hc Hk. unfold sched_process_exec_54.
  destruct (read_at c 0) as [a|] eqn:Ea; [|done]. apply read_at_wf in Ea; [|done].
  assert (is_u32 (exa_pid a)) by (destruct a; pod_unfold; by destruct_and?).
  assert (inv n (record_exec c (exa_pid a) (current_uid c) k)) as Hk'
    by (apply record_exec_inv; auto with pod).
  destruct (emit_basic_perf _ _ _ _ _ _ _) as [r k'] eqn:E.
  eapply emit_basic_perf_inv in E; eauto using is_i32_0, fetch_ppid_range with pod.
Qed.

Lemma sched_process_exit_54_inv c k : ctx_ok c -> inv n k -> inv n (sched_process_exit_54 c k).2.
Proof.
  intros Hc Hk. unfold sched_process_exit_54.
  destruct (take_exit_code c (current_tgid c) k) as [code k1] eqn:E1.
  destruct (take_exit_code_inv _ _ _ _ _ Hk E1) as [Hcode Hk1]. cbn.
  apply record_thread_exit_inv. case_match; [|done].
  destruct (emit_basic_perf _ _ _ _ _ _ _) as [r k'] eqn:E. apply record_exit_inv.
  eapply emit_basic_perf_inv in E; eauto using fetch_ppid_range with pod.
Qed.

Lemma sched_process_fork_54_inv c k : ctx_ok c -> inv n k -> inv n (sched_process_fork_54 c k).2.
Proof.
  intros Hc Hk. unfold sched_process_fork_54.
  destruct (read_at c 0) as [a|] eqn:Ea; [|done]. apply read_at_wf in Ea; [|done].
  assert (is_u32 (fka_parent_pid a) /\ is_u32 (fka_child_pid a)) as [Hp Hch]
    by (destruct a; pod_unfold; by destruct_and?).
  destruct (emit_basic_perf _ _ _ _ _ _ _) as [r k'] eqn:E. cbn.
  eapply emit_basic_perf_inv in E; eauto using is_i32_0 with pod.
  apply set_ppid_inv; auto. apply record_exec_inv; auto with pod.
Qed.

(** **** Counters *)

Lemma vfs_inv c (f : Z -> ProcessStats -> ProcessStats) (count : option Z) k :
  ctx_ok c ->
  (forall pid p, is_u32 pid -> pod_wf p -> process_ok pid (f pid p)) ->
  inv n k -> inv n (update_process c (current_tgid c) (f (current_tgid c)) k).
Proof. intros Hc Hf Hk. apply update_process_inv; auto with pod. Qed.

Lemma vfs_read_inv c count k : ctx_ok c -> inv n k -> inv n (vfs_read c count k).2.
Proof.
  intros Hc Hk. unfold vfs_read. case_match; [done|]. apply update_process_inv; auto with pod.
  intros [] ?. split; [apply current_tgid_range|]. split; [done|]. solve_pod.
Qed.
Lemma vfs_write_inv c count k : ctx_ok c -> inv n k -> inv n (vfs_write c count k).2.
Proof.
  intros Hc Hk. unfold vfs_write. case_match; [done|]. apply update_process_inv; auto with pod.
  intros [] ?. split; [apply current_tgid_range|]. split; [done|]. solve_pod.
Qed.
Lemma handle_mm_fault_inv c flags k : inv n k -> inv n (handle_mm_fault c flags k).2.
Proof.
  intros Hk. unfold handle_mm_fault. case_match; [done|]. case_match; [|done].
  inv_split Hk. apply percpu_write; [|done]. intros [] ?. solve_pod.
Qed.
Lemma oom_kill_process_inv c k : inv n k -> inv n (oom_kill_process c k).2.
Proof.
  intros Hk. unfold oom_kill_process. case_match; [|done].
  inv_split Hk. apply percpu_write; [|done]. intros [] ?. solve_pod.
Qed.
Lemma irq_handler_entry_inv c k : ctx_ok c -> inv n k -> inv n (irq_handler_entry c k).2.
Proof.
  intros Hc Hk. unfold irq_handler_entry. case_match; [|done].
  inv_split Hk. apply percpu_write; auto with pod.
Qed.
Lemma softirq_entry_inv c k : ctx_ok c -> inv n k -> inv n (softirq_entry c k).2.
Proof.
  intros Hc Hk. unfold softirq_entry. case_match; [|done].
  inv_split Hk. apply percpu_write; auto with pod.
Qed.
Lemma irq_handler_exit_inv c k : inv n k -> inv n (irq_handler_exit c k).2.
Proof.
  intros Hk. unfold irq_handler_exit. case_match; [|done]. case_match; [done|].
  assert (inv n (k <| IRQ_ENTRY_TS ::= cpu_write c (fun _ => 0) |>)) as Hk'
    by (inv_split Hk; by apply percpu_write).
  case_match; [done|]. case_match; [|done].
  inv_split Hk'. apply percpu_write; [|done]. intros [] ?. solve_pod.
Qed.
Lemma softirq_exit_inv c k : inv n k -> inv n (softirq_exit c k).2.
Proof.
  intros Hk. unfold softirq_exit. case_match; [|done]. case_match; [done|].
  assert (inv n (k <| SOFTIRQ_ENTRY_TS ::= cpu_write c (fun _ => 0) |>)) as Hk'
    by (inv_split Hk; by apply percpu_write).
  case_match; [done|]. case_match; [|done].
  inv_split Hk'. apply percpu_write; [|done]. intros [] ?. solve_pod.
Qed.

(** **** Network *)

Lemma netif_receive_skb_inv c k : inv n k -> inv n (netif_receive_skb c k).2.
Proof.
  intros Hk. unfold netif_receive_skb. case_match; [|done]. case_match; [|done].
  inv_split Hk. apply percpu_write; [|done]. intros [] ?. solve_pod.
Qed.
Lemma net_dev_xmit_inv c k : inv n k -> inv n (net_dev_xmit c k).2.
Proof.
  intros Hk. unfold net_dev_xmit. case_match; [|done]. case_match; [|done].
  inv_split Hk. apply percpu_write; [|done]. intros [] ?. case_match; solve_pod.
Qed.
Lemma tcp_retransmit_skb_inv c k : inv n k -> inv n (tcp_retransmit_skb c k).2.
Proof.
  intros Hk. unfold tcp_retransmit_skb. case_match; [|done].
  inv_split Hk. apply percpu_write; [|done]. intros [] ?. solve_pod.
Qed.
Lemma count_state_wf st t : pod_wf t -> pod_wf (count_state st t).
Proof. intros Ht. unfold count_state. repeat (case_match; try done). all: destruct t; solve_pod. Qed.
Lemma update_tcp_state_inv c st k : inv n k -> inv n (update_tcp_state c st k).
Proof.
  intros Hk. unfold update_tcp_state. case_match; [|done].
  inv_split Hk. apply percpu_write; [|done]. intros. by apply count_state_wf.
Qed.
Lemma inet_sock_set_state_54_inv c k : inv n k -> inv n (inet_sock_set_state_54 c k).2.
Proof. intros Hk. unfold inet_sock_set_state_54. case_match; [|done]. by apply update_tcp_state_inv. Qed.

Lemma skb_drop_event_wf c reason : ctx_ok c -> pod_wf (skb_drop_event c reason).
Proof.
  intros. unfold skb_drop_event. solve_pod. apply int_u16, Z.mod_pos_bound. done.
Qed.
Lemma skb_drop_event_ok c reason : ctx_ok c -> net_event_ok (skb_drop_event c reason).
Proof. intros. split; [by apply skb_drop_event_wf|done]. Qed.
Lemma kfree_skb_inv c reason k : ctx_ok c -> inv n k -> inv n (kfree_skb c reason k).2.
Proof.
  intros Hc Hk. unfold kfree_skb, emit_skb_drop_55. case_match; [done|].
  case_match; [|by apply drop_network_inv]. inv_split Hk. apply events_snoc; [done|].
  by apply skb_drop_event_ok.
Qed.
Lemma kfree_skb_54_inv c k : ctx_ok c -> inv n k -> inv n (kfree_skb_54 c k).2.
Proof.
  intros Hc Hk. unfold kfree_skb_54. pose proof (skb_drop_event_ok c 0 Hc) as He. pose proof (proj1 He).
  case_match; [|by apply drop_network_inv].
  assert (inv n (k <| NET_EVENT_SCRATCH ::= cpu_write c (fun _ => skb_drop_event c 0) |>)) as Hk'
    by (inv_split Hk; by apply percpu_write).
  cbn [snd]. case_match; [|done]. inv_split Hk'. by apply events_snoc.
Qed.

(** **** Block I/O *)

Lemma fresh_block_wf major minor rd nb :
  is_u32 major -> is_u32 minor -> is_u32 nb -> pod_wf (fresh_block major minor rd nb).
Proof.
  intros. assert (is_u64 nb) by (unfold is_u32, is_u64 in *; lia).
  unfold fresh_block. case_match; solve_pod.
Qed.
Lemma add_block_wf rd nb s : pod_wf s -> pod_wf (add_block rd nb s).
Proof. intros. unfold add_block. destruct s. case_match; solve_pod. Qed.

Lemma update_block_stats_inv c key major minor rd nb k :
  ctx_ok c -> is_u32 major -> is_u32 minor -> is_u32 nb -> key = major * 2 ^ 32 + minor ->
  inv n k -> inv n (update_block_stats c key major minor rd nb k).
Proof.
  intros Hc HM Hm Hnb -> Hk. unfold update_block_stats. case_match; inv_split Hk.
  - apply table_alter; [|done]. intros s [-> Hs].
    split; [by destruct s, rd|by apply add_block_wf].
  - apply table_insert; [done| |done]. split; [by destruct rd|by apply fresh_block_wf].
Qed.

Lemma block_rq_complete_inv c rq nb k :
  ctx_ok c -> is_u32 nb -> inv n k -> inv n (block_rq_complete c rq nb k).2.
Proof.
  intros Hc Hnb Hk. unfold block_rq_complete, try_complete_btf, run_result.
  destruct (rq_cmd_flags rq); [|done]. destruct (negb _ && negb _); [done|].
  destruct (rq_q rq) as [q|]; [|done]. destruct (q_disk q) as [[d|]|]; [|done|done].
  destruct (disk_major d); [|done]. destruct (disk_first_minor d); [|done].
  apply update_block_stats_inv; auto using as_u32_range. apply dev_key_eq.
Qed.

Lemma dev_54_halves dev :
  is_u32 dev -> is_u32 (Z.shiftr dev 20) /\ is_u32 (Z.land dev 0xFFFFF) /\
  Z.lor (as_u64 (Z.shiftl (Z.shiftr dev 20) 32)) (Z.land dev 0xFFFFF)
    = Z.shiftr dev 20 * 2 ^ 32 + Z.land dev 0xFFFFF.
Proof.
  unfold is_u32. intros Hd. rewrite Z.shiftr_div_pow2 by lia.
  change 0xFFFFF with (Z.ones 20). rewrite Z.land_ones by lia.
  assert (0 <= dev / 2 ^ 20 < 2 ^ 12) by (split; [apply Z.div_pos|apply Z.div_lt_upper_bound]; lia).
  pose proof (Z.mod_pos_bound dev (2 ^ 20) ltac:(done)).
  split; [lia|]. split; [lia|].
  rewrite as_u64_small by (unfold is_u64; rewrite Z.shiftl_mul_pow2; lia).
  apply lor_halves. unfold is_u32. lia.
Qed.

Lemma block_rq_complete_54_inv c k : ctx_ok c -> inv n k -> inv n (block_rq_complete_54 c k).2.
Proof.
  intros Hc Hk. unfold block_rq_complete_54.
  destruct (read_at c 0) as [a|] eqn:Ea; [|done]. apply read_at_wf in Ea; [|done].
  assert (is_u32 (bra_dev a)) as Hd by (destruct a; pod_unfold; by destruct_and?).
  destruct (dev_54_halves _ Hd) as (HM & Hm & Hkey).
  destruct (negb _ && negb _); [done|].
  apply update_block_stats_inv; auto using as_u32_range.
Qed.

(** **** Network bytes *)

Lemma add_bytes_ok dir len inet id s :
  is_u64 len -> cgroup_ok id s -> cgroup_ok id (add_bytes dir len inet s).
Proof.
  intros Hl (Hid & <- & Hs). unfold add_bytes.
  destruct s, dir, inet; (split; [done|]; split; [done|]; solve_pod).
Qed.
Lemma fresh_bytes_ok dir len inet id :
  is_u64 len -> is_u64 id -> id <> 0 -> cgroup_ok id (fresh_bytes id dir len inet).
Proof.
  intros Hl Hid Hne. unfold fresh_bytes.
  destruct dir, inet; (split; [done|]; split; [done|]; solve_pod).
Qed.

Lemma account_inv c id dir len inet k :
  ctx_ok c -> is_u64 len -> is_u64 id -> id <> 0 -> inv n k ->
  inv n match NET_CGROUP_STATS k !! id with
        | Some _ => k <| NET_CGROUP_STATS ::= alter (add_bytes dir len inet) id |>
        | None => k <| NET_CGROUP_STATS ::=
                         hash_insert_ c NET_CGROUP_STATS_map id (fresh_bytes id dir len inet) |>
        end.
Proof.
  intros Hc Hl Hid Hne Hk. case_match; inv_split Hk.
  - apply table_alter; [|done]. intros. by apply add_bytes_ok.
  - apply table_insert; [done| |done]. by apply fresh_bytes_ok.
Qed.

Lemma account_cgroup_inv c skb dir k :
  ctx_ok c -> skb_ok skb -> inv n k -> inv n (account_cgroup c skb dir k).
Proof.
  intros Hc Hs Hk. unfold account_cgroup. destruct (Z.eqb_spec (cx_cgroup_id c) 0); [done|].
  apply account_inv; auto; [|by apply ok_cgroup_id]. unfold skb_ok, is_u32, is_u64 in *. lia.
Qed.

Lemma account_pid_inv c pid len rx inet k :
  ctx_ok c -> is_u64 len -> is_u64 pid -> pid <> 0 -> inv n k ->
  inv n (account_pid c pid len rx inet k).
Proof. apply account_inv. Qed.

Lemma tcp_sendmsg_inv c sk size k :
  ctx_ok c -> opt_ok is_u64 size -> inv n k -> inv n (tcp_sendmsg c sk size k).2.
Proof.
  intros Hc Hs Hk. unfold tcp_sendmsg. destruct size as [len|]; [|done]. case_match; [done|].
  destruct (Z.eqb_spec (as_u64 (Z.shiftr (cx_pid_tgid c) 32)) 0); [done|].
  apply account_pid_inv; auto using as_u64_range.
Qed.

Lemma tcp_cleanup_rbuf_inv c sk copied k :
  ctx_ok c -> inv n k -> inv n (tcp_cleanup_rbuf c sk copied k).2.
Proof.
  intros Hc Hk. unfold tcp_cleanup_rbuf. destruct copied as [len|]; [|done]. case_match; [done|].
  destruct (Z.eqb_spec (as_u64 (Z.shiftr (cx_pid_tgid c) 32)) 0); [done|].
  apply account_pid_inv; auto using as_u64_range.
Qed.

(** **** Security *)

Lemma bump_inv c f k :
  (forall s, pod_wf s -> pod_wf (f s)) -> inv n k -> inv n (bump c f k).
Proof. intros Hf Hk. unfold bump. case_match; [|done]. inv_split Hk. by apply percpu_write. Qed.

Lemma rate_limited_inv c slot now k b k' :
  is_u64 now -> inv n k -> rate_limited c slot now k = (b, k') -> inv n k'.
Proof.
  unfold rate_limited. intros Hn Hk. repeat case_match; intros [= <- <-]; try done.
  inv_split Hk. apply percpu_write; [|done]. intros [l] [Hl Hf]. cbn in *.
  split; cbn; [by rewrite length_insert|by apply Forall_insert].
Qed.

Lemma security_event_wf c kind sev arg ts k :
  ctx_ok c -> is_u64 arg -> is_u64 ts -> inv n k -> pod_wf (security_event c kind sev arg ts k).
Proof.
  intros Hc Ha Ht Hk. unfold security_event.
  pose proof (fetch_ppid_range (current_tgid c) k Hk).
  destruct kind, sev; solve_pod; split; vm_compute; congruence.
Qed.

Lemma security_event_ok_of c kind sev arg ts k :
  ctx_ok c -> is_u64 arg -> is_u64 ts -> inv n k -> security_event_ok (security_event c kind sev arg ts k).
Proof. intros. split; [by apply security_event_wf|]. split; [by exists kind|by exists sev]. Qed.

Lemma emit_inv c kind sev arg slot k r k' :
  ctx_ok c -> is_u64 arg -> inv n k -> emit c kind sev arg slot k = (r, k') -> inv n k'.
Proof.
  unfold emit. intros Hc Ha Hk. destruct (rate_limited _ _ _ _) as [b k1] eqn:E.
  apply rate_limited_inv in E; [|by apply ktime_range|done].
  assert (security_event_ok (security_event c kind sev arg (bpf_ktime_get_ns c In_body) k1)) as Hev
    by (apply security_event_ok_of; auto using ktime_range).
  case_match; [by intros [= _ <-]|]. case_match; intros [= _ <-]; [|by apply drop_security_inv].
  inv_split E. by apply events_snoc.
Qed.

Lemma emit_54_inv c kind sev arg slot k r k' :
  ctx_ok c -> is_u64 arg -> inv n k -> emit_54 c kind sev arg slot k = (r, k') -> inv n k'.
Proof.
  unfold emit_54. intros Hc Ha Hk. destruct (rate_limited _ _ _ _) as [b k1] eqn:E.
  apply rate_limited_inv in E; [|by apply ktime_range|done].
  assert (security_event_ok (security_event c kind sev arg (bpf_ktime_get_ns c In_body) k1)) as Hev
    by (apply security_event_ok_of; auto using ktime_range).
  case_match; [by intros [= _ <-]|]. case_match; intros [= _ <-]; [|by apply drop_security_inv].
  set (e := security_event _ _ _ _ _ _) in *. pose proof (proj1 Hev).
  assert (inv n (k1 <| SEC_EVENT_SCRATCH ::= cpu_write c (fun _ => e) |>)) as Hk'
    by (inv_split E; by apply percpu_write).
  case_match; [|done]. inv_split Hk'. by apply events_snoc.
Qed.

Lemma read_arg_range c off : ctx_ok c -> is_u64 (read_arg c off).
Proof.
  intros Hc. unfold read_arg. destruct (read_at_int 8 false c off) eqn:E; cbn; [|done].
  apply read_at_int_range in E; [done|lia|done].
Qed.
End Preservation.

Lemma sys_enter_ptrace_inv n c k : ctx_ok c -> inv n k -> inv n (sys_enter_ptrace c k).2.
Proof.
  intros Hc Hk. unfold sys_enter_ptrace. destruct (emit _ _ _ _ _ _) as [r k'] eqn:E.
  eapply emit_inv in E; [done|done|by apply read_arg_range|].
  apply bump_inv; [intros [] ?; solve_pod|done].
Qed.
Lemma sys_enter_memfd_create_inv n c k : ctx_ok c -> inv n k -> inv n (sys_enter_memfd_create c k).2.
Proof.
  intros Hc Hk. unfold sys_enter_memfd_create. destruct (emit _ _ _ _ _ _) as [r k'] eqn:E.
  eapply emit_inv in E; [done|done|done|]. apply bump_inv; [intros [] ?; solve_pod|done].
Qed.
Lemma sys_enter_setuid_inv n c k : ctx_ok c -> inv n k -> inv n (sys_enter_setuid c k).2.
Proof.
  intros Hc Hk. unfold sys_enter_setuid. destruct (emit _ _ _ _ _ _) as [r k'] eqn:E.
  eapply emit_inv in E; [done|done|by apply read_arg_range|].
  apply bump_inv; [intros [] ?; solve_pod|done].
Qed.
Lemma sys_enter_prctl_inv n c k : ctx_ok c -> inv n k -> inv n (sys_enter_prctl c k).2.
Proof.
  intros Hc Hk. unfold sys_enter_prctl.
  assert (inv n (bump c (fun s => s <| sec_prctl := wrapping_add (sec_prctl s) 1 |>) k)) as Hb
    by (apply bump_inv; [intros [] ?; solve_pod|done]).
  destruct (_ && _); [|done]. destruct (emit _ _ _ _ _ _) as [r k'] eqn:E.
  eapply emit_inv in E; [done|done|by apply read_arg_range|done].
Qed.
Lemma sys_enter_inv n c k : ctx_ok c -> inv n k -> inv n (sys_enter c k).2.
Proof.
  intros Hc Hk. unfold sys_enter.
  assert (forall f kind arg slot r k', is_u64 arg -> (forall s, pod_wf s -> pod_wf (f s)) ->
    emit_54 c kind Warn arg slot (bump c f k) = (r, k') -> inv n k') as Hstep.
  { intros f kind arg slot r k' Ha Hf E. eapply emit_54_inv in E; eauto. by apply bump_inv. }
  assert (forall s, pod_wf s -> pod_wf (s <| sec_prctl := wrapping_add (sec_prctl s) 1 |>)) as Hp
    by (intros [] ?; solve_pod).
  destruct (_ =? SYS_PTRACE); [|destruct (_ =? SYS_MEMFD_CREATE); [|destruct (_ =? SYS_SETUID);
    [|destruct (_ =? SYS_PRCTL); [|done]]]].
  - destruct (emit_54 _ _ _ _ _ _) as [r k'] eqn:E.
    eapply Hstep in E; [exact E|by apply read_arg_range|intros [] ?; solve_pod].
  - destruct (emit_54 _ _ _ _ _ _) as [r k'] eqn:E.
    eapply Hstep in E; [exact E|done|intros [] ?; solve_pod].
  - destruct (emit_54 _ _ _ _ _ _) as [r k'] eqn:E.
    eapply Hstep in E; [exact E|by apply read_arg_range|intros [] ?; solve_pod].
  - destruct (_ && _); [|by apply bump_inv].
    destruct (emit_54 _ _ _ _ _ _) as [r k'] eqn:E.
    eapply Hstep in E; [exact E|by apply read_arg_range|done].
Qed.

(** Every program preserves the invariant. *)
Lemma fire_inv n h c k : ctx_ok c -> hook_ok h -> inv n k -> inv n (fire h c k).2.
Proof.
  intros Hc Hh Hk. destruct h; cbn [fire hook_ok] in *.
  - apply stash_exit_code_inv; auto using as_i32_range, current_tgid_range.
  - by apply vfs_read_inv.
  - by apply vfs_write_inv.
  - by apply handle_mm_fault_inv.
  - by apply oom_kill_process_inv.
  - by apply irq_handler_entry_inv.
  - by apply irq_handler_exit_inv.
  - by apply softirq_entry_inv.
  - by apply softirq_exit_inv.
  - by apply netif_receive_skb_inv.
  - by apply net_dev_xmit_inv.
  - by apply tcp_retransmit_skb_inv.
  - unfold sched_wakeup, try_wakeup_btf, run_result. destruct (task_pid p); [|done].
    apply wakeup_inv; auto using as_u32_range.
  - destruct Hh. by apply sched_switch_inv.
  - by apply sched_process_exec_inv.
  - by apply sched_process_exit_inv.
  - by apply sched_process_fork_inv.
  - by apply block_rq_complete_inv.
  - by apply update_tcp_state_inv.
  - by apply kfree_skb_inv.
  - by apply account_cgroup_inv.
  - by apply account_cgroup_inv.
  - by apply sys_enter_ptrace_inv.
  - by apply sys_enter_memfd_create_inv.
  - by apply sys_enter_setuid_inv.
  - by apply sys_enter_prctl_inv.
  - unfold sched_wakeup_54. destruct (read_at c 0) as [a|] eqn:Ea; [|done].
    apply read_at_wf in Ea; [|done]. apply wakeup_inv; [done| |done].
    destruct a. pod_unfold. by destruct_and?.
  - by apply sched_switch_54_inv.
  - by apply sched_process_exec_54_inv.
  - by apply sched_process_exit_54_inv.
  - by apply sched_process_fork_54_inv.
  - by apply block_rq_complete_54_inv.
  - by apply inet_sock_set_state_54_inv.
  - by apply kfree_skb_54_inv.
  - by apply tcp_sendmsg_inv.
  - by apply tcp_cleanup_rbuf_inv.
  - by apply sys_enter_inv.
Qed.

Lemma percpu_init {V} n (P : V -> Prop) v : P v -> percpu_ok n P (replicate n v).
Proof. intros Hv. split; [apply length_replicate|by apply Forall_replicate]. Qed.
Lemma table_init {V} id (P : Z -> V -> Prop) : table_ok id P ∅.
Proof. split; [apply map_Forall_empty|]. rewrite map_size_empty. lia. Qed.

Lemma inv_init n : inv n (kernel_init n).
Proof.
  constructor; try apply table_init; try constructor; try apply length_replicate;
    apply Forall_replicate; try solve_pod; try done.
  - split; [solve_pod|done].
  - split; [done|]. by apply (Forall_replicate is_u64 4 0).
Qed.

Lemma step_inv n k k' : step k k' -> inv n k -> inv n k'.
Proof.
  destruct 1 as [h c k Hc Hh|e es k He|e es k He|e es k He]; intros Hk.
  - by apply fire_inv.
  - pose proof (inv_pevents _ _ Hk) as Hev. rewrite He in Hev. inversion Hev; subst. inv_split Hk.
  - pose proof (inv_nevents _ _ Hk) as Hev. rewrite He in Hev. inversion Hev; subst. inv_split Hk.
  - pose proof (inv_sevents _ _ Hk) as Hev. rewrite He in Hev. inversion Hev; subst. inv_split Hk.
Qed.

Lemma reachable_inv n k : reachable n k -> inv n k.
Proof.
  intros Hr. assert (forall k0, rtc step k0 k -> inv n k0 -> inv n k) as H.
  { clear Hr. intros k0. induction 1; eauto using step_inv. }
  apply (H _ Hr), inv_init.
Qed.

(** ** What user space can rely on *)

(** C17: in every reachable state of the maps, whatever programs of either build
    ran and however their helpers behaved, an entry of PROCESS_STATS describes
    the process it is filed under, an entry of BLOCK_STATS the device whose
    numbers make its key, an entry of NET_CGROUP_STATS the cgroup (or pid) it
    is filed under, never 0; and no map exceeds its declared capacity. *)
Theorem maps_identify_their_keys n k :
  reachable n k ->
  (forall pid p, PROCESS_STATS k !! pid = Some p -> ps_pid p = pid) /\
  (forall key s, BLOCK_STATS k !! key = Some s ->
     key = blk_device_major s * 2 ^ 32 + blk_device_minor s) /\
  (forall id s, NET_CGROUP_STATS k !! id = Some s -> cg_cgroup_id s = id /\ id <> 0) /\
  (size (PROCESS_STATS k) <= PROCESS_STATS_MAX)%nat /\
  (size (ONCPU_SINCE k) <= ONCPU_SINCE_MAX)%nat /\
  (size (EXIT_CODES k) <= EXIT_CODES_MAX)%nat /\
  (size (WAKEUP_TIMES k) <= WAKEUP_TIMES_MAX)%nat /\
  (size (BLOCK_STATS k) <= BLOCK_STATS_MAX)%nat /\
  (size (NET_CGROUP_STATS k) <= NET_CGROUP_STATS_MAX)%nat.
Proof.
  intros Hk%reachable_inv. destruct Hk.
  split_and!; [..|apply inv_process0|apply inv_oncpu0|apply inv_codes0|apply inv_wakeup0
    |apply inv_block0|apply inv_cgroup0].
  - intros pid p Hp. by apply (table_lookup _ _ _ _ _ inv_process0 Hp).
  - intros key s Hs. by apply (table_lookup _ _ _ _ _ inv_block0 Hs).
  - intros id s Hs. by destruct (table_lookup _ _ _ _ _ inv_cgroup0 Hs) as (? & ? & ?).
Qed.

(** A state one program away from the start. *)
Lemma reachable_fire h c :
  ctx_ok c -> hook_ok h -> reachable 1 (fire h c (kernel_init 1)).2.
Proof. intros Hc Hh. apply rtc_once. by apply step_fire. Qed.

Lemma maps_identify_their_keys_witness :
  let c := ideal_ctx 0 10 7 7 [] in
  let k := (fire (H_vfs_read (Some 512)) c (kernel_init 1)).2 in
  is_Some (PROCESS_STATS k !! 7) /\
  (forall pid p, PROCESS_STATS k !! pid = Some p -> ps_pid p = pid).
Proof.
  intros c k. split; [by eexists|].
  apply (maps_identify_their_keys 1 k). apply reachable_fire; [|decide_now].
  apply ideal_ctx_ok; decide_now.
Defined.



