(* ===== verification/Conserve.v ===== *)
(** Nothing the programs of either build emit is lost without a trace: over any
    run of the programs, and whatever user space takes out of the buffers
    meanwhile, the events delivered, those still pending, the drop counters and
    the records a full perf buffer refused (which the kernel counts for its
    reader) add up to the events emitted, kind by kind. *)
From S2P Require Import Prelude Float Types Layout Pods Bpf Stats Scheduler Process Fileio Memory Cpu Block Network Netproc Security Kernel.

(** ** Tallies *)

Record tally := { tl_process : Z; tl_net : Z; tl_security : Z }.
Definition tally_0 : tally := {| tl_process := 0; tl_net := 0; tl_security := 0 |}.
Definition tally_add (a b : tally) : tally :=
  {| tl_process := tl_process a + tl_process b; tl_net := tl_net a + tl_net b;
     tl_security := tl_security a + tl_security b |}.

(** Equality up to the wrap-around of the 64-bit counters. *)
Definition tally_eq (a b : tally) : Prop :=
  as_u64 (tl_process a) = as_u64 (tl_process b) /\ as_u64 (tl_net a) = as_u64 (tl_net b)
  /\ as_u64 (tl_security a) = as_u64 (tl_security b).

#[export] Instance tally_eq_equiv : Equivalence tally_eq.
Proof.
  split.
  - by intros a.
  - by intros a b (?&?&?).
  - intros a b c (H1&H2&H3) (?&?&?). split; [by rewrite H1|]. split; [by rewrite H2|by rewrite H3].
Qed.
#[export] Instance tally_add_proper : Proper (tally_eq ==> tally_eq ==> tally_eq) tally_add.
Proof.
  intros a a' (H1&H2&H3) b b' (G1&G2&G3). unfold tally_eq, tally_add, as_u64 in *. cbn.
  rewrite (Zplus_mod (tl_process a)), (Zplus_mod (tl_net a)), (Zplus_mod (tl_security a)).
  rewrite H1, H2, H3, G1, G2, G3, <- !Zplus_mod. done.
Qed.

Lemma tally_add_assoc a b c : tally_add a (tally_add b c) = tally_add (tally_add a b) c.
Proof. unfold tally_add. cbn. f_equal; lia. Qed.
Lemma tally_add_comm a b : tally_add a b = tally_add b a.
Proof. unfold tally_add. f_equal; lia. Qed.
Lemma tally_add_0 a : tally_add a tally_0 = a.
Proof. destruct a. unfold tally_add. cbn. f_equal; lia. Qed.

(** The events of a state: pending in a ring, or counted as dropped on some
    CPU. *)
Definition held (k : kernel) : tally := {|
  tl_process := Z.of_nat (length (PROCESS_EVENTS k)) + zsum (map dc_process (EVENT_DROPS k));
  tl_net := Z.of_nat (length (NET_EVENTS k)) + zsum (map dc_network (EVENT_DROPS k));
  tl_security := Z.of_nat (length (SECURITY_EVENTS k)) + zsum (map dc_security (EVENT_DROPS k)) |}.

Definition one_process : tally := {| tl_process := 1; tl_net := 0; tl_security := 0 |}.
Definition one_net : tally := {| tl_process := 0; tl_net := 1; tl_security := 0 |}.
Definition one_security : tally := {| tl_process := 0; tl_net := 0; tl_security := 1 |}.

(** ** What a run of a program emits

    Every lifecycle event, every dropped packet with a reason, and every
    monitored system call the rate gate lets through. *)
Definition alarm_due (c : ctx) (slot : Z) (k : kernel) : tally :=
  if (rate_limited c slot (bpf_ktime_get_ns c In_body) k).1 then tally_0 else one_security.

Definition emitted (h : hook) (c : ctx) (k : kernel) : tally :=
  match h with
  | H_sched_process_exec | H_sched_process_fork _ _ => one_process
  | H_sched_process_exit => if current_tid c =? current_tgid c then one_process else tally_0
  | H_kfree_skb reason => if reason <? 2 then tally_0 else one_net
  | H_sys_enter_ptrace => alarm_due c 0 k
  | H_sys_enter_memfd_create => alarm_due c 1 k
  | H_sys_enter_setuid => alarm_due c 2 k
  | H_sys_enter_prctl =>
      if (read_arg c SYSCALL_ARG0 =? PR_SET_DUMPABLE) && (read_arg c SYSCALL_ARG1 =? 0)
      then alarm_due c 3 k else tally_0
  | H_sched_process_exec_54 =>
      match read_at (T := SchedProcessExecArgs) c 0 with Some _ => one_process | None => tally_0 end
  | H_sched_process_fork_54 =>
      match read_at (T := SchedProcessForkArgs) c 0 with Some _ => one_process | None => tally_0 end
  | H_sched_process_exit_54 => if current_tid c =? current_tgid c then one_process else tally_0
  | H_kfree_skb_54 => one_net
  | H_sys_enter =>
      let nr := unwrap_or u64_max (read_at_int 8 false c RAW_SYSCALL_NR) in
      if nr =? SYS_PTRACE then alarm_due c 0 k
      else if nr =? SYS_MEMFD_CREATE then alarm_due c 1 k
      else if nr =? SYS_SETUID then alarm_due c 2 k
      else if nr =? SYS_PRCTL then
        if (read_arg c SYSCALL_ARG0 =? PR_SET_DUMPABLE) && (read_arg c SYSCALL_ARG1 =? 0)
        then alarm_due c 3 k else tally_0
      else tally_0
  | _ => tally_0
  end.

(** The emitters of the 5.4 build, and what the perf buffer refuses of theirs. *)
Definition perf_hook (h : hook) : bool :=
  match h with
  | H_sched_process_exec_54 | H_sched_process_exit_54 | H_sched_process_fork_54 | H_kfree_skb_54
  | H_sys_enter => true
  | _ => false
  end.
Definition refused (h : hook) (c : ctx) (k : kernel) : tally :=
  if perf_hook h && negb (cx_output c) then emitted h c k else tally_0.

(** ** One program *)

(** The buffers, the drop counters, and the slots records are made in. *)
Definition rings (k : kernel) :=
  (PROCESS_EVENTS k, NET_EVENTS k, SECURITY_EVENTS k, EVENT_DROPS k,
   (PROCESS_EVENT_SCRATCH k, NET_EVENT_SCRATCH k, SEC_EVENT_SCRATCH k)).

Definition cpu_ok (c : ctx) (k : kernel) : Prop :=
  (cx_cpu c < length (EVENT_DROPS k))%nat /\ (cx_cpu c < length (PROCESS_EVENT_SCRATCH k))%nat
  /\ (cx_cpu c < length (NET_EVENT_SCRATCH k))%nat /\ (cx_cpu c < length (SEC_EVENT_SCRATCH k))%nat.

Lemma held_rings k k' : rings k' = rings k -> held k' = held k.
Proof. unfold rings, held. intros [= -> -> -> -> _ _ _]. done. Qed.
Lemma cpu_ok_rings c k k' : rings k' = rings k -> cpu_ok c k -> cpu_ok c k'.
Proof. unfold rings, cpu_ok. intros [= _ _ _ -> -> -> ->]. done. Qed.

Lemma rings_update_process c pid f k : rings (update_process c pid f k) = rings k.
Proof. by destruct (update_process_frame c pid f k) as [m ->]. Qed.
Lemma rings_record_exec c pid uid k : rings (record_exec c pid uid k) = rings k.
Proof. by destruct (record_exec_frame c pid uid k) as [m ->]. Qed.
Lemma rings_set_ppid c pid ppid k : rings (set_ppid c pid ppid k) = rings k.
Proof. by destruct (set_ppid_frame c pid ppid k) as [m ->]. Qed.

(** No program but the emitters touches them. *)
Definition quiet (h : hook) : bool :=
  match h with
  | H_sched_process_exec | H_sched_process_fork _ _ | H_sched_process_exit | H_kfree_skb _
  | H_sys_enter_ptrace | H_sys_enter_memfd_create | H_sys_enter_setuid | H_sys_enter_prctl => false
  | _ => negb (perf_hook h)
  end.

Lemma rings_scheduler c (h : hook) k :
  match h with
  | H_sched_wakeup _ | H_sched_switch _ _ _ | H_sched_wakeup_54 | H_sched_switch_54 => True
  | _ => False
  end -> rings (fire h c k).2 = rings k.
Proof.
  assert (forall p n pc nc st k, rings (record_switch c p n pc nc st k) = rings k) as Hrec.
  { assert (forall k d, rings (update_histogram c d k) = rings k) as Hh
      by (intros; unfold update_histogram; by repeat case_match).
    assert (forall n t k, rings (switch_wait c n t k) = rings k) as Hw
      by (intros; unfold switch_wait; repeat case_match; try done; by rewrite Hh).
    assert (forall p pc st t k, rings (switch_slice c p pc st t k) = rings k) as Hs
      by (intros; unfold switch_slice; repeat case_match; try done; by rewrite ?rings_update_process).
    assert (forall n nc t k, rings (switch_in c n nc t k) = rings k) as Hi
      by (intros; unfold switch_in; case_match; [done|]; exact (rings_update_process _ _ _ _)).
    intros. unfold record_switch. repeat case_match; simplify_eq/=; try done; by rewrite ?Hi, ?Hs, ?Hw. }
  destruct h; try done; intros _; cbn [fire].
  - unfold sched_wakeup, try_wakeup_btf, run_result. by repeat case_match; simplify_eq/=.
  - unfold sched_switch, try_switch_btf, run_result. repeat case_match; simplify_eq/=; done || by apply Hrec.
  - unfold sched_wakeup_54. by case_match.
  - unfold sched_switch_54. case_match; [by apply Hrec|done].
Qed.

Lemma rings_account_pid c pid len rx inet k : rings (account_pid c pid len rx inet k) = rings k.
Proof. unfold account_pid. by case_match. Qed.
Lemma rings_block c key major minor rd n k : rings (update_block_stats c key major minor rd n k) = rings k.
Proof. unfold update_block_stats. by repeat case_match. Qed.
Lemma rings_tcp_state c st k : rings (update_tcp_state c st k) = rings k.
Proof. unfold update_tcp_state. by repeat case_match. Qed.

(** The programs that keep their accounts outside [PROCESS_STATS]. *)
Lemma rings_accounts c (h : hook) k :
  match h with
  | H_block_rq_complete _ _ | H_block_rq_complete_54 | H_inet_sock_set_state _ | H_inet_sock_set_state_54
  | H_tcp_sendmsg _ _ | H_tcp_cleanup_rbuf _ _ => True
  | _ => False
  end -> rings (fire h c k).2 = rings k.
Proof.
  destruct h; try done; intros _; cbn [fire].
  - unfold block_rq_complete, try_complete_btf. repeat case_match; simplify_eq/=; done || by rewrite rings_block.
  - apply rings_tcp_state.
  - unfold block_rq_complete_54. case_match; [|done]. cbv zeta. case_match; [done|]. apply rings_block.
  - unfold inet_sock_set_state_54. case_match; [apply rings_tcp_state|done].
  - unfold tcp_sendmsg. case_match; [|done]. cbv zeta. repeat (case_match; [done|]). apply rings_account_pid.
  - unfold tcp_cleanup_rbuf. case_match; [|done]. cbv zeta. repeat (case_match; [done|]). apply rings_account_pid.
Qed.

Lemma rings_quiet h c k : quiet h = true -> rings (fire h c k).2 = rings k.
Proof.
  destruct h; try done; intros _; try (by apply rings_scheduler); try (by apply rings_accounts); cbn [fire];
    unfold do_exit, stash_exit_code, vfs_read, vfs_write, handle_mm_fault, oom_kill_process,
      irq_handler_entry, irq_handler_exit, softirq_entry, softirq_exit, netif_receive_skb, net_dev_xmit,
      tcp_retransmit_skb, cgroup_skb_ingress, cgroup_skb_egress, account_cgroup;
    repeat case_match; simplify_eq/=; try done; try exact (rings_update_process _ _ _ _).
Qed.

(** *** The emitters *)

Lemma map_alter {A B} (get : A -> B) (f : A -> A) (g : B -> B) i l :
  (forall x, get (f x) = g (get x)) -> map get (alter f i l) = alter g i (map get l).
Proof.
  intros Hfg. revert i. induction l as [|x l IH]; intros [|i]; cbn; [done|done| |].
  - by rewrite Hfg.
  - f_equal. apply IH.
Qed.

(** Counting in the slot of the CPU counts one in the field bumped, and nothing
    in the others. *)
Lemma zsum_bump {T} (get : T -> Z) (f : T -> T) c (l : list T) :
  (forall d, get (f d) = wrapping_add (get d) 1) -> (cx_cpu c < length l)%nat ->
  as_u64 (zsum (map get (cpu_write c f l))) = as_u64 (zsum (map get l) + 1).
Proof.
  intros Hf Hc. unfold cpu_write. rewrite (map_alter get f (fun b => wrapping_add b 1)) by done.
  rewrite zsum_alter_wrapping by (by rewrite length_map). unfold wrapping_add, as_u64.
  by rewrite Zplus_mod_idemp_l.
Qed.
Lemma zsum_kept {T} (get : T -> Z) (f : T -> T) c (l : list T) :
  (forall d, get (f d) = get d) -> map get (cpu_write c f l) = map get l.
Proof. intros Hf. unfold cpu_write. rewrite (map_alter get f (fun b => b)) by done. by apply list_alter_id. Qed.

Lemma as_u64_add_l a b b' : as_u64 b = as_u64 b' -> as_u64 (a + b) = as_u64 (a + b').
Proof. unfold as_u64. intros H. by rewrite <- Zplus_mod_idemp_r, H, Zplus_mod_idemp_r. Qed.

(** *** Where an event goes

    It is put into its ring, counted on the CPU as dropped, or refused by the
    perf buffer. *)
Definition in_rings (k : kernel) : tally := {|
  tl_process := Z.of_nat (length (PROCESS_EVENTS k)); tl_net := Z.of_nat (length (NET_EVENTS k));
  tl_security := Z.of_nat (length (SECURITY_EVENTS k)) |}.
Definition bump_process (d : EventDropCounts) : EventDropCounts := d <| dc_process := wrapping_add (dc_process d) 1 |>.
Definition bump_network (d : EventDropCounts) : EventDropCounts := d <| dc_network := wrapping_add (dc_network d) 1 |>.
Definition bump_security (d : EventDropCounts) : EventDropCounts := d <| dc_security := wrapping_add (dc_security d) 1 |>.
(** The counter and the tally of each kind of event. *)
Definition channels : list ((EventDropCounts -> Z) * (tally -> Z)) :=
  [(dc_process, tl_process); (dc_network, tl_net); (dc_security, tl_security)].
Ltac each_elem H := repeat (apply elem_of_cons in H as [[= -> ->]|H]); [..|by apply elem_of_nil in H].

Definition counted (c : ctx) (b : tally) (k k' : kernel) : Prop :=
  (b = tally_0 /\ EVENT_DROPS k' = EVENT_DROPS k) \/
  exists f, (b, f) ∈ [(one_process, bump_process); (one_net, bump_network); (one_security, bump_security)] /\
    EVENT_DROPS k' = cpu_write c f (EVENT_DROPS k).
Definition booked (c : ctx) (k k' : kernel) (r e : tally) : Prop :=
  exists b, counted c b k k' /\ tally_add (in_rings k') (tally_add b r) = tally_add (in_rings k) e.

(** What the books are kept in. *)
Definition books (k : kernel) := (PROCESS_EVENTS k, NET_EVENTS k, SECURITY_EVENTS k, EVENT_DROPS k).
Lemma rings_books k k' : rings k' = rings k -> books k' = books k.
Proof. unfold rings, books. by intros [= -> -> -> -> _ _ _]. Qed.

Lemma booked_from c k0 k k' r e : books k = books k0 -> booked c k k' r e -> booked c k0 k' r e.
Proof. unfold books, booked, counted, in_rings. by intros [= -> -> -> ->]. Qed.
Lemma booked_to c k k' k1 r e : books k1 = books k' -> booked c k k' r e -> booked c k k1 r e.
Proof. unfold books, booked, counted, in_rings. by intros [= -> -> -> ->]. Qed.
Lemma booked_rings c k0 k k' r e : rings k = rings k0 -> booked c k k' r e -> booked c k0 k' r e.
Proof. intros H. apply booked_from. by apply rings_books. Qed.
Lemma booked_refused c k k' e : books k' = books k -> booked c k k' e e.
Proof.
  intros Hr. eapply booked_to; [exact Hr|]. exists tally_0. split; [by left|]. unfold tally_add. cbn. f_equal; lia.
Qed.
Lemma booked_same c k k' : rings k' = rings k -> booked c k k' tally_0 tally_0.
Proof. intros H. by apply booked_refused, rings_books. Qed.

(** Writing into a ring. *)
Ltac book_event := exists tally_0; split; [by left|]; unfold in_rings, tally_add; cbn; rewrite length_app; cbn; f_equal; lia.
Lemma booked_process_event c ev k : booked c k (k <| PROCESS_EVENTS ::= fun es => es ++ [ev] |>) tally_0 one_process.
Proof. book_event. Qed.
Lemma booked_net_event c ev k : booked c k (k <| NET_EVENTS ::= fun es => es ++ [ev] |>) tally_0 one_net.
Proof. book_event. Qed.
Lemma booked_security_event c ev k : booked c k (k <| SECURITY_EVENTS ::= fun es => es ++ [ev] |>) tally_0 one_security.
Proof. book_event. Qed.

(** Counting a drop. *)
Ltac book_drop one f :=
  intros [Hc _];
  match goal with |- booked _ _ (?d _ _) _ _ => unfold d end; unfold bump_drop, cpu_slot;
  destruct (lookup_lt_is_Some_2 _ _ Hc) as [? ->];
  exists one; split; [right; exists f; split; [set_solver|reflexivity]|];
  unfold in_rings, tally_add; cbn; f_equal; lia.
Lemma booked_drop_process c k : cpu_ok c k -> booked c k (drop_process c k) tally_0 one_process.
Proof. book_drop one_process bump_process. Qed.
Lemma booked_drop_network c k : cpu_ok c k -> booked c k (drop_network c k) tally_0 one_net.
Proof. book_drop one_net bump_network. Qed.
Lemma booked_drop_security c k : cpu_ok c k -> booked c k (drop_security c k) tally_0 one_security.
Proof. book_drop one_security bump_security. Qed.

Lemma booked_emit_basic c kind pid ppid uid code k :
  cpu_ok c k -> booked c k (emit_basic c kind pid ppid uid code k).2 tally_0 one_process.
Proof.
  intros Hc. unfold emit_basic. destruct (cx_reserve c); cbn [snd];
    [apply booked_process_event|by apply booked_drop_process].
Qed.

Lemma rate_limited_rings c slot now k : rings (rate_limited c slot now k).2 = rings k.
Proof. unfold rate_limited. by repeat case_match. Qed.

Lemma booked_emit c kind sev arg slot k :
  cpu_ok c k -> booked c k (emit c kind sev arg slot k).2 tally_0 (alarm_due c slot k).
Proof.
  intros Hc. unfold emit, alarm_due. set (now := bpf_ktime_get_ns c In_body).
  pose proof (rate_limited_rings c slot now k) as Hr.
  destruct (rate_limited c slot now k) as [limited k1]. cbn [fst snd] in *.
  destruct limited; cbn [snd]; [by apply booked_same|]. apply (booked_rings c k k1); [done|].
  destruct (cx_reserve c); cbn [snd]; [apply booked_security_event|].
  apply booked_drop_security. by eapply cpu_ok_rings.
Qed.

Lemma alarm_due_bump c f slot k : alarm_due c slot (bump c f k) = alarm_due c slot k.
Proof.
  unfold alarm_due, rate_limited. replace (SEC_EMIT_GATE (bump c f k)) with (SEC_EMIT_GATE k)
    by (unfold bump; by case_match). by repeat case_match.
Qed.
Lemma rings_bump c f k : rings (bump c f k) = rings k.
Proof. unfold bump. by case_match. Qed.

Lemma booked_emit_bumped c f kind sev arg slot k :
  cpu_ok c k -> booked c k (emit c kind sev arg slot (bump c f k)).2 tally_0 (alarm_due c slot k).
Proof.
  intros Hc. rewrite <- (alarm_due_bump c f). apply (booked_rings c k (bump c f k)); [apply rings_bump|].
  apply booked_emit. exact (cpu_ok_rings _ _ _ (rings_bump c f k) Hc).
Qed.

(** The same for the emitters of the 5.4 build. *)
Definition refused_of (c : ctx) (t : tally) : tally := if cx_output c then tally_0 else t.

Lemma booked_emit_basic_perf c kind pid ppid uid code k :
  cpu_ok c k -> booked c k (emit_basic_perf c kind pid ppid uid code k).2 (refused_of c one_process) one_process.
Proof.
  intros (_ & Hc & _). unfold emit_basic_perf, cpu_slot, refused_of.
  destruct (lookup_lt_is_Some_2 _ _ Hc) as [? ->]. cbn [snd].
  destruct (cx_output c); [|by apply booked_refused].
  eapply booked_from; [|apply booked_process_event]; done.
Qed.

Lemma booked_kfree_54 c k : cpu_ok c k -> booked c k (kfree_skb_54 c k).2 (refused_of c one_net) one_net.
Proof.
  intros (_ & _ & Hc & _). unfold kfree_skb_54, cpu_slot, refused_of.
  destruct (lookup_lt_is_Some_2 _ _ Hc) as [? ->]. cbn [snd].
  destruct (cx_output c); [|by apply booked_refused].
  eapply booked_from; [|apply booked_net_event]; done.
Qed.

Lemma booked_emit_54 c f kind sev arg slot k :
  cpu_ok c k ->
  booked c k (emit_54 c kind sev arg slot (bump c f k)).2 (refused_of c (alarm_due c slot k)) (alarm_due c slot k).
Proof.
  intros Hc%(cpu_ok_rings _ _ _ (rings_bump c f k)).
  rewrite <- (alarm_due_bump c f). apply (booked_rings c k (bump c f k)); [apply rings_bump|].
  set (kb := bump c f k) in *. unfold emit_54, alarm_due, refused_of. set (now := bpf_ktime_get_ns c In_body).
  pose proof (rate_limited_rings c slot now kb) as Hr.
  destruct (rate_limited c slot now kb) as [limited k1]. cbn [fst snd] in *.
  apply (cpu_ok_rings _ _ _ Hr) in Hc as (_ & _ & _ & Hc).
  destruct limited; cbn [snd]; [by destruct (cx_output c); apply booked_same|].
  unfold cpu_slot. destruct (lookup_lt_is_Some_2 _ _ Hc) as [? ->]. cbn [snd]. apply (booked_rings c kb k1); [done|].
  destruct (cx_output c); [|by apply booked_refused].
  eapply booked_from; [|apply booked_security_event]; done.
Qed.

Lemma rings_take_exit_code c pid k : rings (take_exit_code c pid k).2 = rings k.
Proof. done. Qed.

Lemma let_pair {A B C} (p : A * B) (f : A -> B -> C) : (let '(a, b) := p in f a b) = f p.1 p.2.
Proof. by destruct p. Qed.

(** Every program of the BTF build books what it emits. *)
Lemma booked_fire_btf h c k :
  perf_hook h = false -> cpu_ok c k -> booked c k (fire h c k).2 tally_0 (emitted h c k).
Proof.
  intros Hb Hc. destruct (quiet h) eqn:Hq.
  { replace (emitted h c k) with tally_0 by (by destruct h). by apply booked_same, rings_quiet. }
  destruct h; try done; cbn [fire emitted].
  - unfold sched_process_exec. rewrite let_pair. cbn [snd].
    apply (booked_rings c k (record_exec c (current_tgid c) (current_uid c) k)); [apply rings_record_exec|].
    apply booked_emit_basic. exact (cpu_ok_rings _ _ _ (rings_record_exec _ _ _ _) Hc).
  - unfold sched_process_exit. rewrite let_pair. cbn [snd].
    pose proof (rings_take_exit_code c (current_tgid c) k) as Hr. apply (booked_rings c k _ _ _ _ Hr).
    apply (cpu_ok_rings _ _ _ Hr) in Hc. destruct (current_tid c =? current_tgid c).
    + rewrite let_pair. by apply (booked_emit_basic c Exit).
    + by apply booked_same.
  - unfold sched_process_fork. rewrite let_pair. cbn [snd].
    eapply booked_to; [apply rings_books; by rewrite rings_set_ppid, rings_record_exec|]. by apply booked_emit_basic.
  - unfold kfree_skb. destruct (reason <? 2); cbn [snd]; [by apply booked_same|].
    unfold emit_skb_drop_55. destruct (cx_reserve c); [apply booked_net_event|by apply booked_drop_network].
  - unfold sys_enter_ptrace. rewrite let_pair. by apply booked_emit_bumped.
  - unfold sys_enter_memfd_create. rewrite let_pair. by apply booked_emit_bumped.
  - unfold sys_enter_setuid. rewrite let_pair. by apply booked_emit_bumped.
  - unfold sys_enter_prctl. destruct (_ && _); cbn [snd].
    + rewrite let_pair. by apply booked_emit_bumped.
    + apply booked_same, rings_bump.
Qed.

Lemma booked_fire_perf h c k :
  perf_hook h = true -> cpu_ok c k -> booked c k (fire h c k).2 (refused_of c (emitted h c k)) (emitted h c k).
Proof.
  assert (refused_of c tally_0 = tally_0) as H0 by (unfold refused_of; by case_match).
  intros Hb Hc. destruct h; try done; cbn [fire emitted].
  - unfold sched_process_exec_54. destruct (read_at c 0) as [a|]; cbn [snd]; [|rewrite H0; by apply booked_same].
    rewrite let_pair. cbn [snd].
    apply (booked_rings c k (record_exec c (exa_pid a) (current_uid c) k)); [apply rings_record_exec|].
    apply booked_emit_basic_perf. exact (cpu_ok_rings _ _ _ (rings_record_exec _ _ _ _) Hc).
  - unfold sched_process_exit_54. rewrite let_pair. cbn [snd].
    pose proof (rings_take_exit_code c (current_tgid c) k) as Hr. apply (booked_rings c k _ _ _ _ Hr).
    apply (cpu_ok_rings _ _ _ Hr) in Hc. destruct (current_tid c =? current_tgid c).
    + rewrite let_pair. by apply (booked_emit_basic_perf c Exit).
    + rewrite H0. by apply booked_same.
  - unfold sched_process_fork_54. destruct (read_at c 0) as [a|]; cbn [snd]; [|rewrite H0; by apply booked_same].
    rewrite let_pair. cbn [snd].
    eapply booked_to; [apply rings_books; by rewrite rings_set_ppid, rings_record_exec|]. by apply booked_emit_basic_perf.
  - by apply booked_kfree_54.
  - unfold sys_enter. cbv zeta. rewrite !let_pair. repeat case_match; cbn [snd]; try (by apply booked_emit_54);
      rewrite H0; apply booked_same; rewrite ?rings_bump; done.
Qed.

Lemma booked_fire h c k : cpu_ok c k -> booked c k (fire h c k).2 (refused h c k) (emitted h c k).
Proof.
  intros Hc. unfold refused. destruct (perf_hook h) eqn:Hp; cbn [andb]; [|by apply booked_fire_btf].
  pose proof (booked_fire_perf h c k Hp Hc) as H. unfold refused_of in H. by destruct (cx_output c).
Qed.

(** What is held after a program ran is what was held before and what it
    emitted, less what was refused. *)
Lemma held_fire h c k :
  cpu_ok c k -> tally_eq (tally_add (held (fire h c k).2) (refused h c k)) (tally_add (held k) (emitted h c k)).
Proof.
  intros Hc. pose proof (booked_fire h c k Hc) as (b & Hd & Hb). destruct Hc as [Hc _].
  generalize dependent (fire h c k).2. intros k'. generalize (refused h c k), (emitted h c k). intros r e Hd Hb.
  unfold tally_add, in_rings in Hb. cbn in Hb. injection Hb as H1 H2 H3.
  assert (forall get tl, (get, tl) ∈ channels ->
    as_u64 (zsum (map get (EVENT_DROPS k'))) = as_u64 (zsum (map get (EVENT_DROPS k)) + tl b)) as Hsum.
  { intros get tl Hin. destruct Hd as [[-> ->]|(f & Hf & ->)].
    - each_elem Hin; cbn; by rewrite Z.add_0_r.
    - each_elem Hin; each_elem Hf; cbn [tl_process tl_net tl_security one_process one_net one_security];
        first [by apply zsum_bump|rewrite Z.add_0_r, zsum_kept; done]. }
  pose proof (Hsum dc_process tl_process ltac:(left)) as S1.
  pose proof (Hsum dc_network tl_net ltac:(right; left)) as S2.
  pose proof (Hsum dc_security tl_security ltac:(right; right; left)) as S3.
  unfold tally_eq, held, tally_add. cbn [tl_process tl_net tl_security].
  split_and!.
  all: rewrite <- Z.add_assoc, (Z.add_comm (zsum _)), Z.add_assoc.
  all: erewrite as_u64_add_l by eassumption; f_equal; lia.
Qed.

(** ** A run *)

(** Programs run, and user space takes the oldest record of a ring. *)
Inductive op := Fire (h : hook) (c : ctx) | TakeProcess | TakeNet | TakeSecurity.

(** The state, with the events emitted, delivered and refused so far. *)
Record history := { hy_kernel : kernel; hy_emitted : tally; hy_delivered : tally; hy_refused : tally }.

Definition exec_op (o : op) (y : history) : history :=
  let k := hy_kernel y in
  match o with
  | Fire h c =>
      {| hy_kernel := (fire h c k).2; hy_emitted := tally_add (hy_emitted y) (emitted h c k);
         hy_delivered := hy_delivered y; hy_refused := tally_add (hy_refused y) (refused h c k) |}
  | TakeProcess =>
      match PROCESS_EVENTS k with
      | _ :: es => {| hy_kernel := k <| PROCESS_EVENTS := es |>; hy_emitted := hy_emitted y;
                      hy_delivered := tally_add (hy_delivered y) one_process; hy_refused := hy_refused y |}
      | [] => y
      end
  | TakeNet =>
      match NET_EVENTS k with
      | _ :: es => {| hy_kernel := k <| NET_EVENTS := es |>; hy_emitted := hy_emitted y;
                      hy_delivered := tally_add (hy_delivered y) one_net; hy_refused := hy_refused y |}
      | [] => y
      end
  | TakeSecurity =>
      match SECURITY_EVENTS k with
      | _ :: es => {| hy_kernel := k <| SECURITY_EVENTS := es |>; hy_emitted := hy_emitted y;
                      hy_delivered := tally_add (hy_delivered y) one_security; hy_refused := hy_refused y |}
      | [] => y
      end
  end.

Definition history_of (n : nat) (ops : list op) : history :=
  foldl (fun y o => exec_op o y)
    {| hy_kernel := kernel_init n; hy_emitted := tally_0; hy_delivered := tally_0; hy_refused := tally_0 |} ops.

(** A program on one of the CPUs, called as the kernel calls it. *)
Definition op_ok (n : nat) (o : op) : Prop :=
  match o with Fire h c => (cx_cpu c < n)%nat /\ ctx_ok c /\ hook_ok h | _ => True end.

Definition balanced (y : history) : Prop :=
  tally_eq (tally_add (hy_delivered y) (tally_add (held (hy_kernel y)) (hy_refused y))) (hy_emitted y).

Definition accounted (n : nat) (y : history) : Prop :=
  reachable n (hy_kernel y) /\ balanced y.

(** Taking a record moves it from the ring to what was delivered. *)
Lemma held_take e one d k k' r :
  held k = tally_add (held k') one -> tally_eq (tally_add d (tally_add (held k) r)) e ->
  tally_eq (tally_add (tally_add d one) (tally_add (held k') r)) e.
Proof.
  intros Hk He. rewrite <- tally_add_assoc, (tally_add_assoc one), (tally_add_comm one), <- Hk. done.
Qed.

Lemma balanced_fire h c y : cpu_ok c (hy_kernel y) -> balanced y -> balanced (exec_op (Fire h c) y).
Proof.
  unfold balanced. cbn [exec_op hy_kernel hy_emitted hy_delivered hy_refused]. intros Hc He.
  rewrite (tally_add_comm (hy_refused y)), (tally_add_assoc (held _)), held_fire by done.
  rewrite <- He, <- (tally_add_assoc (held (hy_kernel y))), (tally_add_comm (emitted _ _ _)).
  by rewrite !tally_add_assoc.
Qed.

Lemma reachable_cpu_ok n c k : (cx_cpu c < n)%nat -> reachable n k -> cpu_ok c k.
Proof.
  intros Hc [_ _ _ [Hd _] _ _ _ [Hp _] _ _ _ _ _ _ [Hn _] _ _ _ _ [Hs _] _ _]%reachable_inv.
  unfold cpu_ok. by rewrite Hd, Hp, Hn, Hs.
Qed.

Lemma exec_op_accounted n o y : op_ok n o -> accounted n y -> accounted n (exec_op o y).
Proof.
  intros Ho [Hr He]. destruct o as [h c| | |].
  - destruct Ho as (Hc & Hctx & Hh). split; [|by eapply balanced_fire, He; eapply reachable_cpu_ok].
    eapply rtc_r; [exact Hr|]. by constructor.
  - cbn [exec_op]. destruct (PROCESS_EVENTS (hy_kernel y)) as [|e es] eqn:E; [by split|]. split.
    + eapply rtc_r; [exact Hr|]. by econstructor.
    + eapply held_take; [|exact He]. unfold held, tally_add. cbn. rewrite E. cbn. f_equal; lia.
  - cbn [exec_op]. destruct (NET_EVENTS (hy_kernel y)) as [|e es] eqn:E; [by split|]. split.
    + eapply rtc_r; [exact Hr|]. by econstructor.
    + eapply held_take; [|exact He]. unfold held, tally_add. cbn. rewrite E. cbn. f_equal; lia.
  - cbn [exec_op]. destruct (SECURITY_EVENTS (hy_kernel y)) as [|e es] eqn:E; [by split|]. split.
    + eapply rtc_r; [exact Hr|]. by econstructor.
    + eapply held_take; [|exact He]. unfold held, tally_add. cbn. rewrite E. cbn. f_equal; lia.
Qed.

Lemma held_init n : tally_eq (held (kernel_init n)) tally_0.
Proof.
  assert (forall get : EventDropCounts -> Z, get EventDropCounts_zeroed = 0 ->
    zsum (map get (replicate n EventDropCounts_zeroed)) = 0) as Hz.
  { intros get Hg. induction n as [|m IH]; [done|]. cbn [replicate map]. rewrite zsum_cons, Hg. lia. }
  unfold tally_eq, held. cbn. by rewrite !Hz by done.
Qed.

Lemma history_accounted n ops : Forall (op_ok n) ops -> accounted n (history_of n ops).
Proof.
  intros Hops. unfold history_of.
  assert (forall y, accounted n y -> accounted n (foldl (fun y o => exec_op o y) y ops)) as H.
  { induction Hops as [|o ops Ho _ IH]; intros y Hy; cbn; [done|]. apply IH. by apply exec_op_accounted. }
  apply H. split; [apply rtc_refl|]. unfold balanced. cbn. by rewrite held_init.
Qed.

Lemma foldl_refused_none ops y :
  (forall h c, Fire h c ∈ ops -> perf_hook h = false) -> hy_refused y = tally_0 ->
  hy_refused (foldl (fun y o => exec_op o y) y ops) = tally_0.
Proof.
  revert y. induction ops as [|o ops IH]; intros y Hb Hy; cbn [foldl]; [done|].
  apply IH; [intros h c Hin; apply (Hb h c); by right|]. destruct o as [h c| | |]; cbn [exec_op].
  - cbn [hy_refused]. unfold refused. rewrite (Hb h c) by left. cbn [andb]. by rewrite Hy.
  - by case_match.
  - by case_match.
  - by case_match.
Qed.

(** ** Properties *)

(** No event disappears.  Run the programs of either build on any CPUs in any
    order, with buffers that refuse whenever they like, and let user space take
    records out at any time: for each of the three kinds, the records taken,
    the records pending, the drop counters of all CPUs and the records a full
    perf buffer refused add up to the events the programs emitted: one for each
    fork, exec and exit of a process, for each dropped packet that is reported,
    for each alarm the gate lets through (up to the wrap-around of the 64-bit
    counters).  In the BTF build the perf buffers have no part in it. *)
Theorem every_event_accounted (n : nat) (ops : list op) (Hops : Forall (op_ok n) ops) :
  let y := history_of n ops in
  tally_eq (tally_add (hy_delivered y) (tally_add (held (hy_kernel y)) (hy_refused y))) (hy_emitted y)
  /\ ((forall h c, Fire h c ∈ ops -> perf_hook h = false) -> hy_refused y = tally_0).
Proof.
  split; [by apply (history_accounted n ops Hops)|]. intros Hbtf. unfold history_of.
  apply (foldl_refused_none ops _ Hbtf). done.
Qed.

(** Two processes start on two CPUs; the second finds the ring full.  Of two
    dropped packets one is reported into a full perf buffer. *)
Definition full_ctx (cpu : nat) (t tgid tid : Z) : ctx :=
  let c := ideal_ctx cpu t tgid tid [] in
  {| cx_cpu := cpu; cx_ktime := cx_ktime c; cx_pid_tgid := cx_pid_tgid c; cx_uid_gid := cx_uid_gid c;
     cx_comm := cx_comm c; cx_cgroup_id := cx_cgroup_id c; cx_update := cx_update c; cx_delete := cx_delete c;
     cx_reserve := false; cx_output := false; cx_record := cx_record c |}.
Lemma full_ctx_ok cpu t tgid tid : ctx_ok (ideal_ctx cpu t tgid tid []) -> ctx_ok (full_ctx cpu t tgid tid).
Proof. intros []. by constructor. Qed.
Definition demo_ops : list op := [
  Fire H_sched_process_exec (ideal_ctx 0 100 7 7 []); Fire H_sched_process_exec (full_ctx 1 200 8 8);
  TakeProcess; Fire (H_kfree_skb 5) (ideal_ctx 1 300 7 7 []); Fire H_kfree_skb_54 (full_ctx 0 400 7 7)].

Lemma demo_ops_ok : Forall (op_ok 2) demo_ops.
Proof.
  repeat (apply Forall_cons; split; [|]); try apply Forall_nil; try exact I; cbn [op_ok];
    (split; [cbn; lia|]); (split; [|exact I]);
    first [apply ideal_ctx_ok; decide_now | apply full_ctx_ok, ideal_ctx_ok; decide_now].
Qed.

Lemma every_event_accounted_witness :
  let y := history_of 2 demo_ops in
  hy_emitted y = {| tl_process := 2; tl_net := 2; tl_security := 0 |}
  /\ hy_delivered y = one_process
  /\ map dc_process (EVENT_DROPS (hy_kernel y)) = [0; 1]
  /\ hy_refused y = one_net
  /\ tally_eq (tally_add (hy_delivered y) (tally_add (held (hy_kernel y)) (hy_refused y))) (hy_emitted y).
Proof.
  pose proof (every_event_accounted 2 demo_ops demo_ops_ok) as [H _].
  intros y. split; [vm_compute; reflexivity|]. split; [vm_compute; reflexivity|].
  split; [vm_compute; reflexivity|]. split; [vm_compute; reflexivity|]. exact H.
Defined.
