(* ===== verification/Feed.v ===== *)
(** The feed of security events over a run: whatever the programs of either
    build do, and whatever user space takes out of the buffers meanwhile, the
    records put into [SECURITY_EVENTS] of one kind on one CPU are far apart. *)
From S2P Require Import Prelude Float Types Layout Pods Bpf Stats Scheduler Process Fileio Memory Cpu Block Network Netproc Security Kernel Conserve.

(** ** What a run puts into the buffer

    The records a program appends, with the CPU it ran on. *)
Definition fed_by (o : op) (y : history) : list (nat * SecurityEvent) :=
  match o with
  | Fire h c =>
      map (pair (cx_cpu c))
        (drop (length (SECURITY_EVENTS (hy_kernel y))) (SECURITY_EVENTS (hy_kernel (exec_op o y))))
  | _ => []
  end.
Fixpoint fed (ops : list op) (y : history) : list (nat * SecurityEvent) :=
  match ops with
  | [] => []
  | o :: ops => fed_by o y ++ fed ops (exec_op o y)
  end.
(** The records of a kind on a CPU. *)
Definition fed_from (cpu : nat) (kind : Z) (l : list (nat * SecurityEvent)) : list SecurityEvent :=
  map snd (filter (fun p => p.1 = cpu /\ sev_kind p.2 = kind) l).

(** ** Programs that leave the buffer and the gates alone *)

Definition feed_state (k : kernel) := (SECURITY_EVENTS k, SEC_EMIT_GATE k).

(** The system call a program watches. *)
Definition watching (h : hook) (c : ctx) : option monitored :=
  match h with
  | H_sys_enter_ptrace => Some M_ptrace
  | H_sys_enter_memfd_create => Some M_memfd_create
  | H_sys_enter_setuid => Some M_setuid
  | H_sys_enter_prctl => Some M_prctl
  | H_sys_enter =>
      match read_at_int 8 false c RAW_SYSCALL_NR with
      | Some nr => find (fun m => nr =? syscall_nr m) [M_ptrace; M_memfd_create; M_setuid; M_prctl]
      | None => None
      end
  | _ => None
  end.

Lemma feed_process c pid f k : feed_state (update_process c pid f k) = feed_state k.
Proof. by destruct (update_process_frame c pid f k) as [m ->]. Qed.
Lemma feed_record_exec c pid uid k : feed_state (record_exec c pid uid k) = feed_state k.
Proof. by destruct (record_exec_frame c pid uid k) as [m ->]. Qed.
Lemma feed_set_ppid c pid ppid k : feed_state (set_ppid c pid ppid k) = feed_state k.
Proof. by destruct (set_ppid_frame c pid ppid k) as [m ->]. Qed.
Lemma feed_drop c f k : feed_state (bump_drop c f k) = feed_state k.
Proof. unfold bump_drop. by case_match. Qed.

Lemma feed_switch c p n pc nc st k : feed_state (record_switch c p n pc nc st k) = feed_state k.
Proof.
  assert (forall k d, feed_state (update_histogram c d k) = feed_state k) as Hh
    by (intros; unfold update_histogram; by repeat case_match).
  assert (forall n t k, feed_state (switch_wait c n t k) = feed_state k) as Hw
    by (intros; unfold switch_wait; repeat case_match; try done; by rewrite Hh).
  assert (forall p pc st t k, feed_state (switch_slice c p pc st t k) = feed_state k) as Hs
    by (intros; unfold switch_slice; repeat case_match; try done; by rewrite ?feed_process).
  assert (forall n nc t k, feed_state (switch_in c n nc t k) = feed_state k) as Hi
    by (intros; unfold switch_in; case_match; [done|]; exact (feed_process _ _ _ _)).
  unfold record_switch. repeat case_match; simplify_eq/=; try done; by rewrite ?Hi, ?Hs, ?Hw.
Qed.
Lemma feed_basic c kind pid ppid uid code k : feed_state (emit_basic c kind pid ppid uid code k).2 = feed_state k.
Proof. unfold emit_basic. case_match; [done|apply feed_drop]. Qed.
Lemma feed_basic_perf c kind pid ppid uid code k :
  feed_state (emit_basic_perf c kind pid ppid uid code k).2 = feed_state k.
Proof. unfold emit_basic_perf. case_match; [|apply feed_drop]. cbn [snd]. by case_match. Qed.
Lemma feed_exit_code c pid k : feed_state (take_exit_code c pid k).2 = feed_state k.
Proof. done. Qed.

Lemma feed_lifecycle c (h : hook) k :
  match h with
  | H_sched_process_exec | H_sched_process_exit | H_sched_process_fork _ _
  | H_sched_process_exec_54 | H_sched_process_exit_54 | H_sched_process_fork_54 => True
  | _ => False
  end -> feed_state (fire h c k).2 = feed_state k.
Proof.
  destruct h; try done; intros _; cbn [fire].
  - unfold sched_process_exec. rewrite let_pair. cbn [snd]. by rewrite feed_basic, feed_record_exec.
  - unfold sched_process_exit. rewrite let_pair. cbn [snd].
    case_match; [rewrite let_pair; exact (feed_basic _ _ _ _ _ _ _)|done].
  - unfold sched_process_fork. rewrite let_pair. cbn [snd]. by rewrite feed_set_ppid, feed_record_exec, feed_basic.
  - unfold sched_process_exec_54. case_match; [|done]. rewrite let_pair. cbn [snd].
    by rewrite feed_basic_perf, feed_record_exec.
  - unfold sched_process_exit_54. rewrite let_pair. cbn [snd].
    case_match; [rewrite let_pair; exact (feed_basic_perf _ _ _ _ _ _ _)|done].
  - unfold sched_process_fork_54. case_match; [|done]. rewrite let_pair. cbn [snd].
    by rewrite feed_set_ppid, feed_record_exec, feed_basic_perf.
Qed.

Lemma feed_dispatch c k nr :
  unwrap_or u64_max (read_at_int 8 false c RAW_SYSCALL_NR) = nr ->
  find (fun m => nr =? syscall_nr m) [M_ptrace; M_memfd_create; M_setuid; M_prctl] = None ->
  (sys_enter c k).2 = k.
Proof. intros Hnr H. unfold sys_enter. rewrite Hnr. cbn in H. by repeat case_match. Qed.

Lemma feed_accounts c (h : hook) k :
  match h with
  | H_block_rq_complete _ _ | H_block_rq_complete_54 | H_inet_sock_set_state _ | H_inet_sock_set_state_54
  | H_tcp_sendmsg _ _ | H_tcp_cleanup_rbuf _ _ | H_kfree_skb _ | H_kfree_skb_54 => True
  | _ => False
  end -> feed_state (fire h c k).2 = feed_state k.
Proof.
  assert (forall key ma mi rd n k, feed_state (update_block_stats c key ma mi rd n k) = feed_state k) as Hb
    by (intros; unfold update_block_stats; by repeat case_match).
  assert (forall st k, feed_state (update_tcp_state c st k) = feed_state k) as Ht
    by (intros; unfold update_tcp_state; by repeat case_match).
  assert (forall pid len rx inet k, feed_state (account_pid c pid len rx inet k) = feed_state k) as Ha
    by (intros; unfold account_pid; by case_match).
  destruct h; try done; intros _; cbn [fire].
  - unfold block_rq_complete, try_complete_btf. repeat case_match; simplify_eq/=; done || by rewrite Hb.
  - apply Ht.
  - unfold kfree_skb. destruct (reason <? 2); [done|]. unfold emit_skb_drop_55. cbn [snd].
    case_match; [done|apply feed_drop].
  - unfold block_rq_complete_54. case_match; [|done]. cbv zeta. case_match; [done|]. apply Hb.
  - unfold inet_sock_set_state_54. case_match; [apply Ht|done].
  - unfold kfree_skb_54. case_match; cbn [snd]; [by case_match|apply feed_drop].
  - unfold tcp_sendmsg. case_match; [|done]. cbv zeta. repeat (case_match; [done|]). apply Ha.
  - unfold tcp_cleanup_rbuf. case_match; [|done]. cbv zeta. repeat (case_match; [done|]). apply Ha.
Qed.
Lemma feed_scheduler c (h : hook) k :
  match h with
  | H_sched_wakeup _ | H_sched_switch _ _ _ | H_sched_wakeup_54 | H_sched_switch_54 => True
  | _ => False
  end -> feed_state (fire h c k).2 = feed_state k.
Proof.
  destruct h; try done; intros _; cbn [fire].
  - unfold sched_wakeup, try_wakeup_btf, run_result. by repeat case_match; simplify_eq/=.
  - unfold sched_switch, try_switch_btf, run_result. repeat case_match; simplify_eq/=; done || by apply feed_switch.
  - unfold sched_wakeup_54. by case_match.
  - unfold sched_switch_54. case_match; [by apply feed_switch|done].
Qed.
Lemma feed_unwatched c k : watching H_sys_enter c = None -> (sys_enter c k).2 = k.
Proof.
  cbn [watching]. destruct (read_at_int 8 false c RAW_SYSCALL_NR) as [nr|] eqn:Hnr; intros Hw.
  - apply (feed_dispatch c k nr); [by rewrite Hnr|done].
  - apply (feed_dispatch c k u64_max); [by rewrite Hnr|done].
Qed.

(** A program that watches no system call. *)
Lemma feed_quiet h c k : watching h c = None -> feed_state (fire h c k).2 = feed_state k.
Proof.
  destruct h; try done; intros Hw;
    try (by apply feed_lifecycle); try (by apply feed_accounts); try (by apply feed_scheduler); cbn [fire];
    [..|by rewrite feed_unwatched];
    unfold do_exit, stash_exit_code, vfs_read, vfs_write, handle_mm_fault, oom_kill_process,
      irq_handler_entry, irq_handler_exit, softirq_entry, softirq_exit, netif_receive_skb, net_dev_xmit,
      tcp_retransmit_skb, cgroup_skb_ingress, cgroup_skb_egress, account_cgroup;
    repeat case_match; simplify_eq/=; try done; try exact (feed_process _ _ _ _).
Qed.

(** ** Programs that watch one *)

(** The gate an alarm passes, by its kind. *)
Definition kind_slot (kind : Z) : nat :=
  if kind =? SecurityEventKind_repr Ptrace then 0
  else if kind =? SecurityEventKind_repr MemfdCreate then 1
  else if kind =? SecurityEventKind_repr Setuid then 2 else 3.
Lemma alarm_slot m c kind arg slot :
  alarm m c = Some (kind, arg, slot) -> gate_slot slot = kind_slot (SecurityEventKind_repr kind).
Proof. destruct m; cbn; [intros [= <- _ <-]; reflexivity..|]. case_match; [intros [= <- _ <-]; reflexivity|done]. Qed.

(** What a program that raises an alarm does: the gate is asked, and a record of
    that kind, stamped with the time the gate was given, is put into the buffer
    only if the gate lets it through. *)
Definition alarmed (c : ctx) (kind : SecurityEventKind) (slot : Z) (k k' : kernel) : Prop :=
  let now := bpf_ktime_get_ns c In_body in
  SEC_EMIT_GATE k' = SEC_EMIT_GATE (rate_limited c slot now k).2 /\
  exists es, SECURITY_EVENTS k' = SECURITY_EVENTS k ++ es /\
    (es = [] \/ (rate_limited c slot now k).1 = false /\
       exists e, es = [e] /\ sev_kind e = SecurityEventKind_repr kind /\ sev_timestamp_ns e = now).

Lemma rate_limited_feed c slot now k k0 :
  SEC_EMIT_GATE k = SEC_EMIT_GATE k0 ->
  (rate_limited c slot now k).1 = (rate_limited c slot now k0).1 /\
  SEC_EMIT_GATE (rate_limited c slot now k).2 = SEC_EMIT_GATE (rate_limited c slot now k0).2 /\
  SECURITY_EVENTS (rate_limited c slot now k).2 = SECURITY_EVENTS k.
Proof. intros H. unfold rate_limited. rewrite H. repeat case_match; cbn; by rewrite ?H. Qed.
Lemma bump_feed c f k : feed_state (bump c f k) = feed_state k.
Proof. unfold bump. by case_match. Qed.

Lemma emit_alarmed c kind arg slot f k : alarmed c kind slot k (emit c kind Warn arg slot (bump c f k)).2.
Proof.
  pose proof (bump_feed c f k) as [= Hs Hg].
  split; [rewrite emit_gate; by apply rate_limited_feed|].
  destruct (rate_limited_feed c slot (bpf_ktime_get_ns c In_body) _ _ Hg) as (H1 & _ & H3).
  unfold emit. destruct (rate_limited _ _ _ (bump c f k)) as [limited k1]. cbn [fst snd] in *.
  destruct limited; [exists []; rewrite app_nil_r; split; [by rewrite <- Hs, <- H3|by left]|].
  destruct (cx_reserve c); cbn [snd].
  - eexists [_]. split; [cbn; by rewrite <- Hs, <- H3|]. right. split; [done|]. by eexists.
  - exists []. rewrite app_nil_r. split; [|by left]. pose proof (feed_drop c _ k1 : feed_state (drop_security c k1) = _) as [= -> _]. by rewrite <- Hs, <- H3.
Qed.
Lemma emit_54_alarmed c kind arg slot f k : alarmed c kind slot k (emit_54 c kind Warn arg slot (bump c f k)).2.
Proof.
  pose proof (bump_feed c f k) as [= Hs Hg].
  split; [rewrite emit_54_gate; by apply rate_limited_feed|].
  destruct (rate_limited_feed c slot (bpf_ktime_get_ns c In_body) _ _ Hg) as (H1 & _ & H3).
  unfold emit_54. destruct (rate_limited _ _ _ (bump c f k)) as [limited k1]. cbn [fst snd] in *.
  destruct limited; [exists []; rewrite app_nil_r; split; [by rewrite <- Hs, <- H3|by left]|].
  destruct (cpu_slot c (SEC_EVENT_SCRATCH k1)); cbn [snd]; [destruct (cx_output c)|].
  - eexists [_]. split; [cbn; by rewrite <- Hs, <- H3|]. right. split; [done|]. by eexists.
  - exists []. rewrite app_nil_r. split; [by rewrite <- Hs, <- H3|by left].
  - exists []. rewrite app_nil_r. split; [|by left]. pose proof (feed_drop c _ k1 : feed_state (drop_security c k1) = _) as [= -> _]. by rewrite <- Hs, <- H3.
Qed.

(** Every program of either build: nothing, or one alarm. *)
Lemma fire_feed h c k :
  let k' := (fire h c k).2 in
  feed_state k' = feed_state k \/
  exists m kind arg slot, alarm m c = Some (kind, arg, slot) /\ alarmed c kind slot k k'.
Proof.
  intros k'. destruct (watching h c) as [m|] eqn:Hw; [|left; by apply feed_quiet].
  assert (h <> H_sys_enter -> k' = (enter m c k).2) as He.
  { intros Hne. subst k'. destruct h; try done; cbn in Hw; by simplify_eq. }
  assert (h = H_sys_enter \/ h <> H_sys_enter) as [->|Hne] by (destruct h; auto).
  - subst k'. clear He. rename Hw into Hs. cbn [watching] in Hs. destruct (read_at_int 8 false c RAW_SYSCALL_NR) as [nr|] eqn:Hnr; [|done].
    pose proof (find_some _ _ Hs) as [_ Heq%Z.eqb_eq]. subst nr. cbn [fire]. rewrite (sys_enter_eq m) by done.
    destruct (alarm m c) as [[[kind arg] slot]|] eqn:Ha; [|left; apply bump_feed].
    right. exists m, kind, arg, slot. split; [done|apply emit_54_alarmed].
  - rewrite He by done. rewrite enter_eq.
    destruct (alarm m c) as [[[kind arg] slot]|] eqn:Ha; [|left; apply bump_feed].
    right. exists m, kind, arg, slot. split; [done|apply emit_alarmed].
Qed.

(** ** A run *)

(** A gate and the time of the last record let through. *)
Definition gated (cpu : nat) (kind : Z) (t0 : Z) (k : kernel) : Prop :=
  gate_full k /\ last_emit k cpu (kind_slot kind) = Some t0.

Lemma gated_same cpu kind t0 k k' :
  SEC_EMIT_GATE k' = SEC_EMIT_GATE k -> gated cpu kind t0 k -> gated cpu kind t0 k'.
Proof. unfold gated, gate_full, last_emit. by intros ->. Qed.

(** One program: what it puts into the buffer for the kind and CPU is one record
    at most, far enough from the last, and the gate remembers it. *)
Lemma fire_gated h c k cpu kind t0 :
  gated cpu kind t0 k ->
  let k' := (fire h c k).2 in
  let es := fed_from cpu kind (map (pair (cx_cpu c)) (drop (length (SECURITY_EVENTS k)) (SECURITY_EVENTS k'))) in
  exists t1, gated cpu kind t1 k' /\ (t1 = t0 \/ spaced t0 t1) /\
    (es = [] \/ map sev_timestamp_ns es = [t1] /\ spaced t0 t1).
Proof.
  intros Hg. cbv zeta. pose proof (fire_feed h c k) as Hfed. cbv zeta in Hfed.
  generalize dependent (fire h c k).2. intros k' Hfed.
  destruct Hfed as [[= Hs Hk]|(m & kd & arg & slot & Ha & Hgate & es & Hs & Hes)].
  { exists t0. rewrite Hs, drop_all. split; [by eapply gated_same|]. split; [by left|by left]. }
  rewrite Hs, drop_app_length. set (now := bpf_ktime_get_ns c In_body) in *.
  destruct Hg as [Hf Hl]. pose proof (gate_step c slot now k cpu (kind_slot kind) t0 Hf Hl) as [Hf' Hstep].
  destruct (rate_limited c slot now k) as [limited k1]. cbn [fst snd] in *.
  case_bool_decide as Hslot; rewrite ?andb_true_r, ?andb_false_r in Hstep.
  - destruct limited; cbn [negb] in Hstep.
    + exists t0. split; [by apply (gated_same _ _ _ k1)|]. split; [by left|left].
      by destruct Hes as [->|[? _]].
    + destruct Hstep as [Hsp Hl']. exists now. split; [by apply (gated_same _ _ _ k1)|]. split; [by right|].
      destruct Hes as [->|(_ & e & -> & _ & Hts)]; [by left|]. unfold fed_from. cbn [map]. rewrite filter_cons.
      case_decide; [right|by left]. cbn. by rewrite Hts.
  - exists t0. split; [by apply (gated_same _ _ _ k1)|]. split; [by left|left].
    destruct Hes as [->|(_ & e & -> & Hkd & _)]; [done|]. unfold fed_from. cbn [map]. rewrite filter_cons.
    case_decide as Hd; [|done]. destruct Hd as [Hc He]. cbn in Hc, He. exfalso. apply Hslot.
    rewrite Hc, (alarm_slot _ _ _ _ _ Ha), <- Hkd, He. done.
Qed.

Lemma spaced_trans t0 t1 t2 : t1 = t0 \/ spaced t0 t1 -> spaced t1 t2 -> spaced t0 t2.
Proof. unfold spaced, EMIT_MIN_INTERVAL_NS. lia. Qed.

Lemma fed_from_app cpu kind l1 l2 : fed_from cpu kind (l1 ++ l2) = fed_from cpu kind l1 ++ fed_from cpu kind l2.
Proof. unfold fed_from. by rewrite filter_app, map_app. Qed.

Lemma take_gated o y cpu kind t0 :
  match o with Fire _ _ => False | _ => True end ->
  gated cpu kind t0 (hy_kernel y) -> gated cpu kind t0 (hy_kernel (exec_op o y)).
Proof. destruct o; [done|..]; intros _ Hg; cbn [exec_op]; by case_match. Qed.

Lemma fed_spaced ops y cpu kind t0 :
  gated cpu kind t0 (hy_kernel y) ->
  StronglySorted spaced (t0 :: map sev_timestamp_ns (fed_from cpu kind (fed ops y))).
Proof.
  revert y t0. induction ops as [|o ops IH]; intros y t0 Hg; [by repeat constructor|].
  cbn [fed]. rewrite fed_from_app, map_app.
  assert (exists t1, gated cpu kind t1 (hy_kernel (exec_op o y)) /\ (t1 = t0 \/ spaced t0 t1) /\
    (fed_from cpu kind (fed_by o y) = [] \/
     map sev_timestamp_ns (fed_from cpu kind (fed_by o y)) = [t1] /\ spaced t0 t1)) as (t1 & Hg' & Ht & He).
  { destruct o as [h c| | |]; [by apply (fire_gated h c)|..];
      exists t0; (split; [by apply take_gated|split; by left]). }
  specialize (IH _ _ Hg'). inversion IH as [|? ? Hss Hall]; subst.
  assert (Forall (spaced t0) (map sev_timestamp_ns (fed_from cpu kind (fed ops (exec_op o y))))) as Hall0
    by (eapply Forall_impl; [exact Hall|]; intros t; by apply spaced_trans).
  destruct He as [->|[-> Hsp]]; cbn; [by constructor|]. constructor; [done|by constructor].
Qed.

(** C24: the feed is rate limited.  From boot, over any sequence of runs of the
    programs of either build and of records taken out by user space, the records
    put into the buffer of security events for one kind on one CPU are each at
    least 50 ms after the one before, so there are at most 20 in any second. *)
Theorem emissions_rate_limited n ops cpu kind T :
  (cpu < n)%nat ->
  let y0 := {| hy_kernel := kernel_init n; hy_emitted := tally_0; hy_delivered := tally_0; hy_refused := tally_0 |} in
  let times := map sev_timestamp_ns (fed_from cpu (SecurityEventKind_repr kind) (fed ops y0)) in
  StronglySorted spaced times /\ (length (filter (in_second T) times) <= 20)%nat.
Proof.
  intros Hc y0 times.
  assert (gated cpu (SecurityEventKind_repr kind) 0 (kernel_init n)) as Hg.
  { split; [apply Forall_replicate; reflexivity|]. unfold last_emit. cbn [SEC_EMIT_GATE kernel_init].
    rewrite lookup_replicate_2 by done. cbn. f_equal. by destruct kind. }
  pose proof (fed_spaced ops y0 _ _ _ Hg) as H. inversion H as [|? ? Hs _]; subst.
  split; [done|by apply spaced_second].
Qed.
(** Four ptrace calls on CPU 0: the second is 10 ms after the first, the third
    is after its event was taken and the 50 ms are over; one on CPU 1 has a gate
    of its own. *)
Lemma emissions_rate_limited_witness :
  let call cpu t := Fire H_sys_enter_ptrace (ideal_ctx cpu t 7 7 (replicate 32 0)) in
  let ops := [call 0%nat 60_000_000; call 0%nat 70_000_000; TakeSecurity; call 1%nat 75_000_000;
              call 0%nat 110_000_000] in
  let y0 := {| hy_kernel := kernel_init 2; hy_emitted := tally_0; hy_delivered := tally_0; hy_refused := tally_0 |} in
  let times := map sev_timestamp_ns (fed_from 0 (SecurityEventKind_repr Ptrace) (fed ops y0)) in
  times = [60_000_000; 110_000_000] /\ StronglySorted spaced times /\
  (length (filter (in_second 0) times) <= 20)%nat.
Proof.
  split; [vm_compute; reflexivity|].
  exact (emissions_rate_limited 2 _ 0 Ptrace 0 ltac:(lia)).
Defined.
