(* ===== verification/Loader.v ===== *)
(** [loader.rs] and the entry points it has to know: the program and map tables
    of both builds, [load] over what the kernel answers to each step, and the
    [/health] report of [main.rs].

    aya and the kernel are an input ([host]): which programs and maps the
    embedded object has, and whether each load, attach and open succeeds.  The
    drain tasks themselves are in [Events.v], the aggregator task in
    [Aggregator.v]. *)
From S2P Require Import Prelude.

Inductive prog_kind := TracePoint | BtfTracePoint | KProbe | CgroupSkb.
#[export] Instance prog_kind_eq_dec : EqDecision prog_kind.
Proof. solve_decision. Defined.

(** Where [attach] puts a program. *)
Inductive attach_point :=
  | AtEvent (category event : rstring)
  | AtBtf (function : rstring)
  | AtSymbol (symbol : rstring)
  | AtCgroup (ingress : bool).
#[export] Instance attach_point_eq_dec : EqDecision attach_point.
Proof. solve_decision. Defined.

(** [cfg(feature = "kernel-5-4")] or not. *)
Inductive build := Btf55 | Kernel54.

(** ** The tables *)

Definition TRACEPOINTS_shared : list (rstring * rstring * rstring) := [
  (lit "netif_receive_skb", lit "net", lit "netif_receive_skb");
  (lit "net_dev_xmit", lit "net", lit "net_dev_xmit");
  (lit "tcp_retransmit_skb", lit "tcp", lit "tcp_retransmit_skb");
  (lit "irq_handler_entry", lit "irq", lit "irq_handler_entry");
  (lit "irq_handler_exit", lit "irq", lit "irq_handler_exit");
  (lit "softirq_entry", lit "irq", lit "softirq_entry");
  (lit "softirq_exit", lit "irq", lit "softirq_exit")].

Definition TRACEPOINTS (b : build) : list (rstring * rstring * rstring) :=
  TRACEPOINTS_shared ++
  match b with
  | Btf55 => [
      (lit "sys_enter_ptrace", lit "syscalls", lit "sys_enter_ptrace");
      (lit "sys_enter_memfd_create", lit "syscalls", lit "sys_enter_memfd_create");
      (lit "sys_enter_setuid", lit "syscalls", lit "sys_enter_setuid");
      (lit "sys_enter_prctl", lit "syscalls", lit "sys_enter_prctl")]
  | Kernel54 => [
      (lit "sys_enter", lit "raw_syscalls", lit "sys_enter");
      (lit "sched_process_exec", lit "sched", lit "sched_process_exec");
      (lit "sched_process_exit", lit "sched", lit "sched_process_exit");
      (lit "sched_process_fork", lit "sched", lit "sched_process_fork");
      (lit "sched_wakeup", lit "sched", lit "sched_wakeup");
      (lit "sched_switch", lit "sched", lit "sched_switch");
      (lit "inet_sock_set_state", lit "sock", lit "inet_sock_set_state");
      (lit "kfree_skb", lit "skb", lit "kfree_skb");
      (lit "block_rq_complete", lit "block", lit "block_rq_complete")]
  end.

Definition BTF_TRACEPOINTS (b : build) : list rstring :=
  match b with
  | Btf55 => [
      lit "sched_process_exec"; lit "sched_process_exit"; lit "sched_process_fork";
      lit "sched_wakeup"; lit "sched_switch"; lit "inet_sock_set_state"; lit "kfree_skb";
      lit "block_rq_complete"]
  | Kernel54 => []
  end.

Definition KPROBES (b : build) : list (rstring * rstring) :=
  [(lit "handle_mm_fault", lit "handle_mm_fault");
   (lit "oom_kill_process", lit "oom_kill_process");
   (lit "do_exit", lit "do_exit");
   (lit "vfs_read", lit "vfs_read");
   (lit "vfs_write", lit "vfs_write")] ++
  match b with
  | Btf55 => []
  | Kernel54 => [
      (lit "tcp_sendmsg", lit "tcp_sendmsg"); (lit "tcp_cleanup_rbuf", lit "tcp_cleanup_rbuf")]
  end.

Definition EVENT_MAPS : list rstring := [lit "PROCESS_EVENTS"; lit "NET_EVENTS"; lit "SECURITY_EVENTS"].

Definition CGROUP_SKB_PROGS : list (rstring * rstring) :=
  [(lit "cgroup_skb_ingress", lit "ingress"); (lit "cgroup_skb_egress", lit "egress")].

(** The names [load] adds to the summary once the aggregator runs. *)
Definition AGGREGATOR_MAPS : list rstring :=
  [lit "SCHED_HISTOGRAM"; lit "NET_IFACE_STATS"; lit "TCP_STATE"; lit "MEMORY_STATS";
   lit "BLOCK_STATS"; lit "PROCESS_STATS"; lit "CPU_STATS"; lit "SECURITY_COUNTS";
   lit "NET_CGROUP_STATS"; lit "EVENT_DROPS"].

(** ** What the kernel answers *)

Inductive map_type := RingBuf | PerfEventArray | PerCpuArray | BpfHash.
#[export] Instance map_type_eq_dec : EqDecision map_type.
Proof. solve_decision. Defined.

(** Key and value types of the maps. *)
Inductive key_type := KeyU32 | KeyU64.
#[export] Instance key_type_eq_dec : EqDecision key_type.
Proof. solve_decision. Defined.
Inductive value_type :=
  | V_ProcessEvent | V_NetEvent | V_SecurityEvent
  | V_SchedHistogram | V_NetIfaceStats | V_TcpStateSnapshot | V_MemorySnapshot | V_BlockStats
  | V_ProcessStats | V_CpuStats | V_SecurityEventCounts | V_CgroupNetBytes | V_EventDropCounts
  | V_EmitGate | V_u64 | V_i32.
#[export] Instance value_type_eq_dec : EqDecision value_type.
Proof. solve_decision. Defined.

(** A typed handle: which map of the object a [PerCpuArray<MapData, V>] or an
    [AyaHash<MapData, K, V>] stands for. *)
Record handle (ty : map_type) (k : key_type) (v : value_type) := { hd_map : rstring }.
Arguments Build_handle {ty k v} _.
Arguments hd_map {ty k v} _.

(** [aggregator::PolledMaps], as handles. *)
Record PolledHandles := {
  ph_sched : handle PerCpuArray KeyU32 V_SchedHistogram;
  ph_net_iface : handle PerCpuArray KeyU32 V_NetIfaceStats;
  ph_tcp_state : handle PerCpuArray KeyU32 V_TcpStateSnapshot;
  ph_memory : handle PerCpuArray KeyU32 V_MemorySnapshot;
  ph_block : handle BpfHash KeyU64 V_BlockStats;
  ph_process : handle BpfHash KeyU32 V_ProcessStats;
  ph_cpu : handle PerCpuArray KeyU32 V_CpuStats;
  ph_security : handle PerCpuArray KeyU32 V_SecurityEventCounts;
  ph_net_cgroup : handle BpfHash KeyU64 V_CgroupNetBytes;
  ph_drops : handle PerCpuArray KeyU32 V_EventDropCounts }.

Record host := {
  ebpf_feature : bool;                        (* built with --features ebpf *)
  obj_len : nat;                              (* EBPF_OBJ.len() *)
  obj_parses : bool;                          (* Ebpf::load *)
  host_btf : bool;                            (* Btf::from_sys_fs *)
  program_mut : rstring -> option prog_kind;  (* the object's programs *)
  prog_load : rstring -> bool;
  prog_attach : rstring -> attach_point -> bool;
  cgroup_root_opens : bool;                   (* File::open(CGROUP_V2_ROOT) *)
  obj_maps : gset rstring;                    (* the object's maps *)
  map_try_into : rstring -> map_type -> result unit rstring;  (* Map::try_into *)
  async_fd_new : rstring -> bool;
  online_cpus : option (list Z);
  perf_open : rstring -> Z -> bool }.

Definition is_err {T E} (r : result T E) : bool := match r with Ok _ => false | Err _ => true end.

(** ** Loading *)

Inductive skip_reason :=
  | NotPresent | WrongType | LoadFailed | AttachFailed | BtfUnavailable | UnknownDirection.
Inductive task :=
  | DrainRing (map : rstring) | DrainPerf (map : rstring) (cpu : Z) | AggregatorTask (maps : PolledHandles).
Inductive load_log :=
  | ProgramAttached (name : rstring)
  | ProgramSkipped (name : rstring) (why : skip_reason)
  | KernelBtfUnavailable
  | CgroupRootInaccessible
  | MapDrained (map : rstring)
  | MapSkipped (map : rstring)
  | PerfBufferSkipped (map : rstring) (cpu : Z)
  | AggregatorSpawned
  | AggregatorNotStarted (e : rstring).

Record LoadSummary := { programs : list rstring; maps : list rstring }.
#[export] Instance eta_LoadSummary : Eta LoadSummary := fun r =>
  Build_LoadSummary (programs r) (maps r).
Definition LoadSummary_default : LoadSummary := {| programs := []; maps := [] |}.

(** The locals of [load]: [summary], [tasks], the maps still in [ebpf], the
    log; and what it has attached in the kernel. *)
Record loading := {
  summary : LoadSummary;
  tasks : list task;
  maps_left : gset rstring;
  log : list load_log;
  links : list (rstring * attach_point) }.
#[export] Instance eta_loading : Eta loading := fun r =>
  Build_loading (summary r) (tasks r) (maps_left r) (log r) (links r).

Definition logged (l : load_log) (st : loading) : loading := st <| log ::= fun ls => ls ++ [l] |>.
Definition attached (name : rstring) (at_ : attach_point) (st : loading) : loading :=
  logged (ProgramAttached name)
    (st <| links ::= fun ls => ls ++ [(name, at_)] |>
        <| summary ::= fun s => s <| programs ::= fun ps => ps ++ [name] |> |>).
Definition map_opened (name : rstring) (st : loading) : loading :=
  st <| summary ::= fun s => s <| maps ::= fun ms => ms ++ [name] |> |>.
Definition spawned (t : task) (st : loading) : loading := st <| tasks ::= fun ts => ts ++ [t] |>.

(** The body the four program loops share: look the program up, convert it,
    load it, attach it; any failure is logged and the loop goes on. *)
Definition load_program (h : host) (kind : prog_kind) (name : rstring) (at_ : attach_point)
    (st : loading) : loading :=
  match program_mut h name with
  | None => logged (ProgramSkipped name NotPresent) st
  | Some k =>
      if negb (bool_decide (k = kind)) then logged (ProgramSkipped name WrongType) st
      else if negb (prog_load h name) then logged (ProgramSkipped name LoadFailed) st
      else if negb (prog_attach h name at_) then logged (ProgramSkipped name AttachFailed) st
      else attached name at_ st
  end.

Definition load_tracepoints (h : host) (b : build) (st : loading) : loading :=
  foldl (fun st row => load_program h TracePoint row.1.1 (AtEvent row.1.2 row.2) st) st (TRACEPOINTS b).

Definition load_btf_tracepoints (h : host) (b : build) (st : loading) : loading :=
  foldl (fun st name =>
    if negb (host_btf h) then logged (ProgramSkipped name BtfUnavailable) st
    else load_program h BtfTracePoint name (AtBtf name) st) st (BTF_TRACEPOINTS b).

Definition load_kprobes (h : host) (b : build) (st : loading) : loading :=
  foldl (fun st row => load_program h KProbe row.1 (AtSymbol row.2) st) st (KPROBES b).

Definition attach_cgroup_skb (h : host) (st : loading) : loading :=
  if negb (cgroup_root_opens h) then logged CgroupRootInaccessible st
  else
    foldl (fun st row =>
      let '(name, direction) := row in
      if bool_decide (direction = lit "ingress") then load_program h CgroupSkb name (AtCgroup true) st
      else if bool_decide (direction = lit "egress") then load_program h CgroupSkb name (AtCgroup false) st
      else logged (ProgramSkipped name UnknownDirection) st) st CGROUP_SKB_PROGS.

(** [ebpf.take_map(name)]. *)
Definition take_map (name : rstring) (st : loading) : bool * loading :=
  (bool_decide (name ∈ maps_left st), st <| maps_left ::= fun m => m ∖ {[ name ]} |>).

(** The ring buffers of the BTF build. *)
Definition open_ring (h : host) (st : loading) (name : rstring) : loading :=
  let '(present, st) := take_map name st in
  if negb present then logged (MapSkipped name) st
  else if is_err (map_try_into h name RingBuf) then logged (MapSkipped name) st
  else if negb (async_fd_new h name) then logged (MapSkipped name) st
  else
    let st := map_opened name st in
    if bool_decide (name ∈ [lit "PROCESS_EVENTS"; lit "NET_EVENTS"; lit "SECURITY_EVENTS"])
    then logged (MapDrained name) (spawned (DrainRing name) st)
    else logged (MapSkipped name) st.

(** The perf event arrays of the 5.4 build: one buffer and one task per CPU. *)
Definition spawn_perf_drain (h : host) (name : rstring) (st : loading) : loading :=
  if is_err (map_try_into h name PerfEventArray) then logged (MapSkipped name) st
  else
    match online_cpus h with
    | None => logged (MapSkipped name) st
    | Some cpus =>
        foldl (fun st cpu =>
          if negb (perf_open h name cpu) then logged (PerfBufferSkipped name cpu) st
          else spawned (DrainPerf name cpu) st) st cpus
    end.

Definition open_perf (h : host) (st : loading) (name : rstring) : loading :=
  let '(present, st) := take_map name st in
  if negb present then logged (MapSkipped name) st
  else
    let before := length (tasks st) in
    let st := spawn_perf_drain h name st in
    if (before <? length (tasks st))%nat then logged (MapDrained name) (map_opened name st)
    else logged (MapSkipped name) st.

Definition open_event_maps (h : host) (b : build) (st : loading) : loading :=
  match b with
  | Btf55 => foldl (open_ring h) st EVENT_MAPS
  | Kernel54 => foldl (open_perf h) st EVENT_MAPS
  end.

(** [take_array] and [take_hash]. *)
Definition take_polled (h : host) (ty : map_type) (name : rstring) (st : loading)
    : result unit rstring * loading :=
  let '(present, st) := take_map name st in
  if negb present then (Err (lit "map not found: " ++ name), st)
  else
    match map_try_into h name ty with
    | Err e => (Err (name ++ lit ": " ++ e), st)
    | Ok _ => (Ok tt, st)
    end.
Definition taking {ty k v A} (h : host) (name : rstring)
    (next : handle ty k v -> loading -> result A rstring * loading) (st : loading) : result A rstring * loading :=
  match take_polled h ty name st with
  | (Ok _, st) => next (Build_handle name) st
  | (Err e, st) => (Err e, st)
  end.
(** The first failure ends it, with the maps taken so far already gone from
    [ebpf]. *)
Definition take_polled_maps (h : host) : loading -> result PolledHandles rstring * loading :=
  taking h (lit "SCHED_HISTOGRAM") (fun sched =>
  taking h (lit "NET_IFACE_STATS") (fun net_iface =>
  taking h (lit "TCP_STATE") (fun tcp_state =>
  taking h (lit "MEMORY_STATS") (fun memory =>
  taking h (lit "CPU_STATS") (fun cpu =>
  taking h (lit "SECURITY_COUNTS") (fun security =>
  taking h (lit "EVENT_DROPS") (fun drops =>
  taking h (lit "BLOCK_STATS") (fun block =>
  taking h (lit "PROCESS_STATS") (fun process =>
  taking h (lit "NET_CGROUP_STATS") (fun net_cgroup st =>
  (Ok {| ph_sched := sched; ph_net_iface := net_iface; ph_tcp_state := tcp_state; ph_memory := memory;
         ph_block := block; ph_process := process; ph_cpu := cpu; ph_security := security;
         ph_net_cgroup := net_cgroup; ph_drops := drops |}, st))))))))))).

Definition start_aggregator (h : host) (st : loading) : loading :=
  match take_polled_maps h st with
  | (Ok polled, st) =>
      logged AggregatorSpawned (spawned (AggregatorTask polled) st)
        <| summary ::= fun s => s <| maps ::= fun ms => ms ++ AGGREGATOR_MAPS |> |>
  | (Err e, st) => logged (AggregatorNotStarted e) st
  end.

Definition begin_loading (h : host) (b : build) : loading :=
  {| summary := LoadSummary_default; tasks := []; maps_left := obj_maps h;
     log := match b with
            | Btf55 => if host_btf h then [] else [KernelBtfUnavailable]
            | Kernel54 => []
            end;
     links := [] |}.

Definition load (h : host) (b : build) : result loading rstring :=
  if negb (ebpf_feature h) then Err (lit "agl-health-daemon was built without the `ebpf` feature; rebuild with `--features ebpf` (requires nightly + bpf-linker)")
  else if (obj_len h =? 0)%nat then Err (lit "eBPF object is empty - build.rs did not produce stage 1 output")
  else if negb (obj_parses h) then Err (lit "failed to parse the embedded eBPF ELF object")
  else
    let st := begin_loading h b in
    let st := load_tracepoints h b st in
    let st := load_btf_tracepoints h b st in
    let st := load_kprobes h b st in
    let st := match b with Btf55 => attach_cgroup_skb h st | Kernel54 => st end in
    let st := open_event_maps h b st in
    Ok (start_aggregator h st).

(** ** [/health] *)

(** [main]: a daemon whose [load] failed runs on with the default summary. *)
Definition bpf_summary (r : result loading rstring) : LoadSummary :=
  match r with Ok l => summary l | Err _ => LoadSummary_default end.

Record HealthResponse := {
  hr_status : rstring; hr_uptime_s : Z; programs_loaded : list rstring; maps_loaded : list rstring }.

Definition health (uptime_s : Z) (bpf : LoadSummary) : HealthResponse :=
  {| hr_status := lit "ok"; hr_uptime_s := uptime_s;
     programs_loaded := programs bpf; maps_loaded := maps bpf |}.

(** ** What a loop over a table adds *)

(** A loop each of whose turns appends [out x] to the list [proj], as long as
    [I] holds of what is left. *)
Lemma foldl_collects {St A B} (proj : St -> list B) (step : St -> A -> St) (out : A -> list B)
    (I : list A -> St -> Prop) l st :
  (forall x l st, I (x :: l) st -> proj (step st x) = proj st ++ out x /\ I l (step st x)) ->
  I l st -> proj (foldl step st l) = proj st ++ flat_map out l.
Proof.
  intros Hstep. revert st. induction l as [|x l IH]; intros st HI; cbn [foldl flat_map].
  - by rewrite app_nil_r.
  - destruct (Hstep x l st HI) as [Hp HI']. by rewrite (IH _ HI'), Hp, <- app_assoc.
Qed.

(** The same when nothing has to be known about the state. *)
Lemma foldl_appends {St A B} (proj : St -> list B) (step : St -> A -> St) (out : A -> list B) l st :
  (forall x st, proj (step st x) = proj st ++ out x) ->
  proj (foldl step st l) = proj st ++ flat_map out l.
Proof. intros H. by apply foldl_collects with (I := fun _ _ => True). Qed.

(** ... and when the loop leaves a part of the state alone. *)
Lemma foldl_keeps {St A B} (proj : St -> B) (step : St -> A -> St) l st :
  (forall x st, proj (step st x) = proj st) -> proj (foldl step st l) = proj st.
Proof. intros H. revert st. induction l as [|x l IH]; intros st; cbn; [done|]. by rewrite IH, H. Qed.

Lemma flat_map_filter {A B} (P : A -> Prop) `{!forall x, Decision (P x)} (f : A -> B) l :
  flat_map (fun x => if decide (P x) then [f x] else []) l = map f (filter P l).
Proof.
  induction l as [|x l IH]; [done|]. cbn [flat_map]. rewrite IH, filter_cons. by case_decide.
Qed.

(** ** Programs *)

Definition row : Type := prog_kind * rstring * attach_point.
Definition row_name (r : row) : rstring := r.1.2.

(** Everything the loops try, in order. *)
Definition table (b : build) : list row :=
  map (fun r => (TracePoint, r.1.1, AtEvent r.1.2 r.2)) (TRACEPOINTS b) ++
  map (fun n => (BtfTracePoint, n, AtBtf n)) (BTF_TRACEPOINTS b) ++
  map (fun r => (KProbe, r.1, AtSymbol r.2)) (KPROBES b) ++
  match b with
  | Btf55 => [(CgroupSkb, lit "cgroup_skb_ingress", AtCgroup true);
              (CgroupSkb, lit "cgroup_skb_egress", AtCgroup false)]
  | Kernel54 => []
  end.

(** The kernel takes this program. *)
Definition attaches (h : host) (r : row) : Prop :=
  program_mut h r.1.2 = Some r.1.1 /\ prog_load h r.1.2 = true /\ prog_attach h r.1.2 r.2 = true /\
  (r.1.1 = BtfTracePoint -> host_btf h = true) /\ (r.1.1 = CgroupSkb -> cgroup_root_opens h = true).
#[export] Instance attaches_dec h r : Decision (attaches h r) := _.

Definition attached_names (h : host) (rows : list row) : list rstring :=
  map row_name (filter (attaches h) rows).
Definition attached_links (h : host) (rows : list row) : list (rstring * attach_point) :=
  map (fun r => (row_name r, r.2)) (filter (attaches h) rows).
Lemma attached_links_names h rows : map fst (attached_links h rows) = attached_names h rows.
Proof. unfold attached_links, attached_names. by rewrite map_map. Qed.

(** What the loops leave alone. *)
Definition kept (st : loading) : list rstring * list task * gset rstring :=
  (maps (summary st), tasks st, maps_left st).

Lemma frame_load_program h kind name p st : kept (load_program h kind name p st) = kept st.
Proof. unfold load_program. by repeat case_match. Qed.

Lemma links_load_program h kind name p st :
  (kind = BtfTracePoint -> host_btf h = true) -> (kind = CgroupSkb -> cgroup_root_opens h = true) ->
  links (load_program h kind name p st) =
    links st ++ attached_links h [(kind, name, p)].
Proof.
  intros Hbtf Hcg. unfold attached_links. rewrite filter_cons, filter_nil.
  destruct (decide _) as [(Hk & Hl & Ha & _)|Hn]; cbn [fst snd] in *; unfold load_program.
  - by rewrite Hk, Hl, Ha, bool_decide_true by done.
  - rewrite app_nil_r. destruct (program_mut h name) as [k|] eqn:Hk; [|done].
    case_bool_decide; [|done]. destruct (prog_load h name) eqn:Hl; [|done].
    destruct (prog_attach h name p) eqn:Ha; [|done].
    destruct Hn. subst k. by unfold attaches.
Qed.

Lemma attached_links_app h r1 r2 : attached_links h (r1 ++ r2) = attached_links h r1 ++ attached_links h r2.
Proof. unfold attached_links. by rewrite filter_app, map_app. Qed.

Lemma attached_links_none h rows :
  (forall r, r ∈ rows -> ~ attaches h r) -> attached_links h rows = [].
Proof.
  intros H. unfold attached_links. rewrite filter_none; [done|]. by apply Forall_forall.
Qed.

(** A loop over a table, given what one turn does to the program list. *)
Lemma links_loop {A} h (step : loading -> A -> loading) (f : A -> row) l st :
  (forall x st, links (step st x) = links st ++ attached_links h [f x]) ->
  links (foldl step st l) = links st ++ attached_links h (map f l).
Proof.
  intros H. rewrite (foldl_appends links step (fun x => attached_links h [f x])) by done.
  f_equal. induction l as [|x l IH]; [done|]. cbn [flat_map map]. rewrite IH.
  symmetry. apply (attached_links_app h [f x]).
Qed.

Lemma links_btf_turn h name st :
  links (if negb (host_btf h) then logged (ProgramSkipped name BtfUnavailable) st
                     else load_program h BtfTracePoint name (AtBtf name) st) =
  links st ++ attached_links h [(BtfTracePoint, name, AtBtf name)].
Proof.
  destruct (host_btf h) eqn:Hb; cbn [negb]; [by apply links_load_program|].
  rewrite attached_links_none, app_nil_r; [done|].
  intros r ->%list_elem_of_singleton (_ & _ & _ & Hbtf & _). specialize (Hbtf eq_refl). congruence.
Qed.

Lemma links_cgroup h st :
  links (attach_cgroup_skb h st) =
  links st ++ attached_links h
    [(CgroupSkb, lit "cgroup_skb_ingress", AtCgroup true); (CgroupSkb, lit "cgroup_skb_egress", AtCgroup false)].
Proof.
  unfold attach_cgroup_skb. destruct (cgroup_root_opens h) eqn:Hc; cbn [negb].
  - unfold CGROUP_SKB_PROGS. cbn [foldl].
    rewrite (bool_decide_true (lit "ingress" = lit "ingress")) by done.
    rewrite (bool_decide_false (lit "egress" = lit "ingress")) by done.
    rewrite (bool_decide_true (lit "egress" = lit "egress")) by done.
    rewrite !links_load_program by done. rewrite <- app_assoc, <- attached_links_app. done.
  - rewrite attached_links_none, app_nil_r; [done|].
    intros r Hr (_ & _ & _ & _ & Hcg). apply list_elem_of_In in Hr.
    destruct Hr as [<- |[<- |[]]]; specialize (Hcg eq_refl); congruence.
Qed.

(** The four loops of [load]. *)
Definition load_programs (h : host) (b : build) (st : loading) : loading :=
  let st := load_kprobes h b (load_btf_tracepoints h b (load_tracepoints h b st)) in
  match b with Btf55 => attach_cgroup_skb h st | Kernel54 => st end.

Lemma links_load_programs h b st :
  links (load_programs h b st) = links st ++ attached_links h (table b).
Proof.
  assert (forall st, links (load_kprobes h b (load_btf_tracepoints h b (load_tracepoints h b st)))
    = links st ++ attached_links h
        (map (fun r => (TracePoint, r.1.1, AtEvent r.1.2 r.2)) (TRACEPOINTS b) ++
         map (fun n => (BtfTracePoint, n, AtBtf n)) (BTF_TRACEPOINTS b) ++
         map (fun r => (KProbe, r.1, AtSymbol r.2)) (KPROBES b))) as H.
  { intros st0. unfold load_kprobes, load_btf_tracepoints, load_tracepoints.
    rewrite (links_loop h _ (fun r => (KProbe, r.1, AtSymbol r.2)))
      by (intros; by apply links_load_program).
    rewrite (links_loop h _ (fun n => (BtfTracePoint, n, AtBtf n)))
      by (intros; apply links_btf_turn).
    rewrite (links_loop h _ (fun r => (TracePoint, r.1.1, AtEvent r.1.2 r.2)))
      by (intros; by apply links_load_program).
    rewrite !attached_links_app, !app_assoc. done. }
  unfold load_programs, table. destruct b.
  - rewrite links_cgroup, H, <- app_assoc, <- attached_links_app, <- !app_assoc. done.
  - rewrite H, app_nil_r. done.
Qed.

(** The summary names the programs attached. *)
Definition named (st : loading) : Prop := programs (summary st) = map fst (links st).
Lemma named_load_program h kind name p st : named st -> named (load_program h kind name p st).
Proof. unfold load_program, named. intros Hn. repeat case_match; try done. cbn. by rewrite Hn, map_app. Qed.
Lemma named_foldl {A} (step : loading -> A -> loading) l st :
  (forall x st, named st -> named (step st x)) -> named st -> named (foldl step st l).
Proof. intros H. revert st. induction l as [|x l IH]; intros st Hst; cbn; [done|]. by apply IH, H. Qed.
Lemma named_load_programs h b st : named st -> named (load_programs h b st).
Proof.
  intros Hn. assert (named (load_kprobes h b (load_btf_tracepoints h b (load_tracepoints h b st)))) as H.
  { unfold load_kprobes, load_btf_tracepoints, load_tracepoints.
    repeat (apply named_foldl; [intros x st0 Hst; try case_match; try done; by apply named_load_program|]). done. }
  unfold load_programs. destruct b; [|done]. unfold attach_cgroup_skb. case_match; [done|].
  apply named_foldl; [|done]. intros [] st0 Hst. repeat case_match; try done; by apply named_load_program.
Qed.

(** ** The log

    Nothing is skipped silently. *)
Definition said (h : host) (r : row) (e : load_log) : Prop :=
  ~ attaches h r -> exists why, e = ProgramSkipped (row_name r) why.

Lemma log_load_program h kind name p st :
  exists e, log (load_program h kind name p st) = log st ++ [e] /\
    ((kind = BtfTracePoint -> host_btf h = true) -> (kind = CgroupSkb -> cgroup_root_opens h = true) ->
     said h (kind, name, p) e).
Proof.
  unfold load_program, said, attaches, row_name. cbn [fst snd].
  destruct (program_mut h name) as [k|]; [|by eauto 6].
  case_bool_decide; cbn [negb]; [|by eauto 6].
  destruct (prog_load h name); cbn [negb]; [|by eauto 6].
  destruct (prog_attach h name p); cbn [negb]; [|by eauto 6].
  eexists. split; [reflexivity|]. naive_solver.
Qed.

Lemma log_loop {A} h (step : loading -> A -> loading) (f : A -> row) l st :
  (forall x st, exists e, log (step st x) = log st ++ [e] /\ said h (f x) e) ->
  exists es, log (foldl step st l) = log st ++ es /\ Forall2 (said h) (map f l) es.
Proof.
  intros Hstep. revert st. induction l as [|x l IH]; intros st; cbn [foldl map].
  - exists []. by rewrite app_nil_r.
  - destruct (Hstep x st) as (e & He & Hs). destruct (IH (step st x)) as (es & Hes & Hf).
    exists (e :: es). rewrite Hes, He, <- app_assoc. split; [done|by constructor].
Qed.

Definition accounted (h : host) (rows : list row) (es : list load_log) : Prop :=
  forall r, r ∈ rows -> ~ attaches h r ->
    (exists why, ProgramSkipped (row_name r) why ∈ es) \/
    (r.1.1 = CgroupSkb /\ CgroupRootInaccessible ∈ es).

Lemma said_accounted h rows es : Forall2 (said h) rows es -> accounted h rows es.
Proof.
  intros Hf r Hr Hn. left. apply list_elem_of_lookup in Hr as [i Hi].
  destruct (Forall2_lookup_l _ _ _ _ _ Hf Hi) as (e & He & Hs).
  destruct (Hs Hn) as [why ->]. exists why. by eapply list_elem_of_lookup_2.
Qed.

Lemma accounted_app h r1 r2 e1 e2 :
  accounted h r1 e1 -> accounted h r2 e2 -> accounted h (r1 ++ r2) (e1 ++ e2).
Proof.
  intros H1 H2 r [Hr|Hr]%elem_of_app Hn;
    [destruct (H1 r Hr Hn) as [[w Hw]|[Hk Hw]]|destruct (H2 r Hr Hn) as [[w Hw]|[Hk Hw]]];
    [left; exists w|right|left; exists w|right]; rewrite elem_of_app; tauto.
Qed.

Lemma log_btf_turn h name st :
  exists e, log (if negb (host_btf h) then logged (ProgramSkipped name BtfUnavailable) st
                 else load_program h BtfTracePoint name (AtBtf name) st) = log st ++ [e] /\
    said h (BtfTracePoint, name, AtBtf name) e.
Proof.
  destruct (host_btf h) eqn:Hb; cbn [negb].
  - destruct (log_load_program h BtfTracePoint name (AtBtf name) st) as (e & He & Hs).
    exists e. split; [exact He|by apply Hs].
  - eexists. split; [reflexivity|]. intros _. by exists BtfUnavailable.
Qed.

Lemma log_cgroup h st :
  exists es, log (attach_cgroup_skb h st) = log st ++ es /\
    accounted h [(CgroupSkb, lit "cgroup_skb_ingress", AtCgroup true);
                 (CgroupSkb, lit "cgroup_skb_egress", AtCgroup false)] es.
Proof.
  unfold attach_cgroup_skb. destruct (cgroup_root_opens h) eqn:Hc; cbn [negb].
  - unfold CGROUP_SKB_PROGS. cbn [foldl].
    rewrite (bool_decide_true (lit "ingress" = lit "ingress")) by done.
    rewrite (bool_decide_false (lit "egress" = lit "ingress")) by done.
    rewrite (bool_decide_true (lit "egress" = lit "egress")) by done.
    destruct (log_load_program h CgroupSkb (lit "cgroup_skb_ingress") (AtCgroup true) st) as (e1 & He1 & H1).
    edestruct (log_load_program h CgroupSkb (lit "cgroup_skb_egress") (AtCgroup false)) as (e2 & He2 & H2).
    exists ([e1] ++ [e2]). rewrite He2, He1, <- app_assoc. split; [done|].
    apply said_accounted. constructor; [by apply H1|]. constructor; [by apply H2|constructor].
  - exists [CgroupRootInaccessible]. split; [done|]. intros r Hr _. right. split; [|by constructor].
    apply list_elem_of_In in Hr. by destruct Hr as [<- |[<- |[]]].
Qed.

Lemma log_load_programs h b st :
  exists es, log (load_programs h b st) = log st ++ es /\ accounted h (table b) es.
Proof.
  unfold load_programs, table, load_kprobes, load_btf_tracepoints, load_tracepoints.
  edestruct (log_loop h (fun st r => load_program h TracePoint r.1.1 (AtEvent r.1.2 r.2) st)
    (fun r => (TracePoint, r.1.1, AtEvent r.1.2 r.2)) (TRACEPOINTS b) st) as (e1 & He1 & H1).
  { intros x st0. edestruct log_load_program as (e & He & Hs). exists e. split; [exact He|by apply Hs]. }
  edestruct (log_loop h (fun st n => if negb (host_btf h) then logged (ProgramSkipped n BtfUnavailable) st
      else load_program h BtfTracePoint n (AtBtf n) st) (fun n => (BtfTracePoint, n, AtBtf n)) (BTF_TRACEPOINTS b))
    as (e2 & He2 & H2). { intros x st0. apply log_btf_turn. }
  edestruct (log_loop h (fun st r => load_program h KProbe r.1 (AtSymbol r.2) st)
    (fun r => (KProbe, r.1, AtSymbol r.2)) (KPROBES b)) as (e3 & He3 & H3).
  { intros x st0. edestruct log_load_program as (e & He & Hs). exists e. split; [exact He|by apply Hs]. }
  apply said_accounted in H1, H2, H3. destruct b.
  - edestruct log_cgroup as (e4 & He4 & H4). exists (e1 ++ e2 ++ e3 ++ e4).
    rewrite He4, He3, He2, He1, <- !app_assoc. split; [done|]. by repeat apply accounted_app.
  - exists (e1 ++ e2 ++ e3). rewrite He3, He2, He1, <- !app_assoc, app_nil_r. split; [done|].
    by repeat apply accounted_app.
Qed.

(** ** Maps *)

(** The maps of [take_polled_maps] as a list, in the order it takes them, and
    taking them all. *)
Definition POLLED_ARRAYS : list rstring :=
  [lit "SCHED_HISTOGRAM"; lit "NET_IFACE_STATS"; lit "TCP_STATE"; lit "MEMORY_STATS";
   lit "CPU_STATS"; lit "SECURITY_COUNTS"; lit "EVENT_DROPS"].
Definition POLLED_HASHES : list rstring :=
  [lit "BLOCK_STATS"; lit "PROCESS_STATS"; lit "NET_CGROUP_STATS"].
Definition POLLED : list (map_type * rstring) :=
  List.map (pair PerCpuArray) POLLED_ARRAYS ++ List.map (pair BpfHash) POLLED_HASHES.
Fixpoint take_all (h : host) (l : list (map_type * rstring)) (st : loading)
    : result unit rstring * loading :=
  match l with
  | [] => (Ok tt, st)
  | (ty, name) :: l =>
      match take_polled h ty name st with
      | (Ok _, st) => take_all h l st
      | (Err e, st) => (Err e, st)
      end
  end.
(** Every field has the map of its name. *)
Definition own_maps : PolledHandles := {|
  ph_sched := Build_handle (lit "SCHED_HISTOGRAM"); ph_net_iface := Build_handle (lit "NET_IFACE_STATS");
  ph_tcp_state := Build_handle (lit "TCP_STATE"); ph_memory := Build_handle (lit "MEMORY_STATS");
  ph_block := Build_handle (lit "BLOCK_STATS"); ph_process := Build_handle (lit "PROCESS_STATS");
  ph_cpu := Build_handle (lit "CPU_STATS"); ph_security := Build_handle (lit "SECURITY_COUNTS");
  ph_net_cgroup := Build_handle (lit "NET_CGROUP_STATS"); ph_drops := Build_handle (lit "EVENT_DROPS") |}.
Lemma take_polled_maps_all h st :
  take_polled_maps h st =
    let r := take_all h POLLED st in
    (match r.1 with Ok _ => Ok own_maps | Err e => Err e end, r.2).
Proof.
  unfold take_polled_maps, POLLED, POLLED_ARRAYS, POLLED_HASHES. cbn [List.map app take_all]. unfold taking.
  repeat (destruct (take_polled h _ _ _) as [[[]|?] ?]; [|reflexivity]). reflexivity.
Qed.

Definition opened (h : host) (ty : map_type) (name : rstring) : Prop :=
  name ∈ obj_maps h /\ is_err (map_try_into h name ty) = false.
#[export] Instance opened_dec h ty name : Decision (opened h ty name) := _.

(** The ring buffers that get a drain task, and the CPUs of a perf array that do. *)
Definition ring_drained (h : host) (name : rstring) : Prop :=
  opened h RingBuf name /\ async_fd_new h name = true.
#[export] Instance ring_drained_dec h name : Decision (ring_drained h name) := _.

Definition perf_cpus (h : host) (name : rstring) : list Z :=
  if decide (opened h PerfEventArray name)
  then filter (fun cpu => perf_open h name cpu = true) (unwrap_or [] (online_cpus h)) else [].

(** All ten polled maps are there and of the right type. *)
Definition polled_complete (h : host) : Prop := Forall (fun x => opened h x.1 x.2) POLLED.
#[export] Instance polled_complete_dec h : Decision (polled_complete h) := _.

Definition drain_tasks (h : host) (b : build) : list task :=
  match b with
  | Btf55 => map DrainRing (filter (ring_drained h) EVENT_MAPS)
  | Kernel54 => flat_map (fun n => map (DrainPerf n) (perf_cpus h n)) EVENT_MAPS
  end.
Definition drained_maps (h : host) (b : build) : list rstring :=
  match b with
  | Btf55 => filter (ring_drained h) EVENT_MAPS
  | Kernel54 => filter (fun n => perf_cpus h n <> []) EVENT_MAPS
  end.

(** The maps a loop has still to visit are as the object had them. *)
Definition untouched (h : host) (l : list rstring) (st : loading) : Prop :=
  NoDup l /\ forall n, n ∈ l -> (n ∈ maps_left st <-> n ∈ obj_maps h).

Lemma conj_assoc (A B C : Prop) : (A /\ B) /\ C -> A /\ B /\ C.
Proof. tauto. Qed.

Lemma untouched_next h n l st st' :
  untouched h (n :: l) st -> maps_left st' = maps_left st ∖ {[ n ]} ->
  (n ∈ maps_left st <-> n ∈ obj_maps h) /\ untouched h l st'.
Proof.
  intros [[Hn Hnd]%NoDup_cons Hm] Heq. split; [apply Hm; by left|]. split; [done|].
  intros m Hml. rewrite Heq, elem_of_difference, elem_of_singleton, <- Hm by (by right).
  split; [by intros []|]. intros Hin. split; [done|]. by intros ->.
Qed.

Lemma maps_left_open_ring h st n : maps_left (open_ring h st n) = maps_left st ∖ {[ n ]}.
Proof. unfold open_ring, take_map. by repeat case_match. Qed.

Lemma open_ring_turn h n l st :
  untouched h (n :: l) st -> n ∈ EVENT_MAPS ->
  tasks (open_ring h st n) = tasks st ++ (if decide (ring_drained h n) then [DrainRing n] else []) /\
  maps (summary (open_ring h st n)) =
    maps (summary st) ++ (if decide (ring_drained h n) then [n] else []) /\
  untouched h l (open_ring h st n).
Proof.
  intros Hu Hn. destruct (untouched_next h n l st (open_ring h st n) Hu) as [Hin Hu'];
    [apply maps_left_open_ring|].
  apply conj_assoc; split; [|exact Hu']. destruct (decide _) as [[[Ho Hc] Ha]|Hd].
  - unfold open_ring, take_map. rewrite bool_decide_true by (by apply Hin). cbn [negb].
    rewrite Hc, Ha. cbn [negb]. by rewrite bool_decide_true.
  - rewrite !app_nil_r. unfold open_ring, take_map. case_bool_decide as Hm; cbn [negb]; [|done].
    destruct (is_err _) eqn:Hc; [done|]. destruct (async_fd_new h n) eqn:Ha; cbn [negb]; [|done].
    destruct Hd. split; [|done]. split; [by apply Hin|done].
Qed.

(** One map of the 5.4 build. *)
Lemma spawn_perf_drain_effect h n st :
  is_err (map_try_into h n PerfEventArray) = false ->
  tasks (spawn_perf_drain h n st) = tasks st ++
    map (DrainPerf n) (filter (fun cpu => perf_open h n cpu = true) (unwrap_or [] (online_cpus h))).
Proof.
  intros Hc. unfold spawn_perf_drain. rewrite Hc. destruct (online_cpus h) as [cpus|]; cbn [unwrap_or].
  - rewrite (foldl_appends tasks _
      (fun cpu => if decide (perf_open h n cpu = true) then [DrainPerf n cpu] else [])).
    + by rewrite flat_map_filter.
    + intros cpu st0. destruct (perf_open h n cpu) eqn:Hp; cbn [negb].
      * by rewrite decide_True.
      * rewrite decide_False by congruence. by rewrite app_nil_r.
  - by rewrite app_nil_r.
Qed.

Lemma maps_left_spawn_perf h n st : maps_left (spawn_perf_drain h n st) = maps_left st.
Proof.
  unfold spawn_perf_drain. repeat case_match; try done. apply foldl_keeps. intros. by repeat case_match.
Qed.
Lemma maps_spawn_perf h n st : maps (summary (spawn_perf_drain h n st)) = maps (summary st).
Proof.
  unfold spawn_perf_drain. repeat case_match; try done.
  apply (foldl_keeps (fun st => maps (summary st))). intros. by repeat case_match.
Qed.

Lemma maps_left_open_perf h st n : maps_left (open_perf h st n) = maps_left st ∖ {[ n ]}.
Proof.
  unfold open_perf, take_map. destruct (negb _); [done|].
  destruct (_ <? _)%nat; cbn; by rewrite maps_left_spawn_perf.
Qed.

Lemma open_perf_turn h n l st :
  untouched h (n :: l) st ->
  tasks (open_perf h st n) = tasks st ++ map (DrainPerf n) (perf_cpus h n) /\
  maps (summary (open_perf h st n)) =
    maps (summary st) ++ (if decide (perf_cpus h n <> []) then [n] else []) /\
  untouched h l (open_perf h st n).
Proof.
  intros Hu. destruct (untouched_next h n l st (open_perf h st n) Hu) as [Hin Hu'];
    [apply maps_left_open_perf|].
  apply conj_assoc; split; [|exact Hu']. unfold perf_cpus.
  unfold open_perf, take_map. case_bool_decide as Hm; cbn [negb].
  2: { rewrite (decide_False (P := opened h PerfEventArray n)) by (intros [Ho _]; by apply Hm, Hin).
       by rewrite !app_nil_r. }
  set (st1 := st <| maps_left ::= _ |>).
  destruct (is_err (map_try_into h n PerfEventArray)) eqn:Hc.
  - rewrite (decide_False (P := opened h PerfEventArray n)) by (intros [_ Ho]; congruence).
    unfold spawn_perf_drain. rewrite Hc. cbn [logged tasks]. change (tasks st1) with (tasks st).
    by rewrite Nat.ltb_irrefl, !app_nil_r.
  - rewrite (decide_True (P := opened h PerfEventArray n)) by (split; [by apply Hin|done]).
    pose proof (spawn_perf_drain_effect h n st1 Hc) as Ht. pose proof (maps_spawn_perf h n st1) as Hmaps.
    destruct (filter _ _) as [|c cpus].
    + rewrite Ht. cbn [map]. rewrite app_nil_r. change (tasks st1) with (tasks st).
      rewrite Nat.ltb_irrefl. cbn [logged tasks summary].
      rewrite decide_False by (intros []; done). cbn [map] in *. rewrite !app_nil_r in *.
      split; [exact Ht|exact Hmaps].
    + rewrite Ht, length_app. change (tasks st1) with (tasks st). cbn [map length].
      rewrite (proj2 (Nat.ltb_lt _ _)) by lia. rewrite decide_True by done.
      cbn. rewrite Ht, Hmaps. done.
Qed.

Lemma foldl_turns h (step : loading -> rstring -> loading) (P : rstring -> Prop)
    (tout : rstring -> list task) (mout : rstring -> list rstring) l st :
  (forall n l st, untouched h (n :: l) st -> P n ->
    tasks (step st n) = tasks st ++ tout n /\
    maps (summary (step st n)) = maps (summary st) ++ mout n /\ untouched h l (step st n)) ->
  untouched h l st -> Forall P l ->
  tasks (foldl step st l) = tasks st ++ flat_map tout l /\
  maps (summary (foldl step st l)) = maps (summary st) ++ flat_map mout l.
Proof.
  intros Hstep Hu HP. split.
  - apply (foldl_collects tasks) with (I := fun l st => untouched h l st /\ Forall P l); [|done].
    intros n l0 st0 [Hu0 [Hn Hl]%Forall_cons]. destruct (Hstep n l0 st0 Hu0 Hn) as (? & _ & ?). done.
  - apply (foldl_collects (fun st => maps (summary st)))
      with (I := fun l st => untouched h l st /\ Forall P l); [|done].
    intros n l0 st0 [Hu0 [Hn Hl]%Forall_cons]. destruct (Hstep n l0 st0 Hu0 Hn) as (_ & ? & ?). done.
Qed.

Lemma flat_map_filter_id {A} (P : A -> Prop) `{!forall x, Decision (P x)} l :
  flat_map (fun x => if decide (P x) then [x] else []) l = filter P l.
Proof. rewrite (flat_map_filter P (fun x => x)). apply map_id. Qed.

Lemma open_event_maps_effect h b st :
  untouched h EVENT_MAPS st ->
  tasks (open_event_maps h b st) = tasks st ++ drain_tasks h b /\
  maps (summary (open_event_maps h b st)) = maps (summary st) ++ drained_maps h b.
Proof.
  intros Hu. destruct b; cbn [open_event_maps drain_tasks drained_maps].
  - edestruct (foldl_turns h (open_ring h) (fun n => n ∈ EVENT_MAPS)
      (fun n => if decide (ring_drained h n) then [DrainRing n] else [])
      (fun n => if decide (ring_drained h n) then [n] else [])) as [Ht Hm].
    + intros n l st0. by apply open_ring_turn.
    + exact Hu.
    + by apply Forall_forall.
    + rewrite Ht, Hm, flat_map_filter, flat_map_filter_id. done.
  - edestruct (foldl_turns h (open_perf h) (fun n => True)
      (fun n => map (DrainPerf n) (perf_cpus h n))
      (fun n => if decide (perf_cpus h n <> []) then [n] else [])) as [Ht Hm].
    + intros n l st0 Hn _. by apply open_perf_turn.
    + exact Hu.
    + by apply Forall_forall.
    + rewrite Ht, Hm, flat_map_filter_id. done.
Qed.

Lemma maps_left_foldl (step : loading -> rstring -> loading) l st n :
  (forall st m, maps_left (step st m) = maps_left st ∖ {[ m ]}) -> n ∉ l ->
  n ∈ maps_left (foldl step st l) <-> n ∈ maps_left st.
Proof.
  intros Hstep. revert st. induction l as [|m l IH]; intros st Hn; [done|]. cbn [foldl].
  apply not_elem_of_cons in Hn as [Hnm Hn]. rewrite IH by done.
  rewrite Hstep, elem_of_difference, elem_of_singleton. tauto.
Qed.

Lemma maps_left_all (step : loading -> rstring -> loading) l st :
  (forall st m, maps_left (step st m) = maps_left st ∖ {[ m ]}) ->
  maps_left (foldl step st l) = maps_left st ∖ list_to_set l.
Proof.
  intros Hstep. revert st. induction l as [|m l IH]; intros st; cbn [foldl list_to_set]; [set_solver|].
  rewrite IH, Hstep. set_solver.
Qed.
Lemma maps_left_take_all h l st u :
  (take_all h l st).1 = Ok u -> maps_left (take_all h l st).2 = maps_left st ∖ list_to_set (map snd l).
Proof.
  revert st. induction l as [|[ty n] l IH]; intros st; cbn [take_all map snd list_to_set]; [set_solver|].
  unfold take_polled, take_map. destruct (negb _); [done|]. destruct (map_try_into h n ty); [|done].
  intros H. rewrite (IH _ H). cbn [maps_left upd updater]. set_solver.
Qed.

Lemma maps_left_open_event_maps h b st n :
  n ∉ EVENT_MAPS -> n ∈ maps_left (open_event_maps h b st) <-> n ∈ maps_left st.
Proof.
  intros Hn. destruct b; cbn [open_event_maps]; apply maps_left_foldl; try done; intros.
  - apply maps_left_open_ring.
  - apply maps_left_open_perf.
Qed.

Lemma take_all_spec h l st :
  untouched h (map snd l) st ->
  let r := take_all h l st in
  (summary r.2, tasks r.2, log r.2, links r.2) = (summary st, tasks st, log st, links st) /\
  match r.1 with
  | Ok _ => Forall (fun x => opened h x.1 x.2) l
  | Err _ => ~ Forall (fun x => opened h x.1 x.2) l
  end.
Proof.
  revert st. induction l as [|[ty n] l IH]; intros st Hu; cbn [take_all]; [by repeat constructor|].
  unfold take_polled, take_map. cbn [map snd] in Hu.
  set (st1 := st <| maps_left ::= _ |>).
  destruct (untouched_next h n _ st st1 Hu eq_refl) as [Hin Hu'].
  case_bool_decide as Hm; cbn [negb].
  2: { split; [done|]. intros [[Ho _] _]%Forall_cons. by apply Hm, Hin. }
  destruct (map_try_into h n ty) as [u|e] eqn:Hc.
  - specialize (IH st1 Hu'). cbn zeta in IH. destruct (take_all h l st1) as [r st2]. cbn [fst snd] in *.
    destruct IH as [Hf Hr]. split; [by rewrite Hf|]. destruct r as [[]|e].
    + constructor; [|done]. split; [by apply Hin|by cbn; rewrite Hc].
    + by intros [_ Hl]%Forall_cons.
  - split; [done|]. intros [[_ Ho] _]%Forall_cons. cbn in Ho. by rewrite Hc in Ho.
Qed.

Lemma start_aggregator_effect h st :
  untouched h (map snd POLLED) st ->
  tasks (start_aggregator h st) =
    tasks st ++ (if decide (polled_complete h) then [AggregatorTask own_maps] else []) /\
  maps (summary (start_aggregator h st)) =
    maps (summary st) ++ (if decide (polled_complete h) then AGGREGATOR_MAPS else []) /\
  (programs (summary (start_aggregator h st)), links (start_aggregator h st)) = (programs (summary st), links st) /\
  log st `prefix_of` log (start_aggregator h st).
Proof.
  intros Hu. pose proof (take_all_spec h POLLED st Hu) as Hs. cbn zeta in Hs.
  unfold start_aggregator, polled_complete. rewrite take_polled_maps_all.
  destruct (take_all h POLLED st) as [r st']. cbn [fst snd] in Hs. destruct Hs as [[= Hsum Ht Hl Hk] Hr].
  destruct r as [u|e].
  - rewrite !decide_True by done. cbn. rewrite <- Hsum, <- Ht, <- Hl, <- Hk. split_and!; [done..|]. by eexists.
  - rewrite !decide_False by done. cbn. rewrite !app_nil_r, <- Hsum, <- Ht, <- Hl, <- Hk.
    split_and!; [done..|]. by eexists.
Qed.

(** ** The whole load *)

Lemma frame_load_programs h b st : kept (load_programs h b st) = kept st.
Proof.
  assert (forall st, kept (load_kprobes h b (load_btf_tracepoints h b (load_tracepoints h b st))) = kept st)
    as Hloops.
  { intros st0. unfold load_kprobes, load_btf_tracepoints, load_tracepoints.
    rewrite !(foldl_keeps kept); [done| | |]; intros; try apply frame_load_program.
    case_match; [done|apply frame_load_program]. }
  unfold load_programs. destruct b; [|apply Hloops]. etrans; [|apply Hloops].
  unfold attach_cgroup_skb. case_match; [done|]. apply (foldl_keeps kept).
  intros [] st0. repeat case_match; try apply frame_load_program. done.
Qed.

(** The drain loops add to the log and leave the programs alone. *)
Definition later (st st' : loading) : Prop :=
  (programs (summary st'), links st') = (programs (summary st), links st) /\ log st `prefix_of` log st'.
#[export] Instance later_preorder : PreOrder later.
Proof.
  split; [by intros st|]. intros st1 st2 st3 [Hp1 Hl1] [Hp2 Hl2]. split; [congruence|by etrans].
Qed.

Lemma later_logged l st : later st (logged l st).
Proof. split; [done|]. by eexists. Qed.
Lemma later_foldl {A} (step : loading -> A -> loading) l st :
  (forall x st, later st (step st x)) -> later st (foldl step st l).
Proof. intros H. revert st. induction l as [|x l IH]; intros st; cbn; [done|]. etrans; [apply H|apply IH]. Qed.

Lemma later_open_event_maps h b st : later st (open_event_maps h b st).
Proof.
  assert (forall n st, later st (spawn_perf_drain h n st)) as Hperf.
  { intros n st0. unfold spawn_perf_drain. repeat case_match; try apply later_logged.
    apply later_foldl. intros cpu st1. case_match; [apply later_logged|done]. }
  destruct b; cbn [open_event_maps]; apply later_foldl; intros n st0.
  - unfold open_ring, take_map. repeat case_match; try apply (later_logged _ st0); split; try done; by eexists.
  - unfold open_perf, take_map. case_match; [by apply (later_logged _ st0)|].
    destruct (Hperf n (st0 <| maps_left ::= fun m => m ∖ {[ n ]} |>)) as [Hp Hl].
    case_match; (split; [exact Hp|etrans; [exact Hl|by eexists]]).
Qed.

Lemma begin_untouched h b l st :
  NoDup l -> kept st = kept (begin_loading h b) -> untouched h l st.
Proof. intros Hl [= _ _ Hm]. split; [done|]. intros n _. by rewrite Hm. Qed.

Lemma polled_untouched h b :
  untouched h (map snd POLLED) (open_event_maps h b (load_programs h b (begin_loading h b))).
Proof.
  split; [decide_now|]. intros n Hin0. rewrite maps_left_open_event_maps.
  - pose proof (frame_load_programs h b (begin_loading h b)) as Hframe. by injection Hframe as _ _ ->.
  - intros Hn'. assert (Forall (fun x => x ∉ EVENT_MAPS) (map snd POLLED)) as Hf by decide_now.
    by apply (proj1 (Forall_forall _ _) Hf n Hin0).
Qed.

(** What is left in the object when every map was there. *)
Lemma load_takes h b l :
  load h b = Ok l -> polled_complete h ->
  maps_left l = obj_maps h ∖ list_to_set EVENT_MAPS ∖ list_to_set (map snd POLLED).
Proof.
  unfold load. destruct (negb _); [done|]. destruct (_ =? _)%nat; [done|]. destruct (negb _); [done|].
  set (st0 := begin_loading h b). fold (load_programs h b st0). intros [= <-] Hall.
  pose proof (polled_untouched h b) as Hu. fold st0 in Hu.
  pose proof (frame_load_programs h b st0) as Hframe. injection Hframe as _ _ Hleft.
  set (st2 := open_event_maps h b (load_programs h b st0)) in *.
  assert (maps_left st2 = obj_maps h ∖ list_to_set EVENT_MAPS) as Hst2.
  { rewrite <- Hleft. subst st2.
    destruct b; cbn [open_event_maps]; apply maps_left_all; intros; [apply maps_left_open_ring|apply maps_left_open_perf]. }
  destruct (take_all_spec h POLLED st2 Hu) as [_ Hr]. pose proof (maps_left_take_all h POLLED st2) as Ht.
  unfold start_aggregator. rewrite take_polled_maps_all. destruct (take_all h POLLED st2) as [[u|e] st3]; cbn [fst snd] in *.
  - rewrite <- Hst2. exact (Ht u eq_refl).
  - by destruct Hr.
Qed.

(** The four loops and what follows them, together. *)
Lemma load_effect h b l :
  load h b = Ok l ->
  links l = attached_links h (table b) /\
  programs (summary l) = map fst (links l) /\
  accounted h (table b) (log l) /\
  tasks l = drain_tasks h b ++ (if decide (polled_complete h) then [AggregatorTask own_maps] else []) /\
  maps (summary l) = drained_maps h b ++ (if decide (polled_complete h) then AGGREGATOR_MAPS else []).
Proof.
  unfold load. destruct (negb _); [done|]. destruct (_ =? _)%nat; [done|]. destruct (negb _); [done|].
  set (st0 := begin_loading h b). fold (load_programs h b st0). intros [= <-].
  pose proof (frame_load_programs h b st0) as Hframe.
  pose proof (links_load_programs h b st0) as Hp.
  pose proof (named_load_programs h b st0 eq_refl) as Hn.
  destruct (log_load_programs h b st0) as (es & Hlog & Hacc).
  set (st1 := load_programs h b st0) in *.
  destruct (open_event_maps_effect h b st1) as [Ht Hm].
  { apply (begin_untouched h b); [decide_now|done]. }
  destruct (later_open_event_maps h b st1) as [[= Hp2 Hk2] Hl2].
  destruct (start_aggregator_effect h (open_event_maps h b st1)) as (Ht3 & Hm3 & [= Hp3 Hk3] & Hl3);
    [apply polled_untouched|].
  injection Hframe as Hm0 Ht0 _. rewrite Ht3, Hm3, Ht, Hm, Hp3, Hp2, Hk3, Hk2, Hn, Hp, Ht0, Hm0.
  split_and!; try done. intros r Hr Hn'.
  assert (forall e, e ∈ es -> e ∈ log (start_aggregator h (open_event_maps h b st1))) as Hin.
  { intros e He. destruct Hl3 as [k3 ->], Hl2 as [k2 ->]. rewrite Hlog, !elem_of_app. tauto. }
  destruct (Hacc r Hr Hn') as [[why Hw]|[Hk Hw]]; [left; exists why; by apply Hin|right; split; [done|by apply Hin]].
Qed.

(** ** The object the loader embeds

    The entry points of [agl-health-ebpf] by module: the program type its
    attribute gives each, and the kernel event its attribute or its
    documentation says it runs at. *)
Record prog_decl := { pd_name : rstring; pd_kind : prog_kind; pd_event : attach_point }.
#[export] Instance prog_decl_eq_dec : EqDecision prog_decl.
Proof. solve_decision. Defined.
Definition tracepoint_at (name category event : rstring) : prog_decl :=
  {| pd_name := name; pd_kind := TracePoint; pd_event := AtEvent category event |}.
Definition btf_tracepoint_at (name function : rstring) : prog_decl :=
  {| pd_name := name; pd_kind := BtfTracePoint; pd_event := AtBtf function |}.
Definition kprobe_at (name symbol : rstring) : prog_decl :=
  {| pd_name := name; pd_kind := KProbe; pd_event := AtSymbol symbol |}.
Definition cgroup_skb_at (name : rstring) (ingress : bool) : prog_decl :=
  {| pd_name := name; pd_kind := CgroupSkb; pd_event := AtCgroup ingress |}.

Definition block_programs (b : build) : list prog_decl :=
  match b with
  | Btf55 => [btf_tracepoint_at (lit "block_rq_complete") (lit "block_rq_complete")]
  | Kernel54 => [tracepoint_at (lit "block_rq_complete") (lit "block") (lit "block_rq_complete")]
  end.
Definition cpu_programs : list prog_decl :=
  [tracepoint_at (lit "irq_handler_entry") (lit "irq") (lit "irq_handler_entry");
   tracepoint_at (lit "irq_handler_exit") (lit "irq") (lit "irq_handler_exit");
   tracepoint_at (lit "softirq_entry") (lit "irq") (lit "softirq_entry");
   tracepoint_at (lit "softirq_exit") (lit "irq") (lit "softirq_exit")].
Definition fileio_programs : list prog_decl :=
  [kprobe_at (lit "vfs_read") (lit "vfs_read"); kprobe_at (lit "vfs_write") (lit "vfs_write")].
Definition memory_programs : list prog_decl :=
  [kprobe_at (lit "handle_mm_fault") (lit "handle_mm_fault");
   kprobe_at (lit "oom_kill_process") (lit "oom_kill_process")].
Definition netproc_programs (b : build) : list prog_decl :=
  match b with
  | Btf55 => [cgroup_skb_at (lit "cgroup_skb_ingress") true; cgroup_skb_at (lit "cgroup_skb_egress") false]
  | Kernel54 => [kprobe_at (lit "tcp_sendmsg") (lit "tcp_sendmsg");
                 kprobe_at (lit "tcp_cleanup_rbuf") (lit "tcp_cleanup_rbuf")]
  end.
Definition network_programs (b : build) : list prog_decl :=
  [tracepoint_at (lit "netif_receive_skb") (lit "net") (lit "netif_receive_skb");
   tracepoint_at (lit "net_dev_xmit") (lit "net") (lit "net_dev_xmit");
   tracepoint_at (lit "tcp_retransmit_skb") (lit "tcp") (lit "tcp_retransmit_skb")] ++
  match b with
  | Btf55 => [btf_tracepoint_at (lit "inet_sock_set_state") (lit "inet_sock_set_state");
              btf_tracepoint_at (lit "kfree_skb") (lit "kfree_skb")]
  | Kernel54 => [tracepoint_at (lit "inet_sock_set_state") (lit "sock") (lit "inet_sock_set_state");
                 tracepoint_at (lit "kfree_skb") (lit "skb") (lit "kfree_skb")]
  end.
Definition process_programs (b : build) : list prog_decl :=
  match b with
  | Btf55 => [btf_tracepoint_at (lit "sched_process_exec") (lit "sched_process_exec");
              btf_tracepoint_at (lit "sched_process_exit") (lit "sched_process_exit");
              btf_tracepoint_at (lit "sched_process_fork") (lit "sched_process_fork")]
  | Kernel54 => [tracepoint_at (lit "sched_process_exec") (lit "sched") (lit "sched_process_exec");
                 tracepoint_at (lit "sched_process_exit") (lit "sched") (lit "sched_process_exit");
                 tracepoint_at (lit "sched_process_fork") (lit "sched") (lit "sched_process_fork")]
  end ++ [kprobe_at (lit "do_exit") (lit "do_exit")].
Definition scheduler_programs (b : build) : list prog_decl :=
  match b with
  | Btf55 => [btf_tracepoint_at (lit "sched_wakeup") (lit "sched_wakeup");
              btf_tracepoint_at (lit "sched_switch") (lit "sched_switch")]
  | Kernel54 => [tracepoint_at (lit "sched_wakeup") (lit "sched") (lit "sched_wakeup");
                 tracepoint_at (lit "sched_switch") (lit "sched") (lit "sched_switch")]
  end.
Definition security_programs (b : build) : list prog_decl :=
  match b with
  | Btf55 => [tracepoint_at (lit "sys_enter_ptrace") (lit "syscalls") (lit "sys_enter_ptrace");
              tracepoint_at (lit "sys_enter_memfd_create") (lit "syscalls") (lit "sys_enter_memfd_create");
              tracepoint_at (lit "sys_enter_setuid") (lit "syscalls") (lit "sys_enter_setuid");
              tracepoint_at (lit "sys_enter_prctl") (lit "syscalls") (lit "sys_enter_prctl")]
  | Kernel54 => [tracepoint_at (lit "sys_enter") (lit "raw_syscalls") (lit "sys_enter")]
  end.

Definition object_programs (b : build) : list prog_decl :=
  block_programs b ++ cpu_programs ++ fileio_programs ++ memory_programs ++ netproc_programs b ++
  network_programs b ++ process_programs b ++ scheduler_programs b ++ security_programs b.

(** Its maps, the [#[map]] statics of each module, with the types they are
    declared at; an event buffer has no key. *)
Record map_decl := {
  md_name : rstring; md_type : map_type; md_key : option key_type; md_value : value_type }.
#[export] Instance map_decl_eq_dec : EqDecision map_decl.
Proof. solve_decision. Defined.
Definition per_cpu (name : rstring) (v : value_type) : map_decl :=
  {| md_name := name; md_type := PerCpuArray; md_key := Some KeyU32; md_value := v |}.
Definition hash (name : rstring) (k : key_type) (v : value_type) : map_decl :=
  {| md_name := name; md_type := BpfHash; md_key := Some k; md_value := v |}.
(** A ring buffer, or a perf event array with the slot its records are made in. *)
Definition events (b : build) (name scratch : rstring) (v : value_type) : list map_decl :=
  match b with
  | Btf55 => [{| md_name := name; md_type := RingBuf; md_key := None; md_value := v |}]
  | Kernel54 => [{| md_name := name; md_type := PerfEventArray; md_key := None; md_value := v |};
                 per_cpu scratch v]
  end.

Definition block_maps : list map_decl := [hash (lit "BLOCK_STATS") KeyU64 V_BlockStats].
Definition cpu_maps : list map_decl :=
  [per_cpu (lit "CPU_STATS") V_CpuStats; per_cpu (lit "IRQ_ENTRY_TS") V_u64; per_cpu (lit "SOFTIRQ_ENTRY_TS") V_u64].
Definition memory_maps : list map_decl := [per_cpu (lit "MEMORY_STATS") V_MemorySnapshot].
Definition netproc_maps : list map_decl := [hash (lit "NET_CGROUP_STATS") KeyU64 V_CgroupNetBytes].
Definition network_maps (b : build) : list map_decl :=
  events b (lit "NET_EVENTS") (lit "NET_EVENT_SCRATCH") V_NetEvent ++
  [per_cpu (lit "NET_IFACE_STATS") V_NetIfaceStats; per_cpu (lit "TCP_STATE") V_TcpStateSnapshot].
Definition process_maps (b : build) : list map_decl :=
  events b (lit "PROCESS_EVENTS") (lit "PROCESS_EVENT_SCRATCH") V_ProcessEvent.
Definition scheduler_maps : list map_decl :=
  [hash (lit "WAKEUP_TIMES") KeyU32 V_u64; per_cpu (lit "SCHED_HISTOGRAM") V_SchedHistogram].
Definition security_maps (b : build) : list map_decl :=
  events b (lit "SECURITY_EVENTS") (lit "SEC_EVENT_SCRATCH") V_SecurityEvent ++
  [per_cpu (lit "SECURITY_COUNTS") V_SecurityEventCounts; per_cpu (lit "SEC_EMIT_GATE") V_EmitGate].
Definition stats_maps : list map_decl :=
  [hash (lit "PROCESS_STATS") KeyU32 V_ProcessStats; hash (lit "ONCPU_SINCE") KeyU32 V_u64;
   hash (lit "EXIT_CODES") KeyU32 V_i32; per_cpu (lit "EVENT_DROPS") V_EventDropCounts].

Definition map_decls (b : build) : list map_decl :=
  block_maps ++ cpu_maps ++ memory_maps ++ netproc_maps ++ network_maps b ++ process_maps b ++ scheduler_maps ++
  security_maps b ++ stats_maps.
Definition object_maps (b : build) : list (rstring * map_type) :=
  map (fun d => (md_name d, md_type d)) (map_decls b).

(** What user space is meant to read: the event buffers, and the maps whose
    value type [aggregator.rs] has a [Pod] wrapper for. *)
Definition event_buffer (d : map_decl) : Prop := md_type d = RingBuf \/ md_type d = PerfEventArray.
Definition pod_wrapped : list value_type :=
  [V_SchedHistogram; V_NetIfaceStats; V_TcpStateSnapshot; V_MemorySnapshot; V_BlockStats; V_ProcessStats;
   V_CpuStats; V_SecurityEventCounts; V_CgroupNetBytes; V_EventDropCounts].
Definition user_reads (d : map_decl) : Prop := event_buffer d \/ md_value d ∈ pod_wrapped.
#[export] Instance user_reads_dec d : Decision (user_reads d).
Proof. unfold user_reads, event_buffer. apply _. Defined.

(** The map behind a handle is declared at the handle's types. *)
Definition declared (b : build) {ty k v} (hd : handle ty k v) : Prop :=
  {| md_name := hd_map hd; md_type := ty; md_key := Some k; md_value := v |} ∈ map_decls b.
Definition handles_declared (b : build) (m : PolledHandles) : Prop :=
  declared b (ph_sched m) /\ declared b (ph_net_iface m) /\ declared b (ph_tcp_state m) /\
  declared b (ph_memory m) /\ declared b (ph_block m) /\ declared b (ph_process m) /\
  declared b (ph_cpu m) /\ declared b (ph_security m) /\ declared b (ph_net_cgroup m) /\
  declared b (ph_drops m).
(** Somebody drains the buffer. *)
Definition drained (h : host) (b : build) (ts : list task) (name : rstring) : Prop :=
  match b with
  | Btf55 => DrainRing name ∈ ts
  | Kernel54 => forall cpus cpu, online_cpus h = Some cpus -> cpu ∈ cpus -> DrainPerf name cpu ∈ ts
  end.

Definition find_program (l : list prog_decl) (name : rstring) : option prog_kind :=
  option_map pd_kind (find (fun x => bool_decide (pd_name x = name)) l).

(** A host for the witnesses: the object of a build, with or without kernel
    BTF, the programs it loads and the maps the object has. *)
Definition some_host (b : build) (btf : bool) (loads : rstring -> bool)
    (ms : list (rstring * map_type)) : host := {|
  ebpf_feature := true; obj_len := 4096; obj_parses := true; host_btf := btf;
  program_mut := find_program (object_programs b); prog_load := loads;
  prog_attach := fun _ _ => true; cgroup_root_opens := true; obj_maps := list_to_set (map fst ms);
  map_try_into := fun _ _ => Ok tt; async_fd_new := fun _ => true; online_cpus := Some [0; 1];
  perf_open := fun _ _ => true |}.

(** ** The theorems *)

(** C28: one program's failure costs only that program.  Whatever the kernel
    accepts, a [load] that gets past the object attaches exactly the programs
    of the tables that are in the object, of their kind, and that the kernel
    loads and attaches, in table order, so that [/health] names these and no
    others; for every program it leaves out there is a line in the log, its own
    or the one about the cgroup root.  Each event map that opens is drained
    (one task per map, or one per CPU whose buffer opens), whatever happens to
    the others; the aggregator runs exactly when all its ten maps opened, and
    the summary lists exactly the maps with a reader. *)
Theorem load_isolates_failures h b l :
  load h b = Ok l ->
  programs_loaded (health 0 (bpf_summary (load h b))) = map row_name (filter (attaches h) (table b)) /\
  (forall r, r ∈ table b -> ~ attaches h r ->
    (exists why, ProgramSkipped (row_name r) why ∈ log l) \/
    (r.1.1 = CgroupSkb /\ CgroupRootInaccessible ∈ log l)) /\
  tasks l = drain_tasks h b ++ (if decide (polled_complete h) then [AggregatorTask own_maps] else []) /\
  maps_loaded (health 0 (bpf_summary (load h b))) =
    drained_maps h b ++ (if decide (polled_complete h) then AGGREGATOR_MAPS else []).
Proof.
  intros Hl. destruct (load_effect h b l Hl) as (Hk & Hp & Hacc & Ht & Hm). rewrite Hl.
  split_and!; try done. cbn. by rewrite Hp, Hk, attached_links_names.
Qed.

Lemma load_isolates_failures_witness :
  let h := some_host Btf55 false (fun n => negb (bool_decide (n = lit "vfs_read")))
             (filter (fun x => x.1 <> lit "TCP_STATE") (object_maps Btf55)) in
  exists l, load h Btf55 = Ok l /\ length (programs_loaded (health 0 (bpf_summary (load h Btf55)))) = 17%nat /\
    lit "vfs_write" ∈ programs_loaded (health 0 (bpf_summary (load h Btf55))) /\
    (exists why, ProgramSkipped (lit "vfs_read") why ∈ log l) /\
    maps_loaded (health 0 (bpf_summary (load h Btf55))) = EVENT_MAPS.
Proof.
  intros h. assert (exists l, load h Btf55 = Ok l) as [l Hl] by (eexists; vm_compute; reflexivity).
  exists l. split; [exact Hl|]. destruct (load_isolates_failures h Btf55 l Hl) as (Hp & Hs & _ & Hm).
  rewrite Hp, Hm. split_and!.
  - vm_compute. reflexivity.
  - decide_now.
  - destruct (Hs (KProbe, lit "vfs_read", AtSymbol (lit "vfs_read"))) as [[why Hwhy]|[[=] _]].
    + decide_now.
    + intros (_ & Hld & _). discriminate Hld.
    + by exists why.
  - vm_compute. reflexivity.
Defined.

(** A host that finds the object of build [b] in the binary and refuses
    nothing. *)
Record accepting (h : host) (b : build) : Prop := {
  w_parses : obj_parses h = true;
  w_btf : host_btf h = true;
  w_programs : forall name, program_mut h name = find_program (object_programs b) name;
  w_load : forall name, prog_load h name = true;
  w_attach : forall name p, prog_attach h name p = true;
  w_cgroup : cgroup_root_opens h = true;
  w_maps : forall name, name ∈ (object_maps b).*1 -> name ∈ obj_maps h;
  w_into : forall name ty, (name, ty) ∈ object_maps b -> is_err (map_try_into h name ty) = false;
  w_fd : forall name, async_fd_new h name = true;
  w_cpus : exists cpu cpus, online_cpus h = Some (cpu :: cpus);
  w_perf : forall name cpu, perf_open h name cpu = true }.

(** ... for a daemon that has an object. *)
Definition willing (h : host) (b : build) : Prop :=
  ebpf_feature h = true /\ (0 < obj_len h)%nat /\ accepting h b.

(** Each table row is a program of the object, of that kind. *)
Lemma table_in_object b r :
  r ∈ table b -> find_program (object_programs b) r.1.2 = Some r.1.1.
Proof.
  assert (Forall (fun r => find_program (object_programs b) r.1.2 = Some r.1.1) (table b)) as Hf.
  { destruct b; decide_now. }
  revert r. by apply Forall_forall.
Qed.

Lemma willing_attaches h b r : willing h b -> r ∈ table b -> attaches h r.
Proof.
  intros (_ & _ & Hw) Hr. destruct Hw. unfold attaches. split_and!; auto. rewrite w_programs0. by apply table_in_object.
Qed.

Lemma willing_opened h b name ty : willing h b -> (name, ty) ∈ object_maps b -> opened h ty name.
Proof.
  intros (_ & _ & Hw) Hin. destruct Hw. split; [|by apply w_into0]. apply w_maps0. by apply (list_elem_of_fmap_2 fst _ (name, ty)).
Qed.

Lemma filter_all {A} (P : A -> Prop) `{!forall x, Decision (P x)} l : Forall P l -> filter P l = l.
Proof. induction 1; [done|]. rewrite filter_cons, decide_True by done. by f_equal. Qed.

Lemma willing_names h b : willing h b -> attached_names h (table b) = map row_name (table b).
Proof.
  intros Hw. unfold attached_names. rewrite filter_all; [done|]. apply Forall_forall.
  intros r. by apply willing_attaches.
Qed.

Lemma willing_polled h b : willing h b -> polled_complete h.
Proof.
  intros Hw. assert (Forall (fun x => (x.2, x.1) ∈ object_maps b) POLLED) as Hf by (destruct b; decide_now).
  eapply Forall_impl; [exact Hf|]. intros [ty n]. by apply willing_opened.
Qed.

Lemma willing_drained h b : willing h b -> drained_maps h b = EVENT_MAPS.
Proof.
  intros Hw. unfold drained_maps.
  assert (forall n, n ∈ EVENT_MAPS -> (n, match b with Btf55 => RingBuf | Kernel54 => PerfEventArray end) ∈ object_maps b)
    as Hev.
  { assert (Forall (fun n => (n, match b with Btf55 => RingBuf | Kernel54 => PerfEventArray end) ∈ object_maps b) EVENT_MAPS)
      as Hf by (destruct b; decide_now). by apply Forall_forall. }
  destruct b; apply filter_all, Forall_forall; intros n Hn; specialize (Hev n Hn);
    apply (willing_opened h _ n _ Hw) in Hev.
  - split; [done|]. apply Hw.
  - unfold perf_cpus. rewrite decide_True by done. destruct Hw as (_ & _ & []). destruct w_cpus0 as (cpu & cpus & ->).
    cbn [unwrap_or]. by rewrite filter_cons, decide_True.
Qed.

(** The tables are the object's declarations. *)
Lemma table_declared b : map (fun r => (row_name r, r.2)) (table b) ≡ₚ map (fun p => (pd_name p, pd_event p)) (object_programs b).
Proof. destruct b; decide_now. Qed.

(** A willing host gets everything. *)
Lemma willing_loads h b :
  willing h b ->
  exists l, load h b = Ok l /\
    links l ≡ₚ map (fun p => (pd_name p, pd_event p)) (object_programs b) /\
    programs (summary l) = map fst (links l) /\
    tasks l = drain_tasks h b ++ [AggregatorTask own_maps] /\
    maps (summary l) = EVENT_MAPS ++ AGGREGATOR_MAPS /\
    maps_left l = obj_maps h ∖ list_to_set EVENT_MAPS ∖ list_to_set (map snd POLLED).
Proof.
  intros Hw. assert (exists l, load h b = Ok l) as [l Hl].
  { destruct Hw as (Hf & Ho & []). unfold load. rewrite Hf, w_parses0. cbn [negb].
    rewrite (proj2 (Nat.eqb_neq _ _)) by lia. by eexists. }
  exists l. split; [done|]. destruct (load_effect h b l Hl) as (Hk & Hp & _ & Ht & Hm).
  rewrite decide_True in Ht by (by eapply willing_polled). rewrite decide_True in Hm by (by eapply willing_polled).
  rewrite (willing_drained h b) in Hm by done.
  pose proof (load_takes h b l Hl ltac:(by eapply willing_polled)) as Hleft.
  split; [|done]. rewrite <- table_declared, Hk.
  unfold attached_links. rewrite filter_all; [done|]. apply Forall_forall. intros r. by apply willing_attaches.
Qed.

Lemma willing_drains h b name : willing h b -> name ∈ EVENT_MAPS -> drained h b (drain_tasks h b) name.
Proof.
  intros Hw Hn. pose proof (willing_drained h b Hw) as Hd. unfold drained_maps in Hd. destruct b; cbn [drained drain_tasks].
  - rewrite Hd. by apply list_elem_of_fmap_2.
  - intros cpus cpu Hc Hin. apply list_elem_of_In, in_flat_map. exists name. split; [by apply list_elem_of_In|].
    apply list_elem_of_In, list_elem_of_fmap_2. rewrite <- Hd in Hn. apply list_elem_of_filter in Hn as [Hne _].
    unfold perf_cpus in *. destruct (decide _); [|done]. rewrite Hc. cbn [unwrap_or default].
    apply list_elem_of_filter. split; [|done]. by destruct Hw as (_ & _ & []).
Qed.

(** What is taken is what user space reads. *)
Lemma willing_left h b :
  willing h b ->
  Forall (fun d => md_name d ∈ obj_maps h ∖ list_to_set EVENT_MAPS ∖ list_to_set (map snd POLLED) <-> ~ user_reads d)
    (map_decls b).
Proof.
  intros (_ & _ & Hw). apply Forall_forall. intros d Hd.
  assert (md_name d ∈ obj_maps h) as Hin.
  { apply (w_maps _ _ Hw). unfold object_maps. change (map ?f ?l) with (f <$> l). rewrite <- list_fmap_compose.
    by apply (list_elem_of_fmap_2 md_name). }
  assert (Forall (fun d => (md_name d ∈ EVENT_MAPS \/ md_name d ∈ map snd POLLED) <-> user_reads d) (map_decls b)) as Hf.
  { destruct b; decide_now. }
  rewrite Forall_forall in Hf. rewrite <- (Hf d Hd), !elem_of_difference, !elem_of_list_to_set. tauto.
Qed.

(** C31: the loader and the object agree.  On a host that refuses nothing, in
    both builds, [load] succeeds and attaches every program of the object it
    embeds, each exactly once and to the event the program is declared for; the summary
    names those and the maps user space is meant to read, each once: the event
    buffers, each with its drain tasks, and the maps handed to the aggregator,
    each taken from the object under a handle of the key and value types it is
    declared at; the object keeps the maps only the programs use. *)
Theorem everything_attached h b :
  willing h b ->
  exists l m, load h b = Ok l /\
    links l ≡ₚ map (fun p => (pd_name p, pd_event p)) (object_programs b) /\
    programs (summary l) = map fst (links l) /\ NoDup (programs (summary l)) /\
    maps (summary l) ≡ₚ map md_name (filter user_reads (map_decls b)) /\ NoDup (maps (summary l)) /\
    last (tasks l) = Some (AggregatorTask m) /\ handles_declared b m /\
    Forall (fun d => event_buffer d -> drained h b (tasks l) (md_name d)) (map_decls b) /\
    Forall (fun d => md_name d ∈ maps_left l <-> ~ user_reads d) (map_decls b).
Proof.
  intros Hw. destruct (willing_loads h b Hw) as (l & Hl & Hk & Hp & Ht & Hm & Hleft). exists l, own_maps.
  split; [done|]. split; [done|]. split; [done|]. split.
  { rewrite Hp, Hk, map_map. destruct b; decide_now. }
  rewrite Hm, Ht, last_snoc. split; [destruct b; decide_now|]. split; [decide_now|]. split; [done|].
  split; [unfold handles_declared, declared; destruct b; decide_now|].
  split; [|rewrite Hleft; by apply willing_left]. apply Forall_forall. intros d Hd He.
  assert (Forall (fun d => event_buffer d -> md_name d ∈ EVENT_MAPS) (map_decls b)) as Hf.
  { unfold event_buffer. destruct b; decide_now. }
  rewrite Forall_forall in Hf. pose proof (willing_drains h b _ Hw (Hf d Hd He)) as Hdr.
  destruct b; cbn [drained] in *; intros; apply elem_of_app; left; by eauto.
Qed.
Lemma everything_attached_witness :
  let h := some_host Kernel54 true (fun _ => true) (object_maps Kernel54) in
  willing h Kernel54 /\
  exists l m, load h Kernel54 = Ok l /\ length (links l) = 23%nat /\ length (maps (summary l)) = 13%nat /\
    (lit "sched_switch", AtEvent (lit "sched") (lit "sched_switch")) ∈ links l /\
    last (tasks l) = Some (AggregatorTask m) /\ hd_map (ph_drops m) = lit "EVENT_DROPS".
Proof.
  set (h := some_host Kernel54 true (fun _ => true) (object_maps Kernel54)).
  assert (willing h Kernel54) as Hw.
  { split; [reflexivity|]. split; [cbn; lia|]. constructor; try reflexivity; try (intros; reflexivity).
    - intros name Hn. unfold h, some_host, obj_maps. apply elem_of_list_to_set. exact Hn.
    - by exists 0, [1]. }
  split; [exact Hw|]. destruct (everything_attached h Kernel54 Hw) as (l & m & Hl & Hk & _ & _ & Hm & _ & Ha & Hd & _).
  exists l, m. split; [exact Hl|]. split; [rewrite Hk; vm_compute; reflexivity|].
  split; [rewrite Hm; vm_compute; reflexivity|]. split; [rewrite Hk; decide_now|]. split; [exact Ha|].
  destruct Hd as (_ & _ & _ & _ & _ & _ & _ & _ & _ & Hd).
  assert (Forall (fun d => md_value d = V_EventDropCounts -> md_name d = lit "EVENT_DROPS") (map_decls Kernel54))
    as Hf by decide_now.
  rewrite Forall_forall in Hf. exact (Hf _ Hd eq_refl).
Defined.
