(* ===== verification/Build.v ===== *)
(** The two-stage build: [xtask/src/main.rs], which runs cargo for the eBPF
    crate and then for the daemon, and [agl-health-daemon/build.rs], which the
    second cargo runs to put the eBPF object into the daemon.

    A program here is a computation over the files it can see; what a command
    it spawns does to them is an input.  Progress messages are left out, the
    lines [build.rs] prints for cargo are kept. *)
From S2P Require Import Prelude Text Loader.

(** ** Paths, environments, commands *)

Abbreviation env := (gmap rstring rstring).
Abbreviation files := (gmap rstring (list Z)).

Definition SLASH : Z := 47.

(** [Path::is_absolute] on Unix. *)
Definition is_absolute (p : rstring) : bool := starts_with (lit "/") p.

(** [Path::join]: an absolute path replaces. *)
Definition join (a b : rstring) : rstring :=
  if is_absolute b then b
  else match last a with
       | Some c => if c =? SLASH then a ++ b else a ++ SLASH :: b
       | None => b
       end.

Fixpoint after_slash (s : rstring) : rstring :=
  match s with [] => [] | c :: s => if c =? SLASH then s else after_slash s end.

(** [Path::parent] of a path without trailing or doubled slashes. *)
Definition parent (p : rstring) : option rstring :=
  if bool_decide (p = []) || bool_decide (p = lit "/") then None
  else match rev (after_slash (rev p)) with
       | [] => Some (if is_absolute p then lit "/" else [])
       | dir => Some dir
       end.

(** [v.join(sep)] on strings. *)
Fixpoint intercalate (sep : rstring) (l : list rstring) : rstring :=
  match l with
  | [] => []
  | [s] => s
  | s :: l => s ++ sep ++ intercalate sep l
  end.

(** [std::process::Command]. *)
Record command := {
  cmd_program : rstring; cmd_args : list rstring; cmd_dir : option rstring;
  cmd_removed : list rstring }.
#[export] Instance eta_command : Eta command := fun r =>
  Build_command (cmd_program r) (cmd_args r) (cmd_dir r) (cmd_removed r).
Definition command_new (program : rstring) : command :=
  {| cmd_program := program; cmd_args := []; cmd_dir := None; cmd_removed := [] |}.
Definition args (l : list rstring) (c : command) : command := c <| cmd_args ::= fun a => a ++ l |>.
Definition current_dir (d : rstring) (c : command) : command := c <| cmd_dir := Some d |>.
Definition env_remove (vars : list rstring) (c : command) : command :=
  c <| cmd_removed ::= fun r => r ++ vars |>.

(** The environment the child gets. *)
Definition child_env (e : env) (c : command) : env := foldr delete e (cmd_removed c).

(** ** Computations *)

Inductive fault :=
  | NoParent | CrateNotScaffolded (name : rstring) | SpawnFailed (label : rstring)
  | CommandFailed (label : rstring) | BinaryNotFound (path : rstring)
  | HeaderNotFound (path : rstring) | HostBtfMissing | WriteFailed (path : rstring)
  | VarNotSet (name : rstring) | ManifestNotFound (dir : rstring) | ObjectNotFound (path : rstring)
  | CopyFailed (src dst : rstring).

(** What the outside decides: the environment of this process, what a child
    does (whether it started and succeeded, what it printed, the files
    afterwards), and whether a write is permitted. *)
Record os := {
  os_env : env;
  os_spawn : env -> command -> files -> option (bool * list Z) * files;
  os_can_write : rstring -> bool }.

Record world := { w_files : files; w_ran : list command; w_said : list rstring }.
#[export] Instance eta_world : Eta world := fun r => Build_world (w_files r) (w_ran r) (w_said r).

Definition M (A : Type) : Type := world -> result A fault * world.
#[export] Instance M_ret : MRet M := fun A x w => (Ok x, w).
#[export] Instance M_bind : MBind M := fun A B k m w =>
  match m w with (Ok x, w) => k x w | (Err e, w) => (Err e, w) end.
Definition bail {A} (e : fault) : M A := fun w => (Err e, w).
Definition get_file (p : rstring) : M (option (list Z)) := fun w => (Ok (w_files w !! p), w).
Definition is_file (p : rstring) : M bool := fun w => (Ok (bool_decide (is_Some (w_files w !! p))), w).
(** [println!("cargo:...")]. *)
Definition say (line : rstring) : M unit := fun w => (Ok tt, w <| w_said ::= fun l => l ++ [line] |>).
Definition require {A} (e : fault) (o : option A) : M A := match o with Some x => mret x | None => bail e end.

Section Programs.
Variable o : os.

(** [Command::status] and [Command::output]. *)
Definition spawn (c : command) : M (option (bool * list Z)) := fun w =>
  let r := os_spawn o (child_env (os_env o) c) c (w_files w) in
  (Ok r.1, w <| w_files := r.2 |> <| w_ran ::= fun l => l ++ [c] |>).

(** [std::fs::write] and [std::fs::copy]. *)
Definition write_file (p : rstring) (b : list Z) : M unit := fun w =>
  if os_can_write o p then (Ok tt, w <| w_files ::= <[p := b]> |>) else (Err (WriteFailed p), w).
Definition copy_file (src dst : rstring) : M unit := fun w =>
  match w_files w !! src with
  | Some b => if os_can_write o dst then (Ok tt, w <| w_files ::= <[dst := b]> |>)
              else (Err (CopyFailed src dst), w)
  | None => (Err (CopyFailed src dst), w)
  end.

(** ** [xtask/src/main.rs] *)

Definition EBPF_CRATE : rstring := lit "agl-health-ebpf".
Definition DAEMON_CRATE : rstring := lit "agl-health-daemon".
Definition EBPF_TARGET : rstring := lit "bpfel-unknown-none".

Inductive Profile := Debug | Release.
Definition as_str (p : Profile) : rstring := match p with Debug => lit "debug" | Release => lit "release" end.
Definition cargo_flag (p : Profile) : option rstring :=
  match p with Debug => None | Release => Some (lit "--release") end.

Record BuildOpts := { profile : Profile; target : option rstring; kernel_5_4 : bool }.
Record RunOpts := { run_build : BuildOpts; run_args : list rstring }.
Record GenVmlinuxOpts := { header : option rstring }.
Inductive Cmd :=
  | BuildEbpf (opts : BuildOpts)
  | Build (opts : BuildOpts)
  | Run (opts : RunOpts)
  | Clean
  | GenVmlinux (opts : GenVmlinuxOpts).

(** [env!("CARGO_MANIFEST_DIR")] of the xtask crate, fixed when it was
    compiled. *)
Variable xtask_manifest_dir : rstring.

Definition workspace_root : M rstring := require NoParent (parent xtask_manifest_dir).

Definition crate_dir (name : rstring) : M (option rstring) :=
  root ← workspace_root;
  let dir := join root name in
  b ← is_file (join dir (lit "Cargo.toml"));
  mret (if b : bool then Some dir else None).

Definition XTASK_SCRUB : list rstring :=
  [lit "RUSTUP_TOOLCHAIN"; lit "RUSTC"; lit "RUSTC_WRAPPER"; lit "RUSTC_WORKSPACE_WRAPPER"; lit "CARGO";
   lit "CARGO_MANIFEST_DIR"; lit "CARGO_PKG_NAME"; lit "CARGO_PKG_VERSION"; lit "CARGO_TARGET_DIR"].
Definition clean_cargo_env (c : command) : command := env_remove XTASK_SCRUB c.

Definition status (c : command) (label : rstring) : M unit :=
  r ← spawn (clean_cargo_env c);
  match r with
  | None => bail (SpawnFailed label)
  | Some (true, _) => mret tt
  | Some (false, _) => bail (CommandFailed label)
  end.

Definition ebpf_command (opts : BuildOpts) (ebpf_dir : rstring) : command :=
  args (if kernel_5_4 opts then [lit "--features"; lit "kernel-5-4"] else [])
    (args (match profile opts with Release => [lit "--release"] | Debug => [lit "--release"] end)
      (args [lit "build"; lit "-Z"; lit "build-std=core"; lit "--target"; EBPF_TARGET]
        (current_dir ebpf_dir (command_new (lit "cargo"))))).

Definition build_ebpf (opts : BuildOpts) : M unit :=
  d ← crate_dir EBPF_CRATE;
  match d with
  | None => mret tt
  | Some ebpf_dir => status (ebpf_command opts ebpf_dir) (lit "cargo build (eBPF stage)")
  end.

Definition daemon_features (opts : BuildOpts) : list rstring :=
  [lit "ebpf"] ++ if kernel_5_4 opts then [lit "kernel-5-4"] else [].

Definition daemon_command (opts : BuildOpts) : command :=
  args [lit "--features"; intercalate (lit ",") (daemon_features opts)]
    (args (match target opts with Some t => [lit "--target"; t] | None => [] end)
      (args (match cargo_flag (profile opts) with Some f => [f] | None => [] end)
        (args [lit "build"; lit "-p"; DAEMON_CRATE] (command_new (lit "cargo"))))).

Definition build_daemon (opts : BuildOpts) : M unit :=
  d ← crate_dir DAEMON_CRATE;
  match d with
  | None => mret tt
  | Some _ => status (daemon_command opts) (lit "cargo build (daemon stage)")
  end.

Definition daemon_binary (root : rstring) (opts : BuildOpts) : rstring :=
  let bin := join root (lit "target") in
  let bin := match target opts with Some t => join bin t | None => bin end in
  join (join bin (as_str (profile opts))) DAEMON_CRATE.

Definition run_daemon (opts : RunOpts) : M unit :=
  d ← crate_dir DAEMON_CRATE;
  match d with
  | None => bail (CrateNotScaffolded DAEMON_CRATE)
  | Some _ =>
      root ← workspace_root;
      let bin := daemon_binary root (run_build opts) in
      b ← is_file bin;
      if negb b then bail (BinaryNotFound bin)
      else status (args (run_args opts) (args [lit "-E"; bin] (command_new (lit "sudo")))) (lit "run daemon")
  end.

Definition clean : M unit :=
  root ← workspace_root;
  status (args [lit "clean"] (current_dir root (command_new (lit "cargo")))) (lit "cargo clean").

Definition VMLINUX_TYPES : list rstring := [lit "task_struct"; lit "sock"; lit "sock_common"; lit "inet_sock"].
Definition VMLINUX_OUTPUT : rstring := lit "agl-health-ebpf/src/vmlinux.rs".
Definition HOST_BTF : rstring := lit "/sys/kernel/btf/vmlinux".

(** Run aya-tool, capture its output, write it to the bindings. *)
Definition generate (root : rstring) (extra : list rstring) : M unit :=
  let out_path := join root VMLINUX_OUTPUT in
  let cmd := args VMLINUX_TYPES (args [lit "generate"] (command_new (lit "aya-tool"))) in
  r ← spawn (clean_cargo_env (args extra cmd));
  match r with
  | None => bail (SpawnFailed (lit "aya-tool generate"))
  | Some (false, _) => bail (CommandFailed (lit "aya-tool generate"))
  | Some (true, stdout) => write_file out_path stdout
  end.

Definition gen_vmlinux (opts : GenVmlinuxOpts) : M unit :=
  root ← workspace_root;
  extra ← match header opts with
          | Some p =>
              let resolved := if is_absolute p then p else join root p in
              b ← is_file resolved;
              if negb b then bail (HeaderNotFound resolved)
              else mret [lit "--header"; resolved]
          | None =>
              b ← is_file HOST_BTF;
              if negb b then bail HostBtfMissing else mret []
          end;
  generate root extra.

Definition xtask_main (c : Cmd) : M unit :=
  match c with
  | BuildEbpf opts => build_ebpf opts
  | Build opts => _ ← build_ebpf opts; build_daemon opts
  | Run opts => _ ← build_ebpf (run_build opts); _ ← build_daemon (run_build opts); run_daemon opts
  | Clean => clean
  | GenVmlinux opts => gen_vmlinux opts
  end.

(** ** [agl-health-daemon/build.rs] *)

(** [s.ends_with(p)]. *)
Definition ends_with (p s : rstring) : bool := starts_with (rev p) (rev s).

Definition BUILD_SCRUB : list rstring :=
  [lit "RUSTUP_TOOLCHAIN"; lit "RUSTC"; lit "RUSTC_WRAPPER"; lit "RUSTC_WORKSPACE_WRAPPER"; lit "CARGO";
   lit "CARGO_MANIFEST_DIR"; lit "CARGO_PKG_NAME"; lit "CARGO_PKG_VERSION"; lit "CARGO_TARGET_DIR";
   lit "CARGO_ENCODED_RUSTFLAGS"; lit "RUSTFLAGS"].

Definition is_cross_var (k : rstring) : bool :=
  starts_with (lit "CARGO_TARGET_") k
  && (ends_with (lit "_LINKER") k || ends_with (lit "_RUSTFLAGS") k).
Definition cross_vars (e : env) : list rstring :=
  filter (fun k => is_cross_var k = true) (map_to_list e).*1.

Definition env_var (name : rstring) : M rstring := require (VarNotSet name) (os_env o !! name).

Definition OBJECT_NAME : rstring := lit "agl-health-ebpf.bin".

Definition inner_command (e : env) (ebpf_dir ebpf_target_dir : rstring) : command :=
  env_remove (cross_vars e)
    (env_remove BUILD_SCRUB
      (args (match e !! lit "CARGO_FEATURE_KERNEL_5_4" with
             | Some _ => [lit "--features"; lit "kernel-5-4"] | None => [] end)
        (args [lit "build"; lit "--release"; lit "-Z"; lit "build-std=core"; lit "--target"; EBPF_TARGET;
               lit "--target-dir"; ebpf_target_dir]
          (current_dir ebpf_dir (command_new (lit "cargo")))))).

(** Where the inner cargo leaves the object. *)
Definition built_object (ebpf_target_dir : rstring) : rstring :=
  join (join (join ebpf_target_dir EBPF_TARGET) (lit "release")) EBPF_CRATE.

Definition build_object : M unit :=
  manifest_dir ← env_var (lit "CARGO_MANIFEST_DIR");
  workspace ← require NoParent (parent manifest_dir);
  let ebpf_dir := join workspace EBPF_CRATE in
  b ← is_file (join ebpf_dir (lit "Cargo.toml"));
  if negb b then bail (ManifestNotFound ebpf_dir)
  else
    _ ← say (lit "cargo:rerun-if-changed=" ++ ebpf_dir);
    out_dir ← env_var (lit "OUT_DIR");
    let ebpf_target_dir := join out_dir (lit "ebpf-target") in
    r ← spawn (inner_command (os_env o) ebpf_dir ebpf_target_dir);
    match r with
    | None => bail (SpawnFailed (lit "cargo for the eBPF build"))
    | Some (false, _) => bail (CommandFailed (lit "eBPF build"))
    | Some (true, _) =>
        let built := built_object ebpf_target_dir in
        b ← is_file built;
        if negb b then bail (ObjectNotFound built)
        else
          let dest := join out_dir OBJECT_NAME in
          _ ← copy_file built dest;
          say (lit "cargo:rustc-env=AGL_HEALTH_EBPF_OBJ=" ++ dest)
    end.

Definition build_script : M unit :=
  _ ← say (lit "cargo:rerun-if-changed=build.rs");
  match os_env o !! lit "CARGO_FEATURE_EBPF" with
  | None => mret tt
  | Some _ =>
      _ ← say (lit "cargo:rerun-if-env-changed=AGL_HEALTH_SKIP_EBPF_BUILD");
      match os_env o !! lit "AGL_HEALTH_SKIP_EBPF_BUILD" with
      | Some _ =>
          out_dir ← env_var (lit "OUT_DIR");
          _ ← write_file (join out_dir OBJECT_NAME) [];
          say (lit "cargo:warning=AGL_HEALTH_SKIP_EBPF_BUILD set - using empty stub object")
      | None => build_object
      end
  end.
End Programs.

(** ** What cargo makes of a command

    Cargo's documented behaviour: which features a [cargo build] command asks
    for, and the variables a build script finds for them. *)

Definition takes_value (flag : rstring) : bool :=
  bool_decide (flag ∈ [lit "-p"; lit "-Z"; lit "--target"; lit "--target-dir"]).
Fixpoint features_in (l : list rstring) : list rstring :=
  match l with
  | [] => []
  | flag :: l =>
      match l with
      | [] => []
      | v :: l' =>
          if bool_decide (flag = lit "--features") then split_on COMMA v ++ features_in l'
          else if takes_value flag then features_in l' else features_in l
      end
  end.
Definition features_of (c : command) : list rstring := features_in (cmd_args c).

(** [CARGO_FEATURE_<name>]: uppercase, with [-] as [_]. *)
Definition feature_char (c : Z) : Z :=
  if c =? 45 then 95 else if (97 <=? c) && (c <=? 122) then c - 32 else c.
Definition feature_var (f : rstring) : rstring := lit "CARGO_FEATURE_" ++ map feature_char f.

(** The environment of the daemon's build script under the command [c]: the
    crate declares the features [ebpf] and [kernel-5-4], neither implied. *)
Definition script_env (c : command) (e : env) : Prop :=
  forall f, f ∈ [lit "ebpf"; lit "kernel-5-4"] -> is_Some (e !! feature_var f) <-> f ∈ features_of c.

(** The build a command compiles: [cfg(feature = "kernel-5-4")]. *)
Definition build_of (c : command) : build :=
  if decide (lit "kernel-5-4" ∈ features_of c) then Kernel54 else Btf55.

(** [--flag value] in a command line, and where cargo leaves the binary of
    [crate]: [<target-dir>/<target>/<profile>/<crate>]. *)
Fixpoint option_value (flag : rstring) (l : list rstring) : option rstring :=
  match l with
  | [] => None
  | x :: l =>
      match l with
      | [] => None
      | v :: l' =>
          if bool_decide (x = flag) then Some v
          else if takes_value x || bool_decide (x = lit "--features") then option_value flag l' else option_value flag l
      end
  end.
Definition cargo_output (c : command) (crate : rstring) : rstring :=
  let target_dir := unwrap_or (join (unwrap_or [] (cmd_dir c)) (lit "target")) (option_value (lit "--target-dir") (cmd_args c)) in
  let dir := match option_value (lit "--target") (cmd_args c) with Some t => join target_dir t | None => target_dir end in
  join (join dir (if bool_decide (lit "--release" ∈ cmd_args c) then lit "release" else lit "debug")) crate.



(** The daemon compiled by [c] that embeds [obj] ([EBPF_OBJ]). *)
Definition embeds (h : host) (c : command) (obj : list Z) : Prop :=
  ebpf_feature h = bool_decide (lit "ebpf" ∈ features_of c) /\ obj_len h = length obj.

(** ** Lemmas *)



Definition kernel_feature (opts : BuildOpts) : list rstring :=
  if kernel_5_4 opts then [lit "kernel-5-4"] else [].


Lemma features_daemon_command opts : features_of (daemon_command opts) = lit "ebpf" :: kernel_feature opts.
Proof.
  unfold features_of, daemon_command. destruct opts as [[] [t|] []]; vm_compute; reflexivity.
Qed.







(** Following a computation that returned. *)
Lemma run_bind_ok {A B} (k : A -> M B) (m : M A) w y w' :
  (x ← m; k x) w = (Ok y, w') <-> exists x w1, m w = (Ok x, w1) /\ k x w1 = (Ok y, w').
Proof.
  unfold mbind, M_bind. split.
  - destruct (m w) as [[x|e] w1]; [|done]. by exists x, w1.
  - by intros (x & w1 & -> & ?).
Qed.
Lemma require_ok {A} e (x : option A) w y w' : require e x w = (Ok y, w') <-> x = Some y /\ w' = w.
Proof. destruct x; cbn; split; try done; [by intros [= -> ->]|by intros [[= ->] ->]|by intros []]. Qed.

Lemma is_file_ok p w b w' :
  is_file p w = (Ok b, w') <-> b = bool_decide (is_Some (w_files w !! p)) /\ w' = w.
Proof. unfold is_file. split; [by intros [= <- <-]|by intros [-> ->]]. Qed.
Lemma say_ok l w u w' : say l w = (Ok u, w') <-> w' = w <| w_said ::= fun s => s ++ [l] |>.
Proof. unfold say. split; [by intros [= <- <-]|intros ->; by destruct u]. Qed.
Lemma spawn_ok o c w r w' :
  spawn o c w = (Ok r, w') <->
  exists files', os_spawn o (child_env (os_env o) c) c (w_files w) = (r, files')
    /\ w' = w <| w_files := files' |> <| w_ran ::= fun l => l ++ [c] |>.
Proof.
  unfold spawn. destruct (os_spawn _ _ _ _) as [r0 f0]. cbn [fst snd]. split.
  - intros [= <- <-]. by exists f0.
  - by intros (f & [= -> ->] & ->).
Qed.

Ltac m_step :=
  match goal with
  | H : (mbind _ _) _ = (Ok _, _) |- _ => apply run_bind_ok in H as (? & ? & ? & H)
  | H : require _ _ _ = (Ok _, _) |- _ => apply require_ok in H as [? ->]
  | H : env_var _ _ _ = (Ok _, _) |- _ => apply require_ok in H as [? ->]
  | H : is_file _ _ = (Ok _, _) |- _ => apply is_file_ok in H as [-> ->]
  | H : say _ _ = (Ok _, _) |- _ => apply say_ok in H as ->
  | H : spawn _ _ _ = (Ok _, _) |- _ => apply spawn_ok in H as (? & ? & ->)
  | H : bail _ _ = (Ok _, _) |- _ => discriminate H
  end.

(** *** Commands that fail *)

Definition succeeded (a : option (bool * list Z)) : bool :=
  match a with Some (b, _) => b | None => false end.

(** What the commands [l], run one after the other, leave; and that each
    succeeds. *)
Fixpoint replay (o : os) (l : list command) (f : files) : files :=
  match l with [] => f | c :: l => replay o l (os_spawn o (child_env (os_env o) c) c f).2 end.
Fixpoint ran_ok (o : os) (l : list command) (f : files) : Prop :=
  match l with
  | [] => True
  | c :: l =>
      let r := os_spawn o (child_env (os_env o) c) c f in succeeded r.1 = true /\ ran_ok o l r.2
  end.

Definition command_fault (e : fault) : bool :=
  match e with SpawnFailed _ | CommandFailed _ => true | _ => false end.

(** The commands [l] ended with the fault [e]: the last one failed, or all
    succeeded and the fault is another one. *)
Definition stopped (o : os) (l : list command) (e : fault) (f : files) : Prop :=
  if command_fault e
  then exists l0 c, l = l0 ++ [c] /\ ran_ok o l0 f
    /\ succeeded (os_spawn o (child_env (os_env o) c) c (replay o l0 f)).1 = false
  else ran_ok o l f.

Definition honest (o : os) {A} (m : M A) : Prop :=
  forall w r w', m w = (r, w') ->
    exists l, w_ran w' = w_ran w ++ l /\
      match r with
      | Ok _ => ran_ok o l (w_files w) /\ w_files w' = replay o l (w_files w)
      | Err e => stopped o l e (w_files w)
      end.

Lemma ran_ok_app o l1 l2 f : ran_ok o (l1 ++ l2) f <-> ran_ok o l1 f /\ ran_ok o l2 (replay o l1 f).
Proof. revert f. induction l1 as [|c l1 IH]; intros f; cbn; [tauto|]. rewrite IH. tauto. Qed.
Lemma replay_app o l1 l2 f : replay o (l1 ++ l2) f = replay o l2 (replay o l1 f).
Proof. revert f. induction l1 as [|c l1 IH]; intros f; cbn; [done|]. apply IH. Qed.

Lemma honest_bind o {A B} (m : M A) (k : A -> M B) :
  honest o m -> (forall x, honest o (k x)) -> honest o (m ≫= k).
Proof.
  intros Hm Hk w r w' E. unfold mbind, M_bind in E.
  destruct (m w) as [[x|e] w1] eqn:Em; destruct (Hm _ _ _ Em) as (l1 & E1 & H1).
  2:{ injection E as <- <-. by exists l1. }
  destruct H1 as [Hok1 Hf1]. destruct (Hk x _ _ _ E) as (l2 & E2 & H2).
  exists (l1 ++ l2). split; [by rewrite E2, E1, app_assoc|]. rewrite Hf1 in H2.
  destruct r as [y|e].
  - destruct H2 as [Hok2 Hf2]. by rewrite ran_ok_app, replay_app.
  - unfold stopped in *. destruct (command_fault e); [|by apply ran_ok_app].
    destruct H2 as (l0 & c & -> & Hl0 & Hc). exists (l1 ++ l0), c.
    rewrite ran_ok_app, replay_app, app_assoc. by split_and!.
Qed.

(** Nothing run, and no command blamed. *)
Lemma honest_quiet o {A} (m : M A) :
  (forall w, (m w).2 = w /\ forall e, (m w).1 = Err e -> command_fault e = false) -> honest o m.
Proof.
  intros H w r w' E. destruct (H w) as [Hw He]. rewrite E in Hw, He. cbn in Hw, He. subst w'.
  exists []. rewrite app_nil_r. split; [done|]. destruct r as [x|e]; [done|].
  unfold stopped. by rewrite (He e eq_refl).
Qed.

Lemma honest_status o c label : honest o (status o c label).
Proof.
  intros w r w' E. unfold status, mbind, M_bind, spawn in E. exists [clean_cargo_env c].
  destruct (os_spawn _ _ _ _) as [a f1] eqn:Es. cbn [fst snd] in E.
  assert (forall e, command_fault e = true -> succeeded a = false ->
    stopped o [clean_cargo_env c] e (w_files w)) as Hstop.
  { intros e He Ha. unfold stopped. rewrite He. exists [], (clean_cargo_env c). cbn [replay]. by rewrite Es. }
  destruct a as [[[|] out]|]; injection E as <- <-; (split; [done|]);
    [|by apply Hstop|by apply Hstop]. cbn [ran_ok replay w_files upd updater]. by rewrite Es.
Qed.

Lemma honest_crate_dir o dir name : honest o (crate_dir dir name).
Proof.
  apply honest_quiet. intros w. unfold crate_dir, workspace_root. destruct (parent dir); cbn; (split; [done|]);
    by intros e [= <-].
Qed.
Lemma honest_root o dir : honest o (workspace_root dir).
Proof.
  apply honest_quiet. intros w. unfold workspace_root. destruct (parent dir); cbn; (split; [done|]); by intros e [= <-].
Qed.
Lemma honest_bail o A e : command_fault e = false -> honest o (bail e : M A).
Proof. intros He. apply honest_quiet. intros w. split; [done|]. by intros ? [= <-]. Qed.
Lemma honest_ret o A (x : A) : honest o (mret x).
Proof. by apply honest_quiet. Qed.
Lemma honest_is_file o p : honest o (is_file p).
Proof. by apply honest_quiet. Qed.

Ltac honest :=
  repeat first [match goal with |- forall _, _ => intro end | case_match
    | apply honest_status | apply honest_crate_dir | apply honest_root | by apply honest_bail
    | apply honest_ret | apply honest_is_file | apply honest_bind].

Lemma honest_stages o dir opts : honest o (build_ebpf o dir opts) /\ honest o (build_daemon o dir opts).
Proof. unfold build_ebpf, build_daemon. split; honest. Qed.

Lemma honest_xtask o dir cmd : (forall g, cmd <> GenVmlinux g) -> honest o (xtask_main o dir cmd).
Proof.
  intros Hcmd. destruct cmd as [opts|opts|opts| |g]; cbn [xtask_main]; [| | | |by destruct (Hcmd g)].
  - apply honest_stages.
  - apply honest_bind; [apply honest_stages|]. intros _. apply honest_stages.
  - apply honest_bind; [apply honest_stages|]. intros _. apply honest_bind; [apply honest_stages|].
    intros _. unfold run_daemon. honest.
  - unfold clean. honest.
Qed.

(** Computations that run their commands with xtask's scrub list only. *)
Definition scrubbed {A} (m : M A) : Prop :=
  forall w r w', m w = (r, w') ->
    exists l, w_ran w' = w_ran w ++ l /\ Forall (fun c => cmd_removed c = XTASK_SCRUB) l.

Lemma scrubbed_quiet {A} (m : M A) : (forall w, w_ran (m w).2 = w_ran w) -> scrubbed m.
Proof. intros H w r w' E. exists []. specialize (H w). rewrite E in H. by rewrite app_nil_r. Qed.
Lemma scrubbed_bind {A B} (m : M A) (k : A -> M B) :
  scrubbed m -> (forall x, scrubbed (k x)) -> scrubbed (m ≫= k).
Proof.
  intros Hm Hk w r w' E. unfold mbind, M_bind in E. destruct (m w) as [[x|e] w1] eqn:Em.
  - destruct (Hm _ _ _ Em) as (l1 & E1 & H1). destruct (Hk x _ _ _ E) as (l2 & E2 & H2).
    exists (l1 ++ l2). split; [by rewrite E2, E1, app_assoc|by apply Forall_app].
  - injection E as <- <-. by eapply Hm.
Qed.
Lemma scrubbed_spawn o c : cmd_removed c = [] -> scrubbed (spawn o (clean_cargo_env c)).
Proof.
  intros Hc w r w' [= <- <-]. exists [clean_cargo_env c]. split; [done|].
  constructor; [|done]. cbn. by rewrite Hc.
Qed.
Lemma scrubbed_ret {A} (x : A) : scrubbed (mret x).
Proof. by apply scrubbed_quiet. Qed.
Lemma scrubbed_bail {A} e : scrubbed (bail e : M A).
Proof. by apply scrubbed_quiet. Qed.
Lemma scrubbed_require {A} e (x : option A) : scrubbed (require e x).
Proof. apply scrubbed_quiet. by destruct x. Qed.
Lemma scrubbed_is_file p : scrubbed (is_file p).
Proof. by apply scrubbed_quiet. Qed.
Lemma scrubbed_write_file o p b : scrubbed (write_file o p b).
Proof. apply scrubbed_quiet. intros w. unfold write_file. by case_match. Qed.

Create HintDb scrubbed.
#[export] Hint Resolve scrubbed_bind scrubbed_spawn scrubbed_ret scrubbed_bail scrubbed_require
  scrubbed_is_file scrubbed_write_file : scrubbed.
#[export] Hint Extern 1 (cmd_removed _ = []) => reflexivity : scrubbed.
Ltac scrub :=
  repeat first [match goal with |- forall _, _ => intro end | case_match | solve [auto 3 with scrubbed nocore] | apply scrubbed_bind].

Lemma scrubbed_status o c label : cmd_removed c = [] -> scrubbed (status o c label).
Proof. intros. unfold status. apply scrubbed_bind; [by apply scrubbed_spawn|]. scrub. Qed.
#[export] Hint Resolve scrubbed_status : scrubbed.

Lemma scrubbed_crate_dir dir name : scrubbed (crate_dir dir name).
Proof. unfold crate_dir, workspace_root. scrub. Qed.
#[export] Hint Resolve scrubbed_crate_dir : scrubbed.


(** What a successful build of the object has done. *)
Record object_built (o : os) (w w' : world) (manifest root out : rstring) (obj : list Z) : Prop := {
  ob_manifest : os_env o !! lit "CARGO_MANIFEST_DIR" = Some manifest;
  ob_root : parent manifest = Some root;
  ob_out : os_env o !! lit "OUT_DIR" = Some out;
  ob_spawn :
    let c := inner_command (os_env o) (join root EBPF_CRATE) (join out (lit "ebpf-target")) in
    exists stdout files1,
      os_spawn o (child_env (os_env o) c) c (w_files w) = (Some (true, stdout), files1)
      /\ files1 !! built_object (join out (lit "ebpf-target")) = Some obj
      /\ w_files w' = <[join out OBJECT_NAME := obj]> files1
      /\ w_ran w' = w_ran w ++ [c];
  ob_said : w_said w' = w_said w ++
    [lit "cargo:rerun-if-changed=" ++ join root EBPF_CRATE;
     lit "cargo:rustc-env=AGL_HEALTH_EBPF_OBJ=" ++ join out OBJECT_NAME] }.

Lemma copy_file_ok o src dst w w' :
  copy_file o src dst w = (Ok tt, w') ->
  exists b, w_files w !! src = Some b /\ w' = w <| w_files ::= <[dst := b]> |>.
Proof.
  unfold copy_file. destruct (w_files w !! src) as [b|]; [|done]. destruct (os_can_write o dst); [|done].
  intros [= <-]. by exists b.
Qed.

Lemma build_object_ok o w w' :
  build_object o w = (Ok tt, w') -> exists manifest root out obj, object_built o w w' manifest root out obj.
Proof.
  unfold build_object. intros H. repeat m_step. case_bool_decide; cbn [negb] in H; [|m_step].
  repeat m_step. case_match; [|m_step]. case_match. case_match; [|m_step].
  repeat m_step. case_bool_decide; cbn [negb] in H; [|m_step]. repeat m_step. subst.
  match goal with
  | E : os_env o !! lit "CARGO_MANIFEST_DIR" = Some ?m, E1 : parent ?m = Some ?r,
    E2 : os_env o !! lit "OUT_DIR" = Some ?out, E3 : copy_file _ _ _ _ = (Ok ?u, ?w1) |- _ =>
      destruct u; apply copy_file_ok in E3 as (obj & Eobj & ->); exists m, r, out, obj
  end.
  constructor; try done; [|cbn; by rewrite <- app_assoc].
  cbn zeta. eexists _, _. split; [eassumption|]. by split_and!.
Qed.

(** A script that returned has built the object, or put an empty file in its
    place, or was not asked for either. *)
Lemma build_script_ok o w w' :
  build_script o w = (Ok tt, w') ->
  match os_env o !! lit "CARGO_FEATURE_EBPF", os_env o !! lit "AGL_HEALTH_SKIP_EBPF_BUILD" with
  | None, _ => w_files w' = w_files w /\ w_ran w' = w_ran w
  | Some _, Some _ => exists out, os_env o !! lit "OUT_DIR" = Some out
      /\ w_files w' = <[join out OBJECT_NAME := []]> (w_files w) /\ w_ran w' = w_ran w
  | Some _, None => exists w0 manifest root out obj, w_files w0 = w_files w /\ w_ran w0 = w_ran w
      /\ w_said w0 = w_said w ++ [lit "cargo:rerun-if-changed=build.rs";
                                  lit "cargo:rerun-if-env-changed=AGL_HEALTH_SKIP_EBPF_BUILD"]
      /\ object_built o w0 w' manifest root out obj
  end.
Proof.
  unfold build_script. intros H. m_step. m_step.
  destruct (os_env o !! lit "CARGO_FEATURE_EBPF"); [|by injection H as <-].
  m_step. m_step. destruct (os_env o !! lit "AGL_HEALTH_SKIP_EBPF_BUILD").
  - repeat m_step.
    match goal with E : write_file _ _ _ _ = _ |- _ => unfold write_file in E end.
    case_match; [|done]. simplify_eq. eexists. by split_and!.
  - destruct (build_object_ok o _ _ H) as (manifest & root & out & obj & Hob).
    eexists _, manifest, root, out, obj. split; [|split; [|split; [|exact Hob]]]; [done|done|].
    cbn. by rewrite <- app_assoc.
Qed.

(** The script asks cargo to run it again when the eBPF crate changes, and for
    no other path: not for [agl-health-common], whose records that crate
    compiles in, so after a change there alone the object stays the old one. *)
Lemma only_ebpf_crate_watched o w w' x :
  os_env o !! lit "CARGO_FEATURE_EBPF" = Some x -> os_env o !! lit "AGL_HEALTH_SKIP_EBPF_BUILD" = None ->
  build_script o w = (Ok tt, w') ->
  exists manifest root out, os_env o !! lit "CARGO_MANIFEST_DIR" = Some manifest
    /\ parent manifest = Some root
    /\ w_said w' = w_said w ++
      [lit "cargo:rerun-if-changed=build.rs"; lit "cargo:rerun-if-env-changed=AGL_HEALTH_SKIP_EBPF_BUILD";
       lit "cargo:rerun-if-changed=" ++ join root (lit "agl-health-ebpf");
       lit "cargo:rustc-env=AGL_HEALTH_EBPF_OBJ=" ++ join out OBJECT_NAME].
Proof.
  intros Hx Hs H. apply build_script_ok in H. rewrite Hx, Hs in H.
  destruct H as (w0 & manifest & root & out & obj & _ & _ & Hsaid & [Hm Hr _ _ Hsaid']).
  exists manifest, root, out. split; [done|]. split; [done|]. by rewrite Hsaid', Hsaid, <- app_assoc.
Qed.

(** ** Properties *)


(** The escape hatch gives a daemon that runs without programs, and says
    so: with [AGL_HEALTH_SKIP_EBPF_BUILD] set the script runs no command and
    embeds an empty file, whatever an earlier build left; such a daemon's
    [load] fails before it touches the kernel, and so does that of a daemon
    built without the feature, whose script does nothing. *)
Theorem stub_build_loads_nothing (o : os) (w w' : world) (h : host) (b : build) (c : command)
    (Hrun : build_script o w = (Ok tt, w')) (Henv : script_env c (os_env o)) :
  (is_Some (os_env o !! lit "AGL_HEALTH_SKIP_EBPF_BUILD") -> lit "ebpf" ∈ features_of c ->
    exists out obj, os_env o !! lit "OUT_DIR" = Some out /\ w_files w' !! join out OBJECT_NAME = Some obj
      /\ w_ran w' = w_ran w
      /\ (embeds h c obj -> load h b = Err (lit "eBPF object is empty - build.rs did not produce stage 1 output")))
  /\ (lit "ebpf" ∉ features_of c ->
    w_files w' = w_files w /\ w_ran w' = w_ran w
      /\ (embeds h c [] -> bpf_summary (load h b) = LoadSummary_default)).
Proof.
  apply build_script_ok in Hrun. specialize (Henv (lit "ebpf") ltac:(left)).
  change (feature_var (lit "ebpf")) with (lit "CARGO_FEATURE_EBPF") in Henv. split.
  - intros [x Hx] [y Hy]%Henv. rewrite Hx, Hy in Hrun. destruct Hrun as (out & Hout & Hf & Hr).
    exists out, []. split; [done|]. split; [rewrite Hf; apply lookup_insert_eq|]. split; [done|].
    intros [Hfeat Hlen]. unfold load. rewrite Hfeat, Hlen.
    rewrite bool_decide_eq_true_2 by (apply Henv; by exists y). done.
  - intros Hn. destruct (os_env o !! lit "CARGO_FEATURE_EBPF") as [y|]; [by destruct Hn; apply Henv; exists y|].
    destruct Hrun as [Hf Hr]. split; [done|]. split; [done|].
    intros [Hfeat _]. unfold load. by rewrite Hfeat, bool_decide_eq_false_2.
Qed.





(** What [aya-tool] did and what became of it. *)
Definition generated (o : os) (root : rstring) (r : result unit fault) (w w' : world) : Prop :=
  exists c out f1, w_ran w' = w_ran w ++ [c]
    /\ os_spawn o (child_env (os_env o) c) c (w_files w) = (out, f1)
    /\ match r with
       | Ok _ => exists stdout, out = Some (true, stdout) /\ w_files w' = <[join root VMLINUX_OUTPUT := stdout]> f1
       | Err _ => w_files w' = f1
       end.

Lemma generate_effect o root extra w r w' : generate o root extra w = (r, w') -> generated o root r w w'.
Proof.
  intros E. unfold generate, mbind, M_bind, spawn in E. set (c := clean_cargo_env _) in E.
  destruct (os_spawn o (child_env (os_env o) c) c (w_files w)) as [out f1] eqn:Es.
  exists c, out, f1. cbn [fst snd] in E.
  destruct out as [[[|] stdout]|]; [|by injection E as <- <-|by injection E as <- <-].
  unfold write_file in E. destruct (os_can_write o _); injection E as <- <-; [|done].
  split; [done|]. split; [done|]. by exists stdout.
Qed.

(** Xtask stops at the first failure and blames it.  It reports success
    only if every command it ran succeeded; otherwise nothing runs after the
    command that failed, and a failure of any other kind comes after commands
    that all succeeded.  [gen-vmlinux] replaces the committed bindings only
    with the whole output of a successful run. *)
Theorem xtask_stops_at_failure (o : os) (dir : rstring) (cmd : Cmd) (w w' : world) (r : result unit fault) :
  xtask_main o dir cmd w = (r, w') ->
  match cmd with
  | GenVmlinux _ => w' = w \/ exists root, parent dir = Some root /\ generated o root r w w'
  | _ =>
      exists l, w_ran w' = w_ran w ++ l /\
        match r with Ok _ => ran_ok o l (w_files w) | Err e => stopped o l e (w_files w) end
  end.
Proof.
  intros H. destruct cmd as [opts|opts|opts| |g].
  1-4: apply honest_xtask in H as (l & Hl & Hr); [|done]; exists l; split; [done|];
    destruct r; [by destruct Hr|done].
  cbn [xtask_main] in H. unfold gen_vmlinux, workspace_root in H.
  destruct (parent dir) as [root|]; [|by injection H as <- <-; left].
  unfold require, mbind, M_bind in H. cbn [mret M_ret] in H.
  destruct (header g) as [p|]; unfold is_file in H;
    (destruct (negb _); [by injection H as <- <-; left|]); right; exists root; (split; [done|]);
    eapply generate_effect; exact H.
Qed.

(** *** Witnesses *)

(** A cross build of the 5.4 daemon in [/w], with a cargo that leaves a
    four-byte object where it is told to. *)
Definition demo_opts : BuildOpts := {| profile := Release; target := Some (lit "aarch64-unknown-linux-gnu"); kernel_5_4 := true |}.
Definition demo_env : env := list_to_map [
  (lit "CARGO_FEATURE_EBPF", lit "1"); (lit "CARGO_FEATURE_KERNEL_5_4", lit "1");
  (lit "OUT_DIR", lit "/w/target/out"); (lit "CARGO_MANIFEST_DIR", lit "/w/agl-health-daemon");
  (lit "RUSTC", lit "/usr/bin/rustc"); (lit "PATH", lit "/usr/bin");
  (lit "CARGO_TARGET_AARCH64_UNKNOWN_LINUX_GNU_LINKER", lit "aarch64-linux-gnu-gcc")].
Definition demo_object (b : build) : list Z := [0x7F; 0x45; 0x4C; match b with Btf55 => 55 | Kernel54 => 54 end].
Definition demo_os (e : env) : os := {|
  os_env := e;
  os_spawn := fun e c f =>
    (Some (true, []), <[cargo_output c (lit "agl-health-ebpf") := demo_object (build_of c)]> f);
  os_can_write := fun _ => true |}.
Definition demo_world : world := {|
  w_files := list_to_map [(lit "/w/agl-health-ebpf/Cargo.toml", []); (lit "/w/agl-health-daemon/Cargo.toml", [])];
  w_ran := []; w_said := [] |}.

(** The rest of a host that refuses nothing. *)
Definition with_object (h : host) (feature : bool) (len : nat) : host := {|
  ebpf_feature := feature; obj_len := len; obj_parses := obj_parses h; host_btf := host_btf h;
  program_mut := program_mut h; prog_load := prog_load h; prog_attach := prog_attach h;
  cgroup_root_opens := cgroup_root_opens h; obj_maps := obj_maps h; map_try_into := map_try_into h;
  async_fd_new := async_fd_new h; online_cpus := online_cpus h; perf_open := perf_open h |}.
Definition demo_host_54 (len : nat) : host :=
  with_object (some_host Kernel54 true (fun _ => true) (object_maps Kernel54)) true len.


Lemma demo_script_env : script_env (daemon_command demo_opts) demo_env.
Proof.
  intros f [->|[->|[]%elem_of_nil]%elem_of_cons]%elem_of_cons; rewrite features_daemon_command; split; intros _.
  - left.
  - by eexists.
  - right. left.
  - by eexists.
Qed.


Definition stub_env : env := <[lit "AGL_HEALTH_SKIP_EBPF_BUILD" := lit "1"]> demo_env.
Definition stub_world : world := (build_script (demo_os stub_env) demo_world).2.

Lemma stub_build_loads_nothing_witness :
  w_files stub_world !! lit "/w/target/out/agl-health-ebpf.bin" = Some []
  /\ load (demo_host_54 0) Kernel54 = Err (lit "eBPF object is empty - build.rs did not produce stage 1 output").
Proof.
  assert (build_script (demo_os stub_env) demo_world = (Ok tt, stub_world)) as Hrun by (vm_compute; reflexivity).
  assert (script_env (daemon_command demo_opts) stub_env) as Henv.
  { intros f Hf. rewrite <- (demo_script_env f Hf). unfold stub_env. rewrite lookup_insert_ne; [done|].
    apply elem_of_cons in Hf as [->|[->|[]%elem_of_nil]%elem_of_cons]; discriminate. }
  destruct (proj1 (stub_build_loads_nothing (demo_os stub_env) demo_world stub_world (demo_host_54 0) Kernel54
    (daemon_command demo_opts) Hrun Henv)) as (out & obj & Hout & Hf & _ & Hl).
  - by eexists.
  - rewrite features_daemon_command. left.
  - assert (out = lit "/w/target/out") as -> by (vm_compute in Hout; injection Hout as <-; reflexivity).
    assert (obj = []) as -> by (vm_compute in Hf; injection Hf as <-; reflexivity).
    split; [exact Hf|]. apply Hl. split; [vm_compute|]; reflexivity.
Defined.



(** The eBPF compiler is missing: the first stage fails and the second is not
    started. *)
Definition broken_os : os := {|
  os_env := demo_env; os_spawn := fun e c f => (Some (false, []), f); os_can_write := fun _ => true |}.

Lemma xtask_stops_at_failure_witness :
  exists l, (xtask_main broken_os (lit "/w/xtask") (Build demo_opts) demo_world).1
      = Err (CommandFailed (lit "cargo build (eBPF stage)"))
    /\ length l = 1%nat
    /\ stopped broken_os l (CommandFailed (lit "cargo build (eBPF stage)")) (w_files demo_world).
Proof.
  set (r := xtask_main broken_os (lit "/w/xtask") (Build demo_opts) demo_world).
  destruct (xtask_stops_at_failure broken_os (lit "/w/xtask") (Build demo_opts) demo_world r.2
    (Err (CommandFailed (lit "cargo build (eBPF stage)"))) ltac:(vm_compute; reflexivity)) as (l & Hl & Hs).
  exists l. split; [vm_compute; reflexivity|]. split; [|exact Hs].
  rewrite <- (Nat.add_0_l (length l)). change 0%nat with (length (w_ran demo_world)).
  rewrite <- length_app, <- Hl. vm_compute. reflexivity.
Defined.
