(* ===== verification/Metrics.v ===== *)
(** [metrics.rs]: the snapshot the daemon publishes and the percentiles of a
    scheduler-latency histogram. *)
From S2P Require Import Prelude Text Float Types Layout Pods Bpf Stats Scheduler.

Record LoadSnapshot := { load_1 : f64; load_5 : f64; load_15 : f64 }.
#[export] Instance eta_LoadSnapshot : Eta LoadSnapshot := fun r =>
  Build_LoadSnapshot (load_1 r) (load_5 r) (load_15 r).
Definition LoadSnapshot_default : LoadSnapshot :=
  {| load_1 := f64_zero; load_5 := f64_zero; load_15 := f64_zero |}.

Record SchedSnapshot := { histogram : SchedHistogram; p50_ns : Z; p95_ns : Z; p99_ns : Z }.
#[export] Instance eta_SchedSnapshot : Eta SchedSnapshot := fun r =>
  Build_SchedSnapshot (histogram r) (p50_ns r) (p95_ns r) (p99_ns r).
Definition SchedSnapshot_default : SchedSnapshot :=
  {| histogram := SchedHistogram_zeroed; p50_ns := 0; p95_ns := 0; p99_ns := 0 |}.

Record MetricSnapshot := {
  timestamp_ns : Z;
  memory : MemorySnapshot;
  sched : SchedSnapshot;
  tcp : TcpStateSnapshot;
  load : LoadSnapshot;
  cpu_cores : list CpuStats;
  net_ifaces : list NetIfaceStats;
  block : list BlockStats;
  top_processes : list ProcessStats;
  security : SecurityEventCounts;
  sched_per_cpu : list SchedSnapshot;
  cgroup_net_top : list CgroupNetBytes }.
#[export] Instance eta_MetricSnapshot : Eta MetricSnapshot := fun r =>
  Build_MetricSnapshot (timestamp_ns r) (memory r) (sched r) (tcp r) (load r) (cpu_cores r)
    (net_ifaces r) (block r) (top_processes r) (security r) (sched_per_cpu r) (cgroup_net_top r).
Definition MetricSnapshot_default : MetricSnapshot :=
  {| timestamp_ns := 0; memory := MemorySnapshot_zeroed; sched := SchedSnapshot_default;
     tcp := TcpStateSnapshot_zeroed; load := LoadSnapshot_default; cpu_cores := [];
     net_ifaces := []; block := []; top_processes := []; security := SecurityEventCounts_zeroed;
     sched_per_cpu := []; cgroup_net_top := [] |}.

Definition BUCKET_BOUNDS_NS : list Z :=
  [10_000; 100_000; 1_000_000; 10_000_000; 100_000_000; 1_000_000_000; 10_000_000_000; u64_max].

(** The loop of [percentile_ns] over the buckets and their bounds. *)
Fixpoint percentile_loop (target cum : Z) (buckets bounds : list Z) : Z :=
  match buckets, bounds with
  | b :: buckets', bound :: bounds' =>
      let cum := saturating_add cum b in
      if target <=? cum then bound else percentile_loop target cum buckets' bounds'
  | _, _ => u64_max
  end.

(** [((count as f64) * p).ceil() as u64]. *)
Definition target_rank (count : Z) (p : f64) : Z :=
  f64_as_u64 (f64_ceil (f64_mul (f64_of_u64 count) p)).

Definition percentile_ns (hist : SchedHistogram) (p : f64) : Z :=
  if sh_total_count hist =? 0 then 0 else
  let target := target_rank (sh_total_count hist) p in
  percentile_loop target 0 (take SCHED_HIST_BUCKETS (sh_buckets hist)) BUCKET_BOUNDS_NS.

(** The literals 0.50, 0.95 and 0.99. *)
Definition P50 : f64 := f64_of_decimal false 50 (-2).
Definition P95 : f64 := f64_of_decimal false 95 (-2).
Definition P99 : f64 := f64_of_decimal false 99 (-2).

(** ** Percentiles of the waits *)

(** The [t]-th smallest of a list, from 1. *)
Definition nth_smallest (t : Z) (ds : list Z) : Z := nth (Z.to_nat (t - 1)) (merge_sort Z.le ds) 0.

(** How many waits fall in the first [i] buckets. *)
Definition count_below (i : nat) (ds : list Z) : nat :=
  length (filter (fun d => (bucket_of d < i)%nat) ds).

Lemma bucket_of_mono a b : a <= b -> (bucket_of a <= bucket_of b)%nat.
Proof. unfold bucket_of. intros. repeat case_match; lia. Qed.

Lemma count_below_succ i ds : count_below (S i) ds = (count_below i ds + count_bucket i ds)%nat.
Proof.
  unfold count_below, count_bucket. induction ds as [|d ds IH]; [done|].
  rewrite !filter_cons. repeat case_decide; cbn [length]; lia.
Qed.

Lemma count_below_all ds : count_below SCHED_HIST_BUCKETS ds = length ds.
Proof.
  unfold count_below. f_equal. induction ds as [|d ds IH]; [done|].
  rewrite filter_cons, decide_True by apply bucket_of_lt. by rewrite IH.
Qed.

(** In an ordered list the elements of the first buckets come first. *)
Lemma sorted_prefix i l t :
  StronglySorted Z.le l -> (t < length l)%nat ->
  (t < length (filter (fun d => (bucket_of d < i)%nat) l))%nat <-> (bucket_of (nth t l 0%Z) < i)%nat.
Proof.
  intros Hs. revert t. induction Hs as [|x l Hs IH Hx]; intros t Ht; cbn [length] in Ht; [lia|].
  rewrite filter_cons. case_decide as Hd; cbn [length].
  - destruct t as [|t]; cbn [nth]; [lia|]. rewrite <- IH by lia. lia.
  - assert (filter (fun d => (bucket_of d < i)%nat) l = []) as ->.
    { apply filter_none. eapply Forall_impl; [exact Hx|]. intros y Hy.
      pose proof (bucket_of_mono _ _ Hy). lia. }
    cbn [length]. split; [lia|]. intros Hlt. exfalso.
    destruct t as [|t]; cbn [nth] in Hlt; [lia|].
    assert (x <= nth t l 0) as Hle.
    { rewrite Forall_forall in Hx. apply Hx. apply list_elem_of_In, nth_In. lia. }
    pose proof (bucket_of_mono _ _ Hle). lia.
Qed.

Lemma nth_smallest_bucket i ds t :
  0 < t <= Z.of_nat (length ds) ->
  t <= Z.of_nat (count_below i ds) <-> (bucket_of (nth_smallest t ds) < i)%nat.
Proof.
  intros Ht. unfold nth_smallest.
  pose proof (merge_sort_Permutation Z.le ds) as Hp.
  assert (StronglySorted Z.le (merge_sort Z.le ds)) as Hs
    by (apply Sorted_StronglySorted; [intros ? ? ?; lia|apply Sorted_merge_sort; intros ? ?; lia]).
  rewrite <- (sorted_prefix i _ _ Hs) by (rewrite Hp; lia).
  assert (length (filter (fun d => (bucket_of d < i)%nat) (merge_sort Z.le ds)) = count_below i ds)
    as -> by (unfold count_below; by rewrite Hp). lia.
Qed.

(** The loop stops in the bucket of the [t]-th smallest wait. *)
Lemma percentile_loop_bucket ds t n i :
  Z.of_nat (length ds) < 2 ^ 64 -> 0 < t <= Z.of_nat (length ds) ->
  (i + n = SCHED_HIST_BUCKETS)%nat -> (i <= bucket_of (nth_smallest t ds))%nat ->
  percentile_loop t (Z.of_nat (count_below i ds))
    (map (fun j => as_u64 (Z.of_nat (count_bucket j ds))) (seq i n)) (drop i BUCKET_BOUNDS_NS)
  = nth (bucket_of (nth_smallest t ds)) BUCKET_BOUNDS_NS u64_max.
Proof.
  intros Hlen Ht. revert i. induction n as [|n IH]; intros i Hi Hle.
  - pose proof (bucket_of_lt (nth_smallest t ds)). lia.
  - assert (Z.of_nat (count_below (S i) ds) < 2 ^ 64) as Hb.
    { assert (count_below (S i) ds <= length ds)%nat by (apply length_filter). lia. }
    pose proof (count_below_succ i ds) as Hsucc.
    destruct (drop i BUCKET_BOUNDS_NS) as [|bound bounds] eqn:Hd.
    { apply (f_equal length) in Hd. rewrite length_drop in Hd. cbn in Hd.
      unfold SCHED_HIST_BUCKETS in Hi. lia. }
    cbn [seq map percentile_loop].
    assert (saturating_add (Z.of_nat (count_below i ds)) (as_u64 (Z.of_nat (count_bucket i ds)))
      = Z.of_nat (count_below (S i) ds)) as ->.
    { rewrite as_u64_small by (unfold is_u64; lia). unfold saturating_add, u64_max. lia. }
    pose proof (nth_smallest_bucket (S i) ds t Ht) as Hiff.
    destruct (Z.leb_spec t (Z.of_nat (count_below (S i) ds))) as [Hc|Hc].
    + replace (bucket_of (nth_smallest t ds)) with i by (apply Hiff in Hc; lia).
      rewrite <- (take_drop i BUCKET_BOUNDS_NS) at 1. rewrite Hd, app_nth2; rewrite length_take_le.
      * by rewrite Nat.sub_diag.
      * cbn. unfold SCHED_HIST_BUCKETS in Hi. lia.
      * lia.
      * cbn. unfold SCHED_HIST_BUCKETS in Hi. lia.
    + assert (bounds = drop (S i) BUCKET_BOUNDS_NS) as ->.
      { replace (S i) with (i + 1)%nat by lia. rewrite <- drop_drop, Hd. done. }
      apply IH; [lia|]. assert (~ (bucket_of (nth_smallest t ds) < S i)%nat) by (rewrite <- Hiff; lia). lia.
Qed.

(** C23: a published percentile bounds the waits it stands for.  For the
    histogram of any waits, the percentile of rank t (the number
    percentile_ns computes from the count and p) is the upper bound of the
    bucket of the t-th smallest wait: that wait is below it (or in the open
    last bucket), and at least the previous bucket's bound. *)
Theorem percentile_bounds_rank ds p :
  Forall is_u64 ds -> Z.of_nat (length ds) < 2 ^ 64 ->
  let t := target_rank (Z.of_nat (length ds)) p in
  0 < t <= Z.of_nat (length ds) ->
  let v := nth_smallest t ds in
  let b := percentile_ns (hist_of ds) p in
  b = nth (bucket_of v) BUCKET_BOUNDS_NS u64_max /\ v <= b /\ (b <> u64_max -> v < b) /\
  ((0 < bucket_of v)%nat -> nth (bucket_of v - 1) BUCKET_BOUNDS_NS 0 <= v).
Proof.
  intros Hds Hlen t Ht v b.
  assert (b = nth (bucket_of v) BUCKET_BOUNDS_NS u64_max) as Hb.
  { subst b. unfold percentile_ns. cbn [sh_total_count sh_buckets hist_of].
    rewrite as_u64_small by (unfold is_u64; lia).
    destruct (Z.eqb_spec (Z.of_nat (length ds)) 0); [lia|]. fold t.
    rewrite take_ge by (by rewrite length_map, length_seq).
    pose proof (percentile_loop_bucket ds t SCHED_HIST_BUCKETS 0 Hlen Ht eq_refl ltac:(lia)) as Hloop.
    assert (count_below 0 ds = 0%nat) as E0.
    { unfold count_below. rewrite filter_none; [done|]. apply Forall_forall. intros. lia. }
    rewrite E0 in Hloop. exact Hloop. }
  assert (is_u64 v) as Hv.
  { unfold v, nth_smallest. rewrite Forall_forall in Hds. apply Hds.
    pose proof (merge_sort_Permutation Z.le ds) as Hp.
    apply (elem_of_Permutation_proper _ _ _ Hp), list_elem_of_In, nth_In. rewrite Hp. lia. }
  split; [done|]. rewrite Hb. unfold is_u64 in Hv. clear -Hv.
  unfold bucket_of, BUCKET_BOUNDS_NS, u64_max. repeat case_match; cbn; lia.
Qed.

(** The rank is the exact ceiling for the published percentiles (checked for
    every count up to 2,000). *)
Lemma published_ranks :
  forallb (fun n =>
    (target_rank n P50 =? - (- (n * 50) / 100)) && (target_rank n P95 =? - (- (n * 95) / 100))
    && (target_rank n P99 =? - (- (n * 99) / 100))) (map Z.of_nat (seq 1 2000)) = true.
Proof. vm_compute. reflexivity. Qed.

Lemma percentile_bounds_rank_witness :
  let ds := [5_000; 70_000; 7_000; 20_000; 90_000] in
  percentile_ns (hist_of ds) P50 = 100_000 /\ percentile_ns (hist_of ds) P99 = 100_000 /\
  nth_smallest 3 ds = 20_000.
Proof.
  destruct (percentile_bounds_rank [5_000; 70_000; 7_000; 20_000; 90_000] P50) as (H1 & _);
    [decide_now|reflexivity|vm_compute; split; congruence|].
  destruct (percentile_bounds_rank [5_000; 70_000; 7_000; 20_000; 90_000] P99) as (H2 & _);
    [decide_now|reflexivity|vm_compute; split; congruence|].
  split; [rewrite H1; vm_compute; reflexivity|].
  split; [rewrite H2; vm_compute; reflexivity|vm_compute; reflexivity].
Defined.
