(* ===== verification/TimeBase.v ===== *)
(** [time_base.rs]: conversion of monotonic nanoseconds to wall-clock time by
    an offset captured at start-up.  The clocks are inputs: [timespec] is what
    [clock_gettime] fills in, and the wall clock is the nanoseconds since the
    epoch or [None] when [duration_since] fails. *)
From S2P Require Import Prelude.

Record timespec := { tv_sec : Z; tv_nsec : Z }.

Definition clock_monotonic_ns (ts : timespec) : Z :=
  saturating_add (saturating_mul (as_u64 (tv_sec ts)) 1_000_000_000) (as_u64 (tv_nsec ts)).

Definition wall_clock_ns (since_epoch : option Z) : Z := unwrap_or 0 (option_map as_u64 since_epoch).

Record TimeBase := { offset_ns : Z (* i128 *) }.

Definition capture (ts : timespec) (since_epoch : option Z) : TimeBase :=
  let ktime_ns := clock_monotonic_ns ts in
  let wall_ns := wall_clock_ns since_epoch in
  {| offset_ns := wall_ns - ktime_ns |}.

Definition to_wall_ns (self : TimeBase) (ktime_ns : Z) : Z :=
  let sum := ktime_ns + offset_ns self in
  if sum <? 0 then 0 else if u64_max <? sum then u64_max else sum.

Definition now_wall_ns (self : TimeBase) (ts : timespec) : Z := to_wall_ns self (clock_monotonic_ns ts).

Lemma clock_monotonic_range ts : is_u64 (clock_monotonic_ns ts).
Proof.
  unfold clock_monotonic_ns. auto with machine.
  apply saturating_add_range; [apply saturating_mul_range|]; auto with machine. done.
Qed.
Lemma wall_clock_range w : is_u64 (wall_clock_ns w).
Proof. unfold wall_clock_ns. destruct w; [apply as_u64_range|done]. Qed.

Lemma to_wall_range tb t : is_u64 (to_wall_ns tb t).
Proof.
  unfold to_wall_ns, is_u64, u64_max.
  repeat match goal with |- context [?p <? ?q] => destruct (Z.ltb_spec p q) end; lia.
Qed.

(** Every timestamp is on the wall clock's base.  With the offset captured
    when the clocks read [ts] and [w], the 128-bit sum never overflows; the
    moment of capture converts back to the wall clock's reading; conversion
    yields a u64, preserves order, and preserves distances except where it is
    clamped at 0 or at the largest u64. *)
Theorem wall_time_conversion ts w a b :
  is_u64 a -> is_u64 b -> a <= b ->
  let tb := capture ts w in
  - 2 ^ 127 <= a + offset_ns tb < 2 ^ 127 /\
  now_wall_ns tb ts = wall_clock_ns w /\
  is_u64 (to_wall_ns tb a) /\ to_wall_ns tb a <= to_wall_ns tb b /\
  (0 < to_wall_ns tb a -> to_wall_ns tb b < u64_max -> to_wall_ns tb b - to_wall_ns tb a = b - a) /\
  to_wall_ns tb b - to_wall_ns tb a <= b - a.
Proof.
  intros Ha Hb Hab tb. pose proof (clock_monotonic_range ts). pose proof (wall_clock_range w).
  unfold is_u64 in *. unfold now_wall_ns, to_wall_ns, tb, capture. cbn [offset_ns].
  set (k := clock_monotonic_ns ts) in *. set (x := wall_clock_ns w) in *.
  unfold u64_max. clearbody k x. clear tb ts w.
  repeat match goal with |- context [?p <? ?q] => destruct (Z.ltb_spec p q) end; lia.
Qed.
Lemma wall_time_conversion_witness :
  let tb := capture {| tv_sec := 5; tv_nsec := 250 |} (Some 1_700_000_000_000_000_000) in
  now_wall_ns tb {| tv_sec := 5; tv_nsec := 250 |} = 1_700_000_000_000_000_000 /\
  to_wall_ns tb 2_000 - to_wall_ns tb 1_000 = 1_000.
Proof.
  destruct (wall_time_conversion {| tv_sec := 5; tv_nsec := 250 |} (Some 1_700_000_000_000_000_000)
    1_000 2_000) as (_ & H1 & _ & _ & H2 & _); [done|done|done|].
  split; [exact H1|]. apply H2; reflexivity.
Defined.
