(* ===== verification/Bandwidth.v ===== *)
(** [bandwidth.rs]: the rolling window of per-cgroup counters and its delta
    queries.  The deque is a list, oldest sample first; the lookup of a
    cgroup in a sample is the [HashMap] the code collects, in which the last
    entry of an id wins. *)
From S2P Require Import Prelude Float Types Layout Pods.

Definition MAX_SAMPLES : nat := 60.

Record Sample := { s_timestamp_ns : Z; s_entries : list CgroupNetBytes }.
Record BandwidthWindow := { samples : list Sample }.
Definition BandwidthWindow_new : BandwidthWindow := {| samples := [] |}.

Definition push (timestamp_ns : Z) (entries : list CgroupNetBytes) (self : BandwidthWindow)
    : BandwidthWindow :=
  let samples := samples self in
  let samples := if (MAX_SAMPLES <=? length samples)%nat then tail samples else samples in
  {| samples := samples ++ [{| s_timestamp_ns := timestamp_ns; s_entries := entries |}] |}.

Record CgroupBandwidthDelta := {
  d_cgroup_id : Z;
  d_rx_bytes : Z;
  d_tx_bytes : Z;
  d_rx_internet_bytes : Z;
  d_tx_internet_bytes : Z;
  d_rx_packets : Z;
  d_tx_packets : Z }.

(** [window_secs == 0]: the raw counters. *)
Definition cumulative (e : CgroupNetBytes) : CgroupBandwidthDelta :=
  {| d_cgroup_id := cg_cgroup_id e; d_rx_bytes := cg_rx_bytes e; d_tx_bytes := cg_tx_bytes e;
     d_rx_internet_bytes := cg_rx_internet_bytes e; d_tx_internet_bytes := cg_tx_internet_bytes e;
     d_rx_packets := cg_rx_packets e; d_tx_packets := cg_tx_packets e |}.

Definition old_map (old : Sample) : gmap Z CgroupNetBytes :=
  foldl (fun m e => <[cg_cgroup_id e := e]> m) ∅ (s_entries old).

Definition delta_of (old : Sample) (cur : CgroupNetBytes) : CgroupBandwidthDelta :=
  let prev := unwrap_or CgroupNetBytes_zeroed (old_map old !! cg_cgroup_id cur) in
  {| d_cgroup_id := cg_cgroup_id cur;
     d_rx_bytes := saturating_sub (cg_rx_bytes cur) (cg_rx_bytes prev);
     d_tx_bytes := saturating_sub (cg_tx_bytes cur) (cg_tx_bytes prev);
     d_rx_internet_bytes := saturating_sub (cg_rx_internet_bytes cur) (cg_rx_internet_bytes prev);
     d_tx_internet_bytes := saturating_sub (cg_tx_internet_bytes cur) (cg_tx_internet_bytes prev);
     d_rx_packets := saturating_sub (cg_rx_packets cur) (cg_rx_packets prev);
     d_tx_packets := saturating_sub (cg_tx_packets cur) (cg_tx_packets prev) |}.

Definition internet_total (d : CgroupBandwidthDelta) : Z :=
  saturating_add (d_rx_internet_bytes d) (d_tx_internet_bytes d).

(** The sample a window is measured from: the latest not after the target,
    else the oldest. *)
Definition base_sample (target_ts : Z) (samples : list Sample) (latest : Sample) : Sample :=
  match List.find (fun s => s_timestamp_ns s <=? target_ts) (rev samples) with
  | Some s => s
  | None => hd latest samples
  end.

(** [window_secs * 1_000_000_000] as the release build computes it. *)
Definition window_ns (window_secs : Z) : Z := as_u64 (window_secs * 1_000_000_000).

Definition query (window_secs : Z) (self : BandwidthWindow) : list CgroupBandwidthDelta :=
  match last (samples self) with
  | None => []
  | Some latest =>
      if window_secs =? 0 then map cumulative (s_entries latest)
      else
        let target_ts := saturating_sub (s_timestamp_ns latest) (window_ns window_secs) in
        let old := base_sample target_ts (samples self) latest in
        sort_desc internet_total (map (delta_of old) (s_entries latest))
  end.

(** ** The window is the last sixty samples *)

Definition push_all (l : list (Z * list CgroupNetBytes)) (w : BandwidthWindow) : BandwidthWindow :=
  foldl (fun w x => push x.1 x.2 w) w l.
Definition sample_of (x : Z * list CgroupNetBytes) : Sample :=
  {| s_timestamp_ns := x.1; s_entries := x.2 |}.

(** The last [n] elements. *)
Definition last_n {A} (n : nat) (l : list A) : list A := drop (length l - n) l.

Lemma push_samples x w l :
  samples w = last_n MAX_SAMPLES l -> samples (push x.1 x.2 w) = last_n MAX_SAMPLES (l ++ [sample_of x]).
Proof.
  intros Hw. unfold push. cbn [samples]. rewrite Hw. unfold last_n.
  rewrite length_drop, length_app. cbn [length].
  destruct (Nat.leb_spec MAX_SAMPLES (length l - (length l - MAX_SAMPLES))) as [Hle|Hgt].
  - replace (length l + 1 - MAX_SAMPLES)%nat with (S (length l - MAX_SAMPLES)) by lia.
    rewrite drop_app_le by (unfold MAX_SAMPLES in *; lia). f_equal.
    destruct (drop (length l - MAX_SAMPLES) l) as [|y t] eqn:Hd.
    + apply (f_equal length) in Hd. rewrite length_drop in Hd. unfold MAX_SAMPLES in *. cbn in Hd. lia.
    + replace (S (length l - MAX_SAMPLES)) with (length l - MAX_SAMPLES + 1)%nat by lia.
      rewrite <- drop_drop, Hd. done.
  - replace (length l - MAX_SAMPLES)%nat with 0%nat by lia.
    by replace (length l + 1 - MAX_SAMPLES)%nat with 0%nat by lia.
Qed.

Lemma push_all_samples l : samples (push_all l BandwidthWindow_new) = last_n MAX_SAMPLES (map sample_of l).
Proof.
  induction l as [|x l IH] using rev_ind; [done|].
  unfold push_all. rewrite foldl_app, map_app. by apply push_samples.
Qed.

(** ** What a query reports *)

Lemma old_map_lookup old id :
  old_map old !! id = last (List.filter (fun e => cg_cgroup_id e =? id) (s_entries old)).
Proof.
  unfold old_map. destruct old as [ts es]. cbn [s_entries].
  induction es as [|e es IH] using rev_ind; [done|].
  rewrite foldl_app, List.filter_app. cbn [foldl List.filter].
  destruct (Z.eqb_spec (cg_cgroup_id e) id) as [<-|Hne].
  - by rewrite lookup_insert_eq, last_snoc.
  - by rewrite lookup_insert_ne, app_nil_r.
Qed.

Lemma find_rev_spec (P : Sample -> bool) l s :
  List.find P (rev l) = Some s ->
  exists l1 l2, l = l1 ++ s :: l2 /\ P s = true /\ Forall (fun x => P x = false) l2.
Proof.
  induction l as [|x l IH] using rev_ind; [done|]. rewrite rev_app_distr. cbn.
  destruct (P x) eqn:Hx.
  - intros [= <-]. exists l, []. done.
  - intros Hf. destruct (IH Hf) as (l1 & l2 & -> & HP & Hl2). exists l1, (l2 ++ [x]).
    split; [by rewrite <- (assoc_L (++))|]. split; [done|]. by apply Forall_app; split; [|constructor].
Qed.
Lemma find_rev_none (P : Sample -> bool) l :
  List.find P (rev l) = None -> Forall (fun x => P x = false) l.
Proof.
  intros Hf. apply Forall_forall. intros x Hx. apply (find_none P (rev l)); [done|].
  apply in_rev. rewrite rev_involutive. by apply list_elem_of_In.
Qed.

(** [base] is the sample of [l] to measure from: the newest not after
    [target], or the oldest when all are after it. *)
Definition is_base (target : Z) (l : list Sample) (base : Sample) : Prop :=
  exists l1 l2, l = l1 ++ base :: l2 /\
    ((s_timestamp_ns base <= target /\ Forall (fun s => target < s_timestamp_ns s) l2) \/
     (l1 = [] /\ Forall (fun s => target < s_timestamp_ns s) l)).

Lemma base_sample_spec target l latest :
  last l = Some latest -> is_base target l (base_sample target l latest).
Proof.
  intros Hlast. unfold base_sample.
  destruct (List.find _ (rev l)) as [s|] eqn:Hf.
  - destruct (find_rev_spec _ _ _ Hf) as (l1 & l2 & -> & HP & Hl2). exists l1, l2.
    split; [done|]. left. split; [lia|]. eapply Forall_impl; [exact Hl2|]. cbn. lia.
  - apply find_rev_none in Hf. destruct l as [|x l]; [done|]. exists [], l. split; [done|].
    right. split; [done|]. eapply Forall_impl; [exact Hf|]. cbn. lia.
Qed.

(** Counters of a cgroup that only grew. *)
Definition grew (prev cur : CgroupNetBytes) : Prop :=
  cg_rx_bytes prev <= cg_rx_bytes cur /\ cg_tx_bytes prev <= cg_tx_bytes cur /\
  cg_rx_internet_bytes prev <= cg_rx_internet_bytes cur /\
  cg_tx_internet_bytes prev <= cg_tx_internet_bytes cur /\
  cg_rx_packets prev <= cg_rx_packets cur /\ cg_tx_packets prev <= cg_tx_packets cur.

Lemma unique_lookup old prev :
  NoDup (map cg_cgroup_id (s_entries old)) -> prev ∈ s_entries old ->
  old_map old !! cg_cgroup_id prev = Some prev.
Proof.
  intros Hnd Hin. rewrite old_map_lookup. destruct old as [ts es]. cbn [s_entries] in *.
  assert (List.filter (fun e => cg_cgroup_id e =? cg_cgroup_id prev) es = [prev]) as ->; [|done].
  induction es as [|e es IH]; [inversion Hin|]. cbn [map] in Hnd.
  apply NoDup_cons in Hnd as [Hni Hnd]. cbn [List.filter].
  apply elem_of_cons in Hin as [->|Hin].
  - rewrite Z.eqb_refl. f_equal.
    assert (forall x, x ∈ es -> cg_cgroup_id x <> cg_cgroup_id e) as Hx
      by (intros x Hx E; apply Hni; rewrite <- E; apply list_elem_of_fmap; eauto).
    clear -Hx. induction es as [|y es IH]; [done|]. cbn.
    rewrite (proj2 (Z.eqb_neq _ _)) by (apply Hx; left). apply IH. intros. apply Hx. by right.
  - rewrite (proj2 (Z.eqb_neq _ _)); [by apply IH|].
    intros E. apply Hni. rewrite E. apply list_elem_of_fmap. eauto.
Qed.

(** A cgroup the older sample does not hold. *)
Lemma delta_absent base cur :
  Forall (fun e => cg_cgroup_id e <> cg_cgroup_id cur) (s_entries base) -> pod_wf cur ->
  delta_of base cur = cumulative cur.
Proof.
  intros Hno Hwf. unfold delta_of. rewrite old_map_lookup.
  assert (List.filter (fun e => cg_cgroup_id e =? cg_cgroup_id cur) (s_entries base) = []) as ->.
  { induction Hno as [|e es He _ IH]; [done|]. cbn. by rewrite (proj2 (Z.eqb_neq _ _) He). }
  cbn [last unwrap_or default]. unfold cumulative, saturating_sub. destruct cur.
  pod_unfold. destruct_and?. unfold int_in_range in *. f_equal; cbn; lia.
Qed.

(** C33: a window query measures from the right sample, exactly.  After any
    ticks the window holds the last sixty.  For a window of 1 to 3600 seconds
    (the API's cap) the answer has one entry per cgroup of the newest sample,
    in descending order of internet bytes, each measured from the newest
    retained sample that is at least as old as the window, or from the oldest;
    for a cgroup present in both samples, with ids unique in each, whose
    counters only grew, the entry is the exact difference of its counters; for
    one that the older sample does not hold it is the counters since the
    cgroup was first seen. *)
Theorem window_query_exact ticks t es w :
  1 <= w <= 3600 ->
  let win := push_all (ticks ++ [(t, es)]) BandwidthWindow_new in
  let kept := last_n MAX_SAMPLES (map sample_of (ticks ++ [(t, es)])) in
  samples win = kept /\
  exists base, is_base (saturating_sub t (w * 1_000_000_000)) kept base /\
    query w win ≡ₚ map (delta_of base) es /\
    StronglySorted (desc internet_total) (query w win) /\
    (forall prev cur, NoDup (map cg_cgroup_id (s_entries base)) -> prev ∈ s_entries base ->
      cur ∈ es -> cg_cgroup_id prev = cg_cgroup_id cur -> grew prev cur ->
      delta_of base cur ∈ query w win /\
      delta_of base cur =
        {| d_cgroup_id := cg_cgroup_id cur;
           d_rx_bytes := cg_rx_bytes cur - cg_rx_bytes prev;
           d_tx_bytes := cg_tx_bytes cur - cg_tx_bytes prev;
           d_rx_internet_bytes := cg_rx_internet_bytes cur - cg_rx_internet_bytes prev;
           d_tx_internet_bytes := cg_tx_internet_bytes cur - cg_tx_internet_bytes prev;
           d_rx_packets := cg_rx_packets cur - cg_rx_packets prev;
           d_tx_packets := cg_tx_packets cur - cg_tx_packets prev |}) /\
    forall cur, cur ∈ es -> pod_wf cur -> Forall (fun e => cg_cgroup_id e <> cg_cgroup_id cur) (s_entries base) ->
      delta_of base cur ∈ query w win /\
      delta_of base cur =
        {| d_cgroup_id := cg_cgroup_id cur; d_rx_bytes := cg_rx_bytes cur; d_tx_bytes := cg_tx_bytes cur;
           d_rx_internet_bytes := cg_rx_internet_bytes cur; d_tx_internet_bytes := cg_tx_internet_bytes cur;
           d_rx_packets := cg_rx_packets cur; d_tx_packets := cg_tx_packets cur |}.
Proof.
  intros Hw win kept. assert (samples win = kept) as Hs by apply push_all_samples.
  split; [done|].
  assert (last kept = Some {| s_timestamp_ns := t; s_entries := es |}) as Hlast.
  { unfold kept, last_n. rewrite map_app, length_app. cbn [map length].
    rewrite drop_app_le by (unfold MAX_SAMPLES; lia). by rewrite last_snoc. }
  assert (query w win = sort_desc internet_total (map (delta_of (base_sample
    (saturating_sub t (w * 1_000_000_000)) kept {| s_timestamp_ns := t; s_entries := es |})) es)) as Hq.
  { unfold query. rewrite Hs, Hlast, (proj2 (Z.eqb_neq _ _)) by lia. cbn [s_timestamp_ns s_entries].
    unfold window_ns. by rewrite as_u64_small by (unfold is_u64; lia). }
  set (base := base_sample _ kept _) in Hq. exists base.
  split; [by apply base_sample_spec|]. rewrite Hq. split; [apply sort_desc_perm|].
  assert (forall cur, cur ∈ es -> delta_of base cur ∈ sort_desc internet_total (map (delta_of base) es)) as Hin
    by (intros cur Hcur; rewrite sort_desc_perm; apply list_elem_of_fmap; eauto).
  split; [apply sort_desc_sorted|split].
  - intros prev cur Hnd Hprev Hcur Hid Hg. split; [by apply Hin|]. unfold delta_of. rewrite <- Hid, (unique_lookup _ _ Hnd Hprev). cbn [unwrap_or default].
    unfold grew in Hg. unfold saturating_sub. f_equal; lia.
  - intros cur Hcur Hwf Hno. split; [by apply Hin|]. by apply delta_absent.
Qed.
Lemma window_query_exact_witness :
  let e id rx := CgroupNetBytes_zeroed <| cg_cgroup_id := id |> <| cg_rx_bytes := rx |>
                   <| cg_rx_internet_bytes := rx |> in
  let win := push_all ([(1_000_000_000, [e 7 100; e 9 50]); (2_000_000_000, [e 7 150; e 9 90])]
                       ++ [(3_000_000_000, [e 7 160; e 9 190; e 8 40])]) BandwidthWindow_new in
  map (fun d => (d_cgroup_id d, d_rx_bytes d)) (query 1 win) = [(9, 100); (8, 40); (7, 10)] /\
  StronglySorted (desc internet_total) (query 1 win).
Proof.
  intros e win. split; [vm_compute; reflexivity|].
  destruct (window_query_exact [(1_000_000_000, [e 7 100; e 9 50]); (2_000_000_000, [e 7 150; e 9 90])]
    3_000_000_000 [e 7 160; e 9 190; e 8 40] 1) as (_ & base & _ & _ & H & _); [lia|exact H].
Defined.

(** A defect.  A cgroup that the base sample does not hold (it was not in
    the top 128 then) is reported with its counters since it was first seen,
    however small its traffic in the window. *)
Theorem absent_cgroup_reports_lifetime base cur :
  Forall (fun e => cg_cgroup_id e <> cg_cgroup_id cur) (s_entries base) -> pod_wf cur ->
  delta_of base cur = cumulative cur.
Proof. apply delta_absent. Qed.
Lemma absent_cgroup_reports_lifetime_witness :
  let cur := CgroupNetBytes_zeroed <| cg_cgroup_id := 7 |> <| cg_rx_bytes := 1000 |> in
  delta_of {| s_timestamp_ns := 1; s_entries := [] |} cur = cumulative cur.
Proof.
  intros cur. apply absent_cgroup_reports_lifetime; [constructor|].
  unfold cur. solve_pod; split; vm_compute; congruence.
Defined.
