(* ===== verification/Aggregator.v ===== *)
(** [aggregator.rs]: the once-a-second merge of the BPF maps into the shared
    snapshot, the drop-counter watch and the feed of the bandwidth window.

    What reading the maps returned in one tick is an input ([PolledMaps]): the
    per-CPU values of slot 0, or [None] when the read failed, and for a hash
    map the results of its iterator, in its order.  [collect] reads the
    scheduler histogram twice, so it appears twice. *)
From S2P Require Import Prelude Text Float Types Layout Pods Bpf Stats Scheduler Kernel Metrics TimeBase Bandwidth.

Record PolledMaps := {
  pm_drops : option (list EventDropCounts);
  pm_sched : option (list SchedHistogram);
  pm_tcp_state : option (list TcpStateSnapshot);
  pm_net_iface : option (list NetIfaceStats);
  pm_memory : option (list MemorySnapshot);
  pm_block : list (option BlockStats);
  pm_process : list (option ProcessStats);
  pm_cpu : option (list CpuStats);
  pm_sched_again : option (list SchedHistogram);
  pm_security : option (list SecurityEventCounts);
  pm_net_cgroup : list (option CgroupNetBytes) }.

Definition TOP_CGROUP_CAP : nat := 128.
Definition TOP_PROCESS_CAP : nat := 256.

Record BpfSample := {
  bs_timestamp_ns : Z;
  bs_sched : SchedSnapshot;
  bs_tcp : TcpStateSnapshot;
  bs_net_ifaces : list NetIfaceStats;
  bs_block : list BlockStats;
  bs_top_processes : list ProcessStats;
  bs_cpu_cores : list CpuStats;
  bs_security : SecurityEventCounts;
  bs_sched_per_cpu : list SchedSnapshot;
  bs_cgroup_net_top : list CgroupNetBytes;
  bs_page_faults_minor : Z;
  bs_page_faults_major : Z;
  bs_oom_kills_total : Z }.

(** ** Merging per-CPU values *)

Definition merge_drops (acc s : EventDropCounts) : EventDropCounts :=
  acc <| dc_process := wrapping_add (dc_process acc) (dc_process s) |>
      <| dc_security := wrapping_add (dc_security acc) (dc_security s) |>
      <| dc_network := wrapping_add (dc_network acc) (dc_network s) |>.

Definition merge_sched (acc s : SchedHistogram) : SchedHistogram :=
  let acc := acc <| sh_buckets :=
    map (fun i => wrapping_add (nth i (sh_buckets acc) 0) (nth i (sh_buckets s) 0))
      (seq 0 SCHED_HIST_BUCKETS) |> in
  let acc := acc <| sh_total_count := wrapping_add (sh_total_count acc) (sh_total_count s) |>
    <| sh_total_latency_ns := wrapping_add (sh_total_latency_ns acc) (sh_total_latency_ns s) |> in
  if sh_max_latency_ns acc <? sh_max_latency_ns s
  then acc <| sh_max_latency_ns := sh_max_latency_ns s |> else acc.

Definition merge_tcp (acc s : TcpStateSnapshot) : TcpStateSnapshot :=
  acc <| tcp_established := wrapping_add (tcp_established acc) (tcp_established s) |>
      <| tcp_syn_sent := wrapping_add (tcp_syn_sent acc) (tcp_syn_sent s) |>
      <| tcp_syn_recv := wrapping_add (tcp_syn_recv acc) (tcp_syn_recv s) |>
      <| tcp_fin_wait1 := wrapping_add (tcp_fin_wait1 acc) (tcp_fin_wait1 s) |>
      <| tcp_fin_wait2 := wrapping_add (tcp_fin_wait2 acc) (tcp_fin_wait2 s) |>
      <| tcp_time_wait := wrapping_add (tcp_time_wait acc) (tcp_time_wait s) |>
      <| tcp_close_wait := wrapping_add (tcp_close_wait acc) (tcp_close_wait s) |>
      <| tcp_listen := wrapping_add (tcp_listen acc) (tcp_listen s) |>
      <| tcp_listen_overflows := wrapping_add (tcp_listen_overflows acc) (tcp_listen_overflows s) |>
      <| tcp_retransmits := wrapping_add (tcp_retransmits acc) (tcp_retransmits s) |>
      <| tcp_resets_in := wrapping_add (tcp_resets_in acc) (tcp_resets_in s) |>
      <| tcp_resets_out := wrapping_add (tcp_resets_out acc) (tcp_resets_out s) |>.

Definition merge_iface (acc s : NetIfaceStats) : NetIfaceStats :=
  acc <| nif_iface_idx := nif_iface_idx s |>
      <| nif_rx_bytes := wrapping_add (nif_rx_bytes acc) (nif_rx_bytes s) |>
      <| nif_tx_bytes := wrapping_add (nif_tx_bytes acc) (nif_tx_bytes s) |>
      <| nif_rx_packets := wrapping_add (nif_rx_packets acc) (nif_rx_packets s) |>
      <| nif_tx_packets := wrapping_add (nif_tx_packets acc) (nif_tx_packets s) |>
      <| nif_rx_drops := wrapping_add (nif_rx_drops acc) (nif_rx_drops s) |>
      <| nif_tx_drops := wrapping_add (nif_tx_drops acc) (nif_tx_drops s) |>
      <| nif_rx_errors := wrapping_add (nif_rx_errors acc) (nif_rx_errors s) |>
      <| nif_tx_errors := wrapping_add (nif_tx_errors acc) (nif_tx_errors s) |>.

Definition merge_security (acc s : SecurityEventCounts) : SecurityEventCounts :=
  acc <| sec_ptrace := wrapping_add (sec_ptrace acc) (sec_ptrace s) |>
      <| sec_memfd_create := wrapping_add (sec_memfd_create acc) (sec_memfd_create s) |>
      <| sec_prctl := wrapping_add (sec_prctl acc) (sec_prctl s) |>
      <| sec_setuid := wrapping_add (sec_setuid acc) (sec_setuid s) |>
      <| sec_exec_anomaly := wrapping_add (sec_exec_anomaly acc) (sec_exec_anomaly s) |>
      <| sec_capability_use := wrapping_add (sec_capability_use acc) (sec_capability_use s) |>.

Definition merge_mem (acc s : MemorySnapshot) : MemorySnapshot :=
  acc <| mem_page_faults_minor := wrapping_add (mem_page_faults_minor acc) (mem_page_faults_minor s) |>
      <| mem_page_faults_major := wrapping_add (mem_page_faults_major acc) (mem_page_faults_major s) |>
      <| mem_oom_kills_total := wrapping_add (mem_oom_kills_total acc) (mem_oom_kills_total s) |>.

Definition sum_percpu {P T} (zero : T) (merge : T -> P -> T) (values : option (list P))
    : result T rstring :=
  match values with
  | None => Err (lit "PerCpuArray::get(slot 0)")
  | Some vs => Ok (foldl merge zero vs)
  end.

Definition read_drops (map : option (list EventDropCounts)) : result EventDropCounts rstring :=
  context (lit "event drop counts") (sum_percpu EventDropCounts_zeroed merge_drops map).

(** ** Collecting *)

Definition snapshot_of (h : SchedHistogram) : SchedSnapshot :=
  {| p50_ns := percentile_ns h P50; p95_ns := percentile_ns h P95; p99_ns := percentile_ns h P99;
     histogram := h |}.

Definition collect_per_cpu_sched (map : option (list SchedHistogram))
    : result (list SchedSnapshot) rstring :=
  match map with
  | None => Err (lit "PerCpuArray::get(slot 0) for SCHED_HISTOGRAM")
  | Some values => Ok (List.map snapshot_of values)
  end.

Definition collect_per_cpu_cores (map : option (list CpuStats)) : result (list CpuStats) rstring :=
  match map with
  | None => Err (lit "PerCpuArray::get(slot 0) for CPU_STATS")
  | Some values => Ok (imap (fun idx v => v <| cpu_cpu_id := as_u32 (Z.of_nat idx) |>) values)
  end.

(** The loop over a hash map's iterator: the values, or the first error. *)
Fixpoint collect_entries {V} (err : rstring) (entries : list (option V)) : result (list V) rstring :=
  match entries with
  | [] => Ok []
  | None :: _ => Err err
  | Some v :: entries' => vs <-? collect_entries err entries' ;; Ok (v :: vs)
  end.

Definition cgroup_total (c : CgroupNetBytes) : Z := saturating_add (cg_rx_bytes c) (cg_tx_bytes c).

Definition collect_cgroup_net (map : list (option CgroupNetBytes)) : result (list CgroupNetBytes) rstring :=
  out <-? collect_entries (lit "NET_CGROUP_STATS iter") map ;;
  Ok (take TOP_CGROUP_CAP (sort_desc cgroup_total out)).

Definition collect_top_processes (map : list (option ProcessStats)) : result (list ProcessStats) rstring :=
  out <-? collect_entries (lit "PROCESS_STATS iter") map ;;
  Ok (take TOP_PROCESS_CAP (sort_desc ps_cpu_user_ns out)).

Definition collect_block (map : list (option BlockStats)) : result (list BlockStats) rstring :=
  collect_entries (lit "BLOCK_STATS iter") map.

Definition collect (maps : PolledMaps) (time_base : TimeBase) (now : timespec) : result BpfSample rstring :=
  sched_hist <-? context (lit "sched histogram") (sum_percpu SchedHistogram_zeroed merge_sched (pm_sched maps)) ;;
  tcp <-? context (lit "tcp state") (sum_percpu TcpStateSnapshot_zeroed merge_tcp (pm_tcp_state maps)) ;;
  net_iface <-? context (lit "net iface stats") (sum_percpu NetIfaceStats_zeroed merge_iface (pm_net_iface maps)) ;;
  memory <-? context (lit "memory snapshot") (sum_percpu MemorySnapshot_zeroed merge_mem (pm_memory maps)) ;;
  block <-? context (lit "block stats") (collect_block (pm_block maps)) ;;
  top_processes <-? context (lit "process stats") (collect_top_processes (pm_process maps)) ;;
  cpu_cores <-? context (lit "cpu cores") (collect_per_cpu_cores (pm_cpu maps)) ;;
  sched_per_cpu <-? context (lit "per-cpu sched") (collect_per_cpu_sched (pm_sched_again maps)) ;;
  security <-? context (lit "security counts") (sum_percpu SecurityEventCounts_zeroed merge_security (pm_security maps)) ;;
  cgroup_net_top <-? context (lit "cgroup net stats") (collect_cgroup_net (pm_net_cgroup maps)) ;;
  Ok {| bs_timestamp_ns := now_wall_ns time_base now;
        bs_sched := snapshot_of sched_hist;
        bs_tcp := tcp;
        bs_net_ifaces := [net_iface];
        bs_block := block;
        bs_top_processes := top_processes;
        bs_cpu_cores := cpu_cores;
        bs_security := security;
        bs_sched_per_cpu := sched_per_cpu;
        bs_cgroup_net_top := cgroup_net_top;
        bs_page_faults_minor := mem_page_faults_minor memory;
        bs_page_faults_major := mem_page_faults_major memory;
        bs_oom_kills_total := mem_oom_kills_total memory |}.

(** ** The loop *)

(** The partial merge: the BPF-owned fields of the shared snapshot. *)
Definition apply_sample (sample : BpfSample) (snap : MetricSnapshot) : MetricSnapshot :=
  snap <| timestamp_ns := bs_timestamp_ns sample |> <| sched := bs_sched sample |>
       <| tcp := bs_tcp sample |> <| net_ifaces := bs_net_ifaces sample |>
       <| block := bs_block sample |> <| top_processes := bs_top_processes sample |>
       <| cpu_cores := bs_cpu_cores sample |> <| security := bs_security sample |>
       <| sched_per_cpu := bs_sched_per_cpu sample |> <| cgroup_net_top := bs_cgroup_net_top sample |>
       <| memory ::= fun m => m <| mem_page_faults_minor := bs_page_faults_minor sample |>
                                <| mem_page_faults_major := bs_page_faults_major sample |>
                                <| mem_oom_kills_total := bs_oom_kills_total sample |> |>.

Inductive agg_log :=
  | EventsDropped (process security network : Z)   (* warn! *)
  | DropsReadFailed (e : rstring)                  (* debug! *)
  | SnapshotRefreshed                              (* debug! *)
  | CollectFailed (e : rstring).                   (* warn! *)

Record agg_state := {
  ag_prev_drops : EventDropCounts;
  ag_shared : MetricSnapshot;
  ag_bw_window : BandwidthWindow }.
#[export] Instance eta_agg_state : Eta agg_state := fun r =>
  Build_agg_state (ag_prev_drops r) (ag_shared r) (ag_bw_window r).

(** The drop totals read, against the previous ones. *)
Definition drop_watch (map : option (list EventDropCounts)) (prev : EventDropCounts)
    : list agg_log * EventDropCounts :=
  match read_drops map with
  | Ok d =>
      let dp := saturating_sub (dc_process d) (dc_process prev) in
      let ds := saturating_sub (dc_security d) (dc_security prev) in
      let dn := saturating_sub (dc_network d) (dc_network prev) in
      (if negb (Z.lor (Z.lor dp ds) dn =? 0) then [EventsDropped dp ds dn] else [], d)
  | Err e => ([DropsReadFailed e], prev)
  end.
Definition watch_drops (map : option (list EventDropCounts)) (st : agg_state) : list agg_log * agg_state :=
  let '(l, d) := drop_watch map (ag_prev_drops st) in (l, st <| ag_prev_drops := d |>).

Definition refresh (maps : PolledMaps) (time_base : TimeBase) (now : timespec) (st : agg_state)
    : list agg_log * agg_state :=
  match collect maps time_base now with
  | Ok sample =>
      ([SnapshotRefreshed],
       st <| ag_bw_window ::= push (bs_timestamp_ns sample) (bs_cgroup_net_top sample) |>
          <| ag_shared ::= apply_sample sample |>)
  | Err e => ([CollectFailed e], st)
  end.

(** One turn of the loop of [start]. *)
Definition tick (maps : PolledMaps) (time_base : TimeBase) (now : timespec) (st : agg_state)
    : list agg_log * agg_state :=
  let '(l1, st) := watch_drops (pm_drops maps) st in
  let '(l2, st) := refresh maps time_base now st in
  (l1 ++ l2, st).

(** ** The machine-wide histogram *)

Lemma as_u64_add a b : wrapping_add (as_u64 a) (as_u64 b) = as_u64 (a + b).
Proof. unfold wrapping_add, as_u64. by rewrite <- Zplus_mod. Qed.

Lemma count_bucket_app i a b : count_bucket i (a ++ b) = (count_bucket i a + count_bucket i b)%nat.
Proof. unfold count_bucket. by rewrite filter_app, length_app. Qed.

Lemma nth_map_seq (f : nat -> Z) n i : (i < n)%nat -> nth i (map f (seq 0 n)) 0 = f i.
Proof.
  intros Hi. apply nth_lookup_Some. by rewrite lookup_map_seq, decide_True.
Qed.

(** Merging histograms is pooling their waits. *)
Lemma merge_sched_hist a b :
  merge_sched (hist_of a) (hist_of b) = hist_of (a ++ b).
Proof.
  assert (map (fun i => wrapping_add (nth i (sh_buckets (hist_of a)) 0) (nth i (sh_buckets (hist_of b)) 0))
    (seq 0 SCHED_HIST_BUCKETS) = sh_buckets (hist_of (a ++ b))) as Hb.
  { cbn [sh_buckets hist_of]. apply map_ext_in. intros i [_ Hi]%in_seq.
    rewrite !nth_map_seq by lia. by rewrite as_u64_add, count_bucket_app, Nat2Z.inj_add. }
  assert (foldr Z.max 0 (a ++ b) = Z.max (foldr Z.max 0 a) (foldr Z.max 0 b)) as Hm.
  { rewrite foldr_app, foldr_max_init by apply foldr_max_nonneg. done. }
  unfold merge_sched. rewrite Hb. cbn [sh_max_latency_ns sh_total_count sh_total_latency_ns upd hist_of].
  rewrite !as_u64_add, <- Nat2Z.inj_add, <- length_app, <- zsum_app.
  destruct (Z.ltb_spec (foldr Z.max 0 a) (foldr Z.max 0 b)); cbn [upd];
    unfold hist_of; f_equal; rewrite Hm; lia.
Qed.

Lemma merge_all_hist dss acc :
  foldl merge_sched (hist_of acc) (map hist_of dss) = hist_of (acc ++ concat dss).
Proof.
  revert acc. induction dss as [|ds dss IH]; intros acc; cbn [map foldl concat]; [by rewrite app_nil_r|].
  by rewrite merge_sched_hist, IH, <- (assoc_L (++)).
Qed.

Lemma merge_mem_sums mems :
  let m := foldl merge_mem MemorySnapshot_zeroed mems in
  mem_page_faults_minor m = as_u64 (zsum (map mem_page_faults_minor mems)) /\
  mem_oom_kills_total m = as_u64 (zsum (map mem_oom_kills_total mems)).
Proof.
  induction mems as [|x mems [IH1 IH2]] using rev_ind; [done|]. cbv zeta.
  rewrite foldl_app, !map_app, !zsum_app. cbn [map foldl]. rewrite !zsum_singleton.
  unfold merge_mem at 1 3. cbn [upd mem_page_faults_minor mem_oom_kills_total].
  rewrite IH1, IH2. unfold wrapping_add, as_u64. by rewrite !Zplus_mod_idemp_l.
Qed.

(** C16: the published latency figures are those of all waits.  When every CPU's
    slot is the histogram of the waits recorded on it, a successful collection
    publishes, machine-wide, the histogram and the percentiles of the waits of
    all CPUs together, and per CPU those of its own; the page-fault and OOM
    counts are the sums over the CPUs. *)
Theorem published_latency_pools_cpus maps tb now dss mems s :
  pm_sched maps = Some (map hist_of dss) -> pm_sched_again maps = Some (map hist_of dss) ->
  pm_memory maps = Some mems -> collect maps tb now = Ok s ->
  bs_sched s = snapshot_of (hist_of (concat dss)) /\
  bs_sched_per_cpu s = map (fun ds => snapshot_of (hist_of ds)) dss /\
  bs_page_faults_minor s = as_u64 (zsum (map mem_page_faults_minor mems)) /\
  bs_oom_kills_total s = as_u64 (zsum (map mem_oom_kills_total mems)).
Proof.
  intros H1 H2 H3. unfold collect. rewrite H1, H2, H3.
  cbn [sum_percpu collect_per_cpu_sched context result_bind].
  change SchedHistogram_zeroed with (hist_of []). rewrite merge_all_hist. cbn [app].
  destruct (merge_mem_sums mems) as [Hm1 Hm2].
  repeat (destruct (context _ _); cbn [result_bind]; [|done]).
  intros [= <-]. cbn [bs_sched bs_sched_per_cpu bs_page_faults_minor bs_oom_kills_total].
  by rewrite Hm1, Hm2, map_map.
Qed.
Lemma published_latency_pools_cpus_witness :
  let dss := [[5_000; 70_000]; [2_000_000]] in
  let maps := {| pm_drops := None; pm_sched := Some (map hist_of dss); pm_tcp_state := Some [];
    pm_net_iface := Some []; pm_memory := Some [MemorySnapshot_zeroed <| mem_oom_kills_total := 3 |>];
    pm_block := []; pm_process := []; pm_cpu := Some []; pm_sched_again := Some (map hist_of dss);
    pm_security := Some []; pm_net_cgroup := [] |} in
  exists s, collect maps {| offset_ns := 0 |} {| tv_sec := 1; tv_nsec := 0 |} = Ok s /\
    bs_sched s = snapshot_of (hist_of [5_000; 70_000; 2_000_000]) /\ bs_oom_kills_total s = 3.
Proof.
  intros dss maps. eexists. split; [reflexivity|].
  edestruct (published_latency_pools_cpus maps {| offset_ns := 0 |} {| tv_sec := 1; tv_nsec := 0 |} dss)
    as (Hs & _ & _ & Ho); [reflexivity..|]. split; [exact Hs|exact Ho].
Defined.

(** ** The top lists *)

Lemma collect_entries_ok {V} err (vs : list V) : collect_entries err (map Some vs) = Ok vs.
Proof. induction vs as [|v vs IH]; cbn [map collect_entries]; [done|]. by rewrite IH. Qed.

Lemma collect_entries_err {V} err (l : list (option V)) :
  None ∈ l -> collect_entries err l = Err err.
Proof.
  induction l as [|[v|] l IH]; intros Hin; [inversion Hin| |done]. cbn.
  rewrite IH; [done|]. by apply elem_of_cons in Hin as [?|?].
Qed.

(** The published processes are the busiest of the map.  When the iterator
    yields the entries of PROCESS_STATS of a reachable state, in any order, the
    collection succeeds with at most 256 of them, each the entry of its own
    pid, no pid twice, in descending order of CPU time, and no process left out
    has used more CPU time than one published; one failing read of the
    iterator makes the whole collection fail. *)
Theorem top_processes_of_map n k entries :
  reachable n k -> entries ≡ₚ map Some (map_to_list (PROCESS_STATS k)).*2 ->
  exists l, collect_top_processes entries = Ok l /\
    length l = (TOP_PROCESS_CAP `min` size (PROCESS_STATS k))%nat /\
    NoDup (map ps_pid l) /\ StronglySorted (desc ps_cpu_user_ns) l /\
    (forall p, p ∈ l -> PROCESS_STATS k !! ps_pid p = Some p) /\
    (forall pid p q, PROCESS_STATS k !! pid = Some p -> p ∉ l -> q ∈ l ->
       ps_cpu_user_ns p <= ps_cpu_user_ns q) /\
    collect_top_processes (None :: entries) = Err (lit "PROCESS_STATS iter").
Proof.
  intros Hk Hp. apply reachable_inv in Hk.
  assert (exists vs, entries = map Some vs /\ vs ≡ₚ (map_to_list (PROCESS_STATS k)).*2) as (vs & -> & Hvs).
  { apply Permutation_map_inv in Hp as (vs & -> & Hvs). eexists. split; [done|]. by symmetry. }
  assert (forall p, p ∈ vs -> PROCESS_STATS k !! ps_pid p = Some p) as Hin.
  { intros p Hv. rewrite Hvs in Hv. apply list_elem_of_fmap in Hv as ([pid p'] & -> & Hpid).
    apply elem_of_map_to_list in Hpid. cbn.
    by destruct (table_lookup _ _ _ _ _ (inv_process _ _ Hk) Hpid) as (_ & -> & _). }
  unfold collect_top_processes. rewrite collect_entries_ok. cbn [result_bind].
  set (s := sort_desc ps_cpu_user_ns vs). exists (take TOP_PROCESS_CAP s).
  assert (s ≡ₚ vs) as Hs by apply sort_desc_perm.
  assert (NoDup (map ps_pid s)) as Hnd.
  { rewrite Hs, Hvs. change (NoDup (ps_pid <$> (map_to_list (PROCESS_STATS k)).*2)).
    assert (ps_pid <$> (map_to_list (PROCESS_STATS k)).*2 = (map_to_list (PROCESS_STATS k)).*1) as ->;
      [|apply NoDup_fst_map_to_list].
    rewrite <- list_fmap_compose. apply list_fmap_ext. intros i [pid p] Hi.
    apply list_elem_of_lookup_2, elem_of_map_to_list in Hi. cbn.
    by destruct (table_lookup _ _ _ _ _ (inv_process _ _ Hk) Hi) as (_ & ? & _). }
  split; [done|]. split.
  { rewrite length_take, Hs, Hvs, length_fmap. by rewrite length_map_to_list. }
  rewrite <- (take_drop TOP_PROCESS_CAP s), map_app in Hnd.
  split; [by apply NoDup_app in Hnd as [? _]|].
  pose proof (sort_desc_sorted ps_cpu_user_ns vs) as Hss. fold s in Hss. split.
  { rewrite <- (take_drop TOP_PROCESS_CAP s) in Hss. by apply StronglySorted_app in Hss as (? & ? & ?). }
  split; [|split].
  - intros p Hpl. apply Hin. rewrite <- Hs. apply elem_of_take in Hpl as (i & Hi & _).
    by eapply list_elem_of_lookup_2.
  - intros pid p q Hpk Hpn Hq. apply (top_n_dominates ps_cpu_user_ns TOP_PROCESS_CAP vs); [done|].
    assert (p ∈ s) as Hps.
    { rewrite Hs, Hvs. apply list_elem_of_fmap. exists (pid, p). split; [done|]. by apply elem_of_map_to_list. }
    rewrite <- (take_drop TOP_PROCESS_CAP s) in Hps. apply elem_of_app in Hps as [?|?]; done.
  - done.
Qed.
Lemma top_processes_of_map_witness :
  let k := (fire (H_vfs_read (Some 512)) (ideal_ctx 0 10 7 7 []) (kernel_init 1)).2 in
  let entries := map Some (map_to_list (PROCESS_STATS k)).*2 in
  exists l, collect_top_processes entries = Ok l /\ length l = 1%nat /\ NoDup (map ps_pid l).
Proof.
  intros k entries.
  destruct (top_processes_of_map 1 k entries) as (l & H1 & H2 & H3 & _).
  - apply reachable_fire; [apply ideal_ctx_ok; decide_now|decide_now].
  - reflexivity.
  - exists l. split; [exact H1|]. split; [|exact H3]. rewrite H2. vm_compute. reflexivity.
Defined.

(** ** Drop accounting *)

(** What the warnings of some ticks add up to. *)
Definition dropped_reported (f : agg_log -> Z) (logs : list agg_log) : Z := zsum (map f logs).
Definition log_process (l : agg_log) : Z := match l with EventsDropped p _ _ => p | _ => 0 end.
Definition log_security (l : agg_log) : Z := match l with EventsDropped _ s _ => s | _ => 0 end.
Definition log_network (l : agg_log) : Z := match l with EventsDropped _ _ n => n | _ => 0 end.

(** The drop watch over successive ticks. *)
Definition watch_all (reads : list (option (list EventDropCounts))) (st : agg_state)
    : list agg_log * agg_state :=
  foldl (fun '(logs, st) r => let '(l, st) := watch_drops r st in (logs ++ l, st)) ([], st) reads.

(** Between successful reads the totals never decrease (they are cumulative
    and below 2^64). *)
Fixpoint totals_grow (prev : EventDropCounts) (reads : list (option (list EventDropCounts))) : Prop :=
  match reads with
  | [] => True
  | None :: reads' => totals_grow prev reads'
  | Some vs :: reads' =>
      let d := foldl merge_drops EventDropCounts_zeroed vs in
      dc_process prev <= dc_process d /\ dc_security prev <= dc_security d /\
      dc_network prev <= dc_network d /\ totals_grow d reads'
  end.

Lemma watch_all_acc reads logs st :
  foldl (fun '(logs, st) r => let '(l, st) := watch_drops r st in (logs ++ l, st)) (logs, st) reads
  = (logs ++ (watch_all reads st).1, (watch_all reads st).2).
Proof.
  unfold watch_all. revert logs st. induction reads as [|r reads IH]; intros logs st; cbn [foldl].
  - by rewrite app_nil_r.
  - destruct (watch_drops r st) as [l st1]. rewrite IH, (IH ([] ++ l)). cbn [fst snd]. by rewrite <- app_assoc.
Qed.

Lemma watch_all_cons r reads st :
  (watch_all (r :: reads) st).2 = (watch_all reads (watch_drops r st).2).2.
Proof.
  unfold watch_all at 1. cbn [foldl]. destruct (watch_drops r st). by rewrite watch_all_acc.
Qed.

Lemma watch_all_snoc reads r st :
  watch_all (reads ++ [r]) st =
    let '(logs, st1) := watch_all reads st in
    let '(l, st2) := watch_drops r st1 in (logs ++ l, st2).
Proof.
  unfold watch_all. rewrite foldl_app. cbn [foldl]. by destruct (foldl _ _ reads).
Qed.

Lemma lor3_zero a b c :
  0 <= a -> 0 <= b -> 0 <= c -> Z.lor (Z.lor a b) c = 0 -> a = 0 /\ b = 0 /\ c = 0.
Proof. intros Ha Hb Hc H. apply Z.lor_eq_0_iff in H as [H ->]. by apply Z.lor_eq_0_iff in H as [-> ->]. Qed.

(** The accumulators of the warnings with the counters they report. *)
Definition drop_channels : list ((agg_log -> Z) * (EventDropCounts -> Z)) :=
  [(log_process, dc_process); (log_security, dc_security); (log_network, dc_network)].

Ltac each_channel H := repeat (apply elem_of_cons in H as [[= -> ->]|H]); [..|by apply elem_of_nil in H].

Lemma watch_step r st f (sel : EventDropCounts -> Z) :
  (f, sel) ∈ drop_channels ->
  totals_grow (ag_prev_drops st) [r] ->
  dropped_reported f (watch_drops r st).1 =
    sel (ag_prev_drops (watch_drops r st).2) - sel (ag_prev_drops st).
Proof.
  intros Hf Hg. unfold drop_channels in Hf. destruct r as [vs|].
  2: { unfold watch_drops, drop_watch, read_drops, sum_percpu, dropped_reported. cbn [context fst snd map].
       rewrite zsum_singleton, Z.sub_diag. each_channel Hf; reflexivity. }
  cbn [totals_grow] in Hg.
  unfold watch_drops, drop_watch, read_drops, sum_percpu. cbn [context].
  generalize dependent (foldl merge_drops EventDropCounts_zeroed vs); intros d (H1 & H2 & H3 & _).
  unfold dropped_reported, saturating_sub. cbv zeta. case_match eqn:Hz; cbn [fst snd map].
  - rewrite zsum_singleton. each_channel Hf; cbn; lia.
  - apply negb_false_iff, Z.eqb_eq, lor3_zero in Hz; [|lia..].
    each_channel Hf; unfold zsum; cbn; lia.
Qed.

Lemma watch_drops_some vs st :
  ag_prev_drops (watch_drops (Some vs) st).2 = foldl merge_drops EventDropCounts_zeroed vs.
Proof. done. Qed.

Lemma totals_grow_snoc prev reads r st :
  ag_prev_drops st = prev -> totals_grow prev (reads ++ [r]) ->
  totals_grow prev reads /\ totals_grow (ag_prev_drops (watch_all reads st).2) [r].
Proof.
  revert prev st. induction reads as [|r' reads IH]; intros prev st Hst Hg; [cbn; by subst|].
  rewrite watch_all_cons. destruct r' as [vs|]; cbn [totals_grow app] in Hg |- *; cbv zeta in *.
  - destruct Hg as (H1 & H2 & H3 & Hg).
    destruct (IH _ (watch_drops (Some vs) st).2 (watch_drops_some vs st) Hg). done.
  - by apply IH.
Qed.

(** No drop goes unreported.  Over any ticks, some of whose reads may fail,
    the process, security and network drops in the warnings add up to exactly
    the growth of the kernel's totals between the first and the last
    successful read; a failing read only defers them to the next warning. *)
Theorem drops_reported_once reads st :
  totals_grow (ag_prev_drops st) reads ->
  let logs := (watch_all reads st).1 in
  let last := ag_prev_drops (watch_all reads st).2 in
  dropped_reported log_process logs = dc_process last - dc_process (ag_prev_drops st) /\
  dropped_reported log_security logs = dc_security last - dc_security (ag_prev_drops st) /\
  dropped_reported log_network logs = dc_network last - dc_network (ag_prev_drops st).
Proof.
  induction reads as [|r reads IH] using rev_ind; intros Hg; cbv zeta.
  - cbn. unfold dropped_reported, zsum. cbn. lia.
  - destruct (totals_grow_snoc _ reads r st eq_refl Hg) as [Hg1 Hg2].
    destruct (IH Hg1) as (H1 & H2 & H3). rewrite watch_all_snoc.
    destruct (watch_all reads st) as [logs st1]. cbn [fst snd] in *.
    pose proof (watch_step r st1 log_process dc_process ltac:(repeat constructor) Hg2) as S1.
    pose proof (watch_step r st1 log_security dc_security ltac:(right; left) Hg2) as S2.
    pose proof (watch_step r st1 log_network dc_network ltac:(right; right; left) Hg2) as S3.
    destruct (watch_drops r st1) as [l st2]. cbn [fst snd] in *.
    unfold dropped_reported in *. rewrite !map_app, !zsum_app. lia.
Qed.
Lemma drops_reported_once_witness :
  let d p s := EventDropCounts_zeroed <| dc_process := p |> <| dc_security := s |> in
  let st := {| ag_prev_drops := EventDropCounts_zeroed; ag_shared := MetricSnapshot_default;
               ag_bw_window := BandwidthWindow_new |} in
  let reads := [Some [d 1 0; d 2 0]; None; Some [d 4 1; d 2 0]; Some [d 4 1; d 2 0]] in
  (watch_all reads st).1 = [EventsDropped 3 0 0; DropsReadFailed "event drop counts"; EventsDropped 3 1 0] /\
  dropped_reported log_process (watch_all reads st).1 = 6.
Proof.
  intros d st reads. split; [vm_compute; reflexivity|].
  destruct (drops_reported_once reads st) as [H _]; [vm_compute; repeat split; congruence|].
  rewrite H. vm_compute. reflexivity.
Defined.
