(* ===== verification/Ledger.v ===== *)
(** The books of the events, closed: the programs of the kernel side beside the
    aggregator that polls their drop counters.  What the programs emit is
    delivered, pending, refused by a full perf buffer, or in a warning of the
    daemon's log, exactly, once a poll has succeeded. *)
From S2P Require Import Prelude Text Float Types Layout Pods Bpf Stats Scheduler Process Network Netproc Security Kernel Conserve Metrics TimeBase Bandwidth Aggregator.

(** ** Programs, drains and polls *)

(** An operation of [Conserve.v], or a poll of [EVENT_DROPS] by the aggregator,
    which reads the slots of all CPUs, or fails. *)
Inductive audit_op := Run (o : op) | Poll (ok : bool).

Record audit := { au_history : history; au_agg : agg_state; au_log : list agg_log }.

Definition exec_audit (o : audit_op) (s : audit) : audit :=
  match o with
  | Run o => {| au_history := exec_op o (au_history s); au_agg := au_agg s; au_log := au_log s |}
  | Poll ok =>
      let '(l, st) := watch_drops (if ok then Some (EVENT_DROPS (hy_kernel (au_history s))) else None) (au_agg s) in
      {| au_history := au_history s; au_agg := st; au_log := au_log s ++ l |}
  end.
Definition audit_of (n : nat) (ops : list audit_op) : audit :=
  foldl (fun s o => exec_audit o s)
    {| au_history := history_of n [];
       au_agg := {| ag_prev_drops := EventDropCounts_zeroed; ag_shared := MetricSnapshot_default;
                    ag_bw_window := BandwidthWindow_new |};
       au_log := [] |} ops.

Definition audit_ok (n : nat) (o : audit_op) : Prop := match o with Run o => op_ok n o | Poll _ => True end.

(** The drops the counters hold, those of a reading, and those in the warnings. *)
Definition dropped (k : kernel) : tally := {|
  tl_process := zsum (map dc_process (EVENT_DROPS k)); tl_net := zsum (map dc_network (EVENT_DROPS k));
  tl_security := zsum (map dc_security (EVENT_DROPS k)) |}.
Definition reading (d : EventDropCounts) : tally :=
  {| tl_process := dc_process d; tl_net := dc_network d; tl_security := dc_security d |}.
Definition reported (l : list agg_log) : tally := {|
  tl_process := dropped_reported log_process l; tl_net := dropped_reported log_network l;
  tl_security := dropped_reported log_security l |}.

(** Tallies as three numbers. *)
Definition tally_le (a b : tally) : Prop :=
  tl_process a <= tl_process b /\ tl_net a <= tl_net b /\ tl_security a <= tl_security b.
Definition below (m : Z) (a : tally) : Prop := tl_process a < m /\ tl_net a < m /\ tl_security a < m.
Lemma tally_ext a b : tl_process a = tl_process b -> tl_net a = tl_net b -> tl_security a = tl_security b -> a = b.
Proof. destruct a, b. cbn. by intros -> -> ->. Qed.
Ltac tally_lia :=
  repeat match goal with
    | H : _ = _ :> tally |- _ => apply (f_equal (fun x => (tl_process x, tl_net x, tl_security x))) in H; injection H as ???
    end;
  unfold tally_le, below, tally_add, tally_0, one_process, one_net, one_security in *; cbn in *;
  try (apply tally_ext; cbn); try split_and!; lia.

(** ** Counting without wrap-around *)

Lemma zsum_bump_exact (get : EventDropCounts -> Z) f c l :
  (forall d, get (f d) = wrapping_add (get d) 1) -> Forall (fun d => 0 <= get d) l -> (cx_cpu c < length l)%nat ->
  zsum (map get l) + 1 < 2 ^ 64 -> zsum (map get (cpu_write c f l)) = zsum (map get l) + 1.
Proof.
  intros Hf Hl. unfold cpu_write. generalize (cx_cpu c). intros i.
  assert (forall l, Forall (fun d => 0 <= get d) l -> 0 <= zsum (map get l)) as Hpos.
  { clear. induction 1 as [|x l Hx _ IH]; [done|]. cbn [map]. rewrite zsum_cons. lia. }
  revert i. induction Hl as [|x l Hx Hl IH]; intros [|i] Hi Hb; cbn [length] in Hi; try lia;
    cbn [map] in Hb |- *; rewrite zsum_cons in Hb; specialize (Hpos l Hl).
  - change (alter f 0%nat (x :: l)) with (f x :: l). cbn [map]. rewrite !zsum_cons, Hf, wrapping_add_exact by lia. lia.
  - change (alter f (S i) (x :: l)) with (x :: alter f i l). cbn [map]. rewrite !zsum_cons, IH by lia. lia.
Qed.

Lemma merge_drops_total (get : EventDropCounts -> Z) acc l :
  (forall a v, get (merge_drops a v) = wrapping_add (get a) (get v)) ->
  0 <= get acc -> Forall (fun d => 0 <= get d) l -> get acc + zsum (map get l) < 2 ^ 64 ->
  get (foldl merge_drops acc l) = get acc + zsum (map get l).
Proof.
  intros Hm Ha Hl. revert acc Ha.
  induction Hl as [|x l Hx Hl IH]; intros acc Ha Hb; cbn [foldl map] in *; [unfold zsum; cbn; lia|].
  rewrite zsum_cons in Hb |- *.
  assert (0 <= zsum (map get l)) as Hp.
  { clear -Hl. induction Hl as [|y l Hy _ IH]; [done|]. cbn [map]. rewrite zsum_cons. lia. }
  assert (get (merge_drops acc x) = get acc + get x) as He by (rewrite Hm; apply wrapping_add_exact; lia).
  rewrite IH; rewrite ?He; lia.
Qed.

(** Every emission adds to the tally, and nothing is taken from it. *)
Lemma emitted_nonneg h c k : tally_le tally_0 (emitted h c k).
Proof.
  destruct h; cbn [emitted]; unfold alarm_due; cbv zeta; repeat case_match; unfold tally_le; cbn; try lia.
Qed.
Lemma refused_nonneg h c k : tally_le tally_0 (refused h c k).
Proof. unfold refused. destruct (_ && _); [apply emitted_nonneg|unfold tally_le; cbn; lia]. Qed.

Lemma drops_nonneg n k : reachable n k ->
  forall get tl, (get, tl) ∈ channels -> Forall (fun d => 0 <= get d) (EVENT_DROPS k).
Proof.
  intros Hk get tl Hin. destruct (inv_drops _ _ (reachable_inv _ _ Hk)) as [_ H].
  eapply Forall_impl; [exact H|]. intros [p s m] Hd. unfold pod_wf in Hd. cbn -[is_u64] in Hd. destruct_and?.
  unfold int_in_range in *. each_elem Hin; cbn [dc_process dc_security dc_network]; lia.
Qed.
Lemma dropped_nonneg n k : reachable n k -> tally_le tally_0 (dropped k).
Proof.
  intros Hk. assert (forall get tl, (get, tl) ∈ channels -> 0 <= zsum (map get (EVENT_DROPS k))) as H.
  { intros get tl Hin. pose proof (drops_nonneg n k Hk get tl Hin) as Hd. clear -Hd.
    induction Hd as [|x l Hx _ IH]; [done|]. cbn [map]. rewrite zsum_cons. lia. }
  unfold tally_le. cbn. split_and!; [apply (H dc_process tl_process); left|apply (H dc_network tl_net); right; left|
    apply (H dc_security tl_security); right; right; left].
Qed.

(** A drop is counted, exactly, while the counters stay below their width. *)
Lemma dropped_counted n c b k k' :
  reachable n k -> (cx_cpu c < n)%nat -> counted c b k k' -> below (2 ^ 64) (tally_add (dropped k) b) ->
  dropped k' = tally_add (dropped k) b.
Proof.
  intros Hk Hc Hd Hb. destruct (inv_drops _ _ (reachable_inv _ _ Hk)) as [Hlen _]. rewrite <- Hlen in Hc.
  pose proof (drops_nonneg n k Hk) as Hpos. destruct Hd as [[-> Hd]|(f & Hf & Hd)].
  - rewrite tally_add_0. unfold dropped. by rewrite Hd.
  - unfold below, tally_add, dropped in *. cbn [tl_process tl_net tl_security] in *. rewrite Hd.
    assert (forall get tl, (get, tl) ∈ channels -> zsum (map get (EVENT_DROPS k)) + tl b < 2 ^ 64 ->
      zsum (map get (cpu_write c f (EVENT_DROPS k))) = zsum (map get (EVENT_DROPS k)) + tl b) as Hsum.
    { intros get tl Hin Hlt. specialize (Hpos get tl Hin). each_elem Hin; each_elem Hf;
        cbn [tl_process tl_net tl_security one_process one_net one_security] in *;
        first [by apply zsum_bump_exact|rewrite Z.add_0_r, zsum_kept; done]. }
    apply tally_ext; cbn [tl_process tl_net tl_security];
      [apply (Hsum dc_process tl_process); [left|]|apply (Hsum dc_network tl_net); [right; left|]|
       apply (Hsum dc_security tl_security); [right; right; left|]]; apply Hb.
Qed.

(** ** The books *)

Definition closed (h : history) : Prop :=
  tally_add (hy_delivered h) (tally_add (in_rings (hy_kernel h)) (tally_add (dropped (hy_kernel h)) (hy_refused h)))
    = hy_emitted h.

Record ledger (n : nat) (s : audit) : Prop := {
  le_accounted : accounted n (au_history s);
  le_nonneg : tally_le tally_0 (hy_delivered (au_history s)) /\ tally_le tally_0 (hy_refused (au_history s));
  le_closed : closed (au_history s);
  le_reported : reported (au_log s) = reading (ag_prev_drops (au_agg s));
  le_behind : tally_le (reading (ag_prev_drops (au_agg s))) (dropped (hy_kernel (au_history s))) }.

Lemma emitted_grows o h : tally_le (hy_emitted h) (hy_emitted (exec_op o h)).
Proof.
  destruct o as [hk c| | |]; cbn [exec_op].
  - pose proof (emitted_nonneg hk c (hy_kernel h)). tally_lia.
  - case_match; tally_lia.
  - case_match; tally_lia.
  - case_match; tally_lia.
Qed.

Lemma in_rings_nonneg k : tally_le tally_0 (in_rings k).
Proof. unfold tally_le, in_rings. cbn. lia. Qed.

(** Moving a record from the ring to what was delivered. *)
Lemma closed_take one d r e k k' :
  in_rings k = tally_add (in_rings k') one -> dropped k' = dropped k ->
  tally_add d (tally_add (in_rings k) (tally_add (dropped k) r)) = e ->
  tally_add (tally_add d one) (tally_add (in_rings k') (tally_add (dropped k') r)) = e.
Proof.
  intros Hk -> <-. rewrite Hk, <- !tally_add_assoc. f_equal. by rewrite !tally_add_assoc, (tally_add_comm one).
Qed.

Lemma ledger_run n o s :
  op_ok n o -> below (2 ^ 64) (hy_emitted (exec_op o (au_history s))) -> ledger n s -> ledger n (exec_audit (Run o) s).
Proof.
  intros Ho Hb [L1 [L2d L2r] L3 L4 L5]. pose proof (exec_op_accounted n o _ Ho L1) as L1'.
  destruct L1 as [Hr _]. set (h := au_history s) in *. set (k := hy_kernel h) in *.
  pose proof (in_rings_nonneg k) as Hring. destruct o as [hk c| | |].
  - destruct Ho as (Hc & _). pose proof (reachable_cpu_ok n c k Hc Hr) as Hcpu.
    destruct (booked_fire hk c k Hcpu) as (b & Hcnt & Hbk). pose proof (refused_nonneg hk c k) as Href.
    pose proof (in_rings_nonneg (fire hk c k).2) as Hring'. pose proof (dropped_nonneg n k Hr) as Hdrop.
    assert (tally_le tally_0 b) as Hb0.
    { destruct Hcnt as [[-> _]|(f & Hf & _)]; [|each_elem Hf]; unfold tally_le; cbn; lia. }
    unfold closed in L3. cbn [exec_op hy_emitted] in Hb. fold k in L3, Hb.
    assert (dropped (fire hk c k).2 = tally_add (dropped k) b) as Hd.
    { apply (dropped_counted n c b k); [done|done|done|].
      generalize dependent (emitted hk c k). generalize dependent (refused hk c k). intros r Hr0 e He Hbe. tally_lia. }
    constructor; cbn [exec_audit au_history au_agg au_log exec_op hy_kernel hy_emitted hy_delivered hy_refused];
      fold h; fold k; [exact L1'| | |exact L4|].
    + split; [exact L2d|]. generalize dependent (refused hk c k). intros r _ Hr0. tally_lia.
    + unfold closed. cbn [hy_kernel hy_emitted hy_delivered hy_refused]. rewrite Hd.
      generalize dependent (emitted hk c k). generalize dependent (refused hk c k). intros r Hr0 e He Hbe. tally_lia.
    + rewrite Hd. clear -L5 Hb0. fold h k in L5. tally_lia.
  - cbn [exec_audit exec_op] in L1' |- *. fold h. destruct (PROCESS_EVENTS (hy_kernel h)) as [|e es] eqn:E; [by constructor|].
    constructor; cbn [au_history au_agg au_log hy_kernel hy_emitted hy_delivered hy_refused]; [exact L1'|split; [tally_lia|done]| |done|done].
    unfold closed. cbn [hy_kernel hy_emitted hy_delivered hy_refused]. apply (closed_take _ _ _ _ (hy_kernel h)); [|reflexivity|exact L3].
    unfold in_rings, tally_add. cbn. rewrite E. cbn. f_equal; lia.
  - cbn [exec_audit exec_op] in L1' |- *. fold h. destruct (NET_EVENTS (hy_kernel h)) as [|e es] eqn:E; [by constructor|].
    constructor; cbn [au_history au_agg au_log hy_kernel hy_emitted hy_delivered hy_refused]; [exact L1'|split; [tally_lia|done]| |done|done].
    unfold closed. cbn [hy_kernel hy_emitted hy_delivered hy_refused]. apply (closed_take _ _ _ _ (hy_kernel h)); [|reflexivity|exact L3].
    unfold in_rings, tally_add. cbn. rewrite E. cbn. f_equal; lia.
  - cbn [exec_audit exec_op] in L1' |- *. fold h. destruct (SECURITY_EVENTS (hy_kernel h)) as [|e es] eqn:E; [by constructor|].
    constructor; cbn [au_history au_agg au_log hy_kernel hy_emitted hy_delivered hy_refused]; [exact L1'|split; [tally_lia|done]| |done|done].
    unfold closed. cbn [hy_kernel hy_emitted hy_delivered hy_refused]. apply (closed_take _ _ _ _ (hy_kernel h)); [|reflexivity|exact L3].
    unfold in_rings, tally_add. cbn. rewrite E. cbn. f_equal; lia.
Qed.

(** What a poll reads is what the counters hold, and what it logs is the
    difference to the poll before. *)
Lemma poll_reads n s :
  below (2 ^ 64) (hy_emitted (au_history s)) -> ledger n s ->
  reading (foldl merge_drops EventDropCounts_zeroed (EVENT_DROPS (hy_kernel (au_history s))))
    = dropped (hy_kernel (au_history s)).
Proof.
  intros Hb [[Hr _] [L2d L2r] L3 L4 L5]. unfold closed in L3. set (k := hy_kernel (au_history s)) in *.
  pose proof (drops_nonneg n k Hr) as Hpos. pose proof (in_rings_nonneg k) as Hring.
  assert (below (2 ^ 64) (dropped k)) as Hbd by tally_lia.
  assert (forall get tl, (get, tl) ∈ channels -> zsum (map get (EVENT_DROPS k)) < 2 ^ 64 ->
    get (foldl merge_drops EventDropCounts_zeroed (EVENT_DROPS k)) = zsum (map get (EVENT_DROPS k))) as H.
  { intros get tl Hin Hlt. specialize (Hpos get tl Hin).
    each_elem Hin; (rewrite merge_drops_total; [cbn; lia|done|done|done|cbn; lia]). }
  apply tally_ext; cbn [tl_process tl_net tl_security reading dropped];
    [apply (H dc_process tl_process); [left|]|apply (H dc_network tl_net); [right; left|]|
     apply (H dc_security tl_security); [right; right; left|]]; apply Hbd.
Qed.

Lemma reported_app l l' : reported (l ++ l') = tally_add (reported l) (reported l').
Proof. unfold reported, dropped_reported, tally_add. cbn. by rewrite !map_app, !zsum_app. Qed.

Lemma ledger_poll n ok s :
  below (2 ^ 64) (hy_emitted (au_history s)) -> ledger n s -> ledger n (exec_audit (Poll ok) s).
Proof.
  intros Hb HL. pose proof (poll_reads n s Hb HL) as Hread. destruct HL as [L1 L2 L3 L4 L5].
  cbn [exec_audit]. set (r := if ok then _ else _).
  assert (totals_grow (ag_prev_drops (au_agg s)) [r]) as Hg.
  { destruct ok; [|done]. cbn [totals_grow r]. rewrite <- Hread in L5. unfold tally_le in L5. cbn in L5. tauto. }
  pose proof (watch_step r (au_agg s) log_process dc_process ltac:(left) Hg) as S1.
  pose proof (watch_step r (au_agg s) log_network dc_network ltac:(right; right; left) Hg) as S2.
  pose proof (watch_step r (au_agg s) log_security dc_security ltac:(right; left) Hg) as S3.
  assert (tally_le (reading (ag_prev_drops (watch_drops r (au_agg s)).2)) (dropped (hy_kernel (au_history s)))) as Hle.
  { destruct ok; [|exact L5]. unfold r. rewrite watch_drops_some, Hread. unfold tally_le. lia. }
  destruct (watch_drops r (au_agg s)) as [l st]. cbn [fst snd] in *.
  constructor; cbn [au_history au_agg au_log]; [exact L1|exact L2|exact L3| |exact Hle].
  rewrite reported_app, L4. apply tally_ext; cbn; lia.
Qed.

Lemma audit_snoc n ops o : audit_of n (ops ++ [o]) = exec_audit o (audit_of n ops).
Proof. unfold audit_of. by rewrite foldl_app. Qed.

Lemma audit_ledger n ops :
  Forall (audit_ok n) ops -> below (2 ^ 64) (hy_emitted (au_history (audit_of n ops))) -> ledger n (audit_of n ops).
Proof.
  induction ops as [|o ops IH] using rev_ind; intros Hops Hb.
  - pose proof (history_accounted n [] (Forall_nil_2 _)) as Ha. cbn in Ha.
    assert (dropped (kernel_init n) = tally_0) as Hd.
    { assert (forall get : EventDropCounts -> Z, get EventDropCounts_zeroed = 0 ->
        zsum (map get (replicate n EventDropCounts_zeroed)) = 0) as Hz.
      { intros get Hg. clear -Hg. induction n as [|m IHm]; [done|]. cbn [replicate map]. rewrite zsum_cons, Hg. lia. }
      apply tally_ext; cbn; by apply Hz. }
    constructor; cbn [audit_of foldl au_history au_agg au_log]; [exact Ha| | | |].
    + split; unfold tally_le; cbn; lia.
    + unfold closed. cbn [history_of foldl hy_kernel hy_emitted hy_delivered hy_refused]. rewrite Hd. reflexivity.
    + reflexivity.
    + cbn [history_of foldl hy_kernel]. rewrite Hd. unfold tally_le; cbn; lia.
  - apply Forall_app in Hops as [Hops Ho]. apply Forall_cons in Ho as [Ho _]. rewrite audit_snoc in *.
    destruct o as [o|ok].
    + cbn [exec_audit au_history] in Hb. pose proof (emitted_grows o (au_history (audit_of n ops))) as Hg.
      apply ledger_run; [exact Ho|exact Hb|]. apply IH; [done|]. tally_lia.
    + assert (au_history (exec_audit (Poll ok) (audit_of n ops)) = au_history (audit_of n ops)) as He
        by (cbn [exec_audit]; by destruct (watch_drops _ _)).
      rewrite He in Hb. by apply ledger_poll, IH.
Qed.

(** C4: no event is lost in silence.  Run the programs of either build on any
    CPUs, with buffers that refuse whenever they like, the drains and the
    aggregator's polls of the drop counters, some failing.  After a successful
    poll, and below 2^64 events of a kind, the events the programs emitted are exactly
    those delivered, those pending in a ring, those the warnings in the daemon's
    log add up to, and those a full perf buffer refused, kind by kind; and
    between polls the warnings never tell of more than was dropped. *)
Theorem no_silent_loss (n : nat) (ops : list audit_op) (Hops : Forall (audit_ok n) ops)
    (Hb : below (2 ^ 64) (hy_emitted (au_history (audit_of n ops)))) :
  let s := audit_of n ops in
  let h := au_history s in
  tally_add (hy_delivered h) (tally_add (in_rings (hy_kernel h)) (tally_add (dropped (hy_kernel h)) (hy_refused h)))
    = hy_emitted h /\
  tally_le (reported (au_log s)) (dropped (hy_kernel h)) /\
  reported (au_log (exec_audit (Poll true) s)) = dropped (hy_kernel h).
Proof.
  pose proof (audit_ledger n ops Hops Hb) as HL. cbv zeta. split; [apply (le_closed _ _ HL)|]. split.
  - rewrite (le_reported _ _ HL). apply (le_behind _ _ HL).
  - pose proof (ledger_poll n true _ Hb HL) as HL'. rewrite (le_reported _ _ HL').
    pose proof (poll_reads n _ Hb HL) as Hread. cbn [exec_audit].
    destruct (watch_drops (Some _) (au_agg (audit_of n ops))) as [l st] eqn:E. cbn [au_agg].
    rewrite <- Hread. by replace st with (watch_drops (Some (EVENT_DROPS (hy_kernel (au_history (audit_of n ops))))) (au_agg (audit_of n ops))).2
      by (by rewrite E).
Qed.

(** The run of [Conserve.v], polled in between. *)
Lemma no_silent_loss_witness :
  let ops := Poll true :: map Run (take 3 demo_ops) ++ [Poll false; Poll true] ++ map Run (drop 3 demo_ops) in
  let s := audit_of 2 ops in
  au_log s = [DropsReadFailed (lit "event drop counts"); EventsDropped 1 0 0] /\
  hy_emitted (au_history s) = {| tl_process := 2; tl_net := 2; tl_security := 0 |} /\
  reported (au_log (exec_audit (Poll true) s)) = dropped (hy_kernel (au_history s)).
Proof.
  intros ops s.
  assert (Forall (audit_ok 2) ops) as Hops.
  { unfold ops. apply Forall_cons; split; [exact I|]. pose proof demo_ops_ok as H.
    apply Forall_app. split; [apply Forall_map; exact (Forall_take _ _ _ H)|].
    apply Forall_app. split; [repeat constructor|]. apply Forall_map. exact (Forall_drop _ _ _ H). }
  split; [vm_compute; reflexivity|]. split; [vm_compute; reflexivity|].
  refine (proj2 (proj2 (no_silent_loss 2 ops Hops _))). vm_compute. split; [|split]; reflexivity.
Defined.
