(* ===== verification/ProcTier.v ===== *)
(** [proc_tier.rs]: the [/proc] collector.  The text parsers, the per-CPU
    utilization task and the five-second task that owns the [/proc] fields of
    the shared snapshot.  What reading a file returned is an input: its
    contents, or [None] for an [io::Error]. *)
From Stdlib Require Import SpecFloat.
From S2P Require Import Prelude Text Float Types Layout Pods Bpf Metrics TimeBase Bandwidth Aggregator.

Record CpuUtilDelta := {
  cu_cpu_id : Z; cu_user_ns : Z; cu_system_ns : Z; cu_iowait_ns : Z; cu_idle_ns : Z }.
#[export] Instance CpuUtilDelta_eq_dec : EqDecision CpuUtilDelta.
Proof. solve_decision. Defined.
Definition CpuUtilDelta_default : CpuUtilDelta :=
  {| cu_cpu_id := 0; cu_user_ns := 0; cu_system_ns := 0; cu_iowait_ns := 0; cu_idle_ns := 0 |}.

Record PidStatusFacts := { pid_rss_bytes : Z; pid_vms_bytes : Z; pid_thread_count : Z }.
#[export] Instance eta_PidStatusFacts : Eta PidStatusFacts := fun r =>
  Build_PidStatusFacts (pid_rss_bytes r) (pid_vms_bytes r) (pid_thread_count r).
Definition PidStatusFacts_default : PidStatusFacts :=
  {| pid_rss_bytes := 0; pid_vms_bytes := 0; pid_thread_count := 0 |}.

Definition MAX_PID_SUPPLEMENTS : nat := 100.

Record ProcMemFacts := {
  pm_total_bytes : Z; pm_free_bytes : Z; pm_cached_bytes : Z; pm_buffered_bytes : Z;
  pm_slab_bytes : Z; pm_swap_used_bytes : Z; pm_swap_free_bytes : Z;
  pm_psi_some_pct_x100 : Z; pm_psi_full_pct_x100 : Z }.
#[export] Instance eta_ProcMemFacts : Eta ProcMemFacts := fun r =>
  Build_ProcMemFacts (pm_total_bytes r) (pm_free_bytes r) (pm_cached_bytes r) (pm_buffered_bytes r)
    (pm_slab_bytes r) (pm_swap_used_bytes r) (pm_swap_free_bytes r)
    (pm_psi_some_pct_x100 r) (pm_psi_full_pct_x100 r).
Definition ProcMemFacts_default : ProcMemFacts :=
  {| pm_total_bytes := 0; pm_free_bytes := 0; pm_cached_bytes := 0; pm_buffered_bytes := 0;
     pm_slab_bytes := 0; pm_swap_used_bytes := 0; pm_swap_free_bytes := 0;
     pm_psi_some_pct_x100 := 0; pm_psi_full_pct_x100 := 0 |}.

(** ** The parsers *)

(** [it.next().and_then(|v| v.parse().ok())]. *)
Definition next_parsed {T} (parse : rstring -> option T) (words : list rstring) : option T :=
  match words with [] => None | w :: _ => parse w end.

(** One turn of the loop of [parse_meminfo]; the state is the facts and
    [swap_total]. *)
Definition meminfo_line (st : ProcMemFacts * Z) (line : rstring) : ProcMemFacts * Z :=
  let '(f, swap_total) := st in
  match split_whitespace line with
  | [] => st
  | k :: it =>
      let key := trim_end_matches COLON k in
      match next_parsed parse_u64 it with
      | None => st
      | Some value =>
          let bytes := saturating_mul value 1024 in
          if str_eqb key "MemTotal" then (f <| pm_total_bytes := bytes |>, swap_total)
          else if str_eqb key "MemFree" then (f <| pm_free_bytes := bytes |>, swap_total)
          else if str_eqb key "Cached" then (f <| pm_cached_bytes := bytes |>, swap_total)
          else if str_eqb key "Buffers" then (f <| pm_buffered_bytes := bytes |>, swap_total)
          else if str_eqb key "Slab" then (f <| pm_slab_bytes := bytes |>, swap_total)
          else if str_eqb key "SwapTotal" then (f, bytes)
          else if str_eqb key "SwapFree" then (f <| pm_swap_free_bytes := bytes |>, swap_total)
          else st
      end
  end.

Definition parse_meminfo (input : rstring) : ProcMemFacts :=
  let '(f, swap_total) := foldl meminfo_line (ProcMemFacts_default, 0) (lines input) in
  f <| pm_swap_used_bytes := saturating_sub swap_total (pm_swap_free_bytes f) |>.

Definition psi_x100 (num : rstring) : Z :=
  f64_as_u32 (f64_mul (unwrap_or f64_zero (parse_f64 num)) (f64_of_u64 100)).

Definition psi_line (st : Z * Z) (line : rstring) : Z * Z :=
  let it := split_whitespace line in
  let tag := nth 0 it [] in
  let avg10_field := nth 1 it [] in
  match strip_prefix "avg10=" avg10_field with
  | None => st
  | Some num =>
      let pct_x100 := psi_x100 num in
      if str_eqb tag "some" then (pct_x100, st.2)
      else if str_eqb tag "full" then (st.1, pct_x100)
      else st
  end.

Definition parse_psi (input : rstring) : Z * Z := foldl psi_line (0, 0) (lines input).

Definition load_field (w : option rstring) : f64 :=
  unwrap_or f64_zero (match w with Some s => parse_f64 s | None => None end).

Definition parse_loadavg (input : rstring) : LoadSnapshot :=
  let it := split_whitespace input in
  {| load_1 := load_field (it !! 0%nat); load_5 := load_field (it !! 1%nat);
     load_15 := load_field (it !! 2%nat) |}.

Definition pid_status_line (f : PidStatusFacts) (line : rstring) : PidStatusFacts :=
  match split_once COLON line with
  | None => f
  | Some (key, rest) =>
      let values := split_whitespace rest in
      if str_eqb key "VmRSS" then
        match next_parsed parse_u64 values with
        | Some kb => f <| pid_rss_bytes := saturating_mul kb 1024 |>
        | None => f
        end
      else if str_eqb key "VmSize" then
        match next_parsed parse_u64 values with
        | Some kb => f <| pid_vms_bytes := saturating_mul kb 1024 |>
        | None => f
        end
      else if str_eqb key "Threads" then
        match next_parsed parse_u32 values with
        | Some n => f <| pid_thread_count := n |>
        | None => f
        end
      else f
  end.

Definition parse_pid_status (input : rstring) : PidStatusFacts :=
  foldl pid_status_line PidStatusFacts_default (lines input).

(** ** Per-CPU utilization *)

Record CpuJiffies := {
  j_user : Z; j_nice : Z; j_system : Z; j_idle : Z; j_iowait : Z; j_irq : Z; j_softirq : Z }.

Definition stat_line (line : rstring) : option CpuJiffies :=
  match strip_prefix "cpu" line with
  | None => None
  | Some rest =>
      let first_char := unwrap_or 32 (head rest) in
      if negb (is_ascii_digit first_char) then None
      else
        match omap parse_u64 (drop 1 (split_whitespace rest)) with
        | user :: nice :: system :: idle :: iowait :: irq :: softirq :: _ =>
            Some {| j_user := user; j_nice := nice; j_system := system; j_idle := idle;
                    j_iowait := iowait; j_irq := irq; j_softirq := softirq |}
        | _ => None
        end
  end.

Definition parse_proc_stat (content : rstring) : list CpuJiffies := omap stat_line (lines content).

(** The argument is what [sysconf(_SC_CLK_TCK)] returned. *)
Definition ns_per_jiffy (hz : Z) : Z := if hz <=? 0 then 10_000_000 else 1_000_000_000 / hz.

Definition cpu_delta (ns_per_jiffy : Z) (i : nat) (c p : CpuJiffies) : CpuUtilDelta :=
  {| cu_cpu_id := as_u32 (Z.of_nat i);
     cu_user_ns := saturating_mul (saturating_sub (saturating_add (j_user c) (j_nice c))
                     (saturating_add (j_user p) (j_nice p))) ns_per_jiffy;
     cu_system_ns := saturating_mul
       (saturating_sub (saturating_add (saturating_add (j_system c) (j_irq c)) (j_softirq c))
          (saturating_add (saturating_add (j_system p) (j_irq p)) (j_softirq p))) ns_per_jiffy;
     cu_iowait_ns := saturating_mul (saturating_sub (j_iowait c) (j_iowait p)) ns_per_jiffy;
     cu_idle_ns := saturating_mul (saturating_sub (j_idle c) (j_idle p)) ns_per_jiffy |}.

Record cpu_task := { ct_prev : list CpuJiffies; ct_cache : list CpuUtilDelta }.

(** One turn of the loop of [spawn_cpu_stat_task]. *)
Definition cpu_stat_tick (ns_per_jiffy : Z) (content : option rstring) (st : cpu_task) : cpu_task :=
  match content with
  | None => st
  | Some content =>
      let cur := parse_proc_stat content in
      let prev := ct_prev st in
      let cache :=
        if negb (bool_decide (prev = [])) && (length cur =? length prev)%nat
        then imap (fun i cp => cpu_delta ns_per_jiffy i cp.1 cp.2) (zip cur prev)
        else if negb (bool_decide (prev = [])) then [] else ct_cache st in
      {| ct_prev := cur; ct_cache := cache |}
  end.

(** ** The five-second task *)

Record proc_files := {
  pf_meminfo : option rstring;
  pf_psi : option rstring;
  pf_loadavg : option rstring;
  pf_status : Z -> option rstring }.

Definition read_proc_memory (files : proc_files) : option ProcMemFacts :=
  match pf_meminfo files with
  | None => None
  | Some meminfo =>
      let facts := parse_meminfo meminfo in
      Some match pf_psi files with
           | Some psi =>
               let '(some, full) := parse_psi psi in
               facts <| pm_psi_some_pct_x100 := some |> <| pm_psi_full_pct_x100 := full |>
           | None => facts
           end
  end.

Definition read_loadavg (files : proc_files) : option LoadSnapshot :=
  option_map parse_loadavg (pf_loadavg files).

Definition target_pids (snap : MetricSnapshot) : list Z :=
  map ps_pid (take MAX_PID_SUPPLEMENTS (top_processes snap)).

Definition supplement (files : proc_files) (pids : list Z) : gmap Z PidStatusFacts :=
  foldl (fun m pid =>
    match pf_status files pid with
    | Some s => <[pid := parse_pid_status s]> m
    | None => m
    end) ∅ pids.

(** Step (4): the [/proc]-owned fields of the shared snapshot. *)
Definition apply_facts (mem_facts : ProcMemFacts) (l : LoadSnapshot) (snap : MetricSnapshot)
    : MetricSnapshot :=
  snap <| memory ::= fun m =>
    m <| mem_total_bytes := pm_total_bytes mem_facts |>
      <| mem_free_bytes := pm_free_bytes mem_facts |>
      <| mem_cached_bytes := pm_cached_bytes mem_facts |>
      <| mem_buffered_bytes := pm_buffered_bytes mem_facts |>
      <| mem_slab_bytes := pm_slab_bytes mem_facts |>
      <| mem_swap_used_bytes := pm_swap_used_bytes mem_facts |>
      <| mem_swap_free_bytes := pm_swap_free_bytes mem_facts |>
      <| mem_psi_some_pct_x100 := pm_psi_some_pct_x100 mem_facts |>
      <| mem_psi_full_pct_x100 := pm_psi_full_pct_x100 mem_facts |> |>
       <| load := l |>.

(** One turn of the loop of [start].  The write comes after the lock was
    released and taken again, so the snapshot it changes ([snap']) need not be
    the one the pids were read from ([snap]). *)
Definition proc_tick (files : proc_files) (snap snap' : MetricSnapshot)
    (pid_cache : gmap Z PidStatusFacts) : MetricSnapshot * gmap Z PidStatusFacts :=
  match read_proc_memory files with
  | None => (snap', pid_cache)
  | Some mem_facts =>
      let l := unwrap_or LoadSnapshot_default (read_loadavg files) in
      (apply_facts mem_facts l snap', supplement files (target_pids snap))
  end.

(** ** [/proc/meminfo] *)

(** A line of the file: a [show_val_kb] line, or one without a number. *)
Inductive mem_line :=
  | KB (key : rstring) (pad : nat) (kb : Z)
  | NoValue (line : rstring).
Definition render_mem (l : mem_line) : rstring :=
  match l with
  | KB key pad kb => key ++ COLON :: repeat 32 (S pad) ++ print_u64 kb ++ lit " kB"
  | NoValue line => line
  end.
Definition mem_line_ok (l : mem_line) : Prop :=
  match l with
  | KB key pad kb => is_word key /\ last key <> Some COLON /\ is_u64 kb
  | NoValue line => line_ok line /\ next_parsed parse_u64 (tail (split_whitespace line)) = None
  end.
#[export] Instance mem_line_ok_dec l : Decision (mem_line_ok l).
Proof. destruct l; apply _. Defined.
(** What the file says of a key: its last line, in bytes. *)
Definition bytes_said (k : String.string) (rows : list mem_line) : Z :=
  foldl (fun b r =>
    match r with
    | KB key _ kb => if str_eqb key k then saturating_mul kb 1024 else b
    | NoValue _ => b
    end) 0 rows.

Lemma blank_spaces n : blank (repeat 32 n).
Proof. by apply Forall_repeat. Qed.

Lemma split_mem_row key pad kb :
  is_word key ->
  split_whitespace (render_mem (KB key pad kb)) = [key ++ [COLON]; print_u64 kb; lit "kB"].
Proof.
  intros Hk. cbn [render_mem]. change (COLON :: ?t) with ([COLON] ++ t). rewrite app_assoc.
  rewrite split_whitespace_word; [|split|done].
  - rewrite split_whitespace_blank by apply blank_spaces.
    by rewrite split_whitespace_word by (done || apply print_u64_word).
  - by destruct key.
  - apply Forall_app. split; [apply Hk|by repeat constructor].
Qed.

Lemma word_no_lf w : is_word w -> Forall (fun c => c <> LF) w.
Proof. intros [_ H]. eapply Forall_impl; [exact H|]. by intros c Hc ->. Qed.

Lemma render_mem_line l : mem_line_ok l -> line_ok (render_mem l).
Proof.
  destruct l as [key pad kb|line]; [|by intros [? _]]. intros (Hk & _ & _). split.
  - cbn [render_mem]. rewrite Forall_app, Forall_cons, !Forall_app. split_and!; try done.
    + by apply word_no_lf.
    + by apply Forall_repeat.
    + apply word_no_lf, print_u64_word.
    + by repeat constructor.
  - cbn [render_mem]. rewrite last_app_ne by done. change (COLON :: ?t) with ([COLON] ++ t).
    by rewrite !app_assoc, last_app_ne.
Qed.

(** The state of the parser's loop after some lines. *)
Definition facts_of (rows : list mem_line) : ProcMemFacts :=
  {| pm_total_bytes := bytes_said "MemTotal" rows; pm_free_bytes := bytes_said "MemFree" rows;
     pm_cached_bytes := bytes_said "Cached" rows; pm_buffered_bytes := bytes_said "Buffers" rows;
     pm_slab_bytes := bytes_said "Slab" rows; pm_swap_used_bytes := 0;
     pm_swap_free_bytes := bytes_said "SwapFree" rows;
     pm_psi_some_pct_x100 := 0; pm_psi_full_pct_x100 := 0 |}.

Lemma bytes_said_snoc k rows r : bytes_said k (rows ++ [r]) =
  match r with
  | KB key _ kb => if str_eqb key k then saturating_mul kb 1024 else bytes_said k rows
  | NoValue _ => bytes_said k rows
  end.
Proof. unfold bytes_said. by rewrite foldl_app. Qed.

Lemma str_eqb_true a b : str_eqb a b = true -> a = b.
Proof. apply bool_decide_eq_true. Qed.

(** Case analysis on which key a chain of comparisons finds. *)
Ltac each_key :=
  repeat match goal with
  | |- context [if str_eqb ?k ?s then _ else _] =>
      let E := fresh "E" in
      destruct (str_eqb k s) eqn:E; [apply str_eqb_true in E; subst k; try reflexivity|]
  end.

Lemma meminfo_loop rows :
  Forall mem_line_ok rows ->
  foldl meminfo_line (ProcMemFacts_default, 0) (map render_mem rows)
    = (facts_of rows, bytes_said "SwapTotal" rows).
Proof.
  induction rows as [|r rows IH] using rev_ind; intros Hr; [done|].
  apply Forall_app in Hr as [Hrows Hr]. apply Forall_inv in Hr.
  rewrite map_app, foldl_app, (IH Hrows). cbn [map foldl].
  unfold facts_of. rewrite !bytes_said_snoc. destruct r as [key pad kb|line].
  - destruct Hr as (Hk & Hc & Hb). unfold meminfo_line. rewrite split_mem_row by done.
    cbn [next_parsed]. unfold parse_u64. rewrite parse_print_unsigned; [|unfold is_u64, u64_max in *; lia..].
    rewrite trim_end_matches_one by done.
    by each_key.
  - destruct Hr as [_ Hn]. unfold meminfo_line. cbn [render_mem].
    destruct (split_whitespace line) as [|w ws]; [done|]. cbn [tail] in Hn. by rewrite Hn.
Qed.

(** C34: [parse_meminfo] reads the kernel's file back.  On any sequence of
    "key:   N kB" lines, with any padding, in any order, with repetitions,
    unknown keys and lines without a number in between, every fact is the last
    value of its key in bytes (saturating), zero for an absent key, and the
    used swap is total less free. *)
Theorem meminfo_parsed rows :
  Forall mem_line_ok rows ->
  let f := parse_meminfo (unlines (map render_mem rows)) in
  pm_total_bytes f = bytes_said "MemTotal" rows /\ pm_free_bytes f = bytes_said "MemFree" rows /\
  pm_cached_bytes f = bytes_said "Cached" rows /\ pm_buffered_bytes f = bytes_said "Buffers" rows /\
  pm_slab_bytes f = bytes_said "Slab" rows /\ pm_swap_free_bytes f = bytes_said "SwapFree" rows /\
  pm_swap_used_bytes f = Z.max 0 (bytes_said "SwapTotal" rows - bytes_said "SwapFree" rows) /\
  pm_psi_some_pct_x100 f = 0 /\ pm_psi_full_pct_x100 f = 0.
Proof.
  intros Hr f. subst f. unfold parse_meminfo.
  rewrite lines_unlines, meminfo_loop; [by split_and!|done|].
  rewrite Forall_map. eapply Forall_impl; [exact Hr|]. apply render_mem_line.
Qed.
Lemma meminfo_parsed_witness :
  let rows := [KB "MemTotal" 7 16000000; NoValue "MemFree:        garbage"; KB "SwapFree" 0 3;
               KB "SwapTotal" 2 10] in
  let f := parse_meminfo (unlines (map render_mem rows)) in
  pm_total_bytes f = 16384000000 /\ pm_free_bytes f = 0 /\ pm_swap_used_bytes f = 7168.
Proof.
  intros rows f.
  destruct (meminfo_parsed rows) as (H1 & H2 & _ & _ & _ & _ & H3 & _); [|by repeat split].
  repeat (apply Forall_cons; split; [decide_now|]). constructor.
Defined.

(** ** [/proc/<pid>/status] *)

(** A "Key:\t  N unit" line, or any line with another key or none. *)
Inductive status_line :=
  | Field (key : rstring) (pad : nat) (v : Z) (unit : rstring)
  | Text (line : rstring).
Definition render_status (l : status_line) : rstring :=
  match l with
  | Field key pad v unit => key ++ COLON :: 9 :: repeat 32 pad ++ print_u64 v ++ unit
  | Text line => line
  end.
Definition status_keys : list rstring := [lit "VmRSS"; lit "VmSize"; lit "Threads"].
Definition status_line_ok (l : status_line) : Prop :=
  match l with
  | Field key _ v unit =>
      Forall (fun c => c <> COLON /\ c <> LF) key /\ ends_word unit /\ Forall (fun c => c <> LF) unit /\
      last unit <> Some CR /\ is_u64 v /\ (key = lit "Threads" -> is_u32 v)
  | Text line =>
      line_ok line /\
      match split_once COLON line with Some (key, _) => key ∉ status_keys | None => True end
  end.
#[export] Instance status_line_ok_dec l : Decision (status_line_ok l).
Proof. destruct l; cbn [status_line_ok]; [apply _|]. case_match; [destruct p|]; apply _. Defined.

(** What the file says of a key: its last line. *)
Definition field_of (k : String.string) (rows : list status_line) : Z :=
  foldl (fun n r =>
    match r with Field key _ v _ => if str_eqb key k then v else n | Text _ => n end) 0 rows.

Lemma field_of_snoc k rows r : field_of k (rows ++ [r]) =
  match r with Field key _ v _ => if str_eqb key k then v else field_of k rows | Text _ => field_of k rows end.
Proof. unfold field_of. by rewrite foldl_app. Qed.

Lemma render_status_line l : status_line_ok l -> line_ok (render_status l).
Proof.
  destruct l as [key pad v unit|line]; [|by intros [? _]]. intros (Hk & _ & Hu & Hcr & _). split.
  - cbn [render_status]. rewrite Forall_app, !Forall_cons, !Forall_app. split_and!; try done.
    + eapply Forall_impl; [exact Hk|]. by intros c [_ ?].
    + by apply Forall_repeat.
    + apply word_no_lf, print_u64_word.
  - cbn [render_status]. rewrite last_app_ne by done.
    change (COLON :: 9 :: ?t) with ([COLON; 9] ++ t). rewrite !app_assoc.
    destruct unit as [|u unit]; [|by rewrite last_app_ne].
    rewrite app_nil_r, last_app_ne by apply print_u64_word.
    intros Hl. apply last_Some_elem_of in Hl. destruct (print_u64_word v) as [_ Hw].
    rewrite Forall_forall in Hw. by specialize (Hw CR Hl).
Qed.

Lemma split_status_row pad v unit :
  ends_word unit ->
  split_whitespace (9 :: repeat 32 pad ++ print_u64 v ++ unit) = print_u64 v :: split_whitespace unit.
Proof.
  intros Hu. change (9 :: ?t) with ([9] ++ t). rewrite (split_whitespace_blank [9]) by by repeat constructor.
  rewrite split_whitespace_blank by apply blank_spaces.
  apply split_whitespace_word; [apply print_u64_word|done].
Qed.

Definition status_facts (rows : list status_line) : PidStatusFacts :=
  {| pid_rss_bytes := saturating_mul (field_of "VmRSS" rows) 1024;
     pid_vms_bytes := saturating_mul (field_of "VmSize" rows) 1024;
     pid_thread_count := field_of "Threads" rows |}.

(** [parse_pid_status] reads the kernel's file back.  On any lines, in any
    order, the resident and virtual sizes are the last "VmRSS" and "VmSize"
    values in bytes and the thread count the last "Threads" value; a key that
    is absent, as for a kernel thread, gives zero, and every other line,
    whatever its text, is ignored. *)
Theorem pid_status_parsed rows :
  Forall status_line_ok rows ->
  parse_pid_status (unlines (map render_status rows)) = status_facts rows.
Proof.
  intros Hr. unfold parse_pid_status. rewrite lines_unlines.
  2: { rewrite Forall_map. eapply Forall_impl; [exact Hr|]. apply render_status_line. }
  induction rows as [|r rows IH] using rev_ind; [done|].
  apply Forall_app in Hr as [Hrows Hr]. apply Forall_inv in Hr.
  rewrite map_app, foldl_app, (IH Hrows). cbn [map foldl]. unfold status_facts, pid_status_line.
  rewrite !field_of_snoc. destruct r as [key pad v unit|line]; cbn [render_status].
  - destruct Hr as (Hk & Hu & _ & _ & Hv & Ht). rewrite split_once_found.
    2: { eapply Forall_impl; [exact Hk|]. by intros c [? _]. }
    rewrite split_status_row by done. cbn [next_parsed]. unfold parse_u64, parse_u32, is_u64, is_u32 in *.
    rewrite parse_print_unsigned; [|unfold u64_max; lia|done].
    each_key; [|done]. rewrite parse_print_unsigned; [done|specialize (Ht eq_refl)|]; unfold u32_max, u64_max; lia.
  - destruct Hr as [_ Hn]. destruct (split_once COLON line) as [[key rest]|]; [|done].
    each_key; [exfalso; apply Hn; repeat constructor..|done].
Qed.
Lemma pid_status_parsed_witness :
  let file := [Text (lit "Name:" ++ 9 :: lit "a:b"); Field (lit "VmSize") 2 380000 (lit " kB");
               Field (lit "Threads") 0 4 []; Text (lit "State")] in
  parse_pid_status (unlines (map render_status file))
    = {| pid_rss_bytes := 0; pid_vms_bytes := 389120000; pid_thread_count := 4 |}.
Proof.
  intros file. rewrite (pid_status_parsed file); [reflexivity|].
  repeat (apply Forall_cons; split; [decide_now|]). constructor.
Defined.

(** ** [/proc/pressure/memory] and [/proc/loadavg] *)

(** "some avg10=V rest", [v] in hundredths of a percent. *)
Definition psi_row (tag : String.string) (v : Z) (rest : rstring) : rstring :=
  lit tag ++ 32 :: lit "avg10=" ++ fixed2 v ++ rest.
(** The remainder of a line, after a word. *)
Definition line_tail (rest : rstring) : Prop :=
  ends_word rest /\ Forall (fun c => c <> LF) rest /\ last rest <> Some CR.

Lemma psi_row_split tag v rest :
  0 <= v -> is_word (lit tag) -> line_tail rest ->
  split_whitespace (psi_row tag v rest)
    = lit tag :: (lit "avg10=" ++ fixed2 v) :: split_whitespace rest.
Proof.
  intros Hv Ht (Hr & _ & _). unfold psi_row. rewrite split_whitespace_word by done.
  change (32 :: ?t) with ([32] ++ t). rewrite (split_whitespace_blank [32]) by by repeat constructor.
  rewrite app_assoc, split_whitespace_word; [done| |done].
  split; [done|]. apply Forall_app. split; [by repeat constructor|by apply fixed2_word].
Qed.

Lemma psi_row_line tag v rest :
  0 <= v -> is_word (lit tag) -> line_tail rest -> line_ok (psi_row tag v rest).
Proof.
  intros Hv Ht (_ & Hr & Hcr). unfold psi_row. split.
  - rewrite Forall_app, Forall_cons, !Forall_app. split_and!; try done.
    + by apply word_no_lf.
    + by repeat constructor.
    + by apply word_no_lf, fixed2_word.
  - rewrite last_app_ne by done. change (32 :: ?t) with ([32] ++ t). rewrite !app_assoc.
    destruct rest as [|c rest]; [|by rewrite last_app_ne].
    rewrite app_nil_r, last_app_ne by by apply fixed2_word.
    intros Hl. apply last_Some_elem_of in Hl. destruct (fixed2_word v Hv) as [_ Hw].
    rewrite Forall_forall in Hw. by specialize (Hw CR Hl).
Qed.

(** A percentage of two decimals is stored to within one hundredth below. *)
Definition stored_pct (v : Z) : Z := f64_as_u32 (f64_mul (f64_of_decimal false v (-2)) (f64_of_u64 100)).

Lemma psi_x100_fixed2 v : 0 <= v < 10 ^ 20 -> psi_x100 (fixed2 v) = stored_pct v.
Proof. intros Hv. unfold psi_x100. by rewrite parse_fixed2. Qed.

Lemma stored_pct_near v : 0 <= v <= 10_000 -> v - 1 <= stored_pct v <= v.
Proof.
  intros Hv. assert (forallb (fun n => let v := Z.of_nat n in
    (v - 1 <=? stored_pct v) && (stored_pct v <=? v)) (seq 0 (Z.to_nat 10_001)) = true) as H
    by (vm_compute; reflexivity).
  rewrite forallb_forall in H. specialize (H (Z.to_nat v)).
  rewrite Z2Nat.id in H by lia. cbv zeta in H. apply andb_prop in H; [lia|].
  apply in_seq. lia.
Qed.

(** [parse_psi] reads the kernel's two rows: each average, a percentage of
    two decimals up to 100.00, arrives as its number of hundredths or one
    less; without the file's rows both are zero. *)
Theorem psi_parsed some full rest1 rest2 :
  0 <= some <= 10_000 -> 0 <= full <= 10_000 -> line_tail rest1 -> line_tail rest2 ->
  let '(s, f) := parse_psi (unlines [psi_row "some" some rest1; psi_row "full" full rest2]) in
  some - 1 <= s <= some /\ full - 1 <= f <= full /\ parse_psi [] = (0, 0).
Proof.
  intros Hs Hf Hr1 Hr2. unfold parse_psi.
  assert (is_word (lit "some") /\ is_word (lit "full")) as [Hw1 Hw2] by (split; decide_now).
  rewrite lines_unlines by (repeat (apply Forall_cons; split; [apply psi_row_line; done || lia|]); constructor).
  cbn [foldl]. unfold psi_line. rewrite !psi_row_split by (done || lia).
  cbn [nth]. rewrite !strip_prefix_app, !psi_x100_fixed2 by lia. cbn [fst snd].
  change (str_eqb (lit "some") (lit "some")) with true.
  change (str_eqb (lit "full") (lit "some")) with false.
  change (str_eqb (lit "full") (lit "full")) with true. cbn iota.
  pose proof (stored_pct_near some Hs). pose proof (stored_pct_near full Hf). done.
Qed.
Lemma psi_parsed_witness :
  let file := unlines [psi_row "some" 1234 (lit " avg60=0.50 avg300=0.20 total=123456");
                       psi_row "full" 29 (lit " avg60=0.00 avg300=0.00 total=654321")] in
  let '(s, f) := parse_psi file in s = 1234 /\ 28 <= f <= 29.
Proof.
  pose proof (psi_parsed 1234 29 (lit " avg60=0.50 avg300=0.20 total=123456")
    (lit " avg60=0.00 avg300=0.00 total=654321") ltac:(lia) ltac:(lia)
    ltac:(decide_now) ltac:(decide_now)) as H.
  vm_compute in H |- *. split; [reflexivity|apply H].
Defined.

(** The truncation of [(parsed * 100.0) as u32]: 0.29 is stored as 28. *)
Theorem psi_truncated :
  parse_psi (unlines [psi_row "some" 29 []; psi_row "full" 1234 []]) = (28, 1234).
Proof. vm_compute. reflexivity. Qed.

(** The load averages are the binary64 numbers nearest to those printed. *)
Lemma loadavg_parsed a b c rest :
  0 <= a < 10 ^ 20 -> 0 <= b < 10 ^ 20 -> 0 <= c < 10 ^ 20 -> ends_word rest ->
  parse_loadavg (fixed2 a ++ spaced [fixed2 b; fixed2 c] ++ rest) =
    {| load_1 := f64_of_decimal false a (-2); load_5 := f64_of_decimal false b (-2);
       load_15 := f64_of_decimal false c (-2) |}.
Proof.
  intros Ha Hb Hc Hr. unfold parse_loadavg.
  rewrite split_whitespace_word by (done || apply fixed2_word; lia).
  rewrite split_whitespace_spaced; [|repeat constructor; apply fixed2_word; lia|done].
  cbn [app lookup list_lookup]. unfold load_field. by rewrite !parse_fixed2 by done.
Qed.

(** ** [/proc/stat] *)

(** A "cpuN ..." line, with the fields after the seventh, or another line:
    the "cpu " aggregate, "intr", "ctxt", ... *)
Inductive stat_row :=
  | CpuRow (id : Z) (j : CpuJiffies) (extra : list Z)
  | OtherRow (line : rstring).
Definition jiffy_fields (j : CpuJiffies) : list Z :=
  [j_user j; j_nice j; j_system j; j_idle j; j_iowait j; j_irq j; j_softirq j].
Definition render_stat (r : stat_row) : rstring :=
  match r with
  | CpuRow id j extra => lit "cpu" ++ print_u64 id ++ spaced (map print_u64 (jiffy_fields j ++ extra))
  | OtherRow line => line
  end.
Definition stat_row_ok (r : stat_row) : Prop :=
  match r with
  | CpuRow _ j extra => Forall is_u64 (jiffy_fields j ++ extra)
  | OtherRow line =>
      line_ok line /\
      match strip_prefix "cpu" line with Some (c :: _) => is_ascii_digit c = false | _ => True end
  end.
#[export] Instance stat_row_ok_dec r : Decision (stat_row_ok r).
Proof. destruct r; cbn [stat_row_ok]; [apply _|]. repeat case_match; apply _. Defined.
Definition stat_file (rows : list stat_row) : rstring := unlines (map render_stat rows).
Definition row_jiffies (r : stat_row) : option CpuJiffies :=
  match r with CpuRow _ j _ => Some j | OtherRow _ => None end.

Lemma parse_printed l : Forall is_u64 l -> omap parse_u64 (map print_u64 l) = l.
Proof.
  induction 1 as [|n l Hn Hl IH]; [done|]. cbn [map omap list_omap].
  unfold parse_u64 at 1. rewrite parse_print_unsigned; [|unfold is_u64, u64_max in *; lia..].
  f_equal. exact IH.
Qed.

Lemma Forall_words l : Forall is_word (map print_u64 l).
Proof. induction l; constructor; [apply print_u64_word|done]. Qed.

Lemma spaced_ok ws : Forall is_word ws -> Forall (fun c => c <> LF) (spaced ws) /\ last (spaced ws) <> Some CR.
Proof.
  intros Hws. split.
  - induction Hws as [|w ws Hw Hws IH]; [done|]. unfold spaced in *. cbn [map concat].
    apply Forall_app. split; [|done]. constructor; [done|by apply word_no_lf].
  - destruct ws as [|w ws _] using rev_ind; [done|].
    apply Forall_app in Hws as [_ Hw]. apply Forall_inv in Hw as [Hne Hw].
    unfold spaced. rewrite map_app, concat_app. cbn [map concat]. rewrite app_nil_r.
    change (32 :: w) with ([32] ++ w). rewrite app_assoc, last_app_ne by done.
    intros Hl. apply last_Some_elem_of in Hl. rewrite Forall_forall in Hw. by specialize (Hw CR Hl).
Qed.

Lemma render_stat_line r : stat_row_ok r -> line_ok (render_stat r).
Proof.
  destruct r as [id j extra|line]; [|by intros [? _]]. intros _. cbn [render_stat].
  pose proof (spaced_ok _ (Forall_words (jiffy_fields j ++ extra))) as [H1 H2]. split.
  - rewrite !Forall_app. split_and!; [by repeat constructor|apply word_no_lf, print_u64_word|done].
  - rewrite app_assoc, last_app_ne by done. done.
Qed.

Lemma stat_line_row r : stat_row_ok r -> stat_line (render_stat r) = row_jiffies r.
Proof.
  destruct r as [id j extra|line]; cbn [render_stat row_jiffies stat_row_ok]; intros Hr; unfold stat_line.
  - rewrite strip_prefix_app. destruct (print_digits_cons 19 id []) as (c & s & E & Hc).
    assert (head (print_u64 id ++ spaced (map print_u64 (jiffy_fields j ++ extra))) = Some c) as ->.
    { unfold print_u64 at 1. by rewrite E. }
    cbn [unwrap_or]. rewrite Hc. cbn [negb].
    rewrite split_whitespace_word; [|apply print_u64_word|done].
    rewrite <- (app_nil_r (spaced _)), split_whitespace_spaced; [|apply Forall_words|done].
    cbn [split_whitespace]. rewrite app_nil_r. change (drop 1 (?x :: ?l)) with l. rewrite parse_printed by done.
    cbn [jiffy_fields app]. by destruct j.
  - destruct Hr as [_ Hr]. destruct (strip_prefix "cpu" line) as [[|c rest]|]; [done| |done].
    cbn [head unwrap_or]. by rewrite Hr.
Qed.

(** [parse_proc_stat] gives one entry per "cpuN" line, in file order. *)
Lemma proc_stat_parsed rows :
  Forall stat_row_ok rows -> parse_proc_stat (stat_file rows) = omap row_jiffies rows.
Proof.
  intros Hr. unfold parse_proc_stat, stat_file. rewrite lines_unlines.
  - induction Hr as [|r rows Hr Hrows IH]; [done|]. cbn [map omap list_omap].
    rewrite (stat_line_row r Hr). case_match; [f_equal|]; apply IH.
  - rewrite Forall_map. eapply Forall_impl; [exact Hr|]. apply render_stat_line.
Qed.

(** ** Utilization between two readings *)

(** The counters of one CPU only grew, and their time fits in a [u64]. *)
Definition comparable (ns : Z) (p c : CpuJiffies) : Prop :=
  Forall2 (fun x y => 0 <= x <= y) (jiffy_fields p) (jiffy_fields c) /\
  zsum (jiffy_fields c) * ns < 2 ^ 64.
#[export] Instance comparable_dec ns p c : Decision (comparable ns p c) := _.

Definition elapsed (ns : Z) (id : Z) (p c : CpuJiffies) : CpuUtilDelta :=
  {| cu_cpu_id := id;
     cu_user_ns := (j_user c - j_user p + (j_nice c - j_nice p)) * ns;
     cu_system_ns := (j_system c - j_system p + (j_irq c - j_irq p) + (j_softirq c - j_softirq p)) * ns;
     cu_iowait_ns := (j_iowait c - j_iowait p) * ns;
     cu_idle_ns := (j_idle c - j_idle p) * ns |}.

Lemma cpu_delta_exact ns i p c :
  0 < ns -> Z.of_nat i < 2 ^ 32 -> comparable ns p c -> cpu_delta ns i c p = elapsed ns (Z.of_nat i) p c.
Proof.
  destruct p, c. unfold comparable, jiffy_fields. cbn [j_user j_nice j_system j_idle j_iowait j_irq j_softirq].
  intros Hns Hi [Hf Hs]. unfold zsum in Hs. cbn [foldr] in Hs.
  repeat match goal with H : Forall2 _ (_ :: _) _ |- _ => apply Forall2_cons in H as [? H] end.
  unfold cpu_delta, elapsed. cbn [j_user j_nice j_system j_idle j_iowait j_irq j_softirq].
  rewrite as_u32_small by (unfold is_u32; lia).
  unfold saturating_mul, saturating_sub, saturating_add, u64_max.
  f_equal; rewrite !Z.min_r, ?Z.max_r; nia.
Qed.

Lemma ns_per_jiffy_pos hz : 0 < hz <= 1_000_000_000 -> 0 < ns_per_jiffy hz.
Proof. intros Hhz. unfold ns_per_jiffy. destruct (Z.leb_spec hz 0); [lia|]. apply Z.div_str_pos. lia. Qed.

(** Position by position. *)
Lemma positions_measured hz rows1 rows2 st :
  0 < hz <= 1_000_000_000 -> Forall stat_row_ok rows1 -> Forall stat_row_ok rows2 ->
  let ns := ns_per_jiffy hz in
  let prev := omap row_jiffies rows1 in
  let cur := omap row_jiffies rows2 in
  prev <> [] ->
  let st1 := cpu_stat_tick ns (Some (stat_file rows1)) st in
  let st2 := cpu_stat_tick ns (Some (stat_file rows2)) st1 in
  (length cur = length prev ->
   length (ct_cache st2) = length cur /\
   forall i p c, prev !! i = Some p -> cur !! i = Some c -> Z.of_nat i < 2 ^ 32 -> comparable ns p c ->
     ct_cache st2 !! i = Some (elapsed ns (Z.of_nat i) p c)) /\
  (length cur <> length prev -> ct_cache st2 = []) /\
  cpu_stat_tick ns None st2 = st2.
Proof.
  intros Hhz H1 H2 ns prev cur Hne st1 st2. pose proof (ns_per_jiffy_pos hz Hhz) as Hns.
  subst st2 st1. unfold cpu_stat_tick. cbn [ct_prev ct_cache]. rewrite !proc_stat_parsed by done.
  fold prev cur. rewrite bool_decide_eq_false_2 by done. cbn [negb andb]. split_and!; [| |done].
  - intros Hlen. rewrite (proj2 (Nat.eqb_eq _ _) Hlen). split.
    + rewrite length_imap, length_zip_with. lia.
    + intros i p c Hp Hc Hi Hcmp. rewrite list_lookup_imap, lookup_zip_with, Hp, Hc. cbn.
      by rewrite cpu_delta_exact.
  - intros Hlen. by rewrite (proj2 (Nat.eqb_neq _ _) Hlen).
Qed.

(** The CPUs of a file, by the N of their "cpuN" lines. *)
Definition cpus (rows : list stat_row) : list (Z * CpuJiffies) :=
  omap (fun r => match r with CpuRow id j _ => Some (id, j) | OtherRow _ => None end) rows.
(** All of CPUs 0 to n - 1, in order: none is offline. *)
Definition all_online (n : nat) (rows : list stat_row) : Prop := map fst (cpus rows) = seqZ 0 (Z.of_nat n).

Lemma cpus_jiffies rows : omap row_jiffies rows = map snd (cpus rows).
Proof. induction rows as [|[] rows IH]; cbn; by rewrite ?IH. Qed.
Lemma all_online_length n rows : all_online n rows -> length (cpus rows) = n.
Proof. intros H. rewrite <- (length_map fst), H, length_seqZ. lia. Qed.
Lemma all_online_lookup n rows id j :
  all_online n rows -> (id, j) ∈ cpus rows -> 0 <= id < Z.of_nat n /\ omap row_jiffies rows !! Z.to_nat id = Some j.
Proof.
  intros H (i & Hi)%list_elem_of_lookup. rewrite cpus_jiffies.
  assert (map fst (cpus rows) !! i = Some id) as Hf by (change (map ?f ?l) with (f <$> l); by rewrite list_lookup_fmap, Hi).
  rewrite H in Hf. apply lookup_seqZ in Hf as [-> Hlt]. rewrite Z.add_0_l, Nat2Z.id. split; [lia|].
  change (map ?f ?l) with (f <$> l). by rewrite list_lookup_fmap, Hi.
Qed.
Lemma map_imap_seqZ {A B} (f : nat -> A -> B) (g : B -> Z) l :
  (forall i x, l !! i = Some x -> g (f i x) = Z.of_nat i) -> map g (imap f l) = seqZ 0 (Z.of_nat (length l)).
Proof.
  intros Hf. apply list_eq. intros i. change (map ?f ?l) with (f <$> l). rewrite list_lookup_fmap, list_lookup_imap.
  destruct (l !! i) as [x|] eqn:Hx; cbn.
  - rewrite Hf by done. symmetry. apply lookup_seqZ. apply lookup_lt_Some in Hx. lia.
  - symmetry. apply lookup_seqZ_ge. apply lookup_ge_None in Hx. lia.
Qed.

(** C35: the utilization cache holds the exact time each CPU spent between two
    readings of [/proc/stat].  While the files list CPUs 0 to n - 1 in order,
    as they do when none of them is offline, after readings of [rows1] and then
    [rows2] the cache has one entry per CPU, in order, and the entry of CPU [id]
    is the growth of the counters of the lines "cpu[id]" at [1e9 / HZ]
    nanoseconds per jiffy; if the number of CPUs changed the cache is emptied
    instead of keeping stale values, and a failed read changes nothing.  (With
    CPUs offline the entries are numbered by position:
    [cpu_rows_numbered_by_position].) *)
Theorem cpu_utilization_measured hz rows1 rows2 st n :
  0 < hz <= 1_000_000_000 -> Forall stat_row_ok rows1 -> Forall stat_row_ok rows2 ->
  all_online n rows1 -> 0 < Z.of_nat n < 2 ^ 32 ->
  let ns := ns_per_jiffy hz in
  let st1 := cpu_stat_tick ns (Some (stat_file rows1)) st in
  let st2 := cpu_stat_tick ns (Some (stat_file rows2)) st1 in
  (all_online n rows2 ->
   map cu_cpu_id (ct_cache st2) = seqZ 0 (Z.of_nat n) /\
   forall id p c, (id, p) ∈ cpus rows1 -> (id, c) ∈ cpus rows2 -> comparable ns p c ->
     ct_cache st2 !! Z.to_nat id = Some (elapsed ns id p c)) /\
  (length (cpus rows2) <> n -> ct_cache st2 = []) /\
  cpu_stat_tick ns None st2 = st2.
Proof.
  intros Hhz H1 H2 Hn1 Hn ns st1 st2. pose proof (all_online_length _ _ Hn1) as Hl1.
  destruct (positions_measured hz rows1 rows2 st Hhz H1 H2) as (Hsame & Hdiff & Hfail).
  { rewrite cpus_jiffies. destruct (cpus rows1); [cbn in Hl1; lia|done]. }
  rewrite !cpus_jiffies, !length_map in Hsame, Hdiff. split_and!; [|intros Hne; apply Hdiff; lia|exact Hfail].
  intros Hn2. pose proof (all_online_length _ _ Hn2) as Hl2. destruct Hsame as [Hlen Hpos]; [lia|]. split.
  - subst st2 st1. unfold cpu_stat_tick. cbn [ct_prev ct_cache]. rewrite !proc_stat_parsed, !cpus_jiffies by done.
    rewrite bool_decide_eq_false_2 by (destruct (cpus rows1); [cbn in Hl1; lia|done]). cbn [negb andb].
    rewrite !length_map, (proj2 (Nat.eqb_eq _ _)) by lia. cbn [ct_cache].
    rewrite map_imap_seqZ; [f_equal; rewrite length_zip_with, !length_map; lia|].
    intros i x Hx. apply lookup_lt_Some in Hx. rewrite length_zip_with, !length_map in Hx.
    cbn. apply as_u32_small. unfold is_u32. lia.
  - intros id p c Hp Hc Hcmp. destruct (all_online_lookup _ _ _ _ Hn1 Hp) as [Hid Hp'].
    destruct (all_online_lookup _ _ _ _ Hn2 Hc) as [_ Hc']. rewrite cpus_jiffies in Hp', Hc'.
    rewrite (Hpos _ p c) by (done || lia). by rewrite Z2Nat.id by lia.
Qed.
Lemma cpu_utilization_measured_witness :
  let j u i := {| j_user := u; j_nice := 0; j_system := 7; j_idle := i; j_iowait := 0; j_irq := 1; j_softirq := 2 |} in
  let rows1 := [OtherRow "cpu  1 2 3"; CpuRow 0 (j 100 50) [0; 0; 0]; CpuRow 1 (j 5 900) []; OtherRow "intr 9"] in
  let rows2 := [OtherRow "cpu  1 2 3"; CpuRow 0 (j 130 120) [0; 0; 0]; CpuRow 1 (j 5 1000) []; OtherRow "intr 9"] in
  let tick rows := cpu_stat_tick (ns_per_jiffy 100) (Some (stat_file rows)) in
  ct_cache (tick rows2 (tick rows1 {| ct_prev := []; ct_cache := [] |})) !! 0%nat
    = Some {| cu_cpu_id := 0; cu_user_ns := 300_000_000; cu_system_ns := 0; cu_iowait_ns := 0;
              cu_idle_ns := 700_000_000 |}.
Proof.
  intros j rows1 rows2 tick.
  destruct (cpu_utilization_measured 100 rows1 rows2 {| ct_prev := []; ct_cache := [] |} 2) as [H _];
    [lia|repeat (apply Forall_cons; split; [decide_now|]); constructor..|reflexivity|lia|].
  destruct (H eq_refl) as [_ Hid].
  assert ((0, j 100 50) ∈ cpus rows1) as Hp by left. assert ((0, j 130 120) ∈ cpus rows2) as Hc by left.
  assert (comparable (ns_per_jiffy 100) (j 100 50) (j 130 120)) as Hcmp by decide_now.
  pose proof (Hid 0 (j 100 50) (j 130 120) Hp Hc Hcmp) as He. rewrite Z2Nat.inj_0 in He. exact He.
Defined.

(** The rows are numbered by position, not by the N of "cpuN", and compared
    whenever their number is unchanged: after CPU 1 goes offline and CPU 2
    comes online between two readings, the cache shows CPU 2's counters less
    CPU 1's as the utilization of a CPU 1 that does not run. *)
Theorem cpu_rows_numbered_by_position :
  let j u := {| j_user := u; j_nice := 0; j_system := 0; j_idle := 0; j_iowait := 0; j_irq := 0; j_softirq := 0 |} in
  let tick rows := cpu_stat_tick (ns_per_jiffy 100) (Some (stat_file rows)) in
  map (fun d => (cu_cpu_id d, cu_user_ns d))
    (ct_cache (tick [CpuRow 0 (j 10) []; CpuRow 2 (j 5000) []]
      (tick [CpuRow 0 (j 10) []; CpuRow 1 (j 20) []] {| ct_prev := []; ct_cache := [] |})))
  = [(0, 0); (1, 49_800_000_000)].
Proof. vm_compute. reflexivity. Qed.

(** ** The two writers of the snapshot *)

Inductive snapshot_write :=
  | BpfWrite (sample : BpfSample)
  | ProcWrite (mem_facts : ProcMemFacts) (l : LoadSnapshot).
Definition apply_write (snap : MetricSnapshot) (w : snapshot_write) : MetricSnapshot :=
  match w with
  | BpfWrite sample => apply_sample sample snap
  | ProcWrite mem_facts l => apply_facts mem_facts l snap
  end.
Definition bpf_writes (ws : list snapshot_write) : list BpfSample :=
  omap (fun w => match w with BpfWrite s => Some s | _ => None end) ws.
Definition proc_writes (ws : list snapshot_write) : list (ProcMemFacts * LoadSnapshot) :=
  omap (fun w => match w with ProcWrite f l => Some (f, l) | _ => None end) ws.

Lemma apply_sample_twice s s' snap : apply_sample s (apply_sample s' snap) = apply_sample s snap.
Proof. by destruct snap as [? []]. Qed.
Lemma apply_facts_twice f l f' l' snap : apply_facts f l (apply_facts f' l' snap) = apply_facts f l snap.
Proof. by destruct snap as [? []]. Qed.
Lemma writes_commute s f l snap :
  apply_sample s (apply_facts f l snap) = apply_facts f l (apply_sample s snap).
Proof. by destruct snap as [? []]. Qed.

(** The aggregator and the [/proc] task do not clobber each other.  After
    any interleaving of their writes the snapshot is the initial one with the
    last aggregator sample and the last [/proc] facts applied: it depends on
    neither the order nor the number of the writes before. *)
Theorem writers_do_not_clobber ws snap :
  foldl apply_write snap ws =
    let snap := match last (bpf_writes ws) with Some s => apply_sample s snap | None => snap end in
    match last (proc_writes ws) with Some (f, l) => apply_facts f l snap | None => snap end.
Proof.
  cbv zeta. induction ws as [|w ws IH] using rev_ind; [done|].
  rewrite foldl_app, IH. unfold bpf_writes, proc_writes in *. rewrite !omap_app.
  destruct w as [s|f l]; cbn [foldl apply_write omap list_omap]; rewrite last_snoc, app_nil_r.
  - destruct (last (omap _ ws)) as [[f l]|]; destruct (last (omap _ ws)) as [s'|];
      by rewrite ?writes_commute, ?apply_sample_twice.
  - destruct (last (omap (fun w => match w with ProcWrite f l => Some (f, l) | _ => None end) ws))
      as [[f' l']|]; by rewrite ?apply_facts_twice.
Qed.

(** ** The pid supplements *)

Lemma supplement_lookup files pids pid :
  supplement files pids !! pid
    = if decide (pid ∈ pids) then parse_pid_status <$> pf_status files pid else None.
Proof.
  unfold supplement. induction pids as [|p pids IH] using rev_ind; [done|].
  rewrite foldl_app. cbn [foldl]. destruct (decide (pid = p)) as [->|Hne].
  - rewrite decide_True by set_solver.
    destruct (pf_status files p) as [s|]; [by rewrite lookup_insert_eq|]. rewrite IH. by case_decide.
  - destruct (pf_status files p) as [s|]; rewrite ?lookup_insert_ne, IH by done;
      repeat case_decide; set_solver.
Qed.

Lemma supplement_size files pids : (size (supplement files pids) <= length pids)%nat.
Proof.
  unfold supplement. induction pids as [|p pids IH] using rev_ind; [done|].
  rewrite foldl_app, length_app. cbn [foldl length].
  destruct (pf_status files p) as [s|]; [rewrite map_size_insert; case_match; cbn [Nat.pred]|]; cbn; lia.
Qed.

(** One turn of the [/proc] task.  When [/proc/meminfo] cannot be read
    nothing changes, neither the snapshot nor the pid cache.  Otherwise the
    new cache holds exactly the processes among the first hundred of the
    snapshot whose status file could be read, at most a hundred, each with its
    parsed facts; the [bpf]-owned fields of the snapshot that is written keep
    their value even when they changed since the pids were read. *)
Theorem proc_tick_supplements files snap snap' cache :
  let '(snap2, cache2) := proc_tick files snap snap' cache in
  (pf_meminfo files = None -> snap2 = snap' /\ cache2 = cache) /\
  (pf_meminfo files <> None ->
   (size cache2 <= MAX_PID_SUPPLEMENTS)%nat /\
   (forall pid facts, cache2 !! pid = Some facts <->
      pid ∈ map ps_pid (take MAX_PID_SUPPLEMENTS (top_processes snap)) /\
      exists s, pf_status files pid = Some s /\ facts = parse_pid_status s) /\
   forall sample, apply_sample sample snap2 = apply_facts
     (unwrap_or ProcMemFacts_default (read_proc_memory files))
     (unwrap_or LoadSnapshot_default (read_loadavg files)) (apply_sample sample snap')).
Proof.
  unfold proc_tick, read_proc_memory. destruct (pf_meminfo files) as [s|]; [|done].
  split; [done|]. intros _. split_and!.
  - trans (length (target_pids snap)).
    + apply supplement_size.
    + unfold target_pids. rewrite length_map, length_take. lia.
  - intros pid facts. rewrite supplement_lookup. unfold target_pids.
    case_decide; [|naive_solver]. rewrite fmap_Some. naive_solver.
  - intros sample. apply writes_commute.
Qed.
Lemma proc_tick_supplements_witness :
  let file := lit "Threads: 3" in
  let files := {| pf_meminfo := Some (lit "MemTotal: 1 kB"); pf_psi := None; pf_loadavg := None;
                  pf_status := fun pid => if pid =? 7 then Some file else None |} in
  let snap := MetricSnapshot_default <| top_processes := [ProcessStats_zeroed <| ps_pid := 7 |>;
                ProcessStats_zeroed <| ps_pid := 8 |>] |> in
  (proc_tick files snap snap ∅).2 !! 7 = Some (parse_pid_status file).
Proof.
  intros file files snap.
  pose proof (proc_tick_supplements files snap snap ∅) as H.
  destruct (proc_tick files snap snap ∅) as [snap2 cache2].
  destruct H as [_ H]. destruct (H ltac:(done)) as (_ & Hc & _).
  apply Hc. split; [decide_now|]. by exists file.
Defined.
