(* ===== verification/Shm.v ===== *)
(** [shm.rs], the snapshot side: the conversion of the shared snapshot into the
    fixed-size [MetricSnapshotV3] and the writer task that publishes it, down
    to what a reader of the segment decodes.  The seqlock itself is in
    [Seqlock.v]. *)
From Stdlib Require Import SpecFloat.
From S2P Require Import Prelude Text Float Types Layout Pods Seqlock Bpf Metrics TimeBase Bandwidth Aggregator ProcTier.

Definition fixed_sched (s : SchedSnapshot) : SchedSnapshotFixed :=
  {| ssf_histogram := histogram s; ssf_p50_ns := p50_ns s; ssf_p95_ns := p95_ns s; ssf_p99_ns := p99_ns s |}.

(** [dst[..n].copy_from_slice(&src[..n])]. *)
Definition copy_prefix {A} (n : nat) (src dst : list A) : list A := take n src ++ drop n dst.

Definition overlay_cpu (cu : CpuUtilDelta) (core : CpuStats) : CpuStats :=
  core <| cpu_cpu_id := cu_cpu_id cu |> <| cpu_user_ns := cu_user_ns cu |>
       <| cpu_system_ns := cu_system_ns cu |> <| cpu_iowait_ns := cu_iowait_ns cu |>
       <| cpu_idle_ns := cu_idle_ns cu |>.
(** The loop over [cpu_util.iter().enumerate()], left at [cpu_count]. *)
Definition overlay_cores (cpu_count : nat) (cpu_util : list CpuUtilDelta) (cores : list CpuStats)
    : list CpuStats :=
  foldl (fun cores icu => alter (overlay_cpu icu.2) icu.1 cores) cores
    (take cpu_count (imap pair cpu_util)).

Definition overlay_row (facts : gmap Z PidStatusFacts) (src : ProcessStats) : ProcessStats :=
  match facts !! ps_pid src with
  | Some f => src <| ps_mem_rss_bytes := pid_rss_bytes f |> <| ps_mem_vms_bytes := pid_vms_bytes f |>
                  <| ps_thread_count := pid_thread_count f |>
  | None => src
  end.

Definition build_v3 (v1 : MetricSnapshot) (facts : gmap Z PidStatusFacts) (cpu_util : list CpuUtilDelta)
    (time_base : TimeBase) (now : timespec) : MetricSnapshotV3 :=
  let v3 := MetricSnapshotV3_zeroed in
  let v3 := v3 <| v3_header ::= fun h =>
    h <| hdr_magic := SHM_MAGIC |> <| hdr_version := SHM_VERSION |>
      <| hdr_snapshot_size := as_u32 SIZE |> <| hdr_timestamp_ns_wall := now_wall_ns time_base now |> |> in
  let v3 := v3 <| v3_memory := memory v1 |>
    <| v3_load := {| lsf_load_1 := load_1 (load v1); lsf_load_5 := load_5 (load v1);
                     lsf_load_15 := load_15 (load v1) |} |>
    <| v3_sched := fixed_sched (sched v1) |> <| v3_tcp := tcp v1 |> <| v3_security := security v1 |> in
  let n_cpu := Nat.min (length (cpu_cores v1)) V3_MAX_CPU_CORES in
  let v3 := v3 <| v3_cpu_core_count := as_u32 (Z.of_nat n_cpu) |>
    <| v3_cpu_cores ::= copy_prefix n_cpu (cpu_cores v1) |> in
  let cpu_count := if (0 <? n_cpu)%nat then n_cpu else Nat.min (length cpu_util) V3_MAX_CPU_CORES in
  let v3 := if (n_cpu =? 0)%nat then v3 <| v3_cpu_core_count := as_u32 (Z.of_nat cpu_count) |> else v3 in
  let v3 := v3 <| v3_cpu_cores ::= overlay_cores cpu_count cpu_util |> in
  let n_net := Nat.min (length (net_ifaces v1)) V3_MAX_NET_IFACES in
  let v3 := v3 <| v3_net_iface_count := as_u32 (Z.of_nat n_net) |>
    <| v3_net_ifaces ::= copy_prefix n_net (net_ifaces v1) |> in
  let n_blk := Nat.min (length (block v1)) V3_MAX_BLOCK_DEVS in
  let v3 := v3 <| v3_block_dev_count := as_u32 (Z.of_nat n_blk) |>
    <| v3_block_devs ::= copy_prefix n_blk (block v1) |> in
  let n_proc := Nat.min (length (top_processes v1)) V3_MAX_PROCESSES in
  let v3 := v3 <| v3_process_count := as_u32 (Z.of_nat n_proc) |>
    <| v3_top_processes ::= copy_prefix n_proc (map (overlay_row facts) (top_processes v1)) |> in
  let n_sched := Nat.min (length (sched_per_cpu v1)) V3_MAX_CPU_CORES in
  v3 <| v3_sched_cpu_count := as_u32 (Z.of_nat n_sched) |>
     <| v3_sched_per_cpu ::= copy_prefix n_sched (map fixed_sched (sched_per_cpu v1)) |>.

(** One turn of [writer_loop]. *)
Definition writer_tick (v1 : MetricSnapshot) (facts : gmap Z PidStatusFacts) (cpu_util : list CpuUtilDelta)
    (time_base : TimeBase) (now : timespec) (p : ShmPublisher) : ShmPublisher :=
  publish (Z.to_nat SIZE) p (write_pod (build_v3 v1 facts cpu_util time_base now)).

(** ** What the fixed-size snapshot holds *)

Lemma copy_prefix_lookup {A} n (src dst : list A) i :
  (n <= length src)%nat ->
  copy_prefix n src dst !! i = if decide (i < n)%nat then src !! i else dst !! i.
Proof.
  intros Hn. unfold copy_prefix. assert (length (take n src) = n) as Hl by (rewrite length_take; lia).
  case_decide.
  - rewrite lookup_app_l by lia. by rewrite lookup_take_lt.
  - rewrite lookup_app_r by lia. rewrite Hl, lookup_drop. f_equal. lia.
Qed.

Lemma length_copy_prefix {A} n (src dst : list A) :
  (n <= length src)%nat -> (n <= length dst)%nat -> length (copy_prefix n src dst) = length dst.
Proof. intros. unfold copy_prefix. rewrite length_app, length_take, length_drop. lia. Qed.

Lemma imap_pair_snoc {A} (l : list A) x : imap pair (l ++ [x]) = imap pair l ++ [(length l, x)].
Proof. rewrite imap_app. cbn. by rewrite Nat.add_0_r. Qed.

Lemma overlay_cores_lookup n util cores i :
  overlay_cores n util cores !! i =
    match (if decide (i < n)%nat then util !! i else None) with
    | Some cu => overlay_cpu cu <$> cores !! i
    | None => cores !! i
    end.
Proof.
  unfold overlay_cores. replace (take n (imap pair util)) with (imap pair (take n util)).
  2: { revert n. induction util as [|x util IH] using rev_ind; intros n; [by destruct n|].
       destruct (Nat.le_gt_cases n (length util)).
       - rewrite imap_pair_snoc, !take_app_le by (rewrite ?length_imap; lia). apply IH.
       - rewrite !take_ge; [done|rewrite length_imap, length_app; cbn; lia|rewrite length_app; cbn; lia]. }
  replace (if decide (i < n)%nat then util !! i else None) with (take n util !! i).
  2: { case_decide; [by rewrite lookup_take_lt|rewrite lookup_take_ge; [done|lia]]. }
  generalize (take n util). clear. intros util. induction util as [|cu util IH] using rev_ind; [done|].
  rewrite imap_pair_snoc, foldl_app. cbn [foldl fst snd].
  destruct (decide (i = length util)) as [->|Hne].
  - rewrite list_lookup_alter_eq, IH, lookup_ge_None_2 by done.
    by rewrite lookup_app_r, Nat.sub_diag by done.
  - rewrite list_lookup_alter_ne, IH by done. destruct (decide (i < length util)%nat).
    + by rewrite lookup_app_l by done.
    + rewrite (lookup_ge_None_2 util i), (lookup_ge_None_2 (util ++ [cu]) i);
        [done|rewrite length_app; cbn; lia|lia].
Qed.

Lemma length_overlay_cores n util cores : length (overlay_cores n util cores) = length cores.
Proof.
  unfold overlay_cores. generalize (take n (imap pair util)). intros l. revert cores.
  induction l as [|x l IH]; intros cores; cbn [foldl]; [done|]. by rewrite IH, length_alter.
Qed.

(** Rows below the count are the source's, rows above are zero. *)
Definition holds {A} (rows : list A) (count : Z) (cap : nat) (src : list A) (zero : A) : Prop :=
  count = Z.of_nat (Nat.min (length src) cap) /\ length rows = cap /\
  forall i, (i < cap)%nat -> rows !! i = Some (nth i src zero).

Lemma copy_holds {A} n (src : list A) cap (zero : A) :
  n = Nat.min (length src) cap -> Z.of_nat cap < 2 ^ 32 ->
  holds (copy_prefix n src (replicate cap zero)) (as_u32 (Z.of_nat n)) cap src zero.
Proof.
  intros -> Hcap. split; [|split].
  - apply as_u32_small. unfold is_u32. lia.
  - rewrite length_copy_prefix, length_replicate; [done|lia|rewrite length_replicate; lia].
  - intros i Hi. rewrite copy_prefix_lookup by lia. case_decide.
    + by destruct (nth_lookup_or_length src i zero); [|lia].
    + rewrite lookup_replicate_2 by done. by rewrite nth_overflow by lia.
Qed.

(** What the rows must show, field by field. *)
Definition shown_process (facts : gmap Z PidStatusFacts) (p : ProcessStats) : ProcessStats :=
  let f := facts !! ps_pid p in
  {| ps_pid := ps_pid p; ps_ppid := ps_ppid p; ps_uid := ps_uid p;
     ps_thread_count := match f with Some f => pid_thread_count f | None => ps_thread_count p end;
     ps_cpu_user_ns := ps_cpu_user_ns p; ps_cpu_system_ns := ps_cpu_system_ns p;
     ps_mem_rss_bytes := match f with Some f => pid_rss_bytes f | None => ps_mem_rss_bytes p end;
     ps_mem_vms_bytes := match f with Some f => pid_vms_bytes f | None => ps_mem_vms_bytes p end;
     ps_voluntary_ctx_sw := ps_voluntary_ctx_sw p; ps_involuntary_ctx_sw := ps_involuntary_ctx_sw p;
     ps_read_bytes := ps_read_bytes p; ps_write_bytes := ps_write_bytes p;
     ps_page_faults_minor := ps_page_faults_minor p; ps_page_faults_major := ps_page_faults_major p;
     ps_start_time_ns := ps_start_time_ns p; ps_open_fds := ps_open_fds p; ps_pad := ps_pad p;
     ps_comm := ps_comm p |}.
Definition shown_core (cu : CpuUtilDelta) (c : CpuStats) : CpuStats :=
  {| cpu_cpu_id := cu_cpu_id cu; cpu_pad := cpu_pad c; cpu_user_ns := cu_user_ns cu;
     cpu_system_ns := cu_system_ns cu; cpu_iowait_ns := cu_iowait_ns cu; cpu_irq_ns := cpu_irq_ns c;
     cpu_softirq_ns := cpu_softirq_ns c; cpu_idle_ns := cu_idle_ns cu;
     cpu_ctx_switches := cpu_ctx_switches c |}.
Definition shown_sched (s : SchedSnapshot) : SchedSnapshotFixed :=
  Build_SchedSnapshotFixed (histogram s) (p50_ns s) (p95_ns s) (p99_ns s).

Lemma overlay_row_shown facts p : overlay_row facts p = shown_process facts p.
Proof. unfold overlay_row, shown_process. destruct (facts !! _), p; reflexivity. Qed.
Lemma overlay_cpu_shown cu c : overlay_cpu cu c = shown_core cu c.
Proof. by destruct c. Qed.
Lemma fixed_sched_shown s : fixed_sched s = shown_sched s.
Proof. done. Qed.

(** What the core row [i] shows: the BPF row, zero if there is none, with the
    utilization of position [i] over it while [i] is below the count. *)
Definition core_row (v1 : MetricSnapshot) (cpu_util : list CpuUtilDelta) (count i : nat) : CpuStats :=
  let core := nth i (cpu_cores v1) CpuStats_zeroed in
  match (if decide (i < count)%nat then cpu_util !! i else None) with
  | Some cu => shown_core cu core
  | None => core
  end.

(** What the published snapshot [v3] must hold of the shared one. *)
Record contents (v1 : MetricSnapshot) (facts : gmap Z PidStatusFacts) (util : list CpuUtilDelta)
    (wall : Z) (v3 : MetricSnapshotV3) : Prop := {
  c_ifaces : holds (v3_net_ifaces v3) (v3_net_iface_count v3) V3_MAX_NET_IFACES (net_ifaces v1)
    NetIfaceStats_zeroed;
  c_block : holds (v3_block_devs v3) (v3_block_dev_count v3) V3_MAX_BLOCK_DEVS (block v1) BlockStats_zeroed;
  c_processes : holds (v3_top_processes v3) (v3_process_count v3) V3_MAX_PROCESSES
    (map (shown_process facts) (top_processes v1)) ProcessStats_zeroed;
  c_per_cpu : holds (v3_sched_per_cpu v3) (v3_sched_cpu_count v3) V3_MAX_CPU_CORES
    (map shown_sched (sched_per_cpu v1)) SchedSnapshotFixed_zeroed;
  c_cores : let n := Nat.min (if decide (cpu_cores v1 = []) then length util else length (cpu_cores v1))
      V3_MAX_CPU_CORES in
    v3_cpu_core_count v3 = Z.of_nat n /\ length (v3_cpu_cores v3) = V3_MAX_CPU_CORES /\
    forall i, (i < V3_MAX_CPU_CORES)%nat -> v3_cpu_cores v3 !! i = Some (core_row v1 util n i);
  c_gauges : v3_memory v3 = memory v1 /\ v3_tcp v3 = tcp v1 /\ v3_security v3 = security v1 /\
    v3_sched v3 = shown_sched (sched v1) /\
    v3_load v3 = {| lsf_load_1 := load_1 (load v1); lsf_load_5 := load_5 (load v1);
                    lsf_load_15 := load_15 (load v1) |};
  c_header : v3_header v3 = ShmHeader_new <| hdr_timestamp_ns_wall := wall |>;
  c_pads : [v3_pad_cpu v3; v3_pad_net v3; v3_pad_blk v3; v3_pad_proc v3; v3_pad_sched_cpu v3]
    = [0; 0; 0; 0; 0] }.

Lemma build_v3_holds v1 facts util tb now :
  contents v1 facts util (now_wall_ns tb now) (build_v3 v1 facts util tb now).
Proof.
  cbv zeta. unfold build_v3. rewrite (map_ext _ _ (overlay_row_shown facts)).
  rewrite (map_ext _ _ fixed_sched_shown), fixed_sched_shown.
  assert (forall (x : MetricSnapshotV3) (b : bool) (c : Z),
    (if b then x <| v3_cpu_core_count := c |> else x)
    = x <| v3_cpu_core_count := if b then c else v3_cpu_core_count x |>) as Hif by by intros [] [].
  rewrite Hif. clear Hif.
  constructor; cbn -[Nat.min copy_prefix overlay_cores as_u32 Z.of_nat replicate V3_MAX_CPU_CORES
    V3_MAX_NET_IFACES V3_MAX_BLOCK_DEVS V3_MAX_PROCESSES Nat.eqb Nat.ltb SIZE now_wall_ns decide shown_sched];
    try (by apply copy_holds; rewrite ?length_map); [|by split_and!|done|done].
  set (n_cpu := Nat.min (length (cpu_cores v1)) V3_MAX_CPU_CORES).
  set (cores := Nat.min (if decide (cpu_cores v1 = []) then length util else length (cpu_cores v1))
    V3_MAX_CPU_CORES).
  assert ((if (0 <? n_cpu)%nat then n_cpu else Nat.min (length util) V3_MAX_CPU_CORES) = cores) as ->.
  { unfold cores, n_cpu. destruct (cpu_cores v1) as [|c l]; [reflexivity|].
    rewrite decide_False by done. case_match eqn:E; [done|]. cbn in E. done. }
  split_and!.
  - unfold n_cpu, cores. destruct (cpu_cores v1) as [|c l].
    + apply as_u32_small. unfold is_u32, V3_MAX_CPU_CORES. cbn -[Nat.min]. lia.
    + apply as_u32_small. unfold is_u32, V3_MAX_CPU_CORES. lia.
  - rewrite length_overlay_cores, length_copy_prefix; rewrite ?length_replicate; unfold n_cpu; [done|lia..].
  - intros i Hi. unfold core_row. rewrite overlay_cores_lookup.
    destruct (copy_holds n_cpu (cpu_cores v1) V3_MAX_CPU_CORES CpuStats_zeroed eq_refl ltac:(done)) as (_ & _ & Hrow).
    rewrite Hrow by done. case_match; [|done]. cbn. by rewrite overlay_cpu_shown.
Qed.

(** C20: [build_v3] keeps everything that fits.  Every collection of the
    published snapshot holds the first rows of the shared one, up to its
    capacity and in order, and zeroed rows after them, with the exact count;
    process rows carry the [/proc] facts of their pid; core rows carry the
    utilization of their position, which alone makes the rows when the
    aggregator has none; gauges and header are copied. *)
Theorem build_v3_contents v1 facts util tb now :
  contents v1 facts util (now_wall_ns tb now) (build_v3 v1 facts util tb now).
Proof. apply build_v3_holds. Qed.

(** ** What a reader decodes *)

Definition stamped (v : MetricSnapshotV3) (q : Z) : MetricSnapshotV3 :=
  v <| v3_header ::= fun h => h <| hdr_sequence := q |> |>.

Lemma encode_header magic version pad0 sq ts sz pad1 res :
  encode ShmHeader_ty (pod_val {| hdr_magic := magic; hdr_version := version; hdr_pad0 := pad0;
    hdr_sequence := sq; hdr_timestamp_ns_wall := ts; hdr_snapshot_size := sz; hdr_pad1 := pad1;
    hdr_reserved := res |})
  = (le_bytes 8 magic ++ le_bytes 4 version ++ le_bytes 4 pad0) ++ le_bytes 8 sq
    ++ le_bytes 8 ts ++ le_bytes 4 sz ++ le_bytes 4 pad1 ++ concat (map (encode CU8) (map VInt res)) ++ [].
Proof. rewrite <- !app_assoc. reflexivity. Qed.

Lemma encode_first name t fs v l :
  round_up 0 (c_align t) = 0 ->
  encode (CStruct ((name, t) :: fs)) (VSeq (v :: l))
    = encode t v ++ encode_fields encode (c_size (CStruct ((name, t) :: fs))) (c_size t) fs l.
Proof. intros Hr. cbn [encode encode_fields]. rewrite Hr. reflexivity. Qed.

Lemma store_seq_app a b b' c :
  length a = SEQ_OFFSET -> length b = SEQ_SIZE -> le_bytes 8 b' = c ->
  forall rest, store_seq (a ++ b ++ rest) b' = a ++ c ++ rest.
Proof.
  intros Ha Hb <- rest. unfold store_seq, store_le.
  assert (drop (SEQ_OFFSET + 8) (a ++ b ++ rest) = rest) as ->.
  { rewrite app_assoc. replace (SEQ_OFFSET + 8)%nat with (length (a ++ b)); [apply drop_app_length|].
    by rewrite length_app, Ha, Hb. }
  by rewrite <- Ha, take_app_length.
Qed.

(** Setting the sequence field and storing the sequence word are the same. *)
Lemma store_seq_write v q : store_seq (write_pod v) q = write_pod (stamped v q).
Proof.
  destruct v as [[magic version pad0 sq ts sz pad1 res] v2 v3 v4 v5 v6 v7 v8 v9 v10 v11 v12 v13 v14 v15
    v16 v17 v18 v19 v20 v21].
  unfold write_pod. cbn [pod_ty MetricSnapshotV3_pod]. unfold MetricSnapshotV3_ty, stamped.
  cbn [pod_val MetricSnapshotV3_pod upd updater v3_header v3_memory v3_load].
  rewrite !encode_first by reflexivity. cbn [upd updater v3_header hdr_sequence].
  rewrite !encode_header, <- !app_assoc, !(app_assoc (le_bytes 8 magic)).
  rewrite !(app_assoc (le_bytes 8 magic ++ le_bytes 4 version)).
  rewrite (store_seq_app _ _ q (le_bytes 8 q)); [done|reflexivity..].
Qed.

(** ** Types *)

(** The values of the shared snapshot are values of their Rust types. *)
Definition sched_wf (s : SchedSnapshot) : Prop :=
  pod_wf (histogram s) /\ is_u64 (p50_ns s) /\ is_u64 (p95_ns s) /\ is_u64 (p99_ns s).
Definition load_wf (l : LoadSnapshot) : Prop := f64_wf (load_1 l) /\ f64_wf (load_5 l) /\ f64_wf (load_15 l).
Record snapshot_wf (v1 : MetricSnapshot) : Prop := {
  wf_memory : pod_wf (memory v1);
  wf_sched : sched_wf (sched v1);
  wf_tcp : pod_wf (tcp v1);
  wf_load : load_wf (load v1);
  wf_cores : Forall pod_wf (cpu_cores v1);
  wf_ifaces : Forall pod_wf (net_ifaces v1);
  wf_block : Forall pod_wf (block v1);
  wf_processes : Forall pod_wf (top_processes v1);
  wf_security : pod_wf (security v1);
  wf_per_cpu : Forall sched_wf (sched_per_cpu v1) }.
Definition pid_facts_wf (f : PidStatusFacts) : Prop :=
  is_u64 (pid_rss_bytes f) /\ is_u64 (pid_vms_bytes f) /\ is_u32 (pid_thread_count f).
Definition util_wf (cu : CpuUtilDelta) : Prop :=
  is_u32 (cu_cpu_id cu) /\ is_u64 (cu_user_ns cu) /\ is_u64 (cu_system_ns cu) /\
  is_u64 (cu_iowait_ns cu) /\ is_u64 (cu_idle_ns cu).

Lemma pods_val_ok {T} `{Pod T} n (l : list T) :
  length l = n -> Forall pod_wf l -> val_ok (CArr n (pod_ty T)) (v_pods l).
Proof. intros Hl Hw. cbn. split; [by rewrite length_map|]. by apply Forall_map. Qed.

Lemma fixed_sched_wf s : sched_wf s -> pod_wf (fixed_sched s).
Proof.
  intros (Hh & H1 & H2 & H3). unfold fixed_sched, pod_wf in *.
  cbn [pod_ty pod_val SchedSnapshotFixed_pod ssf_histogram ssf_p50_ns ssf_p95_ns ssf_p99_ns].
  unfold SchedSnapshotFixed_ty. cbn [val_ok fields_ok]. auto 10 with pod.
Qed.

Lemma overlay_row_wf facts p :
  map_Forall (fun _ => pid_facts_wf) facts -> pod_wf p -> pod_wf (overlay_row facts p).
Proof.
  intros Hf Hp. unfold overlay_row. destruct (facts !! ps_pid p) as [f|] eqn:E; [|done].
  destruct (Hf _ _ E) as (H1 & H2 & H3). destruct p. solve_pod.
Qed.

Lemma overlay_cpu_wf cu c : util_wf cu -> pod_wf c -> pod_wf (overlay_cpu cu c).
Proof. intros (H1 & H2 & H3 & H4 & H5) Hc. destruct c. solve_pod. Qed.

Lemma overlay_cores_wf n util cores :
  Forall util_wf util -> Forall pod_wf cores -> Forall pod_wf (overlay_cores n util cores).
Proof.
  rewrite !Forall_lookup. intros Hu Hc i c. rewrite overlay_cores_lookup.
  destruct (if decide (i < n)%nat then util !! i else None) as [cu|] eqn:E; [|by apply Hc].
  intros (c' & Hc' & ->)%fmap_Some. apply overlay_cpu_wf; [|by eapply Hc].
  case_decide; [by eapply Hu|done].
Qed.

Lemma copy_prefix_wf {T} `{Pod T} n (src : list T) cap zero :
  Forall pod_wf src -> pod_wf zero -> Forall pod_wf (copy_prefix n src (replicate cap zero)).
Proof.
  intros Hs Hz. apply Forall_app. split; [by apply Forall_take|]. by apply Forall_drop, Forall_replicate.
Qed.

Ltac pod_zero := solve_pod; vm_compute; repeat split; congruence.

Lemma holds_wf {T} `{Pod T} (rows src : list T) count cap zero :
  holds rows count cap src zero -> Z.of_nat cap < 2 ^ 32 -> Forall pod_wf src -> pod_wf zero ->
  is_u32 count /\ val_ok (CArr cap (pod_ty T)) (v_pods rows).
Proof.
  intros (Hc & Hl & Hr) Hcap Hs Hz. split; [unfold is_u32; lia|]. apply pods_val_ok; [done|].
  apply Forall_lookup. intros i x Hx. pose proof (lookup_lt_Some _ _ _ Hx) as Hi. rewrite Hl in Hi.
  rewrite Hr in Hx by done. injection Hx as <-.
  destruct (nth_in_or_default i src zero) as [Hin| ->]; [|done].
  rewrite Forall_forall in Hs. apply Hs. by apply list_elem_of_In.
Qed.

Lemma core_row_wf v1 util n i :
  Forall pod_wf (cpu_cores v1) -> Forall util_wf util -> pod_wf (core_row v1 util n i).
Proof.
  intros Hc Hu. unfold core_row.
  assert (pod_wf (nth i (cpu_cores v1) CpuStats_zeroed)) as Hcore.
  { destruct (nth_in_or_default i (cpu_cores v1) CpuStats_zeroed) as [Hin| ->]; [|solve_pod].
    rewrite Forall_forall in Hc. apply Hc. by apply list_elem_of_In. }
  destruct (if decide (i < n)%nat then util !! i else None) as [cu|] eqn:E; [|done].
  rewrite <- overlay_cpu_shown. apply overlay_cpu_wf; [|done]. case_decide; [|done]. by apply (Forall_lookup_1 _ _ _ _ Hu E).
Qed.

Lemma v3_wf_intro v3 :
  pod_wf (v3_header v3) -> pod_wf (v3_memory v3) -> pod_wf (v3_load v3) -> pod_wf (v3_sched v3) ->
  pod_wf (v3_tcp v3) -> pod_wf (v3_security v3) ->
  Forall is_u32 [v3_cpu_core_count v3; v3_net_iface_count v3; v3_block_dev_count v3; v3_process_count v3;
    v3_sched_cpu_count v3] ->
  [v3_pad_cpu v3; v3_pad_net v3; v3_pad_blk v3; v3_pad_proc v3; v3_pad_sched_cpu v3] = [0; 0; 0; 0; 0] ->
  val_ok (CArr V3_MAX_CPU_CORES (pod_ty CpuStats)) (v_pods (v3_cpu_cores v3)) ->
  val_ok (CArr V3_MAX_NET_IFACES (pod_ty NetIfaceStats)) (v_pods (v3_net_ifaces v3)) ->
  val_ok (CArr V3_MAX_BLOCK_DEVS (pod_ty BlockStats)) (v_pods (v3_block_devs v3)) ->
  val_ok (CArr V3_MAX_PROCESSES (pod_ty ProcessStats)) (v_pods (v3_top_processes v3)) ->
  val_ok (CArr V3_MAX_CPU_CORES (pod_ty SchedSnapshotFixed)) (v_pods (v3_sched_per_cpu v3)) ->
  pod_wf v3.
Proof.
  intros H1 H2 H3 H4 H5 H6 Hc [= P1 P2 P3 P4 P5] A1 A2 A3 A4 A5.
  repeat match goal with H : Forall is_u32 (_ :: _) |- _ => apply Forall_cons in H as [? H] end.
  change (fields_ok val_ok (match MetricSnapshotV3_ty with CStruct fs => fs | _ => [] end)
    (v_seq (pod_val v3))).
  cbn [pod_val MetricSnapshotV3_pod v_seq]. rewrite P1, P2, P3, P4, P5.
  unfold MetricSnapshotV3_ty. cbn [fields_ok].
  split; [exact H1|]. split; [exact H2|]. split; [exact H3|]. split; [exact H4|].
  split; [exact H5|]. split; [exact H6|].
  do 5 (split; [by apply int_u32|]; split; [by apply int_u32|]; split; [assumption|]). exact I.
Qed.

Lemma load_fixed_wf l :
  load_wf l -> pod_wf {| lsf_load_1 := load_1 l; lsf_load_5 := load_5 l; lsf_load_15 := load_15 l |}.
Proof. intros (H1 & H2 & H3). unfold pod_wf. cbn. done. Qed.

Lemma header_wf wall : is_u64 wall -> pod_wf (ShmHeader_new <| hdr_timestamp_ns_wall := wall |>).
Proof. intros Hw. unfold ShmHeader_new. solve_pod; vm_compute; repeat constructor; congruence. Qed.

(** The published snapshot is a value of its C type. *)
Lemma build_v3_wf v1 facts util tb now :
  snapshot_wf v1 -> map_Forall (fun _ => pid_facts_wf) facts -> Forall util_wf util ->
  pod_wf (build_v3 v1 facts util tb now).
Proof.
  intros Hv Hf Hu. destruct (build_v3_holds v1 facts util tb now), Hv.
  destruct c_gauges0 as (G1 & G2 & G3 & G4 & G5). destruct c_cores0 as (C1 & C2 & C3).
  apply holds_wf in c_ifaces0 as [I1 I2]; [|done|done|solve_pod].
  apply holds_wf in c_block0 as [B1 B2]; [|done|done|solve_pod].
  apply holds_wf in c_processes0 as [R1 R2]; [|done| |solve_pod].
  2: { apply Forall_map. eapply Forall_impl; [exact wf_processes0|]. intros p. rewrite <- overlay_row_shown. by apply overlay_row_wf. }
  apply holds_wf in c_per_cpu0 as [S1 S2]; [|done| |solve_pod].
  2: { apply Forall_map. eapply Forall_impl; [exact wf_per_cpu0|]. apply fixed_sched_wf. }
  apply v3_wf_intro; rewrite ?c_header0, ?G1, ?G2, ?G3, ?G4, ?G5;
    [..|exact I2|exact B2|exact R2|exact S2].
  - apply header_wf, to_wall_range.
  - exact wf_memory0.
  - by apply load_fixed_wf.
  - by apply fixed_sched_wf.
  - exact wf_tcp0.
  - exact wf_security0.
  - rewrite C1. repeat (apply Forall_cons; split; [first [assumption|unfold is_u32, V3_MAX_CPU_CORES; lia]|]).
    constructor.
  - exact c_pads0.
  - apply pods_val_ok; [exact C2|]. apply Forall_lookup. intros i x Hx.
    pose proof (lookup_lt_Some _ _ _ Hx) as Hi. rewrite C2 in Hi. rewrite C3 in Hx by exact Hi.
    injection Hx as <-. by apply core_row_wf.
Qed.

(** ** The daemon's state stays typed *)

Definition opt_wf {T} `{Pod T} (o : option (list T)) : Prop :=
  match o with Some l => Forall pod_wf l | None => True end.
Definition entries_wf {T} `{Pod T} (l : list (option T)) : Prop :=
  Forall (fun o => match o with Some x => pod_wf x | None => True end) l.
(** What the aggregator reads from the maps are values of their types (for
    states of the kernel side this is [Kernel.kernel_data_decodes]). *)
Record polled_wf (m : PolledMaps) : Prop := {
  pw_sched : opt_wf (pm_sched m);
  pw_tcp : opt_wf (pm_tcp_state m);
  pw_iface : opt_wf (pm_net_iface m);
  pw_memory : opt_wf (pm_memory m);
  pw_block : entries_wf (pm_block m);
  pw_process : entries_wf (pm_process m);
  pw_cpu : opt_wf (pm_cpu m);
  pw_again : opt_wf (pm_sched_again m);
  pw_security : opt_wf (pm_security m) }.

Lemma foldl_wf {A B} (P : A -> Prop) (Q : B -> Prop) (f : A -> B -> A) l a :
  (forall a b, P a -> Q b -> P (f a b)) -> P a -> Forall Q l -> P (foldl f a l).
Proof. intros Hf Ha Hl. revert a Ha. induction Hl as [|b l Hb Hl IH]; intros a Ha; [done|]. cbn. eauto. Qed.

Lemma sum_percpu_wf {P T} `{Pod P, Pod T} (zero : T) (merge : T -> P -> T) o x (e : rstring) :
  pod_wf zero -> (forall a b, pod_wf a -> pod_wf b -> pod_wf (merge a b)) -> opt_wf o ->
  context e (sum_percpu zero merge o) = Ok x -> pod_wf x.
Proof.
  intros Hz Hm Ho. destruct o as [l|]; cbn; [|done]. intros [= <-].
  by apply (foldl_wf pod_wf pod_wf).
Qed.

Lemma merge_sched_wf a b : pod_wf a -> pod_wf b -> pod_wf (merge_sched a b).
Proof.
  intros Ha Hb. destruct a as [ab ac al am], b as [bb bc bl bm].
  assert (is_u64 am /\ is_u64 bm) as [Hm1 Hm2] by (pod_unfold; destruct_and?; done).
  assert (Forall is_u64 (map (fun i => wrapping_add (nth i ab 0) (nth i bb 0)) (seq 0 SCHED_HIST_BUCKETS)))
    as Hbk by (apply Forall_map, Forall_true; intros; apply wrapping_add_range).
  assert (length (map (fun i => wrapping_add (nth i ab 0) (nth i bb 0)) (seq 0 SCHED_HIST_BUCKETS))
    = SCHED_HIST_BUCKETS) as Hln by by rewrite length_map, length_seq.
  clear Ha Hb. unfold merge_sched. cbn -[seq nth map SCHED_HIST_BUCKETS Z.ltb].
  revert Hbk Hln. generalize (map (fun i => wrapping_add (nth i ab 0) (nth i bb 0)) (seq 0 SCHED_HIST_BUCKETS)).
  intros bk Hbk Hln. case_match; cbn; solve_pod.
Qed.
Lemma merge_tcp_wf a b : pod_wf a -> pod_wf b -> pod_wf (merge_tcp a b).
Proof. intros _ _. destruct a, b. solve_pod. Qed.
Lemma merge_mem_wf a b : pod_wf a -> pod_wf b -> pod_wf (merge_mem a b).
Proof. intros Ha _. destruct a, b. solve_pod. Qed.
Lemma merge_security_wf a b : pod_wf a -> pod_wf b -> pod_wf (merge_security a b).
Proof. intros _ _. destruct a, b. solve_pod. Qed.
Lemma merge_iface_wf a b : pod_wf a -> pod_wf b -> pod_wf (merge_iface a b).
Proof. intros Ha Hb. destruct a, b. solve_pod. Qed.

Lemma percentile_range h p : is_u64 (percentile_ns h p).
Proof.
  unfold percentile_ns. case_match; [done|]. cbv zeta.
  assert (Forall is_u64 BUCKET_BOUNDS_NS) as Hb by decide_now.
  generalize (take SCHED_HIST_BUCKETS (sh_buckets h)), 0, (target_rank (sh_total_count h) p).
  induction Hb as [|b bs Hb Hbs IH]; intros [|x l] cum t; cbn; [done..|]. case_match; [done|apply IH].
Qed.

Lemma snapshot_of_wf h : pod_wf h -> sched_wf (snapshot_of h).
Proof. intros Hh. split; [done|]. split_and!; apply percentile_range. Qed.

Lemma collect_entries_wf {V} `{Pod V} (err e : rstring) (l : list (option V)) out :
  entries_wf l -> context e (collect_entries err l) = Ok out -> Forall pod_wf out.
Proof.
  intros Hl Hc. assert (collect_entries err l = Ok out) as Ho by (by destruct (collect_entries err l)).
  clear Hc e. revert out Ho. induction Hl as [|[v|] l Hv Hl IH]; intros out Ho; cbn in Ho; simplify_eq.
  - constructor.
  - destruct (collect_entries err l) as [vs|]; cbn in Ho; simplify_eq. constructor; [done|]. by apply IH.
Qed.

Lemma top_wf {V} `{Pod V} (key : V -> Z) n (err e : rstring) l out :
  entries_wf l ->
  context e (x <-? collect_entries err l ;; Ok (take n (sort_desc key x))) = Ok out -> Forall pod_wf out.
Proof.
  intros Hl Hc. destruct (collect_entries err l) as [x|] eqn:E; cbn in Hc; simplify_eq.
  apply Forall_take. rewrite sort_desc_perm.
  eapply (collect_entries_wf err e); [exact Hl|]. by rewrite E.
Qed.

Lemma renumbered_wf (l : list CpuStats) :
  Forall pod_wf l -> Forall pod_wf (imap (fun idx v => v <| cpu_cpu_id := as_u32 (Z.of_nat idx) |>) l).
Proof.
  intros Hl. apply Forall_lookup. intros i c. rewrite list_lookup_imap.
  intros (c' & Hc & ->)%fmap_Some. pose proof (Forall_lookup_1 _ _ _ _ Hl Hc) as Hw.
  destruct c'. pose proof (as_u32_range (Z.of_nat i)). cbn -[as_u32]. solve_pod.
Qed.

(** What one poll brings: every part of the sample is well typed. *)
Record sample_wf (s : BpfSample) : Prop := {
  sw_sched : sched_wf (bs_sched s);
  sw_tcp : pod_wf (bs_tcp s);
  sw_ifaces : Forall pod_wf (bs_net_ifaces s);
  sw_block : Forall pod_wf (bs_block s);
  sw_processes : Forall pod_wf (bs_top_processes s);
  sw_cores : Forall pod_wf (bs_cpu_cores s);
  sw_security : pod_wf (bs_security s);
  sw_per_cpu : Forall sched_wf (bs_sched_per_cpu s);
  sw_faults : is_u64 (bs_page_faults_minor s) /\ is_u64 (bs_page_faults_major s) /\
    is_u64 (bs_oom_kills_total s) }.

Lemma bind_ok {T U E} (r : result T E) (k : T -> result U E) u :
  (x <-? r ;; k x) = Ok u -> exists x, r = Ok x /\ k x = Ok u.
Proof. destruct r as [x|]; cbn; [by exists x|done]. Qed.

Lemma collect_wf maps tb now s : polled_wf maps -> collect maps tb now = Ok s -> sample_wf s.
Proof.
  intros Hm. unfold collect. intros H.
  repeat match goal with
  | H : result_bind _ _ = Ok _ |- _ => apply bind_ok in H as (? & ? & H)
  end. injection H as <-. destruct Hm.
  repeat match goal with
  | H : Prelude.context _ (sum_percpu _ merge_sched _) = _ |- _ =>
      apply sum_percpu_wf in H; [|solve_pod|exact merge_sched_wf|done]
  | H : Prelude.context _ (sum_percpu _ merge_tcp _) = _ |- _ =>
      apply sum_percpu_wf in H; [|solve_pod|exact merge_tcp_wf|done]
  | H : Prelude.context _ (sum_percpu _ merge_iface _) = _ |- _ =>
      apply sum_percpu_wf in H; [|solve_pod|exact merge_iface_wf|done]
  | H : Prelude.context _ (sum_percpu _ merge_mem _) = _ |- _ =>
      apply sum_percpu_wf in H; [|solve_pod|exact merge_mem_wf|done]
  | H : Prelude.context _ (sum_percpu _ merge_security _) = _ |- _ =>
      apply sum_percpu_wf in H; [|solve_pod|exact merge_security_wf|done]
  | H : Prelude.context _ (collect_block _) = _ |- _ => apply collect_entries_wf in H; [|done]
  | H : Prelude.context _ (collect_top_processes _) = _ |- _ => apply top_wf in H; [|done]
  end.
  constructor; cbn [bs_sched bs_tcp bs_net_ifaces bs_block bs_top_processes bs_cpu_cores bs_security
    bs_sched_per_cpu bs_page_faults_minor bs_page_faults_major bs_oom_kills_total]; try assumption.
  - by apply snapshot_of_wf.
  - by constructor.
  - destruct (pm_cpu maps) as [l|]; cbn in H6; simplify_eq. by apply renumbered_wf.
  - destruct (pm_sched_again maps) as [l|]; cbn in H7; simplify_eq.
    apply Forall_map. eapply Forall_impl; [exact pw_again0|]. apply snapshot_of_wf.
  - destruct x2. pod_unfold. destruct_and?. by split_and!.
Qed.

Lemma apply_sample_wf s snap : sample_wf s -> snapshot_wf snap -> snapshot_wf (apply_sample s snap).
Proof.
  intros Hs Hv. destruct snap as [ts m]. destruct Hs, Hv. destruct sw_faults0 as (F1 & F2 & F3).
  unfold apply_sample. constructor; cbn in *; try assumption.
  destruct m. solve_pod.
Qed.

(** *** The [/proc] facts are typed whatever the files contain *)

Lemma parse_unsigned_range max w n : parse_unsigned max w = Some n -> 0 <= n <= max.
Proof.
  assert (forall s acc v, 0 <= acc -> parse_digits acc s = Some v -> 0 <= v) as Hd.
  { induction s as [|c s IH]; intros acc v Ha; cbn; [by intros [= <-]|].
    case_match eqn:E; [|done]. apply IH. unfold is_ascii_digit in E. lia. }
  unfold parse_unsigned. set (ds := match w with [] => [] | x :: s' => if x =? 43 then s' else w end).
  destruct ds as [|c l]; [done|]. destruct (parse_digits 0 (c :: l)) as [v|] eqn:E; [|done].
  destruct (Z.leb_spec v max); [|done].
  intros [= <-]. apply Hd in E; lia.
Qed.

Lemma next_parsed_range max ws n : next_parsed (parse_unsigned max) ws = Some n -> 0 <= n <= max.
Proof. destruct ws; [done|]. apply parse_unsigned_range. Qed.

Definition mem_facts_wf (f : ProcMemFacts) : Prop :=
  is_u64 (pm_total_bytes f) /\ is_u64 (pm_free_bytes f) /\ is_u64 (pm_cached_bytes f) /\
  is_u64 (pm_buffered_bytes f) /\ is_u64 (pm_slab_bytes f) /\ is_u64 (pm_swap_used_bytes f) /\
  is_u64 (pm_swap_free_bytes f) /\ is_u32 (pm_psi_some_pct_x100 f) /\ is_u32 (pm_psi_full_pct_x100 f).

Lemma parse_meminfo_wf input : mem_facts_wf (parse_meminfo input).
Proof.
  unfold parse_meminfo.
  assert (forall ls, let '(f, swap) := foldl meminfo_line (ProcMemFacts_default, 0) ls in
    mem_facts_wf f /\ is_u64 swap) as Hloop.
  { intros ls. apply (foldl_wf (fun st => let '(f, swap) := st in mem_facts_wf f /\ is_u64 swap)
      (fun _ => True)); [|split; [by repeat split|done]|by apply Forall_true].
    intros [f swap] line [Hf Hs] _. unfold meminfo_line.
    destruct (split_whitespace line) as [|k it]; [done|].
    destruct (next_parsed parse_u64 it) as [v|] eqn:E; [|done]. apply next_parsed_range in E.
    assert (is_u64 (saturating_mul v 1024)) by (unfold saturating_mul, is_u64, u64_max in *; lia).
    cbv zeta. generalize dependent (saturating_mul v 1024). intros b Hb.
    destruct f. unfold mem_facts_wf in *. cbn in Hf. destruct_and?.
    repeat match goal with |- context [if str_eqb ?a ?c then _ else _] => destruct (str_eqb a c) end;
      cbn; by split_and!. }
  specialize (Hloop (lines input)). destruct (foldl meminfo_line _ _) as [f swap].
  destruct Hloop as [Hf Hs]. destruct f. unfold mem_facts_wf in *. cbn in *. destruct_and?.
  split_and!; try done; by apply saturating_sub_range.
Qed.

Lemma f64_as_u32_range x : is_u32 (f64_as_u32 x).
Proof.
  unfold f64_as_u32, f64_as_unsigned, is_u32. destruct x as [|[]| |[] m e]; try done; try lia.
  assert (0 <= mag_floor (Z.pos m) e); [|unfold u32_max; lia].
  unfold mag_floor. destruct (Z.leb_spec 0 e); [|apply Z.div_pos; lia]. nia.
Qed.

Lemma parse_psi_wf input : is_u32 (parse_psi input).1 /\ is_u32 (parse_psi input).2.
Proof.
  unfold parse_psi. apply (foldl_wf (fun st => is_u32 st.1 /\ is_u32 st.2) (fun _ => True));
    [|done|by apply Forall_true].
  intros [s f] line [Hs Hf] _. unfold psi_line.
  repeat case_match; try done; split; cbn; done || apply f64_as_u32_range.
Qed.

Lemma read_proc_memory_wf files f : read_proc_memory files = Some f -> mem_facts_wf f.
Proof.
  unfold read_proc_memory. destruct (pf_meminfo files) as [s|]; [|done].
  pose proof (parse_meminfo_wf s) as Hf. destruct (pf_psi files) as [psi|]; intros [= <-]; [|done].
  destruct (parse_psi_wf psi) as [H1 H2]. destruct (parse_psi psi) as [a b]. cbn in H1, H2.
  destruct (parse_meminfo s). unfold mem_facts_wf in *. cbn in *. destruct_and?. by split_and!.
Qed.

Lemma apply_facts_wf f l snap :
  mem_facts_wf f -> load_wf l -> snapshot_wf snap -> snapshot_wf (apply_facts f l snap).
Proof.
  intros Hf Hl Hv. destruct snap as [ts m]. destruct Hv. unfold mem_facts_wf in Hf. destruct_and?.
  unfold apply_facts. constructor; cbn in *; try assumption.
  destruct m. solve_pod.
Qed.

Lemma parse_pid_status_wf input : pid_facts_wf (parse_pid_status input).
Proof.
  unfold parse_pid_status. apply (foldl_wf pid_facts_wf (fun _ => True));
    [|done|by apply Forall_true].
  intros f line Hf _. unfold pid_status_line. destruct (split_once COLON line) as [[key rest]|]; [|done].
  destruct f, Hf as (H1 & H2 & H3). cbn in *.
  repeat case_match; try done; unfold parse_u64, parse_u32 in *;
    match goal with E : next_parsed _ _ = Some _ |- _ => apply next_parsed_range in E end;
    unfold pid_facts_wf, saturating_mul, is_u64, is_u32, u64_max, u32_max in *; cbn; lia.
Qed.
