(* ===== verification/ShmDump.v ===== *)
(** [bin/shm_dump.rs]: what the standalone reader accepts.  The seqlock read is
    in [Seqlock.v]; its outcome ([Seqlock.reader]) is an input here.  What it
    prints is in [Pretty.v]. *)
From S2P Require Import Prelude Float Types Layout Pods Seqlock.

Inductive dump_error :=
  | TooSmall (file_len : Z)
  | ReadFailed                      (* "seqlock read failed after retry budget exhausted" *)
  | MagicMismatch (magic : Z)
  | VersionMismatch (version : Z)
  | SizeMismatch (snapshot_size : Z).

(** [seqlock_read]'s result; the reader's other states have not returned. *)
Definition returned (r : reader) : option (result MetricSnapshotV3 unit) :=
  match r with
  | ROk _ out => Some (Ok (read_pod out))
  | RBudget => Some (Err ())
  | _ => None
  end.

(** [main], from the length of the file to the call of [pretty_print]. *)
Definition dump (file_len : Z) (read : result MetricSnapshotV3 unit) : result MetricSnapshotV3 dump_error :=
  if file_len <? SIZE then Err (TooSmall file_len)
  else
    snap <-? context ReadFailed read ;;
    if negb (hdr_magic (v3_header snap) =? SHM_MAGIC) then Err (MagicMismatch (hdr_magic (v3_header snap)))
    else if negb (hdr_version (v3_header snap) =? SHM_VERSION)
    then Err (VersionMismatch (hdr_version (v3_header snap)))
    else if negb (hdr_snapshot_size (v3_header snap) =? SIZE)
    then Err (SizeMismatch (hdr_snapshot_size (v3_header snap)))
    else Ok snap.

(** A snapshot passes exactly when its header names this layout. *)
Lemma dump_ok file_len snap v3 :
  dump file_len (Ok snap) = Ok v3 <->
  v3 = snap /\ SIZE <= file_len /\ hdr_magic (v3_header snap) = SHM_MAGIC /\
  hdr_version (v3_header snap) = SHM_VERSION /\ hdr_snapshot_size (v3_header snap) = SIZE.
Proof.
  unfold dump. generalize SIZE. intros size.
  destruct (Z.ltb_spec file_len size); [split; [done|lia]|]. cbn [context result_bind].
  repeat match goal with |- context [?a =? ?b] => destruct (Z.eqb_spec a b) end; cbn [negb];
    (split; [intros [=]|intros (?&?&?&?&?)]); subst; try done.
Qed.
