(* ===== verification/Pretty.v ===== *)
(** [pretty_print] of [bin/shm_dump.rs]: the text the dump tool prints for a
    snapshot it accepted, line by line, with the formatting of integers and of
    [f64]s that its format strings ask for. *)
From Stdlib Require Import SpecFloat.
From S2P Require Import Prelude Text Float Types Layout Pods Seqlock ShmDump.

(** ** Format strings *)

(** ["{}"] of an unsigned integer of any size that occurs. *)
Definition print_Z (n : Z) : rstring := print_digits 400 n [].

(** ["{:w}"] and ["{:0w}"]: padded on the left. *)
Definition pad_left (c : Z) (w : nat) (s : rstring) : rstring := replicate (w - length s) c ++ s.
Definition SPACE : Z := 32.
Definition ZERO : Z := 48.

Definition hex_digit (n : Z) : Z := if n <? 10 then 48 + n else 87 + n.
Fixpoint print_hex_digits (fuel : nat) (n : Z) (acc : rstring) : rstring :=
  match fuel with
  | O => acc
  | S fuel =>
      let acc := hex_digit (n mod 16) :: acc in
      if n <? 16 then acc else print_hex_digits fuel (n / 16) acc
  end.
(** ["{:016x}"]. *)
Definition print_hex16 (n : Z) : rstring := pad_left ZERO 16 (print_hex_digits 16 n []).

(** The integer nearest to [num / den], the even one of two. *)
Definition round_half_even (num den : Z) : Z :=
  let q := num / den in
  let r := num mod den in
  if (2 * r <? den) || ((2 * r =? den) && Z.even q) then q else q + 1.

(** [n * 10^-d] with [d] decimals. *)
Definition fixed (d : nat) (n : Z) : rstring :=
  print_Z (n / 10 ^ Z.of_nat d) ++ 46 :: pad_left ZERO d (print_Z (n mod 10 ^ Z.of_nat d)).

(** ["{:.d}"] of an [f64]: the exact value, rounded to [d] decimals. *)
Definition fmt_f64 (d : nat) (x : f64) : rstring :=
  let sign s := if s : bool then [45] else [] in
  match x with
  | S754_nan => lit "NaN"
  | S754_infinity s => sign s ++ lit "inf"
  | S754_zero s => sign s ++ fixed d 0
  | S754_finite s m e =>
      let num := Z.pos m * 10 ^ Z.of_nat d in
      sign s ++ fixed d (if 0 <=? e then num * 2 ^ e else round_half_even num (2 ^ (- e)))
  end.

(** [x / y]. *)
Definition f64_div (x y : f64) : f64 := SFdiv 53 1024 x y.

(** ** The helpers *)

Definition KIB : Z := 1024.
Definition MIB : Z := KIB * 1024.
Definition GIB : Z := MIB * 1024.

Definition format_bytes (b : Z) : rstring :=
  if GIB <=? b then fmt_f64 2 (f64_div (f64_of_u64 b) (f64_of_u64 GIB)) ++ lit " GiB"
  else if MIB <=? b then fmt_f64 1 (f64_div (f64_of_u64 b) (f64_of_u64 MIB)) ++ lit " MiB"
  else if KIB <=? b then fmt_f64 1 (f64_div (f64_of_u64 b) (f64_of_u64 KIB)) ++ lit " KiB"
  else print_u64 b ++ lit " B".

Definition format_wall_ns (ns : Z) : rstring :=
  print_u64 (ns / 1_000_000_000) ++ lit "s + " ++
  pad_left ZERO 9 (print_u64 (ns mod 1_000_000_000)) ++ lit "ns since epoch".

Definition dump_trim_cstr (bytes : list Z) : rstring :=
  let end_ := unwrap_or (length bytes) (position0 bytes) in
  from_utf8_lossy (take end_ bytes).

(** ** [pretty_print] *)

(** [for i in 0..n { println!(...) }] over the rows of an array, read by index:
    out of bounds, Rust panics, and there is no output to speak of. *)
Fixpoint rows_from {A} (f : A -> rstring) (l : list A) (i n : nat) : option (list rstring) :=
  match n with
  | O => Some []
  | S n =>
      match l !! i with
      | Some x => match rows_from f l (S i) n with Some ls => Some (f x :: ls) | None => None end
      | None => None
      end
  end.
Definition rows {A} (f : A -> rstring) (l : list A) (n : nat) : option (list rstring) := rows_from f l 0 n.

(** [(count as usize).min(array.len())]. *)
Definition shown {A} (count : Z) (l : list A) : nat := Nat.min (Z.to_nat count) (length l).

(** ["--- title (count/capacity) ---"]. *)
Definition section_title {A} (title : rstring) (count : Z) (l : list A) : rstring :=
  lit "--- " ++ title ++ lit " (" ++ print_u64 count ++ lit "/" ++ print_u64 (Z.of_nat (length l)) ++ lit ") ---".

Definition psi_pct (x100 : Z) : rstring := fmt_f64 2 (f64_div (f64_of_u64 x100) (f64_of_u64 100)).

Definition print_header (path : rstring) (h : ShmHeader) : list rstring := [
  lit "=== agl-health shm snapshot ===";
  lit "path:              " ++ path;
  lit "magic:             0x" ++ print_hex16 (hdr_magic h);
  lit "version:           " ++ print_u64 (hdr_version h);
  lit "sequence:          " ++ print_u64 (hdr_sequence h);
  lit "snapshot_size:     " ++ print_u64 (hdr_snapshot_size h) ++ lit " bytes";
  lit "timestamp_ns_wall: " ++ print_u64 (hdr_timestamp_ns_wall h) ++ lit " (" ++
    format_wall_ns (hdr_timestamp_ns_wall h) ++ lit ")";
  lit ""].

Definition print_memory (m : MemorySnapshot) : list rstring := [
  lit "--- Memory ---";
  lit "total:             " ++ format_bytes (mem_total_bytes m);
  lit "free:              " ++ format_bytes (mem_free_bytes m);
  lit "cached:            " ++ format_bytes (mem_cached_bytes m);
  lit "buffered:          " ++ format_bytes (mem_buffered_bytes m);
  lit "slab:              " ++ format_bytes (mem_slab_bytes m);
  lit "swap used/free:    " ++ format_bytes (mem_swap_used_bytes m) ++ lit " / " ++
    format_bytes (mem_swap_free_bytes m);
  lit "page faults minor: " ++ print_u64 (mem_page_faults_minor m);
  lit "page faults major: " ++ print_u64 (mem_page_faults_major m);
  lit "oom kills total:   " ++ print_u64 (mem_oom_kills_total m);
  lit "psi some/full:     " ++ psi_pct (mem_psi_some_pct_x100 m) ++ lit "% / " ++
    psi_pct (mem_psi_full_pct_x100 m) ++ lit "%";
  lit ""].

Definition print_load (l : LoadSnapshotFixed) : list rstring := [
  lit "--- Load ---";
  lit "1 / 5 / 15 min:    " ++ fmt_f64 2 (lsf_load_1 l) ++ lit " / " ++ fmt_f64 2 (lsf_load_5 l) ++
    lit " / " ++ fmt_f64 2 (lsf_load_15 l);
  lit ""].

Definition print_sched (s : SchedSnapshotFixed) : list rstring := [
  lit "--- Scheduler ---";
  lit "p50 / p95 / p99:   " ++ print_u64 (ssf_p50_ns s) ++ lit " / " ++ print_u64 (ssf_p95_ns s) ++ lit " / " ++
    print_u64 (ssf_p99_ns s) ++ lit " ns";
  lit "total count:       " ++ print_u64 (sh_total_count (ssf_histogram s));
  lit "max latency:       " ++ print_u64 (sh_max_latency_ns (ssf_histogram s)) ++ lit " ns";
  lit ""].

Definition print_tcp (t : TcpStateSnapshot) : list rstring := [
  lit "--- TCP ---";
  lit "established:       " ++ print_u64 (tcp_established t);
  lit "time_wait:         " ++ print_u64 (tcp_time_wait t);
  lit "close_wait:        " ++ print_u64 (tcp_close_wait t);
  lit "listen:            " ++ print_u64 (tcp_listen t);
  lit "retransmits:       " ++ print_u64 (tcp_retransmits t);
  lit ""].

Definition print_core (c : CpuStats) : rstring :=
  lit "  [" ++ pad_left SPACE 2 (print_u64 (cpu_cpu_id c)) ++ lit "] user=" ++ print_u64 (cpu_user_ns c) ++
  lit "ns sys=" ++ print_u64 (cpu_system_ns c) ++ lit "ns irq=" ++ print_u64 (cpu_irq_ns c) ++
  lit "ns softirq=" ++ print_u64 (cpu_softirq_ns c) ++ lit "ns ctx=" ++ print_u64 (cpu_ctx_switches c).

Definition print_iface (n : NetIfaceStats) : rstring :=
  lit "  [idx=" ++ print_u64 (nif_iface_idx n) ++ lit "] rx=" ++ format_bytes (nif_rx_bytes n) ++ lit " (" ++
  print_u64 (nif_rx_packets n) ++ lit " pkt) tx=" ++ format_bytes (nif_tx_bytes n) ++ lit " (" ++
  print_u64 (nif_tx_packets n) ++ lit " pkt) drops rx/tx=" ++ print_u64 (nif_rx_drops n) ++ lit "/" ++
  print_u64 (nif_tx_drops n).

Definition print_block (b : BlockStats) : rstring :=
  lit "  [" ++ print_u64 (blk_device_major b) ++ lit ":" ++ print_u64 (blk_device_minor b) ++ lit "] read=" ++
  format_bytes (blk_read_bytes b) ++ lit " write=" ++ format_bytes (blk_write_bytes b) ++ lit " (" ++
  print_u64 (blk_reads_completed b) ++ lit " reads, " ++ print_u64 (blk_writes_completed b) ++ lit " writes)".

Definition print_process (p : ProcessStats) : rstring :=
  lit "  [" ++ pad_left SPACE 5 (print_u64 (ps_pid p)) ++ lit "] ppid=" ++ pad_left SPACE 5 (print_u64 (ps_ppid p)) ++
  lit " uid=" ++ pad_left SPACE 5 (print_u64 (ps_uid p)) ++ lit " cpu=" ++ print_u64 (ps_cpu_user_ns p) ++
  lit "ns rss=" ++ format_bytes (ps_mem_rss_bytes p) ++ lit " threads=" ++ print_u64 (ps_thread_count p) ++
  lit " " ++ dump_trim_cstr (ps_comm p).

(** The process list is cut at twenty rows. *)
Definition SHOWN_PROCESSES : nat := 20.

Definition print_security (s : SecurityEventCounts) : list rstring := [
  lit "--- Security ---";
  lit "ptrace:            " ++ print_u64 (sec_ptrace s);
  lit "memfd_create:      " ++ print_u64 (sec_memfd_create s);
  lit "prctl:             " ++ print_u64 (sec_prctl s);
  lit "setuid:            " ++ print_u64 (sec_setuid s);
  lit "exec_anomaly:      " ++ print_u64 (sec_exec_anomaly s);
  lit "capability_use:    " ++ print_u64 (sec_capability_use s)].

(** One titled section of rows, then an empty line. *)
Definition print_section {A} (title : rstring) (count : Z) (l : list A) (f : A -> rstring) : option (list rstring) :=
  r ← rows f l (shown count l);
  Some ([section_title title count l] ++ r ++ [lit ""]).

Definition print_processes (count : Z) (l : list ProcessStats) : option (list rstring) :=
  let n_proc := shown count l in
  let show := Nat.min n_proc SHOWN_PROCESSES in
  r ← rows print_process l show;
  Some ([section_title (lit "Top processes") count l] ++ r ++
        (if (show <? n_proc)%nat then [lit "  ... " ++ print_u64 (Z.of_nat (n_proc - show)) ++ lit " more"] else []) ++
        [lit ""]).

Definition pretty_print (path : rstring) (snap : MetricSnapshotV3) : option (list rstring) :=
  cores ← print_section (lit "CPU cores") (v3_cpu_core_count snap) (v3_cpu_cores snap) print_core;
  nets ← print_section (lit "Network interfaces") (v3_net_iface_count snap) (v3_net_ifaces snap) print_iface;
  blks ← print_section (lit "Block devices") (v3_block_dev_count snap) (v3_block_devs snap) print_block;
  procs ← print_processes (v3_process_count snap) (v3_top_processes snap);
  Some (print_header path (v3_header snap) ++ print_memory (v3_memory snap) ++ print_load (v3_load snap) ++
        print_sched (v3_sched snap) ++ print_tcp (v3_tcp snap) ++ cores ++ nets ++ blks ++ procs ++
        print_security (v3_security snap)).

(** ** The layout the segment promises *)

(** The compile-time assertions of [metrics_v3.rs] and [shm.rs]. *)
Definition layout_assertions : list bool :=
  [SIZE <=? 512 * 1024; c_size ShmHeader_ty =? 64; Z.of_nat SEQ_OFFSET mod 8 =? 0].

(** ** Lemmas *)

Lemma rows_from_take {A} (f : A -> rstring) l i n :
  (i + n <= length l)%nat -> rows_from f l i n = Some (map f (take n (drop i l))).
Proof.
  revert i. induction n as [|n IH]; intros i H; cbn [rows_from]; [by rewrite take_0|].
  destruct (lookup_lt_is_Some_2 l i ltac:(lia)) as [x Hx]. rewrite Hx, IH by lia.
  by rewrite (drop_S _ _ _ Hx).
Qed.

Lemma rows_take {A} (f : A -> rstring) l n : (n <= length l)%nat -> rows f l n = Some (map f (take n l)).
Proof. intros. unfold rows. rewrite rows_from_take by lia. by rewrite drop_0. Qed.

Lemma shown_le {A} count (l : list A) : (shown count l <= length l)%nat.
Proof. unfold shown. lia. Qed.
Lemma take_shown {A} count (l : list A) : take (shown count l) l = take (Z.to_nat count) l.
Proof.
  unfold shown. destruct (Nat.le_ge_cases (Z.to_nat count) (length l)).
  - by rewrite Nat.min_l.
  - rewrite Nat.min_r by done. by rewrite !take_ge by lia.
Qed.

Lemma print_section_eq {A} title count (l : list A) f :
  print_section title count l f =
    Some ([section_title title count l] ++ map f (take (Z.to_nat count) l) ++ [lit ""]).
Proof.
  unfold print_section. rewrite rows_take by apply shown_le. cbn [mbind option_bind]. by rewrite take_shown.
Qed.

(** A number too small to be printed in full is padded to its width. *)
Lemma length_pad_left c w s : (length s <= w)%nat -> length (pad_left c w s) = w.
Proof. intros. unfold pad_left. rewrite length_app, length_replicate. lia. Qed.

Lemma parse_zeros k s : parse_digits 0 (replicate k ZERO ++ s) = parse_digits 0 s.
Proof. by induction k as [|k IH]; cbn [replicate app parse_digits]. Qed.

Lemma parse_pad_zero w n : 0 <= n < 10 ^ 20 -> parse_digits 0 (pad_left ZERO w (print_u64 n)) = Some n.
Proof. intros. unfold pad_left. rewrite parse_zeros. apply parse_print_digits; [done|lia]. Qed.

Lemma length_print_digits_le k fuel n acc :
  0 <= n < 10 ^ Z.of_nat k -> (0 < k)%nat -> (length (print_digits fuel n acc) <= k + length acc)%nat.
Proof.
  revert fuel n acc. induction k as [|k IH]; intros fuel n acc Hn Hk; [lia|].
  destruct fuel as [|fuel]; cbn [print_digits]; [lia|].
  destruct (Z.ltb_spec n 10); [cbn; lia|]. destruct k as [|k]; [cbn in Hn; lia|].
  specialize (IH fuel (n / 10) ((48 + n mod 10) :: acc)). cbn [length] in *.
  rewrite Nat2Z.inj_succ, Z.pow_succ_r in Hn by lia.
  assert (0 <= n / 10 < 10 ^ Z.of_nat (S k)) by (split; [apply Z.div_pos; lia|apply Z.div_lt_upper_bound; lia]).
  lia.
Qed.

Lemma pretty_print_some path snap : exists lines, pretty_print path snap = Some lines.
Proof.
  unfold pretty_print. rewrite !print_section_eq. cbn [mbind option_bind]. unfold print_processes.
  pose proof (shown_le (v3_process_count snap) (v3_top_processes snap)).
  rewrite rows_take by lia. by eexists.
Qed.

(** ** Properties *)

(** The dump tool prints every snapshot it accepts, and cannot be made to
    panic by the counts in the segment: whatever they are, the output is the
    fixed blocks in order with, for each collection, one row for each of its
    first [count] entries that exist; of the processes the first twenty, with
    the number of the others if there are any. *)
Theorem pretty_print_total (path : rstring) (snap : MetricSnapshotV3) :
  let section {A} title count (l : list A) f :=
    [section_title title count l] ++ map f (take (Z.to_nat count) l) ++ [lit ""] in
  let procs := take (Z.to_nat (v3_process_count snap)) (v3_top_processes snap) in
  pretty_print path snap = Some (
    print_header path (v3_header snap) ++ print_memory (v3_memory snap) ++ print_load (v3_load snap) ++
    print_sched (v3_sched snap) ++ print_tcp (v3_tcp snap) ++
    section (lit "CPU cores") (v3_cpu_core_count snap) (v3_cpu_cores snap) print_core ++
    section (lit "Network interfaces") (v3_net_iface_count snap) (v3_net_ifaces snap) print_iface ++
    section (lit "Block devices") (v3_block_dev_count snap) (v3_block_devs snap) print_block ++
    [section_title (lit "Top processes") (v3_process_count snap) (v3_top_processes snap)] ++
    map print_process (take 20 procs) ++
    (if decide (20 < length procs)%nat
     then [lit "  ... " ++ print_u64 (Z.of_nat (length procs) - 20) ++ lit " more"] else []) ++ [lit ""] ++
    print_security (v3_security snap)).
Proof.
  intros section procs. unfold pretty_print. rewrite !print_section_eq. cbn [mbind option_bind].
  unfold print_processes.
  assert (length procs = shown (v3_process_count snap) (v3_top_processes snap)) as Hl.
  { unfold procs, shown. by rewrite length_take. }
  pose proof (shown_le (v3_process_count snap) (v3_top_processes snap)) as Hle.
  rewrite rows_take by (unfold SHOWN_PROCESSES; lia). cbn [mbind option_bind].
  replace (take (Nat.min (shown _ _) SHOWN_PROCESSES) (v3_top_processes snap)) with (take 20 procs)
    by (unfold procs; rewrite <- take_shown, take_take, Nat.min_comm; done).
  replace (if (Nat.min (shown _ _) SHOWN_PROCESSES <? _)%nat then _ else _)
    with (if decide (20 < length procs)%nat
     then [lit "  ... " ++ print_u64 (Z.of_nat (length procs) - 20) ++ lit " more"] else []).
  2:{ rewrite <- Hl. unfold SHOWN_PROCESSES.
      destruct (Nat.ltb_spec (Nat.min (length procs) 20) (length procs)).
      - rewrite decide_True by lia. do 4 f_equal. lia.
      - by rewrite decide_False by lia. }
  unfold section. by rewrite <- !app_assoc.
Qed.

(** C30: A segment of any content is handled.  The type keeps what [ShmPod]
    promises: its layout passes the compile-time assertions and has no implicit
    padding, and every sequence of bytes reads as a well-typed snapshot.  So
    whatever an unprivileged process finds under the path, the dump tool either
    refuses it, for a header that does not name this layout, or prints it; it
    does not panic. *)
Theorem any_segment_is_handled (path : rstring) (bytes : list Z) (Hbytes : Forall is_u8 bytes) :
  let snap := read_pod (T := MetricSnapshotV3) bytes in
  Forall (fun a => a = true) layout_assertions /\ packed MetricSnapshotV3_ty = true
  /\ pod_wf snap
  /\ match dump SIZE (Ok snap) with
     | Ok v => exists lines, pretty_print path v = Some lines
     | Err e =>
         (e = MagicMismatch (hdr_magic (v3_header snap)) /\ hdr_magic (v3_header snap) <> SHM_MAGIC)
         \/ (e = VersionMismatch (hdr_version (v3_header snap)) /\ hdr_version (v3_header snap) <> SHM_VERSION)
         \/ (e = SizeMismatch (hdr_snapshot_size (v3_header snap)) /\ hdr_snapshot_size (v3_header snap) <> SIZE)
     end.
Proof.
  intros snap. split; [decide_now|]. split; [vm_compute; reflexivity|]. split; [by apply read_pod_wf|].
  unfold dump. rewrite Z.ltb_irrefl. cbn [context result_bind].
  destruct (Z.eqb_spec (hdr_magic (v3_header snap)) SHM_MAGIC); cbn [negb]; [|by left].
  destruct (Z.eqb_spec (hdr_version (v3_header snap)) SHM_VERSION); cbn [negb]; [|by right; left].
  destruct (Z.eqb_spec (hdr_snapshot_size (v3_header snap)) SIZE); cbn [negb]; [|by right; right].
  destruct (pretty_print_some path snap) as [lines ->]. by eexists.
Qed.

Lemma any_segment_is_handled_witness :
  pod_wf (read_pod (T := MetricSnapshotV3) (replicate 4096 0x66))
  /\ dump SIZE (Ok (read_pod (replicate 4096 0x66))) = Err (MagicMismatch 0x6666666666666666).
Proof.
  split; [|vm_compute; reflexivity].
  assert (Forall is_u8 (replicate 4096 0x66)) as Hbytes by (apply Forall_replicate; unfold is_u8; lia).
  pose proof (any_segment_is_handled (lit "p") (replicate 4096 0x66) Hbytes) as Hall. cbv zeta in Hall.
  destruct Hall as (_ & _ & Hwf & _). exact Hwf.
Defined.

(** The time of the snapshot is printed exactly: the seconds and the nine
    digits of nanoseconds of [format_wall_ns] read back as the timestamp. *)
Theorem format_wall_ns_exact (ns : Z) (Hns : is_u64 ns) :
  exists secs nanos s n,
    format_wall_ns ns = secs ++ lit "s + " ++ nanos ++ lit "ns since epoch"
    /\ parse_digits 0 secs = Some s /\ length nanos = 9%nat /\ parse_digits 0 nanos = Some n
    /\ 0 <= n < 10 ^ 9 /\ s * 10 ^ 9 + n = ns.
Proof.
  unfold is_u64 in Hns. pose proof (Z.mod_pos_bound ns 1_000_000_000 ltac:(done)) as Hmod.
  exists (print_u64 (ns / 1_000_000_000)), (pad_left ZERO 9 (print_u64 (ns mod 1_000_000_000))),
    (ns / 1_000_000_000), (ns mod 1_000_000_000).
  split; [done|]. split; [|split; [|split; [|split]]].
  - apply parse_print_digits; [|lia]. div_lia.
  - apply length_pad_left. pose proof (length_print_digits_le 9 20 (ns mod 1_000_000_000) [] ltac:(done) ltac:(lia)).
    cbn [length] in *. unfold print_u64. lia.
  - apply parse_pad_zero. lia.
  - done.
  - pose proof (Z.div_mod ns 1_000_000_000). lia.
Qed.

Lemma format_wall_ns_exact_witness :
  format_wall_ns 1_700_000_000_000_000_042 = lit "1700000000s + 000000042ns since epoch"
  /\ exists secs nanos s n, format_wall_ns 1_700_000_000_000_000_042 = secs ++ lit "s + " ++ nanos ++ lit "ns since epoch"
    /\ parse_digits 0 secs = Some s /\ length nanos = 9%nat /\ parse_digits 0 nanos = Some n
    /\ 0 <= n < 10 ^ 9 /\ s * 10 ^ 9 + n = 1_700_000_000_000_000_042.
Proof.
  split; [vm_compute; reflexivity|].
  apply (format_wall_ns_exact 1_700_000_000_000_000_042). unfold is_u64. lia.
Defined.

Example format_bytes_gib : format_bytes 1610612736 = lit "1.50 GiB".
Proof. vm_compute. reflexivity. Qed.
Example format_bytes_rounds_up : format_bytes 1073741823 = lit "1024.0 MiB".
Proof. vm_compute. reflexivity. Qed.
Example psi_pct_exact : psi_pct 1234 = lit "12.34".
Proof. vm_compute. reflexivity. Qed.
Example load_two_decimals : fmt_f64 2 (default f64_zero (parse_f64 (lit "0.29"))) = lit "0.29".
Proof. vm_compute. reflexivity. Qed.
