(* ===== verification/Events.v ===== *)
(** [events.rs] and the drain tasks of [loader.rs]: from the raw records of the
    ring or perf buffers to the [WireEvent]s of the broadcast bus.  The buffer
    items are inputs (their bytes); the events sent on the bus are the
    output, since a send with no subscriber is ignored. *)
From S2P Require Import Prelude Text Float Types Layout Pods Bpf Stats Process Network Security Kernel TimeBase.

Inductive WireEvent :=
  | Process (kind : rstring) (timestamp_ns pid ppid uid exit_code : Z) (comm filename : rstring)
  | Network (kind : rstring) (timestamp_ns family sport dport drop_reason old_state new_state : Z)
      (saddr daddr : list Z)
  | Security (kind severity : rstring) (timestamp_ns pid ppid uid arg : Z) (comm filename : rstring).

Definition process_kind_name (k : Z) : rstring :=
  match k with 0 => lit "Exec" | 1 => lit "Exit" | 2 => lit "Fork" | _ => lit "Unknown" end.
Definition net_kind_name (k : Z) : rstring :=
  match k with
  | 0 => lit "SkbDrop" | 1 => lit "TcpRetransmit" | 2 => lit "TcpReset" | 3 => lit "TcpStateChange"
  | _ => lit "Unknown"
  end.
Definition security_kind_name (k : Z) : rstring :=
  match k with
  | 0 => lit "Ptrace" | 1 => lit "MemfdCreate" | 2 => lit "Prctl" | 3 => lit "Setuid"
  | 4 => lit "ExecAnomaly" | 5 => lit "CapabilityUse" | _ => lit "Unknown"
  end.
Definition severity_name (s : Z) : rstring :=
  match s with 0 => lit "info" | 1 => lit "warn" | 2 => lit "critical" | _ => lit "unknown" end.

Definition trim_cstr (bytes : list Z) : rstring :=
  let end_ := unwrap_or (length bytes) (position0 bytes) in
  from_utf8_lossy (take end_ bytes).

Definition from_process (ev : ProcessEvent) : WireEvent :=
  Process (process_kind_name (pe_kind ev)) (pe_timestamp_ns ev) (pe_pid ev) (pe_ppid ev) (pe_uid ev)
    (pe_exit_code ev) (trim_cstr (pe_comm ev)) (trim_cstr (pe_filename ev)).
Definition from_net (ev : NetEvent) : WireEvent :=
  Network (net_kind_name (ne_kind ev)) (ne_timestamp_ns ev) (ne_family ev) (ne_sport ev) (ne_dport ev)
    (ne_drop_reason ev) (ne_old_state ev) (ne_new_state ev) (ne_saddr ev) (ne_daddr ev).
Definition from_security (ev : SecurityEvent) : WireEvent :=
  Security (security_kind_name (sev_kind ev)) (severity_name (sev_severity ev)) (sev_timestamp_ns ev)
    (sev_pid ev) (sev_ppid ev) (sev_uid ev) (sev_arg ev) (trim_cstr (sev_comm ev))
    (trim_cstr (sev_filename ev)).

Definition subsystem (self : WireEvent) : rstring :=
  match self with
  | Process _ _ _ _ _ _ _ _ => lit "process"
  | Network _ _ _ _ _ _ _ _ _ _ => lit "network"
  | Security _ _ _ _ _ _ _ _ _ => lit "security"
  end.
Definition pid (self : WireEvent) : option Z :=
  match self with
  | Process _ _ p _ _ _ _ _ => Some p
  | Network _ _ _ _ _ _ _ _ _ _ => None
  | Security _ _ _ p _ _ _ _ _ => Some p
  end.

(** ** Draining *)

(** One item of a buffer: too short is skipped, otherwise its first bytes are
    the struct, the rest is ignored. *)
Definition parse_and_send {T} `{Pod T} (retime : T -> T) (from : T -> WireEvent) (bytes : list Z)
    : option WireEvent :=
  if Z.of_nat (length bytes) <? size_of T then None
  else Some (from (retime (read_pod bytes))).

Definition process_sample (tb : TimeBase) : list Z -> option WireEvent :=
  parse_and_send (fun ev => ev <| pe_timestamp_ns ::= to_wall_ns tb |>) from_process.
Definition net_sample (tb : TimeBase) : list Z -> option WireEvent :=
  parse_and_send (fun ev => ev <| ne_timestamp_ns ::= to_wall_ns tb |>) from_net.
Definition security_sample (tb : TimeBase) : list Z -> option WireEvent :=
  parse_and_send (fun ev => ev <| sev_timestamp_ns ::= to_wall_ns tb |>) from_security.

(** The inner loops: everything the ring holds at one wake-up. *)
Definition drain_process_ring (tb : TimeBase) (ring : list (list Z)) : list WireEvent :=
  omap (process_sample tb) ring.
Definition drain_net_ring (tb : TimeBase) (ring : list (list Z)) : list WireEvent :=
  omap (net_sample tb) ring.
Definition drain_security_ring (tb : TimeBase) (ring : list (list Z)) : list WireEvent :=
  omap (security_sample tb) ring.

Definition dispatch_perf_sample (bytes : list Z) (map_name : rstring) (tb : TimeBase)
    : option WireEvent :=
  if str_eqb map_name "PROCESS_EVENTS" then process_sample tb bytes
  else if str_eqb map_name "NET_EVENTS" then net_sample tb bytes
  else if str_eqb map_name "SECURITY_EVENTS" then security_sample tb bytes
  else None.

(** One wake-up of a per-CPU drain: the samples read and how many were lost,
    which is only logged. *)
Definition drain_perf_buf (map_name : rstring) (tb : TimeBase) (samples : list (list Z)) (lost : Z)
    : list WireEvent * option Z :=
  (omap (fun bytes => dispatch_perf_sample bytes map_name tb) samples,
   if 0 <? lost then Some lost else None).

(** ** Names of bytes *)

(** Kernel strings survive the wire.  A NUL-terminated buffer whose text is
    valid UTF-8 becomes exactly that text, whatever follows the NUL, and a
    buffer that is full is taken whole. *)
Theorem trim_cstr_roundtrip s junk :
  Forall is_scalar s -> Forall (fun c => c <> 0) s ->
  trim_cstr (encode_utf8 s ++ 0 :: junk) = s /\ trim_cstr (encode_utf8 s) = s.
Proof.
  intros Hs Hnz. pose proof (encode_utf8_nonzero s Hs Hnz) as Hb. unfold trim_cstr. split.
  - rewrite position0_app by done. cbn [position0 option_map unwrap_or]. rewrite Z.eqb_refl.
    cbn [option_map unwrap_or]. rewrite Nat.add_0_r, take_app_length. by apply from_utf8_lossy_encode.
  - rewrite <- (app_nil_r (encode_utf8 s)) at 2. rewrite position0_app by done.
    cbn [position0 option_map unwrap_or]. rewrite firstn_all. by apply from_utf8_lossy_encode.
Qed.
Lemma trim_cstr_roundtrip_witness :
  let s := [0x62; 0xE9; 0x20AC; 0x1F697] in
  encode_utf8 s = [0x62; 0xC3; 0xA9; 0xE2; 0x82; 0xAC; 0xF0; 0x9F; 0x9A; 0x97] /\
  trim_cstr (encode_utf8 s ++ [0; 7; 0]) = s.
Proof.
  intros s. split; [reflexivity|].
  destruct (trim_cstr_roundtrip s [7; 0]) as [H _]; [decide_now..|exact H].
Defined.

(** ** Delivery *)

Lemma parse_whole {T} `{Pod T} retime from (x : T) pad :
  pod_wf x -> parse_and_send retime from (write_pod x ++ pad) = Some (from (retime x)).
Proof.
  intros Hx. unfold parse_and_send. rewrite read_write_pod by done.
  rewrite length_app, length_write_pod by done. pose proof (@size_of_nonneg T _).
  case_match eqn:E; [apply Z.ltb_lt in E; lia|done].
Qed.

(** What a record must become on the bus. *)
Definition process_delivered (tb : TimeBase) (e : ProcessEvent) (w : WireEvent) : Prop :=
  exists kind name, pe_kind e = ProcessEventKind_repr kind /\
    (kind, name) ∈ [(Exec, lit "Exec"); (Exit, lit "Exit"); (Fork, lit "Fork")] /\
    w = Process name (to_wall_ns tb (pe_timestamp_ns e)) (pe_pid e) (pe_ppid e) (pe_uid e)
          (pe_exit_code e) (trim_cstr (pe_comm e)) (trim_cstr (pe_filename e)).
Definition net_delivered (tb : TimeBase) (e : NetEvent) (w : WireEvent) : Prop :=
  w = Network (lit "SkbDrop") (to_wall_ns tb (ne_timestamp_ns e)) (ne_family e) (ne_sport e) (ne_dport e)
        (ne_drop_reason e) (ne_old_state e) (ne_new_state e) (ne_saddr e) (ne_daddr e).
Definition security_delivered (tb : TimeBase) (e : SecurityEvent) (w : WireEvent) : Prop :=
  exists kname sname,
    (sev_kind e, kname) ∈ [(0, lit "Ptrace"); (1, lit "MemfdCreate"); (2, lit "Prctl"); (3, lit "Setuid");
      (4, lit "ExecAnomaly"); (5, lit "CapabilityUse")] /\
    (sev_severity e, sname) ∈ [(0, lit "info"); (1, lit "warn"); (2, lit "critical")] /\
    w = Security kname sname (to_wall_ns tb (sev_timestamp_ns e)) (sev_pid e) (sev_ppid e) (sev_uid e)
          (sev_arg e) (trim_cstr (sev_comm e)) (trim_cstr (sev_filename e)).

Lemma process_sample_delivers tb e pad :
  process_event_ok e -> exists w, process_sample tb (write_pod e ++ pad) = Some w /\ process_delivered tb e w.
Proof.
  intros [Hwf [kind Hk]]. unfold process_sample. rewrite parse_whole by done.
  eexists. split; [reflexivity|]. exists kind, (process_kind_name (pe_kind e)).
  split; [done|]. split; [|by destruct e].
  rewrite Hk. destruct kind; repeat constructor.
Qed.

Lemma net_sample_delivers tb e pad :
  net_event_ok e -> exists w, net_sample tb (write_pod e ++ pad) = Some w /\ net_delivered tb e w.
Proof.
  intros [Hwf Hk]. unfold net_sample. rewrite parse_whole by done.
  eexists. split; [reflexivity|]. unfold net_delivered. destruct e. cbn in Hk. by subst.
Qed.

Lemma security_sample_delivers tb e pad :
  security_event_ok e ->
  exists w, security_sample tb (write_pod e ++ pad) = Some w /\ security_delivered tb e w.
Proof.
  intros (Hwf & [kind Hk] & [sev Hs]). unfold security_sample. rewrite parse_whole by done.
  eexists. split; [reflexivity|]. exists (security_kind_name (sev_kind e)), (severity_name (sev_severity e)).
  split; [rewrite Hk; destruct kind; repeat constructor|].
  split; [rewrite Hs; destruct sev; repeat constructor|by destruct e].
Qed.

Lemma omap_delivers {A B C} (f : A -> option B) (g : C -> A) (R : C -> B -> Prop) (P : C -> Prop) l :
  (forall x, P x -> exists w, f (g x) = Some w /\ R x w) -> Forall P l ->
  Forall2 R l (omap f (map g l)).
Proof.
  intros Hf. induction 1 as [|x l Hx Hl IH]; [constructor|]. cbn [map omap list_omap].
  destruct (Hf x Hx) as (w & -> & Hw). by constructor.
Qed.

(** C13: every event reaches the bus, once, in order, unharmed.  In any reachable
    state of the kernel side, whatever padding the buffers add after a
    record, draining a ring or dispatching the samples of a perf buffer sends
    one wire event per pending record, in order, carrying its fields, its time
    moved to the wall clock and the name of its kind; no kind the programs
    emit is "Unknown". *)
Theorem events_delivered n k tb (pad : list Z) :
  reachable n k ->
  let items {T} `{Pod T} (es : list T) := map (fun e => write_pod e ++ pad) es in
  Forall2 (process_delivered tb) (PROCESS_EVENTS k) (drain_process_ring tb (items (PROCESS_EVENTS k))) /\
  Forall2 (net_delivered tb) (NET_EVENTS k) (drain_net_ring tb (items (NET_EVENTS k))) /\
  Forall2 (security_delivered tb) (SECURITY_EVENTS k) (drain_security_ring tb (items (SECURITY_EVENTS k))) /\
  (drain_perf_buf "PROCESS_EVENTS" tb (items (PROCESS_EVENTS k)) 0).1
    = drain_process_ring tb (items (PROCESS_EVENTS k)) /\
  (drain_perf_buf "NET_EVENTS" tb (items (NET_EVENTS k)) 0).1 = drain_net_ring tb (items (NET_EVENTS k)) /\
  (drain_perf_buf "SECURITY_EVENTS" tb (items (SECURITY_EVENTS k)) 0).1
    = drain_security_ring tb (items (SECURITY_EVENTS k)).
Proof.
  intros Hk%reachable_inv items. destruct Hk. split_and!; try reflexivity.
  - eapply omap_delivers; [|exact inv_pevents]. intros e. apply process_sample_delivers.
  - eapply omap_delivers; [|exact inv_nevents]. intros e. apply net_sample_delivers.
  - eapply omap_delivers; [|exact inv_sevents]. intros e. apply security_sample_delivers.
Qed.
Lemma events_delivered_witness :
  let c := ideal_ctx 0 10 7 7 [] in
  let k := (fire H_sched_process_exec c (kernel_init 1)).2 in
  exists w, drain_process_ring {| offset_ns := 5 |} [write_pod (basic_event c Exec 7 0 0 0) ++ [0; 0]] = [w] /\
    process_delivered {| offset_ns := 5 |} (basic_event c Exec 7 0 0 0) w.
Proof.
  intros c k.
  assert (reachable 1 k) as Hk by (apply reachable_fire; [apply ideal_ctx_ok; decide_now|exact I]).
  assert (PROCESS_EVENTS k = [basic_event c Exec 7 0 0 0]) as Hev by (vm_compute; reflexivity).
  destruct (events_delivered 1 k {| offset_ns := 5 |} [0; 0] Hk) as (H & _).
  rewrite Hev in H. apply Forall2_cons_inv_l in H as (w & l & Hw & Hl & H).
  apply Forall2_nil_inv_l in Hl as ->. by exists w.
Defined.
