(* ===== verification/Api.v ===== *)
(** [api.rs]: the REST handlers over the shared state and the WebSocket event
    stream.  A handler returns the value it serializes; JSON itself is not
    modelled.  For the stream, what the [select!] of the loop yields (an
    event or an error of the bus, a frame or an error of the client, the ping
    timer) and whether a send succeeds are inputs, and the serializer is a
    parameter. *)
From S2P Require Import Prelude Loader Text Float Types Layout Pods Bpf Metrics TimeBase Bandwidth Aggregator ProcTier Shm Events.

(** [AppState]; the event bus is the input of the stream. *)
Record AppState := {
  st_started : Z;  (* Instant, in nanoseconds *)
  st_bpf : LoadSummary;
  st_snapshot : MetricSnapshot;
  st_pid_facts : gmap Z PidStatusFacts;
  st_bandwidth : BandwidthWindow;
  st_cgroup_names : gmap Z rstring }.

(** [/health] at the instant [now]. *)
Definition get_health (now : Z) (state : AppState) : HealthResponse :=
  health (saturating_sub now (st_started state) / 1_000_000_000) (st_bpf state).

Definition get_metrics (state : AppState) : MetricSnapshot := st_snapshot state.
Definition get_memory (state : AppState) : MemorySnapshot := memory (st_snapshot state).
Definition get_scheduler (state : AppState) : SchedSnapshot := sched (st_snapshot state).

Record NetworkResponse := { nr_ifaces : list NetIfaceStats; nr_tcp : TcpStateSnapshot }.
Definition get_network (state : AppState) : NetworkResponse :=
  {| nr_ifaces := net_ifaces (st_snapshot state); nr_tcp := tcp (st_snapshot state) |}.

Definition get_disk (state : AppState) : list BlockStats := block (st_snapshot state).

Record ProcessQuery := { pq_limit : option Z }.
Definition DEFAULT_PROCESS_LIMIT : Z := 100.
Definition MAX_PROCESS_LIMIT : Z := 4096.

Definition overlay_process (facts : gmap Z PidStatusFacts) (p : ProcessStats) : ProcessStats :=
  match facts !! ps_pid p with
  | Some f => p <| ps_mem_rss_bytes := pid_rss_bytes f |> <| ps_mem_vms_bytes := pid_vms_bytes f |>
                <| ps_thread_count := pid_thread_count f |>
  | None => p
  end.

(** The rows taken under the lock of the snapshot. *)
Definition process_rows (q : ProcessQuery) (snap : MetricSnapshot) : list ProcessStats :=
  let limit := Z.min (unwrap_or DEFAULT_PROCESS_LIMIT (pq_limit q)) MAX_PROCESS_LIMIT in
  let v := top_processes snap in
  if limit <? Z.of_nat (length v) then take (Z.to_nat limit) v else v.

Definition get_process (q : ProcessQuery) (state : AppState) : list ProcessStats :=
  map (overlay_process (st_pid_facts state)) (process_rows q (st_snapshot state)).

Record CpuResponse := { cr_load : LoadSnapshot; cr_cores : list CpuStats }.
Definition get_cpu (state : AppState) : CpuResponse :=
  {| cr_load := load (st_snapshot state); cr_cores := cpu_cores (st_snapshot state) |}.

Definition get_security (state : AppState) : SecurityEventCounts := security (st_snapshot state).

Record CgroupQuery := { cq_limit : option Z; cq_window : option Z }.
Definition DEFAULT_CGROUP_LIMIT : Z := 50.
Definition MAX_CGROUP_LIMIT : Z := 4096.
Definition MAX_CGROUP_WINDOW_SECS : Z := 3600.

Record CgroupBandwidthEntry := { e_cgroup_name : option rstring; e_delta : CgroupBandwidthDelta }.

(** The deltas taken under the lock of the window, and the answer made of them
    under the lock of the names. *)
Definition cgroup_deltas (q : CgroupQuery) (bw : BandwidthWindow) : list CgroupBandwidthDelta :=
  query (Z.min (unwrap_or 0 (cq_window q)) MAX_CGROUP_WINDOW_SECS) bw.
Definition cgroup_entries (q : CgroupQuery) (names : gmap Z rstring) (deltas : list CgroupBandwidthDelta)
    : list CgroupBandwidthEntry :=
  let limit := Z.min (unwrap_or DEFAULT_CGROUP_LIMIT (cq_limit q)) MAX_CGROUP_LIMIT in
  map (fun d => {| e_cgroup_name := names !! d_cgroup_id d; e_delta := d |}) (take (Z.to_nat limit) deltas).

Definition get_network_cgroup (q : CgroupQuery) (state : AppState) : list CgroupBandwidthEntry :=
  cgroup_entries q (st_cgroup_names state) (cgroup_deltas q (st_bandwidth state)).

(** ** Requests and answers *)

(** The handlers that read nothing but the snapshot. *)
Inductive view := Metrics | Memory | Scheduler | Network | Disk | Cpu | Security_counts.
Inductive request :=
  | GetView (w : view)
  | GetProcess (q : ProcessQuery)
  | GetNetworkCgroup (q : CgroupQuery).
Inductive reply :=
  | RMetrics (m : MetricSnapshot) | RMemory (m : MemorySnapshot) | RScheduler (s : SchedSnapshot)
  | RNetwork (n : NetworkResponse) | RDisk (l : list BlockStats) | RCpu (c : CpuResponse)
  | RSecurity (c : SecurityEventCounts) | RProcess (l : list ProcessStats)
  | RNetworkCgroup (l : list CgroupBandwidthEntry).
Definition answer_view (w : view) (state : AppState) : reply :=
  match w with
  | Metrics => RMetrics (get_metrics state)
  | Memory => RMemory (get_memory state)
  | Scheduler => RScheduler (get_scheduler state)
  | Network => RNetwork (get_network state)
  | Disk => RDisk (get_disk state)
  | Cpu => RCpu (get_cpu state)
  | Security_counts => RSecurity (get_security state)
  end.
Definition answer (r : request) (state : AppState) : reply :=
  match r with
  | GetView w => answer_view w state
  | GetProcess q => RProcess (get_process q state)
  | GetNetworkCgroup q => RNetworkCgroup (get_network_cgroup q state)
  end.

(** [router]: the paths of the REST handlers, with the queries they take. *)
Definition router (pq : ProcessQuery) (cq : CgroupQuery) : list (rstring * request) :=
  [(lit "/metrics", GetView Metrics); (lit "/metrics/memory", GetView Memory);
   (lit "/metrics/scheduler", GetView Scheduler); (lit "/metrics/network", GetView Network);
   (lit "/metrics/disk", GetView Disk); (lit "/metrics/process", GetProcess pq);
   (lit "/metrics/cpu", GetView Cpu); (lit "/metrics/security", GetView Security_counts);
   (lit "/metrics/network/cgroup", GetNetworkCgroup cq)].

(** ** The event stream *)

Record StreamQuery := { sq_subsystem : option rstring; sq_pid : option Z }.
Record EventFilter := { subsystems : option (list rstring); f_pid : option Z }.

Definition from_query (q : StreamQuery) : EventFilter :=
  {| subsystems := option_map (fun s =>
       List.filter (fun x => negb (bool_decide (x = []))) (map trim (split_on COMMA s))) (sq_subsystem q);
     f_pid := sq_pid q |}.

Definition matches (self : EventFilter) (ev : WireEvent) : bool :=
  if match subsystems self with
     | Some subs => negb (existsb (fun s => str_eqb s (subsystem ev)) subs)
     | None => false
     end
  then false
  else match f_pid self with
       | Some p => match pid ev with Some q => q =? p | None => false end
       | None => true
       end.

(** What the [select!] yields; [sent] is the outcome of the send, if one is
    attempted. *)
Inductive stream_input :=
  | Event (ev : WireEvent) (sent : bool)
  | Lagged (n : Z)
  | BusClosed
  | ClientClose | ClientError | ClientOther
  | PingTick (sent : bool).
Inductive frame := TextFrame (json : rstring) | PingFrame.

Section Stream.
(** [serde_json::to_string]. *)
Variable to_json : WireEvent -> option rstring.

(** One turn of the loop: the frames handed to the socket, and whether the
    loop goes on. *)
Definition socket_step (filter : EventFilter) (i : stream_input) : list frame * bool :=
  match i with
  | Event ev sent =>
      if negb (matches filter ev) then ([], true)
      else match to_json ev with
           | None => ([], true)
           | Some json => ([TextFrame json], sent)
           end
  | Lagged _ => ([], true)
  | BusClosed | ClientClose | ClientError => ([], false)
  | ClientOther => ([], true)
  | PingTick sent => ([PingFrame], sent)
  end.

Fixpoint handle_events_socket (filter : EventFilter) (inputs : list stream_input) : list frame :=
  match inputs with
  | [] => []
  | i :: inputs' =>
      let '(frames, continue_) := socket_step filter i in
      frames ++ if continue_ then handle_events_socket filter inputs' else []
  end.

Definition events_stream (q : StreamQuery) (inputs : list stream_input) : list frame :=
  handle_events_socket (from_query q) inputs.

(** *** What a client asks for and gets *)

(** The list "a, b ,c" of a query, with any spaces around the names. *)
Fixpoint name_list (names : list (nat * rstring * nat)) : rstring :=
  match names with
  | [] => []
  | [(a, name, b)] => repeat 32 a ++ name ++ repeat 32 b
  | (a, name, b) :: names' => repeat 32 a ++ name ++ repeat 32 b ++ COMMA :: name_list names'
  end.
Definition name_ok (n : nat * rstring * nat) : Prop :=
  is_word n.1.2 /\ Forall (fun c => c <> COMMA) n.1.2.

(** The events a client asked for. *)
Definition wanted (names : option (list (nat * rstring * nat))) (p : option Z) (ev : WireEvent) : Prop :=
  (forall l, names = Some l -> subsystem ev ∈ map (fun n => n.1.2) l) /\
  (forall x, p = Some x -> pid ev = Some x).

Definition text_frames (l : list frame) : list rstring :=
  omap (fun f => match f with TextFrame s => Some s | PingFrame => None end) l.
(** The events received until the loop ends. *)
Definition ends (i : stream_input) : bool :=
  match i with
  | BusClosed | ClientClose | ClientError | PingTick false => true
  | _ => false
  end.
End Stream.

Lemma from_query_names names :
  names <> [] -> Forall name_ok names ->
  List.filter (fun x => negb (bool_decide (x = []))) (map trim (split_on COMMA (name_list names)))
    = map (fun n => n.1.2) names.
Proof.
  intros _ Hn.
  assert (names <> [] -> map trim (split_on COMMA (name_list names)) = map (fun n => n.1.2) names) as Ht.
  { induction Hn as [|[[a name] b] names [Hw Hc] Hn IH]; [done|]. intros _. cbn [fst snd] in *.
    assert (Forall (fun c => c <> COMMA) (repeat 32 a ++ name ++ repeat 32 b)) as Hno.
    { rewrite !Forall_app. split_and!; [by apply Forall_repeat|done|by apply Forall_repeat]. }
    assert (trim (repeat 32 a ++ name ++ repeat 32 b) = name) as Hname
      by (apply trim_word; [by apply Forall_repeat|done|by apply Forall_repeat]).
    destruct names as [|n names].
    - cbn [name_list]. rewrite split_on_none by done. cbn. by rewrite Hname.
    - change (name_list ((a, name, b) :: n :: names))
        with (repeat 32 a ++ name ++ repeat 32 b ++ COMMA :: name_list (n :: names)).
      rewrite !app_assoc, split_on_app by (by rewrite <- app_assoc).
      cbn [map fst snd]. rewrite <- app_assoc, Hname. f_equal. by apply IH. }
  destruct names as [|n names]; [done|]. rewrite Ht by done. clear Ht.
  induction Hn as [|m ms [[Hm _] _] Hms IH]; [done|]. cbn [map List.filter].
  rewrite bool_decide_eq_false_2 by done. cbn [negb]. f_equal. exact IH.
Qed.

(** The filter of a query accepts what the client asked for. *)
Lemma matches_wanted names p ev :
  (forall l, names = Some l -> l <> [] /\ Forall name_ok l) ->
  matches (from_query {| sq_subsystem := option_map name_list names; sq_pid := p |}) ev = true
    <-> wanted names p ev.
Proof.
  intros Hn. unfold matches, wanted, from_query. cbn [subsystems f_pid sq_subsystem sq_pid].
  assert (match p with Some p => match pid ev with Some q => q =? p | None => false end | None => true end = true
    <-> forall x, p = Some x -> pid ev = Some x) as Hp.
  { destruct p as [x|]; [|naive_solver]. destruct (pid ev) as [y|]; [|naive_solver].
    rewrite Z.eqb_eq. naive_solver. }
  destruct names as [l|]; cbn [option_map]; [|rewrite Hp; naive_solver].
  destruct (Hn l eq_refl) as [Hne Hok]. rewrite from_query_names by done.
  destruct (existsb _ _) eqn:E; cbn [negb].
  - rewrite Hp. apply existsb_exists in E as (s & Hs & Hq). apply bool_decide_eq_true in Hq as ->.
    apply list_elem_of_In in Hs. naive_solver.
  - split; [done|]. intros [Hin _]. specialize (Hin l eq_refl). exfalso.
    apply not_true_iff_false in E. apply E, existsb_exists. exists (subsystem ev).
    split; [by apply list_elem_of_In|by apply bool_decide_eq_true].
Qed.

Section StreamSpec.
Variable to_json : WireEvent -> option rstring.

(** The connection goes on: every send that is attempted succeeds. *)
Definition alive (i : stream_input) : bool :=
  match i with Event _ sent | PingTick sent => sent | Lagged _ | ClientOther => true | _ => false end.
Definition events_of (inputs : list stream_input) : list WireEvent :=
  omap (fun i => match i with Event ev _ => Some ev | _ => None end) inputs.

Lemma socket_step_alive filter i :
  alive i = true ->
  (socket_step to_json filter i).2 = true /\
  text_frames (socket_step to_json filter i).1 =
    omap to_json (List.filter (matches filter) (events_of [i])).
Proof.
  destruct i as [ev sent|n| | | | |sent]; cbn; try done.
  - intros ->. destruct (matches filter ev); cbn; [|done]. by destruct (to_json ev).
Qed.

Lemma socket_alive filter inputs rest :
  Forall (fun i => alive i = true) inputs ->
  text_frames (handle_events_socket to_json filter (inputs ++ rest)) =
    omap to_json (List.filter (matches filter) (events_of inputs))
    ++ text_frames (handle_events_socket to_json filter rest).
Proof.
  induction 1 as [|i inputs Hi Hin IH]; [done|]. cbn [app handle_events_socket].
  destruct (socket_step_alive filter i Hi) as [Hgo Htext].
  destruct (socket_step to_json filter i) as [frames go]. cbn [fst snd] in *. subst go.
  unfold text_frames in *. rewrite omap_app, Htext, IH, app_assoc. f_equal.
  change (i :: inputs) with ([i] ++ inputs). unfold events_of. by rewrite omap_app, List.filter_app, omap_app.
Qed.

(** C36: a stream client gets what it asked for.  For a query that names
    subsystems in a comma-separated list, with any spaces, and perhaps a pid,
    the text frames sent are, in order and each once, the serializations of
    exactly the events of those subsystems and that pid among the events
    received, until the client leaves, the bus closes or a send fails, after
    which nothing is sent; pings, lag reports and client messages change
    nothing. *)
Theorem stream_delivers_wanted names p inputs stop rest :
  (forall l, names = Some l -> l <> [] /\ Forall name_ok l) ->
  Forall (fun i => alive i = true) inputs -> ends stop = true ->
  let q := {| sq_subsystem := option_map name_list names; sq_pid := p |} in
  exists kept, picks (wanted names p) (events_of inputs) kept /\
    text_frames (events_stream to_json q (inputs ++ stop :: rest)) = omap to_json kept /\
    (forall ev json, wanted names p ev -> to_json ev = Some json ->
       text_frames (events_stream to_json q (inputs ++ Event ev false :: rest)) = omap to_json kept ++ [json]).
Proof.
  intros Hn Hin Hstop. cbv zeta. set (filter := from_query {| sq_subsystem := option_map name_list names; sq_pid := p |}).
  exists (List.filter (matches filter) (events_of inputs)).
  split; [|split].
  - apply picks_filter. intros ev. by apply matches_wanted.
  - unfold events_stream. fold filter. rewrite socket_alive by done. rewrite <- (app_nil_r (omap _ _)) at 2. f_equal.
    destruct stop as [| | | | | |[]]; done.
  - intros ev json Hw Hj. unfold events_stream. fold filter. rewrite socket_alive by done. f_equal.
    cbn [handle_events_socket socket_step].
    replace (matches filter ev) with true by (symmetry; by apply (matches_wanted names p ev Hn)). cbn [negb].
    by rewrite Hj.
Qed.
End StreamSpec.

Lemma stream_delivers_wanted_witness :
  let json ev := Some (subsystem ev) in
  let sec p := Security (lit "Ptrace") (lit "warn") 1 p 0 0 0 [] [] in
  let exec p := Process (lit "Exec") 1 p 0 0 0 [] [] in
  let names := [(0%nat, lit "security", 1%nat); (2%nat, lit "network", 0%nat)] in
  let q := {| sq_subsystem := Some (name_list names); sq_pid := Some 7 |} in
  let inputs := [Event (sec 7) true; Event (exec 7) true; PingTick true; Event (sec 8) true] in
  events_stream json q (inputs ++ [ClientClose; Event (sec 7) true]) = [TextFrame (lit "security"); PingFrame] /\
  exists kept, sec 7 ∈ kept /\ exec 7 ∉ kept /\
    text_frames (events_stream json q (inputs ++ [ClientClose; Event (sec 7) true])) = omap json kept.
Proof.
  intros json sec exec names q inputs. split; [vm_compute; reflexivity|].
  destruct (stream_delivers_wanted json (Some names) (Some 7) inputs ClientClose [Event (sec 7) true])
    as (kept & Hk & Hf & _).
  - intros l [= <-]. split; [done|]. repeat (apply Forall_cons; split; [decide_now|]). constructor.
  - by repeat constructor.
  - reflexivity.
  - exists kept. split; [|split; [|exact Hf]].
    + apply (picks_elem_of _ _ _ _ Hk). split; [left|]. split; [intros l [= <-]; left|intros x [= <-]; reflexivity].
    + intros [_ [Hw _]]%(picks_elem_of _ _ _ _ Hk). specialize (Hw names eq_refl). vm_compute in Hw.
      by repeat (apply elem_of_cons in Hw as [Hw|Hw]; [discriminate Hw|]); apply elem_of_nil in Hw.
Defined.

(** ** The REST handlers *)

(** The two ways to the process table agree, within their limits.  A
    request for processes answers with at most its limit, 100 without one and
    never more than 4096, rows: the first rows of the shared table, in order,
    with the [/proc] facts of their pid; and each of them that fits the
    shared-memory snapshot, built from the same state, is the row at the same
    position there. *)
Theorem process_rows_agree q state util tb now :
  (forall l, pq_limit q = Some l -> 0 <= l) ->
  let rows := get_process q state in
  let v3 := build_v3 (st_snapshot state) (st_pid_facts state) util tb now in
  Z.of_nat (length rows) = Z.min (Z.of_nat (length (top_processes (st_snapshot state))))
    (Z.min (unwrap_or 100 (pq_limit q)) 4096) /\
  (forall i, (i < length rows)%nat ->
     exists p, top_processes (st_snapshot state) !! i = Some p /\
       rows !! i = Some (shown_process (st_pid_facts state) p)) /\
  forall i, (i < length rows)%nat -> (i < V3_MAX_PROCESSES)%nat -> v3_top_processes v3 !! i = rows !! i.
Proof.
  intros Hl rows v3. unfold get_process, process_rows in rows. cbv zeta in rows.
  set (limit := Z.min (unwrap_or DEFAULT_PROCESS_LIMIT (pq_limit q)) MAX_PROCESS_LIMIT) in rows.
  set (l := top_processes (st_snapshot state)) in *.
  assert (0 <= limit) as Hlim.
  { unfold limit, DEFAULT_PROCESS_LIMIT, MAX_PROCESS_LIMIT. destruct (pq_limit q) as [n|]; cbn; [|lia].
    specialize (Hl n eq_refl). lia. }
  assert (rows = map (overlay_process (st_pid_facts state)) (take (Z.to_nat limit) l)) as Hrows.
  { unfold rows. destruct (Z.ltb_spec limit (Z.of_nat (length l))); [done|]. by rewrite take_ge by lia. }
  assert (forall i, (i < length rows)%nat -> exists p, l !! i = Some p /\
    rows !! i = Some (shown_process (st_pid_facts state) p)) as Hi.
  { intros i Hi. rewrite Hrows in Hi |- *. rewrite length_map, length_take in Hi.
    destruct (lookup_lt_is_Some_2 l i) as [p Hp]; [lia|]. exists p. split; [done|].
    change (map ?f ?x) with (f <$> x). rewrite list_lookup_fmap, lookup_take_lt, Hp by lia. cbn.
    by rewrite <- overlay_row_shown. }
  clearbody rows. split; [|split; [exact Hi|]].
  - rewrite Hrows, length_map, length_take. unfold DEFAULT_PROCESS_LIMIT, MAX_PROCESS_LIMIT in *. lia.
  - intros i Hr Hc. destruct (Hi i Hr) as (p & Hp & ->).
    destruct (c_processes _ _ _ _ _ (build_v3_holds (st_snapshot state) (st_pid_facts state) util tb now))
      as (_ & _ & Hv). fold v3 in Hv. rewrite Hv by done. f_equal.
    apply nth_lookup_Some. change (map ?f ?x) with (f <$> x). rewrite list_lookup_fmap. fold l. by rewrite Hp.
Qed.
Lemma process_rows_agree_witness :
  let p n := ProcessStats_zeroed <| ps_pid := n |> in
  let state := {| st_started := 0; st_bpf := LoadSummary_default; st_snapshot := MetricSnapshot_default <| top_processes := [p 7; p 8; p 9] |>;
                  st_pid_facts := {[ 8 := {| pid_rss_bytes := 4096; pid_vms_bytes := 1; pid_thread_count := 2 |} ]};
                  st_bandwidth := BandwidthWindow_new; st_cgroup_names := ∅ |} in
  Z.of_nat (length (get_process {| pq_limit := Some 2 |} state)) = 2.
Proof.
  intros p state.
  destruct (process_rows_agree {| pq_limit := Some 2 |} state [] {| offset_ns := 0 |}
    {| tv_sec := 0; tv_nsec := 0 |}) as (H & _); [|exact H].
  intros l [= <-]. lia.
Defined.

(** Without a window the answer is the latest sample's counters, in its order;
    a window is at most an hour. *)
Lemma cgroup_answer q state :
  get_network_cgroup q state =
    map (fun d => {| e_cgroup_name := st_cgroup_names state !! d_cgroup_id d; e_delta := d |})
      (take (Z.to_nat (Z.min (unwrap_or 50 (cq_limit q)) 4096))
        (query (Z.min (unwrap_or 0 (cq_window q)) 3600) (st_bandwidth state))).
Proof. done. Qed.
