(* ===== verification/CgroupNames.v ===== *)
(** [cgroup_names.rs]: the walk of the cgroup tree that names cgroup ids, and
    what its cache answers to the API.

    The file system is an input ([node]): what [read_dir], [metadata] and the
    entries' [file_type] returned for each directory the walk visits. *)
From S2P Require Import Prelude Text.

(** A directory: its listing, or [None] when [read_dir] failed, and its inode,
    or [None] when [metadata] failed.  An entry is [None] when reading it
    failed; otherwise its name (bytes), whether [file_type] said directory
    ([None] when that failed), and the directory it would be. *)
Inductive node :=
  Node (listing : option (list (option (list Z * option bool * node)))) (ino : option Z).

Definition MAX_DEPTH : nat := 32.
Definition SLASH : Z := 47.

(** The path of a directory relative to the root, as bytes. *)
Fixpoint join_path (components : list (list Z)) : list Z :=
  match components with
  | [] => []
  | [c] => c
  | c :: cs => c ++ SLASH :: join_path cs
  end.

Definition dir_name (components : list (list Z)) : rstring :=
  let rel := from_utf8_lossy (join_path components) in
  if bool_decide (rel = []) then lit "(root)" else rel.

(** The path lists the components from the root down; [depth] is the
    parameter of the source. *)
Fixpoint walk_dir (dir : node) (path : list (list Z)) (m : gmap Z rstring) (depth : nat) : gmap Z rstring :=
  match dir with
  | Node listing ino =>
      if (MAX_DEPTH <? depth)%nat then m
      else
        match listing with
        | None => m
        | Some entries =>
            let m := match ino with Some i => <[i := dir_name path]> m | None => m end in
            (fix walk_entries (entries : list (option (list Z * option bool * node))) m :=
               match entries with
               | [] => m
               | Some (name, Some true, child) :: entries =>
                   walk_entries entries (walk_dir child (path ++ [name]) m (S depth))
               | _ :: entries => walk_entries entries m
               end) entries m
        end
  end.

(** [None]: [root.is_dir()] is false. *)
Definition scan_cgroup_tree (root : option node) : gmap Z rstring :=
  match root with
  | None => ∅
  | Some root => walk_dir root [] ∅ 0
  end.

(** One turn of the loop of [spawn_resolver]: the cache is replaced. *)
Definition refresh_names (root : option node) (cache : gmap Z rstring) : gmap Z rstring :=
  scan_cgroup_tree root.

(** ** The tree the walk can see *)

(** [dir_at t path d]: going down from [t] by the entries that are directories
    reaches [d]; every directory on the way can be listed. *)
Inductive dir_at : node -> list (list Z) -> node -> Prop :=
  | dir_here d : dir_at d [] d
  | dir_below entries ino name child path d :
      Some (name, Some true, child) ∈ entries -> dir_at child path d ->
      dir_at (Node (Some entries) ino) (name :: path) d.

(** A directory the walk records, with its inode. *)
Definition recorded (root : node) (path : list (list Z)) (i : Z) : Prop :=
  exists entries, dir_at root path (Node (Some entries) (Some i)) /\ (length path <= MAX_DEPTH)%nat.

(** The loop over the entries, by name. *)
Fixpoint walk_entries (path : list (list Z)) (depth : nat)
    (entries : list (option (list Z * option bool * node))) (m : gmap Z rstring) : gmap Z rstring :=
  match entries with
  | [] => m
  | Some (name, Some true, child) :: entries =>
      walk_entries path depth entries (walk_dir child (path ++ [name]) m (S depth))
  | _ :: entries => walk_entries path depth entries m
  end.

Lemma walk_dir_unfold listing ino path m depth :
  walk_dir (Node listing ino) path m depth =
    if (MAX_DEPTH <? depth)%nat then m
    else match listing with
         | None => m
         | Some entries =>
             walk_entries path depth entries
               (match ino with Some i => <[i := dir_name path]> m | None => m end)
         end.
Proof.
  cbn [walk_dir]. destruct (_ <? _)%nat; [done|]. destruct listing as [entries|]; [|done].
  set (m' := match ino with Some i => _ | None => m end). clearbody m'. revert m'.
  induction entries as [|[[[name [[]|]] child]|] entries IH]; intros m'; cbn [walk_entries]; [done|..]; apply IH.
Qed.

(** Below a directory at [depth], as far as the walk goes. *)
Definition recorded_below (t : node) (depth : nat) (path : list (list Z)) (i : Z) : Prop :=
  exists entries, dir_at t path (Node (Some entries) (Some i)) /\ (depth + length path <= MAX_DEPTH)%nat.

(** A pass over the map that files inodes under names related by [R]: it files
    nothing else, and every inode [R] names ends up with a name. *)
Definition files (R : Z -> rstring -> Prop) (m m' : gmap Z rstring) : Prop :=
  (forall i name, m' !! i = Some name -> m !! i = Some name \/ R i name) /\
  (forall i, is_Some (m !! i) \/ (exists name, R i name) -> is_Some (m' !! i)).

Lemma files_none (R : Z -> rstring -> Prop) m : (forall i name, ~ R i name) -> files R m m.
Proof. intros H. split; [by left|]. intros i [Hi|[name Hn]]; [done|by apply H in Hn]. Qed.

Lemma files_then (R R1 R2 : Z -> rstring -> Prop) m m1 m2 :
  (forall i name, R i name <-> R1 i name \/ R2 i name) ->
  files R1 m m1 -> files R2 m1 m2 -> files R m m2.
Proof.
  intros HR [Hs1 Hc1] [Hs2 Hc2]. split.
  - intros i name H. rewrite HR. apply Hs2 in H as [H|H]; [|tauto]. apply Hs1 in H. tauto.
  - intros i H. apply Hc2. destruct H as [H|[name [H|H]%HR]]; [left; apply Hc1; by left| |right; by exists name].
    left. apply Hc1. right. by exists name.
Qed.

Lemma files_insert i name m : files (fun j x => j = i /\ x = name) m (<[i := name]> m).
Proof.
  split.
  - intros j x [[-> ->]|[_ H]]%lookup_insert_Some; [by right|by left].
  - intros j H. apply lookup_insert_is_Some. destruct (decide (i = j)) as [->|]; [by left|right].
    split; [done|]. by destruct H as [H|(x & -> & _)].
Qed.

(** What the walk of [t], and of the entries of a directory, file. *)
Definition below (t : node) (path : list (list Z)) (depth : nat) (i : Z) (name : rstring) : Prop :=
  exists p, recorded_below t depth p i /\ name = dir_name (path ++ p).
Definition below_entries (entries : list (option (list Z * option bool * node))) path depth i name : Prop :=
  exists n child, Some (n, Some true, child) ∈ entries /\ below child (path ++ [n]) (S depth) i name.

Lemma below_entries_cons e entries path depth i name :
  below_entries (e :: entries) path depth i name <->
  match e with
  | Some (n, Some true, child) => below child (path ++ [n]) (S depth) i name
  | _ => False
  end \/ below_entries entries path depth i name.
Proof.
  split.
  - intros (n & child & [<- |Hin]%elem_of_cons & Hb); [by left|right; by exists n, child].
  - intros [Hb|(n & child & Hin & Hb)].
    + destruct e as [[[n [[]|]] child]|]; try done. exists n, child. split; [by left|done].
    + exists n, child. split; [by right|done].
Qed.

Lemma walk_entries_files path depth entries m :
  (forall name child m, Some (name, Some true, child) ∈ entries ->
     files (below child (path ++ [name]) (S depth)) m (walk_dir child (path ++ [name]) m (S depth))) ->
  files (below_entries entries path depth) m (walk_entries path depth entries m).
Proof.
  revert m. induction entries as [|e entries IH]; intros m Hw.
  { apply files_none. intros i name (n & child & Hin & _). by apply not_elem_of_nil in Hin. }
  assert (forall m, files (below_entries entries path depth) m (walk_entries path depth entries m)) as IHe.
  { intros m0. apply IH. intros name child m1 Hin. apply Hw. by right. }
  clear IH. destruct e as [[[n [[]|]] child]|]; cbn [walk_entries].
  1: eapply files_then; [|apply (Hw n child m); by left|apply IHe].
  2-4: eapply (files_then _ (fun _ _ => False)); [|apply files_none; tauto|apply IHe].
  all: intros i name; apply below_entries_cons.
Qed.

(** A listed directory files itself, then what its entries do. *)
Lemma below_listed entries ino path depth i name :
  (depth <= MAX_DEPTH)%nat ->
  below (Node (Some entries) ino) path depth i name <->
  (ino = Some i /\ name = dir_name path) \/ below_entries entries path depth i name.
Proof.
  intros Hd. split.
  - intros (p & (es & Hat & Hp) & ->). inversion Hat as [d|entries' ino' n child q d Hin Hat']; subst.
    + left. by rewrite app_nil_r.
    + right. exists n, child. split; [done|]. exists q. rewrite <- app_assoc. split; [|done].
      exists es. split; [done|]. cbn in Hp. lia.
  - intros [[-> ->]|(n & child & Hin & q & (es & Hat & Hp) & ->)].
    + exists []. rewrite app_nil_r. split; [|done]. exists entries. split; [constructor|cbn; lia].
    + exists (n :: q). rewrite <- app_assoc. split; [|done]. exists es. split; [by econstructor|cbn; lia].
Qed.

Lemma walk_dir_files t path m depth : files (below t path depth) m (walk_dir t path m depth).
Proof.
  remember (S MAX_DEPTH - depth)%nat as fuel eqn:Hfuel. revert t path m depth Hfuel.
  induction fuel as [|fuel IH]; intros [listing ino] path m depth Hfuel; rewrite walk_dir_unfold.
  { rewrite (proj2 (Nat.ltb_lt _ _)) by lia. apply files_none.
    intros i name (p & (es & _ & Hp) & _). lia. }
  rewrite (proj2 (Nat.ltb_ge _ _)) by lia. destruct listing as [entries|].
  2: { apply files_none. intros i name (p & (es & Hat & _) & _). inversion Hat. }
  eapply (files_then _ (fun i name => ino = Some i /\ name = dir_name path) _ _
    (match ino with Some i => <[i := dir_name path]> m | None => m end)).
  - intros i name. apply below_listed. lia.
  - destruct ino as [j|]; [|by apply files_none; intros i name [[=] _]].
    destruct (files_insert j (dir_name path) m) as [Hs Hc]. split.
    + intros i name H. apply Hs in H as [H|[-> ->]]; [by left|by right].
    + intros i [H|(name & [= ->] & ->)]; apply Hc; [by left|right; by exists (dir_name path)].
  - apply walk_entries_files. intros name child m0 _. apply IH. lia.
Qed.

(** ** Names *)

(** A directory name as cgroupfs gives it: text, not empty, without a slash. *)
Definition component_ok (c : rstring) : Prop := c <> [] /\ Forall is_scalar c.

Fixpoint join_names (components : list rstring) : rstring :=
  match components with
  | [] => []
  | [c] => c
  | c :: cs => c ++ SLASH :: join_names cs
  end.

Lemma join_path_encode cs : join_path (map encode_utf8 cs) = encode_utf8 (join_names cs).
Proof.
  induction cs as [|c [|c' cs] IH]; [done|done|]. cbn [map join_path join_names] in *.
  rewrite IH. unfold encode_utf8. by rewrite flat_map_app.
Qed.

Lemma dir_name_text cs :
  Forall component_ok cs -> dir_name (map encode_utf8 cs) = if decide (cs = []) then lit "(root)" else join_names cs.
Proof.
  intros Hcs. unfold dir_name. rewrite join_path_encode, from_utf8_lossy_encode.
  - destruct cs as [|c cs]; [done|]. rewrite bool_decide_false; [by rewrite decide_False|].
    inversion Hcs as [|? ? [Hne _]]; subst. by destruct c, cs.
  - induction Hcs as [|c cs [_ Hc] Hcs IH]; [constructor|]. destruct cs; [done|]. cbn [join_names].
    apply Forall_app. split; [done|]. constructor; [|done]. vm_compute. by left.
Qed.

(** C37: the cache names a cgroup by its path.  When the directories the walk can
    see (by listable directories, at most 32 levels down) have inodes of their
    own, the cache of [scan_cgroup_tree] maps the inode of each to its path
    below the cgroup root, the root itself to "(root)", and no other id to
    anything; without a cgroup root it is empty. *)
Theorem cgroups_named_by_path root :
  (forall p q i, recorded root p i -> recorded root q i -> p = q) ->
  (forall cs i, Forall component_ok cs -> recorded root (map encode_utf8 cs) i ->
     scan_cgroup_tree (Some root) !! i =
       Some (if decide (cs = []) then lit "(root)" else join_names cs)) /\
  (forall i, is_Some (scan_cgroup_tree (Some root) !! i) <-> exists p, recorded root p i) /\
  scan_cgroup_tree None = ∅.
Proof.
  intros Huniq. destruct (walk_dir_files root [] ∅ 0) as [Hs Hc]. cbn [scan_cgroup_tree].
  assert (forall i name, walk_dir root [] ∅ 0 !! i = Some name ->
    exists p, recorded root p i /\ name = dir_name p) as Hsound.
  { intros i name [H|H]%Hs; [by rewrite lookup_empty in H|exact H]. }
  assert (forall p i, recorded root p i -> is_Some (walk_dir root [] ∅ 0 !! i)) as Hcomplete.
  { intros p i H. apply Hc. right. exists (dir_name p), p. done. }
  split_and!; [|intros i; split|done].
  - intros cs i Hcs Hr. destruct (Hcomplete _ _ Hr) as [name Hname].
    destruct (Hsound i name Hname) as (p & Hp & ->). rewrite (Huniq p _ i Hp Hr) in Hname.
    by rewrite Hname, dir_name_text.
  - intros [name H]. destruct (Hsound i name H) as (p & Hp & _). by exists p.
  - intros [p Hp]. by apply (Hcomplete p).
Qed.

(** A root with a service below a slice, beside a file and an entry that could
    not be read. *)
Definition demo_tree : node :=
  let service := Node (Some []) (Some 9) in
  let slice := Node (Some [None; Some (lit "sshd.service", Some true, service)]) (Some 7) in
  Node (Some [Some (lit "cgroup.procs", Some false, Node None None);
              Some (lit "system.slice", Some true, slice)]) (Some 1).

Lemma demo_recorded p i :
  recorded demo_tree p i ->
  (p, i) ∈ [([], 1); ([lit "system.slice"], 7); ([lit "system.slice"; lit "sshd.service"], 9)].
Proof.
  intros (es & Hat & _). unfold demo_tree in Hat.
  repeat match goal with
  | H : dir_at (Node _ _) _ _ |- _ => inversion H; clear H; subst
  | H : _ ∈ [] |- _ => by apply not_elem_of_nil in H
  | H : _ ∈ _ :: _ |- _ => apply elem_of_cons in H as [H|H]; [try discriminate H; injection H; clear H; intros; subst|]
  end; decide_now.
Qed.

Lemma cgroups_named_by_path_witness :
  scan_cgroup_tree (Some demo_tree) !! 9 = Some (lit "system.slice/sshd.service").
Proof.
  destruct (cgroups_named_by_path demo_tree) as (H & _ & _).
  - intros p q i Hp%demo_recorded Hq%demo_recorded. apply list_elem_of_In in Hp, Hq.
    destruct Hp as [[= <- <-]|[[= <- <-]|[[= <- <-]|[]]]];
      destruct Hq as [[= <-]|[[= <-]|[[= <-]|[]]]]; try reflexivity; discriminate.
  - rewrite (H [lit "system.slice"; lit "sshd.service"] 9); [reflexivity|decide_now|].
    eexists. split; [|vm_compute; repeat constructor].
    apply (dir_below _ _ (lit "system.slice") (Node (Some [None; Some (lit "sshd.service", Some true,
      Node (Some []) (Some 9))]) (Some 7))); [apply list_elem_of_In; right; by left|].
    apply (dir_below _ _ (lit "sshd.service") (Node (Some []) (Some 9)));
      [apply list_elem_of_In; right; by left|constructor].
Defined.
