(* ===== verification/Tasks.v ===== *)
(** The tasks [main] starts, with their locks.

    Five locks guard what the tasks share: the snapshot, the pid facts, the
    CPU utilization, the bandwidth window and the cgroup names.  A turn of a
    task's loop is a list of critical sections, each with the locks it takes, in
    order, and the accesses it makes under them, a field at a time; a request to
    the API is a task of its own.  What each section means as one step is its
    [effect]; the machine of [Locks.v] that switches between tasks at any access
    is shown to do what the sections' effects do one after the other, never to
    hang, and to leave behind every lock what its owners handed over last. *)
From S2P Require Import Prelude Loader Text Float Types Layout Pods Bpf Stats Scheduler Metrics TimeBase Bandwidth Aggregator ProcTier Shm Events Api CgroupNames Locks.

Inductive lock := LSnapshot | LPidFacts | LCpuUtil | LBandwidth | LCgroupNames.
#[export] Instance lock_eq_dec : EqDecision lock.
Proof. solve_decision. Defined.

Definition data (l : lock) : Type :=
  match l with
  | LSnapshot => MetricSnapshot
  | LPidFacts => gmap Z PidStatusFacts
  | LCpuUtil => list CpuUtilDelta
  | LBandwidth => BandwidthWindow
  | LCgroupNames => gmap Z rstring
  end.

(** The local variables of the tasks that outlive a section or an await. *)
Record vars := {
  v_prev_drops : EventDropCounts;         (* aggregator: [prev_drops] *)
  v_log : list agg_log;
  v_pids : list Z;                        (* proc tier: [target_pids] *)
  v_pid_facts : gmap Z PidStatusFacts;    (* proc tier: [new_pid_facts] *)
  v_snap : MetricSnapshot;                (* what was read through a guard *)
  v_facts : gmap Z PidStatusFacts;
  v_cpu : list CpuUtilDelta;
  v_rows : list ProcessStats;             (* get_process: [out] *)
  v_deltas : list CgroupBandwidthDelta;   (* get_network_cgroup: [deltas] *)
  v_published : list MetricSnapshotV3;    (* what the writer hands to [publish], oldest first *)
  v_reply : option reply }.
#[export] Instance eta_vars : Eta vars := fun r =>
  Build_vars (v_prev_drops r) (v_log r) (v_pids r) (v_pid_facts r) (v_snap r) (v_facts r) (v_cpu r)
    (v_rows r) (v_deltas r) (v_published r) (v_reply r).
Definition vars_new : vars := {|
  v_prev_drops := EventDropCounts_zeroed; v_log := []; v_pids := []; v_pid_facts := ∅;
  v_snap := MetricSnapshot_default; v_facts := ∅; v_cpu := []; v_rows := []; v_deltas := [];
  v_published := []; v_reply := None |}.

Definition data_new : store data := fun l =>
  match l with
  | LSnapshot => MetricSnapshot_default
  | LPidFacts => ∅
  | LCpuUtil => []
  | LBandwidth => BandwidthWindow_new
  | LCgroupNames => ∅
  end.

Definition access := action data vars.

(** ** The critical sections *)

Inductive step :=
  (* aggregator.rs *)
  | Watch (map : option (list EventDropCounts))
  | PushWindow (sample : BpfSample)
  | Merge (sample : BpfSample)
  | Note (l : agg_log)
  (* proc_tier.rs *)
  | TakePids
  | ReadStatus (files : proc_files)
  | WriteFacts (mem_facts : ProcMemFacts) (l : LoadSnapshot)
  | StorePidFacts
  | StoreUtil (deltas : list CpuUtilDelta)
  (* shm.rs *)
  | Build (tb : TimeBase) (now : timespec)
  (* cgroup_names.rs *)
  | StoreNames (names : gmap Z rstring)
  (* api.rs *)
  | View (w : view)
  | TakeRows (q : ProcessQuery)
  | OverlayRows
  | TakeDeltas (q : CgroupQuery)
  | NameDeltas (q : CgroupQuery).

(** The guards of a section, in the order the code takes them. *)
Definition locks_of (x : step) : list (lock * mode) :=
  match x with
  | Watch _ | Note _ | ReadStatus _ => []
  | PushWindow _ => [(LBandwidth, Wr)]
  | Merge _ | WriteFacts _ _ => [(LSnapshot, Wr)]
  | TakePids | View _ | TakeRows _ => [(LSnapshot, Rd)]
  | StorePidFacts => [(LPidFacts, Wr)]
  | StoreUtil _ => [(LCpuUtil, Wr)]
  | Build _ _ => [(LSnapshot, Rd); (LPidFacts, Rd); (LCpuUtil, Rd)]
  | StoreNames _ => [(LCgroupNames, Wr)]
  | OverlayRows => [(LPidFacts, Rd)]
  | TakeDeltas _ => [(LBandwidth, Rd)]
  | NameDeltas _ => [(LCgroupNames, Rd)]
  end.

(** [snap.f = x] through the write guard of the snapshot, [cache = x] through
    the others. *)
Definition assign (f : MetricSnapshot -> MetricSnapshot) : access :=
  Write LSnapshot (fun (_ : vars) (s : MetricSnapshot) => f s).
Definition replace (l : lock) (x : vars -> data l) : access := Write l (fun v _ => x v).
(** The assignments of the partial merge, and of step (4) of the proc tier. *)
Definition merge_writes (s : BpfSample) : list (MetricSnapshot -> MetricSnapshot) :=
  [(fun c => c <| timestamp_ns := bs_timestamp_ns s |>); (fun c => c <| sched := bs_sched s |>);
   (fun c => c <| tcp := bs_tcp s |>); (fun c => c <| net_ifaces := bs_net_ifaces s |>);
   (fun c => c <| block := bs_block s |>); (fun c => c <| top_processes := bs_top_processes s |>);
   (fun c => c <| cpu_cores := bs_cpu_cores s |>); (fun c => c <| security := bs_security s |>);
   (fun c => c <| sched_per_cpu := bs_sched_per_cpu s |>); (fun c => c <| cgroup_net_top := bs_cgroup_net_top s |>);
   (fun c => c <| memory ::= fun m => m <| mem_page_faults_minor := bs_page_faults_minor s |> |>);
   (fun c => c <| memory ::= fun m => m <| mem_page_faults_major := bs_page_faults_major s |> |>);
   (fun c => c <| memory ::= fun m => m <| mem_oom_kills_total := bs_oom_kills_total s |> |>)].
Definition facts_writes (f : ProcMemFacts) (l : LoadSnapshot) : list (MetricSnapshot -> MetricSnapshot) :=
  [(fun c => c <| memory ::= fun m => m <| mem_total_bytes := pm_total_bytes f |> |>);
   (fun c => c <| memory ::= fun m => m <| mem_free_bytes := pm_free_bytes f |> |>);
   (fun c => c <| memory ::= fun m => m <| mem_cached_bytes := pm_cached_bytes f |> |>);
   (fun c => c <| memory ::= fun m => m <| mem_buffered_bytes := pm_buffered_bytes f |> |>);
   (fun c => c <| memory ::= fun m => m <| mem_slab_bytes := pm_slab_bytes f |> |>);
   (fun c => c <| memory ::= fun m => m <| mem_swap_used_bytes := pm_swap_used_bytes f |> |>);
   (fun c => c <| memory ::= fun m => m <| mem_swap_free_bytes := pm_swap_free_bytes f |> |>);
   (fun c => c <| memory ::= fun m => m <| mem_psi_some_pct_x100 := pm_psi_some_pct_x100 f |> |>);
   (fun c => c <| memory ::= fun m => m <| mem_psi_full_pct_x100 := pm_psi_full_pct_x100 f |> |>);
   (fun c => c <| load := l |>)].
(** Reads through a guard. *)
Definition fetch (f : MetricSnapshot -> MetricSnapshot -> MetricSnapshot) : access :=
  Read LSnapshot (fun (s : MetricSnapshot) v => v <| v_snap ::= f s |>).
Definition fetch_memory := fetch (fun s c => c <| memory := memory s |>).
Definition fetch_load := fetch (fun s c => c <| load := load s |>).
Definition fetch_sched := fetch (fun s c => c <| sched := sched s |>).
Definition fetch_tcp := fetch (fun s c => c <| tcp := tcp s |>).
Definition fetch_security := fetch (fun s c => c <| security := security s |>).
Definition fetch_cores := fetch (fun s c => c <| cpu_cores := cpu_cores s |>).
Definition fetch_ifaces := fetch (fun s c => c <| net_ifaces := net_ifaces s |>).
Definition fetch_block := fetch (fun s c => c <| block := block s |>).
Definition fetch_processes := fetch (fun s c => c <| top_processes := top_processes s |>).
Definition fetch_per_cpu := fetch (fun s c => c <| sched_per_cpu := sched_per_cpu s |>).
Definition fetch_all : list access :=
  [fetch (fun s c => c <| timestamp_ns := timestamp_ns s |>); fetch_memory; fetch_sched; fetch_tcp; fetch_load;
   fetch_cores; fetch_ifaces; fetch_block; fetch_processes; fetch_security; fetch_per_cpu;
   fetch (fun s c => c <| cgroup_net_top := cgroup_net_top s |>)].

(** What [build_v3] reads through its three guards. *)
Definition build_reads : list access :=
  [fetch_memory; fetch_load; fetch_sched; fetch_tcp; fetch_security; fetch_cores;
   Read LCpuUtil (fun (c : list CpuUtilDelta) v => v <| v_cpu := c |>);
   fetch_ifaces; fetch_block; fetch_processes;
   Read LPidFacts (fun (f : gmap Z PidStatusFacts) v => v <| v_facts := f |>);
   fetch_per_cpu].

(** The end of the block: what was read through the guards is gone. *)
Definition drop_refs (v : vars) : vars :=
  v <| v_snap := MetricSnapshot_default |> <| v_facts := ∅ |> <| v_cpu := [] |>.

Section Steps.
(** What of [AppState] the locks do not guard. *)
Variable app : AppState.
Definition app_state (d : store data) : AppState := {|
  st_started := st_started app; st_bpf := st_bpf app; st_snapshot := d LSnapshot;
  st_pid_facts := d LPidFacts; st_bandwidth := d LBandwidth; st_cgroup_names := d LCgroupNames |}.
(** The view a handler has of the fields it read. *)
Definition app_read (snap : MetricSnapshot) : AppState := {|
  st_started := st_started app; st_bpf := st_bpf app; st_snapshot := snap;
  st_pid_facts := ∅; st_bandwidth := BandwidthWindow_new; st_cgroup_names := ∅ |}.

Definition view_reads (w : view) : list access :=
  match w with
  | Metrics => fetch_all
  | Memory => [fetch_memory]
  | Scheduler => [fetch_sched]
  | Network => [fetch_ifaces; fetch_tcp]
  | Disk => [fetch_block]
  | Cpu => [fetch_load; fetch_cores]
  | Security_counts => [fetch_security]
  end.

(** The accesses under the guards. *)
Definition body_of (x : step) : list access :=
  match x with
  | Watch m =>
      [Local (fun v => let '(l, prev) := drop_watch m (v_prev_drops v) in
         v <| v_log ::= fun log => log ++ l |> <| v_prev_drops := prev |>)]
  | PushWindow s =>
      [Write LBandwidth (fun _ (bw : BandwidthWindow) => push (bs_timestamp_ns s) (bs_cgroup_net_top s) bw)]
  | Merge s => map assign (merge_writes s) ++ [Local (fun v => v <| v_log ::= fun log => log ++ [SnapshotRefreshed] |>)]
  | Note l => [Local (fun v => v <| v_log ::= fun log => log ++ [l] |>)]
  | TakePids => [Read LSnapshot (fun (s : MetricSnapshot) v => v <| v_pids := target_pids s |>)]
  | ReadStatus files => [Local (fun v => v <| v_pid_facts := supplement files (v_pids v) |>)]
  | WriteFacts f l => map assign (facts_writes f l)
  | StorePidFacts => [replace LPidFacts v_pid_facts]
  | StoreUtil ds => [replace LCpuUtil (fun _ => ds)]
  | Build tb now =>
      build_reads ++
      [Local (fun v =>
         drop_refs (v <| v_published ::= fun l => l ++ [build_v3 (v_snap v) (v_facts v) (v_cpu v) tb now] |>))]
  | StoreNames names => [replace LCgroupNames (fun _ => names)]
  | View w =>
      view_reads w ++ [Local (fun v => drop_refs (v <| v_reply := Some (answer_view w (app_read (v_snap v))) |>))]
  | TakeRows q => [Read LSnapshot (fun (s : MetricSnapshot) v => v <| v_rows := process_rows q s |>)]
  | OverlayRows =>
      [Read LPidFacts (fun (f : gmap Z PidStatusFacts) v => v <| v_rows ::= map (overlay_process f) |>);
       Local (fun v => v <| v_reply := Some (RProcess (v_rows v)) |>)]
  | TakeDeltas q => [Read LBandwidth (fun (bw : BandwidthWindow) v => v <| v_deltas := cgroup_deltas q bw |>)]
  | NameDeltas q =>
      [Read LCgroupNames (fun (names : gmap Z rstring) v =>
         v <| v_reply := Some (RNetworkCgroup (cgroup_entries q names (v_deltas v))) |>)]
  end.
Definition compile (x : step) : section data vars := {| cs_locks := locks_of x; cs_body := body_of x |}.

(** ** What a section does, as one step *)

Definition on_snapshot (f : MetricSnapshot -> MetricSnapshot) (d : store data) : store data :=
  put LSnapshot (f (d LSnapshot)) d.

Definition effect (x : step) (sv : store data * vars) : store data * vars :=
  let '(d, v) := sv in
  match x with
  | Watch m => let '(l, prev) := drop_watch m (v_prev_drops v) in
               (d, v <| v_log ::= fun log => log ++ l |> <| v_prev_drops := prev |>)
  | PushWindow s => (put LBandwidth (push (bs_timestamp_ns s) (bs_cgroup_net_top s) (d LBandwidth)) d, v)
  | Merge s => (on_snapshot (apply_sample s) d, v <| v_log ::= fun log => log ++ [SnapshotRefreshed] |>)
  | Note l => (d, v <| v_log ::= fun log => log ++ [l] |>)
  | TakePids => (d, v <| v_pids := target_pids (d LSnapshot) |>)
  | ReadStatus files => (d, v <| v_pid_facts := supplement files (v_pids v) |>)
  | WriteFacts f l => (on_snapshot (apply_facts f l) d, v)
  | StorePidFacts => (put LPidFacts (v_pid_facts v) d, v)
  | StoreUtil ds => (put LCpuUtil ds d, v)
  | Build tb now =>
      (d, drop_refs v <| v_published ::= fun l => l ++ [build_v3 (d LSnapshot) (d LPidFacts) (d LCpuUtil) tb now] |>)
  | StoreNames names => (put LCgroupNames names d, v)
  | View w => (d, drop_refs v <| v_reply := Some (answer_view w (app_state d)) |>)
  | TakeRows q => (d, v <| v_rows := process_rows q (d LSnapshot) |>)
  | OverlayRows =>
      let rows := map (overlay_process (d LPidFacts)) (v_rows v) in
      (d, v <| v_rows := rows |> <| v_reply := Some (RProcess rows) |>)
  | TakeDeltas q => (d, v <| v_deltas := cgroup_deltas q (d LBandwidth) |>)
  | NameDeltas q => (d, v <| v_reply := Some (RNetworkCgroup (cgroup_entries q (d LCgroupNames) (v_deltas v))) |>)
  end.

(** ** The tasks *)

Definition aggregator_turn (tb : TimeBase) (maps : PolledMaps) (now : timespec) : list step :=
  Watch (pm_drops maps) ::
  match collect maps tb now with
  | Ok sample => [PushWindow sample; Merge sample]
  | Err e => [Note (CollectFailed e)]
  end.
Definition proc_turn (files : proc_files) : list step :=
  match read_proc_memory files with
  | Some mem_facts =>
      [TakePids; ReadStatus files; WriteFacts mem_facts (unwrap_or LoadSnapshot_default (read_loadavg files));
       StorePidFacts]
  | None => []
  end.
(** The turns of the utilization loop, which remembers the previous reading. *)
Fixpoint cpu_turns (ns_per_jiffy : Z) (prev : list CpuJiffies) (contents : list (option rstring)) : list step :=
  match contents with
  | [] => []
  | None :: contents => cpu_turns ns_per_jiffy prev contents
  | Some content :: contents =>
      let cur := parse_proc_stat content in
      (if negb (bool_decide (prev = [])) && (length cur =? length prev)%nat
       then [StoreUtil (imap (fun i cp => cpu_delta ns_per_jiffy i cp.1 cp.2) (zip cur prev))]
       else if negb (bool_decide (prev = [])) then [StoreUtil []] else [])
      ++ cpu_turns ns_per_jiffy cur contents
  end.
Definition request_steps (r : request) : list step :=
  match r with
  | GetView w => [View w]
  | GetProcess q => [TakeRows q; OverlayRows]
  | GetNetworkCgroup q => [TakeDeltas q; NameDeltas q]
  end.

(** Any number of turns of a loop, or a request, with what it reads outside
    the locks. *)
Inductive job :=
  | AggregatorLoop (tb : TimeBase) (turns : list (PolledMaps * timespec))
  | ProcLoop (turns : list proc_files)
  | CpuLoop (hz : Z) (contents : list (option rstring))
  | WriterLoop (tb : TimeBase) (turns : list timespec)
  | ResolverLoop (turns : list (option node))
  | Request (r : request).
Definition job_steps (j : job) : list step :=
  match j with
  | AggregatorLoop tb turns => concat (map (fun m => aggregator_turn tb m.1 m.2) turns)
  | ProcLoop turns => concat (map proc_turn turns)
  | CpuLoop hz contents => cpu_turns (ns_per_jiffy hz) [] contents
  | WriterLoop tb turns => map (Build tb) turns
  | ResolverLoop turns => map (fun root => StoreNames (scan_cgroup_tree root)) turns
  | Request r => request_steps r
  end.

(** The daemon's tasks before their first turns. *)
Definition tasks_start (js : list job) : state data vars :=
  boot data_new (map (fun j => (vars_new, map compile (job_steps j))) js).

(** *** The machine of whole sections *)

Record cstate := { c_tasks : list (vars * list step); c_store : store data }.
Definition do_section (t : nat) (c : cstate) : option cstate :=
  match c_tasks c !! t with
  | Some (v, x :: xs) =>
      let r := effect x (c_store c, v) in Some {| c_tasks := <[t := (r.2, xs)]> (c_tasks c); c_store := r.1 |}
  | _ => None
  end.
Definition do_sections (ts : list nat) (c : cstate) : option cstate :=
  foldl (fun o t => o ≫= do_section t) (Some c) ts.
Definition sections_start (js : list job) : cstate :=
  {| c_tasks := map (fun j => (vars_new, job_steps j)) js; c_store := data_new |}.

(** The effects of sections with nothing between them. *)
Definition effects (xs : list step) (sv : store data * vars) : store data * vars :=
  foldl (fun sv x => effect x sv) sv xs.
End Steps.

(** The order in which the code takes the locks. *)
Definition lock_rank (l : lock) : nat :=
  match l with LSnapshot => 0 | LPidFacts => 1 | LCpuUtil => 2 | LBandwidth => 3 | LCgroupNames => 4 end.

(** ** The accesses of a section are its effect *)

Definition same_outcome : relation (store data * vars) := prod_relation (≡) (=).

Lemma perform_assigns fs b d v :
  same_outcome (perform_all (map assign fs ++ b) (d, v))
    (perform_all b (on_snapshot (fun s => foldl (fun s f => f s) s fs) d, v)).
Proof.
  revert d. induction fs as [|f fs IH]; intros d.
  - apply perform_all_proper; [done|]. split; [|done]. symmetry. apply (put_same LSnapshot).
  - etransitivity; [apply IH|]. apply perform_all_proper; [done|]. split; [|done]. unfold on_snapshot. cbn [fst].
    rewrite (put_put LSnapshot). by rewrite (put_eq LSnapshot).
Qed.

Lemma merge_writes_apply s c : foldl (fun c f => f c) c (merge_writes s) = apply_sample s c.
Proof. destruct c as [? []]. vm_compute. reflexivity. Qed.
Lemma facts_writes_apply f l c : foldl (fun c f => f c) c (facts_writes f l) = apply_facts f l c.
Proof. destruct c as [? []]. vm_compute. reflexivity. Qed.

(** Of the snapshot [build_v3] reads all but the time and the cgroup list. *)
Lemma build_v3_reads s s' facts util tb now :
  s' = s <| timestamp_ns := timestamp_ns s' |> <| cgroup_net_top := cgroup_net_top s' |> ->
  build_v3 s' facts util tb now = build_v3 s facts util tb now.
Proof. intros ->. destruct s. reflexivity. Qed.

Section Refinement.
Variable app : AppState.

(** For any function of what was read. *)
Lemma perform_build (b : MetricSnapshot -> gmap Z PidStatusFacts -> list CpuUtilDelta -> MetricSnapshotV3) d v :
  (perform_all (build_reads ++
     [Local (fun v => drop_refs (v <| v_published ::= fun l => l ++ [b (v_snap v) (v_facts v) (v_cpu v)] |>))]) (d, v)).2
  = drop_refs v <| v_published ::= fun l => l ++
      [b ((d LSnapshot) <| timestamp_ns := timestamp_ns (v_snap v) |> <| cgroup_net_top := cgroup_net_top (v_snap v) |>)
         (d LPidFacts) (d LCpuUtil)] |>.
Proof. destruct v as [? ? ? ? [] ? ? ? ? ? ?]. vm_compute. reflexivity. Qed.

Lemma build_effect tb now d v :
  same_outcome (perform_all (body_of app (Build tb now)) (d, v)) (effect app (Build tb now) (d, v)).
Proof.
  split; [reflexivity|]. cbn [body_of]. etransitivity; [exact (perform_build (fun s f c => build_v3 s f c tb now) d v)|].
  cbn [effect snd]. rewrite (build_v3_reads (d LSnapshot)); [reflexivity|]. by destruct (d LSnapshot).
Qed.

Lemma compile_effect x d v : same_outcome (perform_all (body_of app x) (d, v)) (effect app x (d, v)).
Proof.
  destruct x as [m|s|s|l| |files|f l| |ds|tb now|names|w|q| |q|q].
  - cbn. destruct (drop_watch _ _). split; reflexivity.
  - split; reflexivity.
  - etransitivity; [apply perform_assigns|]. cbn [effect]. unfold on_snapshot. rewrite merge_writes_apply.
    split; reflexivity.
  - split; reflexivity.
  - split; reflexivity.
  - split; reflexivity.
  - cbn [body_of effect]. rewrite <- (app_nil_r (map assign _)). etransitivity; [apply perform_assigns|].
    unfold on_snapshot. rewrite facts_writes_apply. split; reflexivity.
  - split; reflexivity.
  - split; reflexivity.
  - apply build_effect.
  - split; reflexivity.
  - split; [destruct w; reflexivity|]. destruct w; try reflexivity. cbn. by destruct (d LSnapshot).
  - split; reflexivity.
  - split; reflexivity.
  - split; reflexivity.
  - split; reflexivity.
Qed.

#[export] Instance effect_proper x : Proper (same_outcome ==> same_outcome) (effect app x).
Proof.
  intros [d v] [d' v'] H. rewrite <- (compile_effect x d v), <- (compile_effect x d' v').
  apply perform_all_proper; [done|exact H].
Qed.

(** The locks are taken in one order and only what they guard is touched. *)
Lemma compile_disciplined x : disciplined lock_rank (compile app x) = true.
Proof. destruct x; try reflexivity. by destruct w. Qed.

Lemma start_inv (policy : Policy) js : lock_inv lock_rank (tasks_start app js).
Proof.
  apply boot_inv, Forall_map, Forall_true. intros j. cbn [snd]. apply Forall_map, Forall_true, compile_disciplined.
Qed.

(** A state of the machine of atomic bodies and one of whole sections. *)
Definition sections_of (a : astate data vars) (c : cstate) : Prop :=
  a_tasks a = map (fun p => (p.1, map (body_of app) p.2)) (c_tasks c) /\ a_store a ≡ c_store c.

Lemma sections_start_of js :
  sections_of (serial_boot data_new (map (fun j => (vars_new, map (compile app) (job_steps j))) js)) (sections_start js).
Proof.
  split; [|done]. cbn. rewrite !map_map. apply map_ext. intros j. cbn. f_equal. rewrite map_map. by apply map_ext.
Qed.

Lemma atomically_section t a a' c :
  sections_of a c -> atomically t a = Some a' -> exists c', do_section app t c = Some c' /\ sections_of a' c'.
Proof.
  intros [Ht Hd] Ha. unfold atomically in Ha. rewrite Ht in Ha.
  change (map ?f ?l) with (f <$> l) in Ha. rewrite list_lookup_fmap in Ha. unfold do_section.
  destruct (c_tasks c !! t) as [[v [|x xs]]|] eqn:Hx; cbn in Ha; try done. injection Ha as <-.
  eexists. split; [reflexivity|].
  assert (same_outcome (perform_all (body_of app x) (a_store a, v)) (effect app x (c_store c, v))) as [H1 H2].
  { etransitivity; [|apply compile_effect]. apply perform_all_proper; [done|]. by split. }
  split; cbn [a_tasks a_store c_tasks c_store]; [|exact H1].
  rewrite H2. change (map ?f ?l) with (f <$> l). by rewrite list_fmap_insert.
Qed.

Lemma do_sections_cons t ts c : do_sections app (t :: ts) c = do_section app t c ≫= do_sections app ts.
Proof.
  unfold do_sections. cbn [foldl mbind option_bind]. destruct (do_section app t c) as [c'|]; cbn [mbind option_bind]; [reflexivity|].
  induction ts as [|u ts IH]; [reflexivity|exact IH].
Qed.

Lemma serially_sections us a a' c :
  sections_of a c -> serially us a = Some a' -> exists c', do_sections app us c = Some c' /\ sections_of a' c'.
Proof.
  revert a c. induction us as [|t us IH]; intros a c Hc Ha; [injection Ha as <-; by exists c|].
  rewrite serially_cons in Ha. apply bind_Some in Ha as (a1 & H1 & Ha).
  destruct (atomically_section _ _ _ _ Hc H1) as (c1 & Hc1 & Hs1).
  destruct (IH _ _ Hs1 Ha) as (c' & Hc' & Hs'). exists c'. rewrite do_sections_cons, Hc1. done.
Qed.

(** C5: the daemon never hangs.  Whatever the lock's policy, whatever tasks run and
    however the scheduler switches between their accesses, while some task has
    something left to do some task can go on; and a run of all turns has exactly as many moves as
    there is work, so none is longer and each can be completed. *)
Theorem tasks_never_hang (policy : Policy) (js : list job) ts s :
  schedule ts (tasks_start app js) = Some s ->
  (all_finished s = false -> exists t s', advance t s = Some s') /\
  (length ts <= work (tasks_start app js))%nat /\
  exists ts' s', schedule ts' s = Some s' /\ all_finished s' = true /\
    (length ts + length ts' = work (tasks_start app js))%nat.
Proof.
  intros Hs. pose proof (start_inv policy js) as Hi0. pose proof (schedule_inv _ _ _ _ Hs Hi0) as Hi.
  pose proof (run_length _ _ _ _ Hi0 Hs) as Hn. split; [|split; [lia|]].
  - intros Hf. destruct (not_stuck _ _ Hi Hf) as (s' & t & Ht). by exists t, s'.
  - destruct (run_goes_on _ _ Hi) as (ts' & s' & Hs' & Hf). exists ts', s'. split; [done|]. split; [done|].
    pose proof (run_length _ _ _ _ Hi Hs') as Hn'. rewrite (finished_work _ Hf) in Hn'. lia.
Qed.

(** C3: the tasks' accesses can be taken section by section.  For every run of
    the tasks, switching at any access, there is a run of the machine that does
    each critical section as one step of its meaning, in the order of the run's
    moves, that agrees with it on the data behind every free lock; and once all
    tasks are done, on all data and all variables of the tasks. *)
Theorem tasks_serializable (policy : Policy) (js : list job) ts s :
  schedule ts (tasks_start app js) = Some s ->
  exists us c, us `sublist_of` ts /\ do_sections app us (sections_start js) = Some c /\
    (forall l, holders (st_locks s l) = [] -> st_store s l = c_store c l) /\
    (all_finished s = true -> st_store s ≡ c_store c /\
       forall t k, st_tasks s !! t = Some k -> c_tasks c !! t = Some (tk_vars k, [])).
Proof.
  intros Hs. pose proof (start_inv policy js) as Hi0. pose proof (schedule_inv _ _ _ _ Hs Hi0) as Hi.
  destruct (run_serializable lock_rank _ _ _ _ Hi0 (boot_serialized _ _) Hs) as (us & a & Hsub & Ha & Hser).
  destruct (serially_sections _ _ _ _ (sections_start_of js) Ha) as (c & Hc & Hat & Had).
  exists us, c. split; [done|]. split; [done|]. split.
  - intros l Hl. rewrite <- (Had l). symmetry. apply (se_free _ _ Hser). intros t k Hk _ Hw.
    assert (holds s t l Wr) as Hh by (by exists k). apply (li_holders _ _ Hi) in Hh. rewrite Hl in Hh.
    by apply elem_of_nil in Hh.
  - intros Hf. destruct (finished_agrees _ _ Hser Hf) as [H1 H2]. split.
    + intros l. by rewrite <- (H1 l).
    + intros t k Hk. specialize (H2 _ _ Hk). rewrite Hat in H2.
      change (map ?f ?l) with (f <$> l) in H2. rewrite list_lookup_fmap in H2.
      destruct (c_tasks c !! t) as [[v xs]|]; [|done]. cbn in H2. injection H2 as -> Hx. by destruct xs.
Qed.

(** ** Turns without interruption *)

Lemma effects_cpu ns prev contents (d : store data) v :
  let st := foldl (fun st c => cpu_stat_tick ns c st) {| ct_prev := prev; ct_cache := d LCpuUtil |} contents in
  (effects app (cpu_turns ns prev contents) (d, v)).1 LCpuUtil = ct_cache st.
Proof.
  cbv zeta. revert prev d v. induction contents as [|[content|] contents IH]; intros prev d v; [done| |by apply IH].
  cbn [cpu_turns foldl]. unfold effects. rewrite foldl_app. cbn [cpu_stat_tick ct_prev ct_cache].
  destruct (negb (bool_decide (prev = [])) && _); [|destruct (negb (bool_decide (prev = [])))];
    cbn [foldl effect]; etransitivity; try apply IH; cbv beta zeta; by rewrite ?(put_eq LCpuUtil).
Qed.

(** The sections of a turn, one after the other, are the turn: the
    aggregator's are [tick], the proc tier's [proc_tick], those of any turns of
    the utilization loop [cpu_stat_tick] turn by turn, the resolver's
    [refresh_names], and those of a request leave its answer. *)
Theorem turns_alone (d : store data) v :
  (forall tb maps now,
     let r := effects app (aggregator_turn tb maps now) (d, v) in
     let t := tick maps tb now {| ag_prev_drops := v_prev_drops v; ag_shared := d LSnapshot;
                                  ag_bw_window := d LBandwidth |} in
     {| ag_prev_drops := v_prev_drops r.2; ag_shared := r.1 LSnapshot; ag_bw_window := r.1 LBandwidth |} = t.2 /\
     v_log r.2 = v_log v ++ t.1) /\
  (forall files, let r := effects app (proc_turn files) (d, v) in
     (r.1 LSnapshot, r.1 LPidFacts) = proc_tick files (d LSnapshot) (d LSnapshot) (d LPidFacts)) /\
  (forall ns prev contents,
     (effects app (cpu_turns ns prev contents) (d, v)).1 LCpuUtil =
       ct_cache (foldl (fun st c => cpu_stat_tick ns c st) {| ct_prev := prev; ct_cache := d LCpuUtil |} contents)) /\
  (forall root, (effects app [StoreNames (scan_cgroup_tree root)] (d, v)).1 LCgroupNames
     = refresh_names root (d LCgroupNames)) /\
  (forall r, v_reply (effects app (request_steps r) (d, v)).2 = Some (answer r (app_state app d))).
Proof.
  split; [|split; [|split; [|split]]].
  - intros tb maps now. unfold aggregator_turn, tick, watch_drops, refresh, effects.
    cbn [foldl effect ag_prev_drops]. destruct (drop_watch (pm_drops maps) (v_prev_drops v)) as [l prev].
    destruct (collect maps tb now) as [sample|e]; cbn; by rewrite <- app_assoc.
  - intros files. unfold proc_turn, proc_tick. destruct (read_proc_memory files); reflexivity.
  - intros. apply effects_cpu.
  - reflexivity.
  - intros [w|q|q]; reflexivity.
Qed.

(** ** What a task read was true at a moment *)

(** The shared data after the first [n] sections of a run. *)
Definition moment (js : list job) (us : list nat) (n : nat) (d : store data) : Prop :=
  (n <= length us)%nat /\ exists c, do_sections app (take n us) (sections_start js) = Some c /\ c_store c = d.

Lemma do_sections_snoc us t c : do_sections app (us ++ [t]) c = do_sections app us c ≫= do_section app t.
Proof. unfold do_sections. by rewrite foldl_app. Qed.

Lemma moment_snoc js us t n d : moment js us n d -> moment js (us ++ [t]) n d.
Proof. intros [Hn H]. split; [rewrite length_app; cbn; lia|]. by rewrite take_app_le. Qed.
Lemma moment_now js us c : do_sections app us (sections_start js) = Some c -> moment js us (length us) (c_store c).
Proof. intros H. split; [done|]. exists c. by rewrite firstn_all. Qed.

(** How far a request has got, and what it has read when. *)
Definition request_progress (js : list job) (us : list nat) (r : request) (v : vars) (xs : list step) : Prop :=
  match r with
  | GetView w =>
      xs = [View w] \/
      xs = [] /\ exists n d, moment js us n d /\ v_reply v = Some (answer_view w (app_state app d))
  | GetProcess q =>
      xs = [TakeRows q; OverlayRows] \/
      exists n d, moment js us n d /\
        (xs = [OverlayRows] /\ v_rows v = process_rows q (d LSnapshot) \/
         xs = [] /\ exists m d', (n <= m)%nat /\ moment js us m d' /\
           v_reply v = Some (RProcess (map (overlay_process (d' LPidFacts)) (process_rows q (d LSnapshot)))))
  | GetNetworkCgroup q =>
      xs = [TakeDeltas q; NameDeltas q] \/
      exists n d, moment js us n d /\
        (xs = [NameDeltas q] /\ v_deltas v = cgroup_deltas q (d LBandwidth) \/
         xs = [] /\ exists m d', (n <= m)%nat /\ moment js us m d' /\
           v_reply v = Some (RNetworkCgroup (cgroup_entries q (d' LCgroupNames) (cgroup_deltas q (d LBandwidth)))))
  end.

Definition published_at (js : list job) (us : list nat) (v3 : MetricSnapshotV3) : Prop :=
  exists n d tb now, moment js us n d /\ v3 = build_v3 (d LSnapshot) (d LPidFacts) (d LCpuUtil) tb now.

Record told (js : list job) (us : list nat) (c : cstate) : Prop := {
  to_steps t v xs : c_tasks c !! t = Some (v, xs) -> exists j ys, js !! t = Some j /\ job_steps j = ys ++ xs;
  to_published t v xs : c_tasks c !! t = Some (v, xs) -> Forall (published_at js us) (v_published v);
  to_request t v xs r :
    c_tasks c !! t = Some (v, xs) -> js !! t = Some (Request r) -> request_progress js us r v xs }.

Lemma published_at_snoc js us t v3 : published_at js us v3 -> published_at js (us ++ [t]) v3.
Proof. intros (n & d & tb & now & Hm & ->). exists n, d, tb, now. split; [by apply moment_snoc|done]. Qed.
Lemma request_progress_snoc js us t r v xs :
  request_progress js us r v xs -> request_progress js (us ++ [t]) r v xs.
Proof.
  assert (forall n d, moment js us n d -> moment js (us ++ [t]) n d) as Hs by (intros; by apply moment_snoc).
  destruct r; cbn.
  - intros [?|(? & n & d & Hm & Hv)]; [by left|]. right. split; [done|]. exists n, d. auto.
  - intros [?|(n & d & Hm & [?|(? & m & d' & Hle & Hm' & Hv)])]; [by left|right; exists n, d; by auto|].
    right. exists n, d. split; [auto|]. right. split; [done|]. exists m, d'. auto.
  - intros [?|(n & d & Hm & [?|(? & m & d' & Hle & Hm' & Hv)])]; [by left|right; exists n, d; by auto|].
    right. exists n, d. split; [auto|]. right. split; [done|]. exists m, d'. auto.
Qed.

Lemma told_start js : told js [] (sections_start js).
Proof.
  assert (forall t v xs, c_tasks (sections_start js) !! t = Some (v, xs) ->
    exists j, js !! t = Some j /\ v = vars_new /\ xs = job_steps j) as H.
  { intros t v xs Hx. cbn in Hx. change (map ?f ?l) with (f <$> l) in Hx. rewrite list_lookup_fmap in Hx.
    apply fmap_Some in Hx as (j & Hj & [= -> ->]). by exists j. }
  constructor.
  - intros t v xs (j & Hj & -> & ->)%H. by exists j, [].
  - intros t v xs (j & Hj & -> & ->)%H. constructor.
  - intros t v xs r (j & Hj & -> & ->)%H Hr. simplify_eq. destruct r; by left.
Qed.

(** What one section tells its task. *)
Lemma effect_published x d v :
  v_published (effect app x (d, v)).2 = v_published v \/
  exists tb now, v_published (effect app x (d, v)).2 =
    v_published v ++ [build_v3 (d LSnapshot) (d LPidFacts) (d LCpuUtil) tb now].
Proof.
  destruct x as [m|s|s|l| |files|f l| |ds|tb now|names|w|q| |q|q]; try (by left).
  - left. cbn. by destruct (drop_watch _ _).
  - right. by exists tb, now.
Qed.

Lemma do_section_Some t c c' :
  do_section app t c = Some c' -> exists v x xs r, c_tasks c !! t = Some (v, x :: xs) /\
    effect app x (c_store c, v) = r /\ c' = {| c_tasks := <[t := (r.2, xs)]> (c_tasks c); c_store := r.1 |}.
Proof.
  unfold do_section. destruct (c_tasks c !! t) as [[v [|x xs]]|] eqn:Ht; try done. intros H.
  exists v, x, xs, (effect app x (c_store c, v)). split; [done|]. split; [done|]. by apply (inj Some) in H.
Qed.

Lemma told_section js us t c c' :
  do_sections app us (sections_start js) = Some c -> do_section app t c = Some c' -> told js us c ->
  told js (us ++ [t]) c'.
Proof.
  intros Hc (v & x & xs & r & Ht & Hr & ->)%do_section_Some [T1 T2 T3].
  pose proof (moment_snoc _ _ t _ _ (moment_now _ _ _ Hc)) as Hnow.
  constructor; cbn [c_tasks]; intros t' v' xs'; [| |intros q']; intros Hx; apply list_lookup_insert_Some in Hx as [(<- & [= <- <-] & _)|[_ Hx]].
  - destruct (T1 _ _ _ Ht) as (j & ys & Hj & Hys). exists j, (ys ++ [x]). by rewrite <- app_assoc.
  - by eapply T1.
  - assert (Forall (published_at js (us ++ [t])) (v_published v)) as Hp.
    { eapply Forall_impl; [by eapply T2|]. intros v3. apply published_at_snoc. }
    pose proof (effect_published x (c_store c) v) as He. rewrite Hr in He. destruct He as [->|(tb & now & ->)]; [done|].
    apply Forall_app. split; [done|]. constructor; [|constructor]. by exists (length us), (c_store c), tb, now.
  - eapply Forall_impl; [by eapply T2|]. intros v3. apply published_at_snoc.
  - intros Hq. specialize (T3 _ _ _ _ Ht Hq). subst r. destruct q' as [w|q|q]; cbn in T3 |- *.
    + destruct T3 as [[= -> ->]|[? _]]; [|done]. right. split; [done|]. by exists (length us), (c_store c).
    + destruct T3 as [[= -> ->]|(n & d & Hm & [[[= -> ->] Hv]|[? _]])]; [| |done].
      * right. exists (length us), (c_store c). split; [done|]. by left.
      * right. exists n, d. split; [by apply moment_snoc|]. right. split; [done|].
        exists (length us), (c_store c). split; [apply Hm|]. split; [done|]. cbn. by rewrite Hv.
    + destruct T3 as [[= -> ->]|(n & d & Hm & [[[= -> ->] Hv]|[? _]])]; [| |done].
      * right. exists (length us), (c_store c). split; [done|]. by left.
      * right. exists n, d. split; [by apply moment_snoc|]. right. split; [done|].
        exists (length us), (c_store c). split; [apply Hm|]. split; [done|]. cbn. by rewrite Hv.
  - intros Hq. by eapply request_progress_snoc, T3.
Qed.

Lemma sections_told js us c : do_sections app us (sections_start js) = Some c -> told js us c.
Proof.
  revert c. induction us as [|t us IH] using rev_ind; intros c Hc.
  - injection Hc as <-. apply told_start.
  - rewrite do_sections_snoc in Hc. apply bind_Some in Hc as (c1 & H1 & Hc). by eapply told_section; [|exact Hc|apply IH].
Qed.

(** What the state of a run tells: the section run it is matched with. *)
Lemma run_told (policy : Policy) js ts s :
  schedule ts (tasks_start app js) = Some s ->
  exists us c a, us `sublist_of` ts /\ do_sections app us (sections_start js) = Some c /\ told js us c /\
    serialized s a /\ sections_of a c.
Proof.
  intros Hs. pose proof (start_inv policy js) as Hi0.
  destruct (run_serializable lock_rank _ _ _ _ Hi0 (boot_serialized _ _) Hs) as (us & a & Hsub & Ha & Hser).
  destruct (serially_sections _ _ _ _ (sections_start_of js) Ha) as (c & Hc & Hac).
  exists us, c, a. split_and!; try done. by apply sections_told.
Qed.

Lemma task_section (policy : Policy) s a c t k :
  serialized s a -> sections_of a c -> st_tasks s !! t = Some k ->
  exists xs, c_tasks c !! t = Some (ahead (st_store s) k, xs) /\ pending k = map (body_of app) xs.
Proof.
  intros Hser [Hat _] Hk. pose proof (se_task _ _ Hser _ _ Hk) as H. rewrite Hat in H.
  change (map ?f ?l) with (f <$> l) in H. rewrite list_lookup_fmap in H.
  destruct (c_tasks c !! t) as [[v xs]|]; [|done]. cbn in H. injection H as -> Hx. by exists xs.
Qed.

(** The state a handler answers from: the snapshot and the window of one
    moment, the facts and the names of another. *)
Definition between (d d' : store data) : AppState := {|
  st_started := st_started app; st_bpf := st_bpf app; st_snapshot := d LSnapshot;
  st_pid_facts := d' LPidFacts; st_bandwidth := d LBandwidth; st_cgroup_names := d' LCgroupNames |}.

(** C7: what a client is told was true.  In every run of the tasks, a
    request that is done has replied with the handler's answer from the state at
    one moment of the run, or, for the two handlers that take two locks one
    after the other, from the snapshot (the window) of one moment and the pid
    facts (the names) of a later one; a moment is the shared data between two
    critical sections, never within one. *)
Theorem replies_were_true (policy : Policy) (js : list job) ts s t k r :
  schedule ts (tasks_start app js) = Some s ->
  js !! t = Some (Request r) -> st_tasks s !! t = Some k -> finished k = true ->
  exists us n m d d', us `sublist_of` ts /\ (n <= m)%nat /\ moment js us n d /\ moment js us m d' /\
    v_reply (tk_vars k) = Some (answer r (between d d')) /\
    (forall w, r = GetView w -> d = d').
Proof.
  intros Hs Hj Hk Hf. destruct (run_told policy js ts s Hs) as (us & c & a & Hsub & Hc & Ht & Hser & Hac).
  destruct (task_section policy _ _ _ _ _ Hser Hac Hk) as (xs & Hx & Hp).
  assert (ahead (st_store s) k = tk_vars k /\ pending k = []) as [Ha Hp0].
  { unfold finished in Hf. unfold ahead, pending, outcome. by destruct (tk_todo k), (tk_body k), (tk_held k), (tk_rest k). }
  rewrite Hp0 in Hp. destruct xs; [|done]. rewrite Ha in Hx.
  pose proof (to_request _ _ _ Ht _ _ _ _ Hx Hj) as Hprog. exists us. destruct r as [w|q|q]; cbn in Hprog.
  - destruct Hprog as [?|(_ & n & d & Hm & Hv)]; [done|]. exists n, n, d, d. split_and!; try done.
  - destruct Hprog as [?|(n & d & Hm & [[? _]|(_ & m & d' & Hle & Hm' & Hv)])]; [done..|].
    exists n, m, d, d'. split_and!; try done; by intros.
  - destruct Hprog as [?|(n & d & Hm & [[? _]|(_ & m & d' & Hle & Hm' & Hv)])]; [done..|].
    exists n, m, d, d'. split_and!; try done; by intros.
Qed.

(** The accesses of the sections only ever append to what is published. *)
Definition grown : relation vars := fun v v' => v_published v `prefix_of` v_published v'.
#[export] Instance grown_preorder : PreOrder grown.
Proof.
  split; [intros v; unfold grown; reflexivity|]. intros v1 v2 v3 H1 H2. unfold grown in *. by etransitivity.
Qed.

Lemma body_grows x : Forall (fun b : access => forall sv, grown sv.2 (perform sv b).2) (body_of app x).
Proof.
  destruct x as [m|s|s|l| |files|f l| |ds|tb now|names|w|q| |q|q]; cbn [body_of];
    try (repeat constructor; intros sv; exact (reflexivity (v_published sv.2))).
  - repeat constructor. intros sv. cbn. destruct (drop_watch _ _). exact (reflexivity (v_published sv.2)).
  - repeat constructor; intros sv; try exact (reflexivity (v_published sv.2)). by apply prefix_app_r.
  - destruct w; repeat constructor; intros sv; exact (reflexivity (v_published sv.2)).
Qed.

Lemma tasks_grow js : all_made_of (fun b : access => forall sv, grown sv.2 (perform sv b).2) (tasks_start app js).
Proof.
  apply boot_made_of, Forall_map, Forall_true. intros j. cbn. apply Forall_map, Forall_true, body_grows.
Qed.

(** Everything handed to the publisher so far was built from one moment. *)
Lemma published_at_moments (policy : Policy) js ts s :
  schedule ts (tasks_start app js) = Some s ->
  exists us, us `sublist_of` ts /\ (exists c, do_sections app us (sections_start js) = Some c) /\
    forall t k, st_tasks s !! t = Some k -> Forall (published_at js us) (v_published (tk_vars k)).
Proof.
  intros Hs. destruct (run_told policy js ts s Hs) as (us & c & a & Hsub & Hc & Ht & Hser & Hac).
  exists us. split; [done|]. split; [by exists c|]. intros t k Hk.
  destruct (task_section policy _ _ _ _ _ Hser Hac Hk) as (xs & Hx & _).
  pose proof (to_published _ _ _ Ht _ _ _ Hx) as Hp.
  assert (grown (tk_vars k) (ahead (st_store s) k)) as [l Hl].
  { apply ahead_grows; [exact _|]. eapply schedule_made_of; [exact Hs|apply tasks_grow|exact Hk]. }
  rewrite Hl in Hp. by apply Forall_app in Hp as [Hp _].
Qed.
(** ** Who owns what of the shared data

    The fields of the snapshot the aggregator's merge sets, and the values it
    sets them to; the same of the proc tier. *)
Definition bpf_part (s : MetricSnapshot) :=
  (timestamp_ns s, sched s, tcp s, net_ifaces s, block s, top_processes s, cpu_cores s, security s, sched_per_cpu s,
   cgroup_net_top s,
   (mem_page_faults_minor (memory s), mem_page_faults_major (memory s), mem_oom_kills_total (memory s))).
Definition sample_part (s : BpfSample) :=
  (bs_timestamp_ns s, bs_sched s, bs_tcp s, bs_net_ifaces s, bs_block s, bs_top_processes s, bs_cpu_cores s,
   bs_security s, bs_sched_per_cpu s, bs_cgroup_net_top s,
   (bs_page_faults_minor s, bs_page_faults_major s, bs_oom_kills_total s)).
Definition proc_part (s : MetricSnapshot) :=
  let m := memory s in
  (mem_total_bytes m, mem_free_bytes m, mem_cached_bytes m, mem_buffered_bytes m, mem_slab_bytes m,
   mem_swap_used_bytes m, mem_swap_free_bytes m, mem_psi_some_pct_x100 m, mem_psi_full_pct_x100 m, load s).
Definition facts_part (p : ProcMemFacts * LoadSnapshot) :=
  let f := p.1 in
  (pm_total_bytes f, pm_free_bytes f, pm_cached_bytes f, pm_buffered_bytes f, pm_slab_bytes f,
   pm_swap_used_bytes f, pm_swap_free_bytes f, pm_psi_some_pct_x100 f, pm_psi_full_pct_x100 f, p.2).

(** What a section hands over. *)
Definition merged (x : nat * step) : option BpfSample := match x.2 with Merge s => Some s | _ => None end.
Definition pushed (x : nat * step) : option Sample :=
  match x.2 with
  | PushWindow s => Some {| s_timestamp_ns := bs_timestamp_ns s; s_entries := bs_cgroup_net_top s |}
  | _ => None
  end.
Definition facts_written (x : nat * step) : option (ProcMemFacts * LoadSnapshot) :=
  match x.2 with WriteFacts f l => Some (f, l) | _ => None end.
Definition util_stored (x : nat * step) : option (list CpuUtilDelta) :=
  match x.2 with StoreUtil ds => Some ds | _ => None end.
Definition names_stored (x : nat * step) : option (gmap Z rstring) :=
  match x.2 with StoreNames m => Some m | _ => None end.

(** Facts of the processes of a snapshot the daemon had, from files a section
    of the run read. *)
Definition facts_of_moment (js : list job) (tr : list (nat * step)) (facts : gmap Z PidStatusFacts) : Prop :=
  facts = ∅ \/ exists t files n d, (t, ReadStatus files) ∈ tr /\ moment js (map fst tr) n d /\
    facts = supplement files (target_pids (d LSnapshot)).

(** What the sections [tr], done in that order by the tasks they are paired
    with, leave behind a lock. *)
Definition left_by (js : list job) (tr : list (nat * step)) (l : lock) : data l -> Prop :=
  match l with
  | LSnapshot => fun s =>
      bpf_part s = unwrap_or (bpf_part MetricSnapshot_default) (option_map sample_part (last (omap merged tr))) /\
      proc_part s = unwrap_or (proc_part MetricSnapshot_default) (option_map facts_part (last (omap facts_written tr)))
  | LBandwidth => fun w => samples w = last_n MAX_SAMPLES (omap pushed tr)
  | LCpuUtil => fun c => c = unwrap_or [] (last (omap util_stored tr))
  | LCgroupNames => fun m => m = unwrap_or ∅ (last (omap names_stored tr))
  | LPidFacts => facts_of_moment js tr
  end.

(** The sections of a task in a trace, and those of its job. *)
Definition done_by (t : nat) (tr : list (nat * step)) : list step := map snd (filter (fun x => x.1 = t) tr).
Definition to_do (js : list job) (t : nat) : list step := unwrap_or [] (option_map job_steps (js !! t)).
Definition pids_of_moment (js : list job) (tr : list (nat * step)) (pids : list Z) : Prop :=
  pids = [] \/ exists n d, moment js (map fst tr) n d /\ pids = target_pids (d LSnapshot).

Record replayed (js : list job) (tr : list (nat * step)) (c : cstate) : Prop := {
  rp_tasks t v xs : c_tasks c !! t = Some (v, xs) -> to_do js t = done_by t tr ++ xs;
  rp_none t : c_tasks c !! t = None -> to_do js t = [] /\ done_by t tr = [];
  rp_pids t v xs : c_tasks c !! t = Some (v, xs) -> pids_of_moment js tr (v_pids v) /\ facts_of_moment js tr (v_pid_facts v);
  rp_left l : left_by js tr l (c_store c l) }.

Lemma done_by_snoc t u x tr : done_by t (tr ++ [(u, x)]) = done_by t tr ++ (if decide (u = t) then [x] else []).
Proof.
  unfold done_by. rewrite filter_app, map_app. f_equal. rewrite filter_cons. cbn. by destruct (decide (u = t)).
Qed.
Lemma facts_of_moment_snoc js tr x facts : facts_of_moment js tr facts -> facts_of_moment js (tr ++ [x]) facts.
Proof.
  intros [->|(t & files & n & d & Hin & Hm & ->)]; [by left|right]. exists t, files, n, d.
  split; [by apply elem_of_app; left|]. split; [|done]. rewrite map_app. by apply moment_snoc.
Qed.
Lemma pids_of_moment_snoc js tr x pids : pids_of_moment js tr pids -> pids_of_moment js (tr ++ [x]) pids.
Proof.
  intros [->|(n & d & Hm & ->)]; [by left|right]. exists n, d. split; [|done]. rewrite map_app. by apply moment_snoc.
Qed.

Lemma replayed_start js : replayed js [] (sections_start js).
Proof.
  assert (forall t, c_tasks (sections_start js) !! t = option_map (fun j => (vars_new, job_steps j)) (js !! t)) as H.
  { intros t. cbn. change (map ?f ?l) with (f <$> l). by rewrite list_lookup_fmap. }
  constructor.
  - intros t v xs. rewrite H. unfold to_do. destruct (js !! t); [|done]. by intros [= <- <-].
  - intros t. rewrite H. unfold to_do. by destruct (js !! t).
  - intros t v xs. rewrite H. destruct (js !! t); [|done]. intros [= <- <-]. split; by left.
  - intros []; try reflexivity; [split; reflexivity|by left].
Qed.

(** What a section leaves in the variables of its task. *)
Lemma section_vars js tr t x d v :
  moment js (map fst tr) (length tr) d ->
  pids_of_moment js tr (v_pids v) -> facts_of_moment js tr (v_pid_facts v) ->
  let v' := (effect app x (d, v)).2 in
  pids_of_moment js (tr ++ [(t, x)]) (v_pids v') /\ facts_of_moment js (tr ++ [(t, x)]) (v_pid_facts v').
Proof.
  intros Hm Hp Hf. pose proof (pids_of_moment_snoc _ _ (t, x) _ Hp) as Hp'.
  pose proof (facts_of_moment_snoc _ _ (t, x) _ Hf) as Hf'.
  destruct x as [m|s|s|l| |files|f l| |ds|tb now|names|w|q| |q|q]; try (by split).
  - cbn. by destruct (drop_watch _ _).
  - split; [|exact Hf']. right. exists (length tr), d. split; [|done]. rewrite map_app. by apply moment_snoc.
  - split; [exact Hp'|]. cbn. destruct Hp as [->|(n & d' & Hm' & ->)]; [by left|right].
    exists t, files, n, d'. split; [apply elem_of_app; right; by left|]. split; [|done]. rewrite map_app. by apply moment_snoc.
Qed.

(** What a section leaves behind the locks. *)
Lemma left_section js tr t x d v :
  (forall l, left_by js tr l (d l)) -> facts_of_moment js tr (v_pid_facts v) ->
  forall l, left_by js (tr ++ [(t, x)]) l ((effect app x (d, v)).1 l).
Proof.
  intros Hd Hf l. pose proof (Hd l) as Hl.
  destruct l; cbn [left_by] in Hl |- *; rewrite ?omap_app; [| by destruct x as [m| | | | | | | | | | | | | | |];
    first [by apply facts_of_moment_snoc|cbn; destruct (drop_watch _ _); by apply facts_of_moment_snoc]|..].
  - destruct Hl as [Hb Hp].
    destruct x as [m|s|s|n| |files|f n| |ds|tb now|names|w|q| |q|q]; cbn; rewrite ?app_nil_r, ?last_snoc; try by split.
    by destruct (drop_watch _ _).
  - destruct x as [m|s|s|n| |files|f n| |ds|tb now|names|w|q| |q|q]; cbn; rewrite ?app_nil_r, ?last_snoc; try done.
    by destruct (drop_watch _ _).
  - destruct x as [m|s|s|n| |files|f n| |ds|tb now|names|w|q| |q|q]; cbn [omap list_omap pushed snd];
      rewrite ?app_nil_r; try done; [cbn; by destruct (drop_watch _ _)|].
    change (effect app (PushWindow s) (d, v)).1 with (put LBandwidth (push (bs_timestamp_ns s) (bs_cgroup_net_top s) (d LBandwidth)) d).
    rewrite (put_eq LBandwidth). exact (push_samples (bs_timestamp_ns s, bs_cgroup_net_top s) _ _ Hl).
  - destruct x as [m|s|s|n| |files|f n| |ds|tb now|names|w|q| |q|q]; cbn; rewrite ?app_nil_r, ?last_snoc; try done.
    by destruct (drop_watch _ _).
Qed.

Lemma replayed_section js us tr t c c' :
  do_sections app us (sections_start js) = Some c -> map fst tr = us ->
  do_section app t c = Some c' -> replayed js tr c ->
  exists x, replayed js (tr ++ [(t, x)]) c'.
Proof.
  intros Hc Hus (v & x & xs & r & Ht & Hr & ->)%do_section_Some [R1 R2 R3 R4]. exists x.
  assert (moment js (map fst tr) (length tr) (c_store c)) as Hm.
  { rewrite <- (length_map fst tr), Hus. exact (moment_now _ _ _ Hc). }
  destruct (R3 _ _ _ Ht) as [Hp Hf].
  destruct (section_vars js tr t x _ v Hm Hp Hf) as [Hp' Hf']. rewrite Hr in Hp', Hf'.
  constructor; cbn [c_tasks c_store].
  - intros t' v' xs' Hx. rewrite done_by_snoc. apply list_lookup_insert_Some in Hx as [(<- & [= <- <-] & _)|[Hne Hx]].
    + rewrite decide_True by done. rewrite (R1 _ _ _ Ht). by rewrite <- app_assoc.
    + rewrite decide_False, app_nil_r by done. by apply R1 in Hx.
  - intros t' Hx. assert (t' <> t) as Hne.
    { intros ->. rewrite list_lookup_insert_eq in Hx by (by eapply lookup_lt_Some). done. }
    rewrite list_lookup_insert_ne in Hx by done. rewrite done_by_snoc, decide_False, app_nil_r by done. by apply R2.
  - intros t' v' xs' Hx. apply list_lookup_insert_Some in Hx as [(<- & [= <- <-] & _)|[Hne Hx]]; [by split|].
    apply R3 in Hx as [? ?]. split; [by apply pids_of_moment_snoc|by apply facts_of_moment_snoc].
  - rewrite <- Hr. by apply left_section.
Qed.

Lemma sections_replayed js us c :
  do_sections app us (sections_start js) = Some c -> exists tr, map fst tr = us /\ replayed js tr c.
Proof.
  revert c. induction us as [|t us IH] using rev_ind; intros c Hc.
  - injection Hc as <-. exists []. split; [done|apply replayed_start].
  - rewrite do_sections_snoc in Hc. apply bind_Some in Hc as (c1 & H1 & Hc).
    destruct (IH _ H1) as (tr & Hus & Hr). destruct (replayed_section _ _ _ _ _ _ H1 Hus Hc Hr) as [x Hx].
    exists (tr ++ [(t, x)]). split; [by rewrite map_app, Hus|done].
Qed.

(** No task comes or goes. *)
Lemma schedule_length (policy : Policy) ts (s s' : state data vars) : schedule ts s = Some s' -> length (st_tasks s') = length (st_tasks s).
Proof.
  revert s. induction ts as [|t ts IH]; intros s Hs; [by injection Hs as <-|].
  rewrite schedule_cons in Hs. apply bind_Some in Hs as (s1 & H1 & Hs). rewrite (IH _ Hs).
  apply advance_move in H1 as (k & k' & ls & d & _ & _ & ->). apply length_insert.
Qed.
Lemma do_sections_length us c c' : do_sections app us c = Some c' -> length (c_tasks c') = length (c_tasks c).
Proof.
  revert c. induction us as [|t us IH]; intros c Hc; [by injection Hc as <-|].
  rewrite do_sections_cons in Hc. apply bind_Some in Hc as (c1 & H1 & Hc). rewrite (IH _ Hc).
  apply do_section_Some in H1 as (v & x & xs & r & _ & _ & ->). apply length_insert.
Qed.

Lemma free_agrees (policy : Policy) js ts s a c l :
  schedule ts (tasks_start app js) = Some s -> serialized s a -> sections_of a c ->
  holders (st_locks s l) = [] -> st_store s l = c_store c l.
Proof.
  intros Hs Hser [_ Had] Hl. pose proof (schedule_inv _ _ _ _ Hs (start_inv policy js)) as Hi.
  rewrite <- (Had l). symmetry. apply (se_free _ _ Hser). intros t k Hk _ Hw.
  assert (holds s t l Wr) as Hh by (by exists k). apply (li_holders _ _ Hi) in Hh. rewrite Hl in Hh.
  by apply elem_of_nil in Hh.
Qed.

(** C18: every piece of the shared data is its owner's last word.  In every run
    of the tasks, switching at any access under any policy, there is an order of
    critical sections, each task's in the order of its own turns, such that
    behind every free lock: the fields of the snapshot the kernel's data
    fills, each of them, are those of the sample merged last, and the fields
    [/proc] fills are those read last, whatever the two loops do to each other;
    the bandwidth window holds the last 60 samples pushed, in order; the
    utilization and the cgroup names are those stored last; and the pid facts
    were read, by a turn of the run, for the processes the snapshot ranked first
    at one moment.  A run of all turns has done every section. *)
Theorem shared_data_owned (policy : Policy) (js : list job) ts s :
  schedule ts (tasks_start app js) = Some s ->
  exists tr, map fst tr `sublist_of` ts /\
    (forall t, done_by t tr `prefix_of` to_do js t) /\
    (all_finished s = true -> forall t, done_by t tr = to_do js t) /\
    forall l, holders (st_locks s l) = [] -> left_by js tr l (st_store s l).
Proof.
  intros Hs. destruct (run_told policy js ts s Hs) as (us & c & a & Hsub & Hc & _ & Hser & Hac).
  destruct (sections_replayed js us c Hc) as (tr & <- & [R1 R2 _ R4]). exists tr. split; [done|].
  assert (forall t, exists xs, to_do js t = done_by t tr ++ xs /\
    (xs <> [] -> exists v, c_tasks c !! t = Some (v, xs))) as Hd.
  { intros t. destruct (c_tasks c !! t) as [[v xs]|] eqn:Ht.
    - exists xs. split; [by apply (R1 _ v)|]. intros _. by exists v.
    - destruct (R2 _ Ht) as [-> ->]. by exists []. }
  split; [|split].
  - intros t. destruct (Hd t) as (xs & -> & _). by apply prefix_app_r.
  - intros Hf t. destruct (Hd t) as (xs & -> & Hx). destruct xs as [|x xs]; [by rewrite app_nil_r|].
    destruct Hx as [v Hv]; [done|]. destruct (finished_agrees _ _ Hser Hf) as [_ H2]. destruct Hac as [Hat _].
    destruct (st_tasks s !! t) as [k|] eqn:Hk.
    + specialize (H2 _ _ Hk). rewrite Hat in H2. change (map ?f ?l) with (f <$> l) in H2.
      rewrite list_lookup_fmap, Hv in H2. done.
    + apply lookup_ge_None in Hk. apply lookup_lt_Some in Hv.
      rewrite (schedule_length _ _ _ _ Hs) in Hk. rewrite (do_sections_length _ _ _ Hc) in Hv.
      cbn in Hk, Hv. rewrite !length_map in *. lia.
  - intros l Hl. rewrite (free_agrees policy js ts s a c l Hs Hser Hac Hl). apply R4.
Qed.
End Refinement.

(** ** Runs of some tasks *)

Definition demo_app : AppState := {|
  st_started := 0; st_bpf := LoadSummary_default; st_snapshot := MetricSnapshot_default;
  st_pid_facts := ∅; st_bandwidth := BandwidthWindow_new; st_cgroup_names := ∅ |}.
(** The writer, the proc tier, the resolver and two clients. *)
Definition demo_jobs : list job :=
  [WriterLoop {| offset_ns := 0 |} [{| tv_sec := 1; tv_nsec := 0 |}];
   ProcLoop [{| pf_meminfo := Some (lit "MemTotal: 8 kB"); pf_psi := None; pf_loadavg := None; pf_status := fun _ => None |}];
   ResolverLoop [None]; Request (GetView Memory); Request (GetProcess {| pq_limit := None |})].
(** The writer holds the snapshot, the proc tier waits for the facts it is to
    replace, a client reads beside the writer. *)
Definition demo_run : list nat := [0; 0; 0; 3; 3; 3; 1; 1; 1; 3; 3; 2; 0; 0; 2; 2; 1]%nat.

Lemma demo_run_state :
  exists s, schedule demo_run (tasks_start demo_app demo_jobs) = Some s /\ all_finished s = false.
Proof.
  destruct (schedule demo_run (tasks_start demo_app demo_jobs)) as [s|] eqn:E.
  - exists s. split; [reflexivity|].
    assert (match schedule demo_run (tasks_start demo_app demo_jobs) with Some s => all_finished s | None => true end = false) as H
      by (vm_compute; reflexivity). by rewrite E in H.
  - exfalso. assert (match schedule demo_run (tasks_start demo_app demo_jobs) with Some _ => true | None => false end = true) as H
      by (vm_compute; reflexivity). rewrite E in H. discriminate H.
Qed.

Lemma tasks_never_hang_witness :
  exists s, schedule demo_run (tasks_start demo_app demo_jobs) = Some s /\
    (exists t s', advance t s = Some s') /\
    exists ts' s', schedule ts' s = Some s' /\ all_finished s' = true.
Proof.
  destruct demo_run_state as (s & Hs & Hf). exists s. split; [exact Hs|].
  destruct (tasks_never_hang demo_app fifo demo_jobs demo_run s Hs) as (H1 & _ & ts' & s' & H2 & H3 & _).
  split; [exact (H1 Hf)|]. exists ts', s'. split; [exact H2|exact H3].
Defined.

Lemma tasks_serializable_witness :
  exists ts s us c, schedule ts (tasks_start demo_app demo_jobs) = Some s /\ all_finished s = true /\
    do_sections demo_app us (sections_start demo_jobs) = Some c /\ st_store s ≡ c_store c.
Proof.
  destruct (run_goes_on lock_rank _ (start_inv demo_app fifo demo_jobs)) as (ts & s & Hs & Hf).
  destruct (tasks_serializable demo_app fifo demo_jobs ts s Hs) as (us & c & _ & Hc & _ & Hd).
  exists ts, s, us, c. split; [exact Hs|]. split; [exact Hf|]. split; [exact Hc|]. exact (proj1 (Hd Hf)).
Defined.

(** A client beside the resolver, taking turns. *)
Lemma demo_client :
  exists s k, schedule [0; 1; 0; 1; 0; 1; 0; 1; 0; 1; 0]%nat (tasks_start demo_app [Request (GetView Memory); ResolverLoop [None]]) = Some s /\
    st_tasks s !! 0%nat = Some k /\ finished k = true.
Proof.
  set (s0 := tasks_start _ _). set (ts := [_; _; _; _; _; _; _; _; _; _; _]).
  assert (match schedule ts s0 with
    | Some s => match st_tasks s !! 0%nat with Some k => finished k | None => false end | None => false end = true) as H
    by (vm_compute; reflexivity).
  destruct (schedule ts s0) as [s|]; [|discriminate H]. destruct (st_tasks s !! 0%nat) as [k|] eqn:Hk; [|discriminate H].
  by exists s, k.
Qed.

Lemma replies_were_true_witness :
  exists s k us n m d d',
    schedule [0; 1; 0; 1; 0; 1; 0; 1; 0; 1; 0]%nat (tasks_start demo_app [Request (GetView Memory); ResolverLoop [None]]) = Some s /\
    st_tasks s !! 0%nat = Some k /\ moment demo_app [Request (GetView Memory); ResolverLoop [None]] us n d /\
    moment demo_app [Request (GetView Memory); ResolverLoop [None]] us m d' /\
    v_reply (tk_vars k) = Some (answer (GetView Memory) (between demo_app d d')) /\ d = d'.
Proof.
  destruct demo_client as (s & k & Hs & Hk & Hf).
  destruct (replies_were_true demo_app fifo _ _ s 0%nat k (GetView Memory) Hs eq_refl Hk Hf)
    as (us & n & m & d & d' & _ & _ & Hn & Hm & Hv & He).
  exists s, k, us, n, m, d, d'. split; [exact Hs|]. split; [exact Hk|]. split; [exact Hn|]. split; [exact Hm|].
  split; [exact Hv|]. exact (He Memory eq_refl).
Defined.

(** The proc tier beside the resolver, to the end of their turns. *)
Definition owner_jobs : list job :=
  [ProcLoop [{| pf_meminfo := Some (lit "MemTotal: 8 kB"); pf_psi := None; pf_loadavg := None; pf_status := fun _ => None |}];
   ResolverLoop [None]].
Definition owner_run : list nat := ([0; 1; 0; 1; 0; 1] ++ replicate 23 0 ++ [1; 1])%nat.
Lemma owner_run_state :
  exists s, schedule owner_run (tasks_start demo_app owner_jobs) = Some s /\ all_finished s = true.
Proof.
  assert (match schedule owner_run (tasks_start demo_app owner_jobs) with Some s => all_finished s | None => false end = true) as H
    by (vm_compute; reflexivity).
  destruct (schedule owner_run (tasks_start demo_app owner_jobs)) as [s|]; [by exists s|discriminate H].
Qed.
Lemma shared_data_owned_witness :
  exists s tr, schedule owner_run (tasks_start demo_app owner_jobs) = Some s /\ all_finished s = true /\
    done_by 0 tr = to_do owner_jobs 0 /\ done_by 1 tr = to_do owner_jobs 1 /\
    left_by demo_app owner_jobs tr LSnapshot (st_store s LSnapshot) /\
    left_by demo_app owner_jobs tr LPidFacts (st_store s LPidFacts).
Proof.
  destruct owner_run_state as (s & Hs & Hf).
  destruct (shared_data_owned demo_app fifo owner_jobs owner_run s Hs) as (tr & _ & _ & Hd & Hl).
  assert (forall l, holders (st_locks s l) = []) as Hfree.
  { assert (match schedule owner_run (tasks_start demo_app owner_jobs) with
      | Some s => forallb (fun l => match holders (st_locks s l) with [] => true | _ => false end)
                    [LSnapshot; LPidFacts; LCpuUtil; LBandwidth; LCgroupNames]
      | None => false end = true) as H by (vm_compute; reflexivity).
    rewrite Hs in H. rewrite forallb_forall in H. intros l.
    assert (In l [LSnapshot; LPidFacts; LCpuUtil; LBandwidth; LCgroupNames]) as Hin by (destruct l; cbn; auto 6).
    specialize (H l Hin). cbn beta in H. by destruct (holders (st_locks s l)). }
  exists s, tr. split; [exact Hs|]. split; [exact Hf|]. split; [exact (Hd Hf 0%nat)|]. split; [exact (Hd Hf 1%nat)|].
  split; [exact (Hl LSnapshot (Hfree LSnapshot))|exact (Hl LPidFacts (Hfree LPidFacts))].
Defined.
