(* ===== verification/Daemon.v ===== *)
(** [main.rs]: the parts run together.  The tasks of [Tasks.v], their accesses
    to the shared data interleaved as the scheduler likes, the segment the writer
    task publishes into, and a reader of the segment.  The end-to-end theorem: what
    a reader accepts is a snapshot built from what the shared data was at one
    moment. *)
From S2P Require Import Prelude Loader Text Float Types Layout Pods Seqlock Bpf Stats Scheduler Kernel Metrics TimeBase Bandwidth Aggregator ProcTier Shm ShmDump Api CgroupNames Locks Tasks.

(** The length of the mapping; the definitions below take it as an argument. *)
Definition segment_size : nat := Z.to_nat SIZE.

(** ** Polling the kernel side

    A poll reads map after map while the programs run, so each value it
    returns was in its map in some reachable state, and any read may fail. *)
Section Polled.
Variable n : nat.
Definition array_read {T} (field : kernel -> list T) (o : option (list T)) : Prop :=
  match o with Some l => exists k, reachable n k /\ l = field k | None => True end.
Definition hash_read {T} (field : kernel -> gmap Z T) (l : list (option T)) : Prop :=
  Forall (fun o => match o with
    | Some x => exists k key, reachable n k /\ field k !! key = Some x
    | None => True end) l.
Record polled (m : PolledMaps) : Prop := {
  po_drops : array_read EVENT_DROPS (pm_drops m);
  po_sched : array_read SCHED_HISTOGRAM (pm_sched m);
  po_tcp : array_read TCP_STATE (pm_tcp_state m);
  po_iface : array_read NET_IFACE_STATS (pm_net_iface m);
  po_memory : array_read MEMORY_STATS (pm_memory m);
  po_block : hash_read BLOCK_STATS (pm_block m);
  po_process : hash_read PROCESS_STATS (pm_process m);
  po_cpu : array_read CPU_STATS (pm_cpu m);
  po_again : array_read SCHED_HISTOGRAM (pm_sched_again m);
  po_security : array_read SECURITY_COUNTS (pm_security m);
  po_cgroup : hash_read NET_CGROUP_STATS (pm_net_cgroup m) }.

Lemma array_read_wf {T} `{Pod T} (field : kernel -> list T) o :
  (forall k, inv n k -> Forall pod_wf (field k)) -> array_read field o -> opt_wf o.
Proof. destruct o as [l|]; [|done]. intros Hf (k & Hk & ->). apply Hf. by apply reachable_inv. Qed.

Lemma hash_read_wf {T} `{Pod T} (field : kernel -> gmap Z T) l :
  (forall k key x, inv n k -> field k !! key = Some x -> pod_wf x) -> hash_read field l -> entries_wf l.
Proof.
  intros Hf Hl. eapply Forall_impl; [exact Hl|]. intros [x|]; [|done].
  intros (k & key & Hk & Hx). eapply Hf; [by apply reachable_inv|exact Hx].
Qed.

(** What the aggregator polls is typed. *)
Lemma polled_typed m : polled m -> polled_wf m.
Proof.
  intros [? H1 H2 H3 H4 H5 H6 H7 H8 H9 _]. constructor.
  - apply array_read_wf in H1; [done|]. intros k Hk. destruct (inv_hist _ _ Hk) as [_ Hh].
    eapply Forall_impl; [exact Hh|]. by intros h [? _].
  - apply array_read_wf in H2; [done|]. intros k Hk. apply (inv_tcp _ _ Hk).
  - apply array_read_wf in H3; [done|]. intros k Hk. apply (inv_iface _ _ Hk).
  - apply array_read_wf in H4; [done|]. intros k Hk. apply (inv_memory _ _ Hk).
  - apply hash_read_wf in H5; [done|]. intros k key x Hk Hx.
    by destruct (table_lookup _ _ _ _ _ (inv_block _ _ Hk) Hx).
  - apply hash_read_wf in H6; [done|]. intros k key x Hk Hx.
    by destruct (table_lookup _ _ _ _ _ (inv_process _ _ Hk) Hx) as (_ & _ & ?).
  - apply array_read_wf in H7; [done|]. intros k Hk. apply (inv_cpu _ _ Hk).
  - apply array_read_wf in H8; [done|]. intros k Hk. destruct (inv_hist _ _ Hk) as [_ Hh].
    eapply Forall_impl; [exact Hh|]. by intros h [? _].
  - apply array_read_wf in H9; [done|]. intros k Hk. apply (inv_counts _ _ Hk).
Qed.
End Polled.

(** ** The tasks and the segment *)

Record daemon := { dm_tasks : state data vars; dm_segment : sys }.
#[export] Instance eta_daemon : Eta daemon := fun r => Build_daemon (dm_tasks r) (dm_segment r).

(** The bytes of the snapshots begun so far: those published, then the one
    being copied. *)
Definition begun (s : sys) : list (list Z) :=
  pub s ++ match wphase s with WIdle => [] | WCopying snap _ => [snap] end.

(** What the task [w] has built for publishing. *)
Definition handed (w : nat) (d : daemon) : list MetricSnapshotV3 :=
  match st_tasks (dm_tasks d) !! w with Some k => v_published (tk_vars k) | None => [] end.
(** It holds no guard and is in no section. *)
Definition outside (w : nat) (d : daemon) : Prop :=
  forall k, st_tasks (dm_tasks d) !! w = Some k -> tk_todo k = [] /\ tk_body k = [] /\ tk_held k = [].
(** Its last [publish] has returned. *)
Definition caught_up (w : nat) (d : daemon) : Prop :=
  wphase (dm_segment d) = WIdle /\ length (begun (dm_segment d)) = length (handed w d).

Definition is_begin (a : act) : bool := match a with WBegin _ => true | _ => false end.

Section Daemon.
Context {policy : Policy}.
Variable app : AppState.

Definition daemon_start (size : nat) (js : list job) : daemon :=
  {| dm_tasks := tasks_start app js; dm_segment := Seqlock.start size |}.

(** The task [w] is the writer's. *)
Inductive daemon_step (size w : nat) : daemon -> daemon -> Prop :=
  (* an access, a lock taken or dropped, by any task; the writer's next turn
     begins when its last publish has returned *)
  | ds_task t s d :
      advance t (dm_tasks d) = Some s -> (t = w -> outside w d -> caught_up w d) ->
      daemon_step size w d (d <| dm_tasks := s |>)
  (* shm.rs: the writer has dropped its guards and begins to publish *)
  | ds_publish v3 segment d :
      outside w d -> handed w d !! length (begun (dm_segment d)) = Some v3 ->
      exec size (WBegin (write_pod v3)) (dm_segment d) = Some segment ->
      daemon_step size w d (d <| dm_segment := segment |>)
  (* every other action of the publisher, and the actions of the reader *)
  | ds_segment a segment d :
      is_begin a = false -> exec size a (dm_segment d) = Some segment ->
      daemon_step size w d (d <| dm_segment := segment |>).
End Daemon.

(** ** Everything stays typed *)

(** The load averages read are numbers of the type. *)
Definition files_ok (files : proc_files) : Prop :=
  match pf_loadavg files with Some s => load_wf (parse_loadavg s) | None => True end.

(** What the tasks read outside the locks: maps of [n] CPUs, files, the clock tick. *)
Definition job_wf (n : nat) (j : job) : Prop :=
  match j with
  | AggregatorLoop _ turns => Forall (fun m => polled n m.1) turns
  | ProcLoop turns => Forall files_ok turns
  | CpuLoop hz _ => 0 <= hz
  | _ => True
  end.

Definition step_wf (x : Tasks.step) : Prop :=
  match x with
  | Merge s => sample_wf s
  | WriteFacts f l => mem_facts_wf f /\ load_wf l
  | StoreUtil ds => Forall util_wf ds
  | _ => True
  end.
Definition store_wf (d : store data) : Prop :=
  snapshot_wf (d LSnapshot) /\ map_Forall (fun _ => pid_facts_wf) (d LPidFacts) /\ Forall util_wf (d LCpuUtil).
Record sections_wf (c : cstate) : Prop := {
  sw_store : store_wf (c_store c);
  sw_vars t v xs : c_tasks c !! t = Some (v, xs) -> map_Forall (fun _ => pid_facts_wf) (v_pid_facts v);
  sw_steps t v xs : c_tasks c !! t = Some (v, xs) -> Forall step_wf xs }.

Lemma snapshot_default_wf : snapshot_wf MetricSnapshot_default.
Proof. constructor; cbn; try constructor; try solve_pod; repeat split; try done; try solve_pod. Qed.

Lemma cpu_delta_wf ns i c p : 0 <= ns -> util_wf (cpu_delta ns i c p).
Proof.
  intros Hns. unfold util_wf, cpu_delta. cbn [cu_cpu_id cu_user_ns cu_system_ns cu_iowait_ns cu_idle_ns].
  assert (forall a b, is_u64 (saturating_mul (saturating_sub a b) ns)) as H.
  { intros a b. unfold is_u64, saturating_mul, saturating_sub, u64_max. nia. }
  split_and!; [apply as_u32_range|apply H..].
Qed.

Lemma aggregator_turn_wf n tb maps now : polled n maps -> Forall step_wf (aggregator_turn tb maps now).
Proof.
  intros Hm. constructor; [done|]. destruct (collect maps tb now) as [s|e] eqn:E; [|by repeat constructor].
  constructor; [done|]. constructor; [|constructor]. cbn. eapply collect_wf; [|exact E]. by eapply polled_typed.
Qed.

Lemma proc_turn_wf files : files_ok files -> Forall step_wf (proc_turn files).
Proof.
  intros Hf. unfold proc_turn. destruct (read_proc_memory files) as [f|] eqn:E; [|constructor].
  constructor; [done|]. constructor; [done|]. constructor; [|by constructor]. split; [by eapply read_proc_memory_wf|].
  unfold read_loadavg. unfold files_ok in Hf. by destruct (pf_loadavg files).
Qed.

Lemma cpu_turns_wf ns prev contents : 0 <= ns -> Forall step_wf (cpu_turns ns prev contents).
Proof.
  intros Hns. revert prev. induction contents as [|[s|] contents IH]; intros prev; [constructor| |by apply IH].
  cbn [cpu_turns]. apply Forall_app. split; [|apply IH].
  repeat case_match; [|by repeat constructor|constructor]. constructor; [|constructor]. cbn.
  apply Forall_lookup. intros i x. rewrite list_lookup_imap. intros (cp & _ & ->)%fmap_Some. by apply cpu_delta_wf.
Qed.

Lemma job_steps_wf n j : job_wf n j -> Forall step_wf (job_steps j).
Proof.
  destruct j as [tb turns|turns|hz contents|tb turns|turns|r]; cbn [job_wf job_steps]; intros Hj.
  - apply Forall_concat, Forall_map. eapply Forall_impl; [exact Hj|]. intros m. apply aggregator_turn_wf.
  - apply Forall_concat, Forall_map. eapply Forall_impl; [exact Hj|]. intros m. apply proc_turn_wf.
  - apply cpu_turns_wf. unfold ns_per_jiffy. case_match; [done|]. by apply Z.div_pos; lia.
  - by apply Forall_map, Forall_true.
  - by apply Forall_map, Forall_true.
  - destruct r; repeat constructor.
Qed.

Lemma effect_wf app x d v :
  step_wf x -> store_wf d -> map_Forall (fun _ => pid_facts_wf) (v_pid_facts v) ->
  store_wf (effect app x (d, v)).1 /\ map_Forall (fun _ => pid_facts_wf) (v_pid_facts (effect app x (d, v)).2).
Proof.
  intros Hx Hd Hv. pose proof Hd as (H1 & H2 & H3).
  destruct x as [m|s|s|l| |files|f l| |ds|tb now|names|w|q| |q|q]; try (split; [exact Hd|exact Hv]).
  - cbn. destruct (drop_watch _ _). done.
  - split; [|exact Hv]. split; [|split; [exact H2|exact H3]]. by apply apply_sample_wf.
  - split; [exact Hd|]. cbn [effect snd]. intros pid y Hy. cbn in Hy. rewrite supplement_lookup in Hy.
    case_decide; [|done]. apply fmap_Some in Hy as (z & _ & ->). apply parse_pid_status_wf.
  - destruct Hx as [Hf Hl]. split; [|exact Hv]. split; [|split; [exact H2|exact H3]]. by apply apply_facts_wf.
  - split; [|exact Hv]. split; [exact H1|]. split; [exact Hv|exact H3].
  - split; [|exact Hv]. split; [exact H1|]. split; [exact H2|exact Hx].
Qed.

Lemma do_sections_wf app n js us c :
  Forall (job_wf n) js -> do_sections app us (sections_start js) = Some c -> sections_wf c.
Proof.
  intros Hjs. revert c. induction us as [|t us IH] using rev_ind; intros c Hc.
  - injection Hc as <-. constructor.
    + split; [apply snapshot_default_wf|]. split; [done|constructor].
    + intros t v xs Hx. cbn in Hx. change (map ?f ?l) with (f <$> l) in Hx. rewrite list_lookup_fmap in Hx.
      by apply fmap_Some in Hx as (j & Hj & [= -> ->]).
    + intros t v xs Hx. cbn in Hx. change (map ?f ?l) with (f <$> l) in Hx. rewrite list_lookup_fmap in Hx.
      apply fmap_Some in Hx as (j & Hj & [= -> ->]). eapply job_steps_wf. exact (Forall_lookup_1 _ _ _ _ Hjs Hj).
  - rewrite do_sections_snoc in Hc. apply bind_Some in Hc as (c1 & H1 & Hc). destruct (IH _ H1) as [W1 W2 W3].
    apply do_section_Some in Hc as (v & x & xs & r & Ht & Hr & ->).
    pose proof (W3 _ _ _ Ht) as Hxs. apply Forall_cons in Hxs as [Hx Hxs].
    destruct (effect_wf app x (c_store c1) v Hx W1 (W2 _ _ _ Ht)) as [H1' H2']. rewrite Hr in H1', H2'.
    constructor; cbn [c_store c_tasks]; [exact H1'| |]; intros t' v' xs' [(<- & [= <- <-] & _)|[_ Hx']]%list_lookup_insert_Some; eauto.
Qed.

(** ** What a run of the daemon keeps *)

Section Run.
Context {policy : Policy}.
Variable app : AppState.

Record daemon_inv (size w : nat) (js : list job) (d : daemon) : Prop := {
  di_tasks : exists ts, schedule ts (tasks_start app js) = Some (dm_tasks d);
  di_begun : exists l, l `prefix_of` handed w d /\ begun (dm_segment d) = map write_pod l;
  di_segment : rtc (Seqlock.step size) (Seqlock.start size) (dm_segment d) }.

(** An action that does not begin a publish keeps the list of those begun. *)
Lemma exec_begun size a s s' : is_begin a = false -> exec size a s = Some s' -> begun s' = begun s.
Proof.
  intros Ha He. destruct s as [m q ph p r]. unfold begun.
  destruct a, ph as [|sn [|]], r as [| ? ? [|] ? | |]; cbn in Ha, He; try discriminate;
    repeat match type of He with context [if ?b then _ else _] => destruct b end; try discriminate;
    injection He as <-; cbn; by rewrite ?app_nil_r.
Qed.

Lemma exec_begin size snap s s' :
  exec size (WBegin snap) s = Some s' -> begun s' = begun s ++ [snap].
Proof.
  intros He. destruct s as [m q ph p r]. unfold begun. destruct ph; cbn in He; [|discriminate].
  case_match; [|discriminate]. injection He as <-. cbn. by rewrite app_nil_r.
Qed.

Lemma schedule_snoc ts t s : schedule (ts ++ [t]) s = schedule ts s ≫= advance (lock_dec := lock_eq_dec) (data := data) (local := vars) t.
Proof. unfold schedule. by rewrite foldl_app. Qed.

(** The writer only ever hands over more. *)
Lemma handed_grows w js ts t s d :
  schedule ts (tasks_start app js) = Some (dm_tasks d) -> advance t (dm_tasks d) = Some s ->
  handed w d `prefix_of` handed w (d <| dm_tasks := s |>).
Proof.
  intros Hts Ht. unfold handed. cbn [upd updater dm_tasks].
  destruct (st_tasks (dm_tasks d) !! w) as [k|] eqn:Hk; [|apply prefix_nil].
  destruct (advance_vars grown t (dm_tasks d) s w k) as (k' & -> & Hg); [|done|done|exact Hg].
  eapply (schedule_made_of _ ts (tasks_start app js)); [exact Hts|]. apply tasks_grow.
Qed.

Lemma daemon_step_inv size w js d d' : daemon_step size w d d' -> daemon_inv size w js d -> daemon_inv size w js d'.
Proof.
  intros Hstep [(ts & Hts) (l & Hl & Hb) Hs]. destruct Hstep as [t s d Ht _|v3 seg d Ho Hv He|a seg d Ha He].
  - constructor; cbn [upd updater dm_tasks dm_segment]; [| |done].
    + exists (ts ++ [t]). by rewrite schedule_snoc, Hts.
    + exists l. split; [|done]. etransitivity; [exact Hl|]. by eapply handed_grows.
  - constructor; cbn [upd updater dm_tasks dm_segment]; [by exists ts| |].
    + exists (l ++ [v3]). split; [|by rewrite (exec_begin _ _ _ _ He), Hb, map_app].
      change (handed w _) with (handed w d). rewrite Hb, length_map in Hv.
      destruct Hl as [rest Hl]. rewrite Hl in Hv |- *. apply prefix_app.
      rewrite lookup_app_r, Nat.sub_diag in Hv by done. destruct rest as [|y rest]; [done|]. injection Hv as ->.
      by exists rest.
    + eapply rtc_r; [exact Hs|]. by eexists.
  - constructor; cbn [upd updater dm_tasks dm_segment]; [by exists ts| |].
    + exists l. by rewrite (exec_begun _ _ _ _ Ha He).
    + eapply rtc_r; [exact Hs|]. by eexists.
Qed.

Lemma daemon_reachable_inv size w js d :
  rtc (daemon_step size w) (daemon_start app size js) d -> daemon_inv size w js d.
Proof.
  intros H. eapply (rtc_ind_r (daemon_inv size w js)); [..|exact H].
  - constructor; [by exists []| |done]. exists []. split; [apply prefix_nil|done].
  - intros x y _ Hs Hx. by eapply daemon_step_inv.
Qed.
End Run.

(** ** From the programs to the reader *)

Lemma stamped_wf v q : pod_wf v -> is_u64 q -> pod_wf (stamped v q).
Proof.
  intros Hv Hq.
  destruct v as [[magic version pad0 sq ts sz pad1 res] v2 v3 v4 v5 v6 v7 v8 v9 v10 v11 v12 v13 v14 v15
    v16 v17 v18 v19 v20 v21].
  unfold pod_wf in *. cbn [pod_ty MetricSnapshotV3_pod] in *. unfold MetricSnapshotV3_ty, stamped in *.
  cbn [pod_val MetricSnapshotV3_pod upd updater] in *. destruct Hv as [Hh Hrest]. split; [|exact Hrest].
  clear Hrest. cbn -[is_u64] in Hh |- *. destruct_and?. split_and!; try assumption; exact I.
Qed.

Lemma map_lookup_Some {A B} (f : A -> B) l k y : map f l !! k = Some y -> exists x, l !! k = Some x /\ y = f x.
Proof. change (map f l) with (f <$> l). rewrite list_lookup_fmap. intros (x & Hx & ->)%fmap_Some. eauto. Qed.

Definition built (d : store data) (tb : TimeBase) (now : timespec) : MetricSnapshotV3 :=
  build_v3 (d LSnapshot) (d LPidFacts) (d LCpuUtil) tb now.

Lemma built_wf d tb now : store_wf d -> pod_wf (built d tb now).
Proof. intros (H1 & H2 & H3). exact (build_v3_wf _ _ _ _ _ H1 H2 H3). Qed.

Lemma built_header d tb now :
  v3_header (built d tb now) = ShmHeader_new <| hdr_timestamp_ns_wall := now_wall_ns tb now |>.
Proof. apply (c_header _ _ _ _ _ (build_v3_holds _ _ _ _ _)). Qed.

Lemma dump_accepts d tb now q : dump SIZE (Ok (stamped (built d tb now) q)) = Ok (stamped (built d tb now) q).
Proof.
  apply dump_ok. unfold stamped. cbn [upd updater v3_header]. rewrite built_header.
  split; [done|]. split; [done|]. split; [done|]. split; [done|]. vm_compute. reflexivity.
Qed.

Lemma segment_size_min : (64 <= segment_size)%nat.
Proof. apply Nat.leb_le. vm_compute. reflexivity. Qed.

(** C1: end to end.  Let the daemon's tasks run, any number of each, with any map
    reads and file reads failing, under any policy of the locks, interleaved
    access by access, beside the publisher and one reader of the segment.  A
    read of the segment that returns through the [seq1 == seq2] exit decodes to
    a snapshot built from what the shared data was at one moment of the run,
    between critical sections: nothing of it torn, lost or changed but the
    sequence field; and the standalone reader accepts it. *)
Theorem reader_decodes_built (policy : Policy) (app : AppState) n w js d seq1 out :
  Forall (job_wf n) js ->
  rtc (daemon_step segment_size w) (daemon_start app segment_size js) d -> no_wrap (dm_segment d) ->
  rd (dm_segment d) = ROk seq1 out -> seq1 <> 0 ->
  exists ts us i m tb now,
    schedule ts (tasks_start app js) = Some (dm_tasks d) /\ us `sublist_of` ts /\ moment app js us i m /\
    read_pod out = stamped (built m tb now) seq1 /\
    contents (m LSnapshot) (m LPidFacts) (m LCpuUtil) (now_wall_ns tb now) (built m tb now) /\
    dump SIZE (Ok (read_pod out)) = Ok (stamped (built m tb now) seq1).
Proof.
  intros Hjs Hr Hw Hrd Hseq. apply daemon_reachable_inv in Hr as [(ts & Hts) (l & Hl & Hb) Hseg].
  pose proof segment_size_min as Hsize.
  destruct (read_published segment_size Hsize _ _ _ Hseg Hw Hrd Hseq) as (k & snap & Hk & Hq & Hout).
  assert (begun (dm_segment d) !! k = Some snap) as Hk' by by apply lookup_app_l_Some.
  rewrite Hb in Hk'. apply map_lookup_Some in Hk' as (v3 & Hv & ->).
  destruct (published_at_moments app policy js ts _ Hts) as (us & Hsub & _ & Hpub).
  assert (published_at app js us v3) as (i & m & tb & now & Hm & ->).
  { unfold handed in Hl. destruct (st_tasks (dm_tasks d) !! w) as [kw|] eqn:Hkw.
    - destruct Hl as [rest Hl]. specialize (Hpub _ _ Hkw). rewrite Hl in Hpub. apply Forall_app in Hpub as [Hpub _].
      exact (Forall_lookup_1 _ _ _ _ Hpub Hv).
    - apply prefix_nil_inv in Hl. by subst l. }
  fold (built m tb now) in *.
  assert (store_wf m) as Hwf by (destruct Hm as (_ & c & Hc & <-); by apply (do_sections_wf app n js (take i us) c)).
  assert (is_u64 seq1) as Hu.
  { apply lookup_lt_Some in Hk. unfold no_wrap, is_u64 in *. lia. }
  assert (read_pod out = stamped (built m tb now) seq1) as Hdec.
  { rewrite Hout. unfold image. rewrite <- Hq, store_seq_write.
    rewrite <- (app_nil_r (write_pod _)). apply read_write_pod, stamped_wf; [|done]. by apply built_wf. }
  exists ts, us, i, m, tb, now. split; [done|]. split; [done|]. split; [done|]. split; [done|].
  split; [apply build_v3_holds|]. rewrite Hdec. apply dump_accepts.
Qed.

(** A published snapshot read alone. *)
Lemma publish_and_read size snap :
  (64 <= size)%nat -> length snap = size ->
  exists s1 s2, run size (publish_acts size snap) (Seqlock.start size) = Some s1 /\
    run size (read_acts size) s1 = Some s2 /\ no_wrap s2 /\ exists out, rd s2 = ROk 2 out.
Proof.
  intros Hsize Hlen.
  pose proof (publish_run size Hsize snap (Seqlock.start size)) as Hp. cbv zeta in Hp.
  assert (length (mem (Seqlock.start size)) = size) as Hm
    by (apply (inv_len size _ (inv_reachable size Hsize _ (rtc_refl _ _) ltac:(done)))).
  specialize (Hp Hm Hlen eq_refl). rewrite (publish_image size Hsize) in Hp by done.
  cbn [shm_mmap shm_local_seq pub rd app Seqlock.start local_seq] in Hp.
  set (s1 := {| mem := _ |}) in Hp. change (wrapping_add (wrapping_add (local_seq s1) 1) 1) with 2 in Hp.
  assert (Seqlock.inv size s1) as Hi by (apply (inv_reachable size Hsize); [by eapply run_rtc|done]).
  pose proof (read_alone size Hsize s1 0 _ Hi eq_refl ltac:(done) eq_refl ltac:(unfold RETRY_BUDGET; lia)) as Hread.
  exists s1. eexists. split; [exact Hp|]. split; [exact Hread|]. split; [done|]. by eexists.
Qed.

(** A run of the segment alone. *)
Lemma run_segment {policy : Policy} size w acts d segment :
  Forall (fun a => is_begin a = false) acts -> run size acts (dm_segment d) = Some segment ->
  rtc (daemon_step size w) d (d <| dm_segment := segment |>).
Proof.
  intros Ha. revert d. induction Ha as [|a acts Ha _ IH]; intros d Hr; cbn [run] in Hr.
  - injection Hr as <-. by destruct d; apply rtc_refl.
  - destruct (exec size a (dm_segment d)) as [s1|] eqn:E; [|done].
    eapply rtc_l; [by eapply ds_segment|]. exact (IH (d <| dm_segment := s1 |>) Hr).
Qed.

(** The writer alone in a turn: it is in its section until it has dropped its
    guards. *)
Definition in_section (s : state data vars) : bool :=
  match st_tasks s with
  | [k] => match tk_todo k, tk_body k, tk_held k with [], [], [] => false | _, _, _ => true end
  | _ => false
  end.

Lemma run_writer {policy : Policy} size n d :
  length (st_tasks (dm_tasks d)) = 1%nat -> (outside 0 d -> caught_up 0 d) ->
  (forall i, (i <= n)%nat -> exists s, schedule (replicate i 0%nat) (dm_tasks d) = Some s /\
     ((0 < i < n)%nat -> in_section s = true)) ->
  exists s, schedule (replicate n 0%nat) (dm_tasks d) = Some s /\
    rtc (daemon_step size 0) d (d <| dm_tasks := s |>).
Proof.
  intros Hlen Hc Hrun.
  assert (forall m, (m <= n)%nat -> exists s, schedule (replicate m 0%nat) (dm_tasks d) = Some s /\
    rtc (daemon_step size 0) d (d <| dm_tasks := s |>)) as H; [|by apply H].
  induction m as [|m IH]; intros Hm.
  - exists (dm_tasks d). split; [done|]. by destruct d; apply rtc_refl.
  - destruct IH as (s & Hs & Hr); [lia|]. destruct (Hrun (S m) Hm) as (s' & Hs' & _).
    destruct (Hrun m ltac:(lia)) as (s1 & Hs1 & Hin). rewrite Hs in Hs1. injection Hs1 as <-.
    exists s'. split; [done|]. eapply rtc_r; [exact Hr|].
    rewrite replicate_S_end, schedule_snoc, Hs in Hs'. cbn in Hs'.
    change (d <| dm_tasks := s' |>) with ((d <| dm_tasks := s |>) <| dm_tasks := s' |>).
    apply ds_task with 0%nat; [exact Hs'|]. intros _ Hout.
    destruct m as [|m]; [injection Hs as <-; destruct d; by apply Hc|].
    specialize (Hin ltac:(lia)). unfold in_section in Hin. exfalso.
    destruct (st_tasks s) as [|k [|]] eqn:Ek; [done| |done].
    destruct (Hout k) as (E1 & E2 & E3); [by cbn; rewrite Ek|]. by rewrite E1, E2, E3 in Hin.
Qed.

(** For any function of what was read. *)
Lemma writer_section (b : vars -> vars) :
  let s0 := boot data_new [(vars_new, [{| cs_locks := [(LSnapshot, Rd); (LPidFacts, Rd); (LCpuUtil, Rd)];
                                          cs_body := build_reads ++ [Local b] |}])] in
  forallb (fun i => match schedule (replicate i 0%nat) s0 with
    | Some s => in_section s || (i =? 0)%nat || (i =? 23)%nat | None => false end) (seq 0 24) = true /\
  match schedule (replicate 23 0%nat) s0 with
  | Some s => st_tasks s = [spawn (b vars_new, [])]
  | None => False
  end.
Proof. split; vm_compute; reflexivity. Qed.

Lemma writer_turn app tb now :
  exists s, schedule (replicate 23 0%nat) (tasks_start app [WriterLoop tb [now]]) = Some s /\
    (exists v, st_tasks s = [spawn (v, [])] /\ v_published v = [built data_new tb now]) /\
    forall i, (i <= 23)%nat -> exists s', schedule (replicate i 0%nat) (tasks_start app [WriterLoop tb [now]]) = Some s' /\
      ((0 < i < 23)%nat -> in_section s' = true).
Proof.
  pose proof (writer_section (fun v =>
    drop_refs (v <| v_published ::= fun l => l ++ [build_v3 (v_snap v) (v_facts v) (v_cpu v) tb now] |>))) as [H1 H2].
  change (boot data_new _) with (tasks_start app [WriterLoop tb [now]]) in H1, H2.
  destruct (schedule (replicate 23 0%nat) (tasks_start app [WriterLoop tb [now]])) as [s|] eqn:E; [|destruct H2].
  exists s. split; [reflexivity|]. split; [eexists; split; [exact H2|reflexivity]|].
  intros i Hi. rewrite forallb_forall in H1. specialize (H1 i).
  destruct (schedule (replicate i 0%nat) (tasks_start app [WriterLoop tb [now]])) as [s'|] eqn:E'; [|exfalso; assert (false = true) by (apply H1, in_seq; lia); discriminate].
  exists s'. split; [reflexivity|]. intros Hn. destruct (in_section s'); [reflexivity|].
  specialize (H1 ltac:(apply in_seq; lia)). apply orb_true_iff in H1 as [?%Nat.eqb_eq|?%Nat.eqb_eq]; lia.
Qed.

(** The first publish of a daemon with nothing collected yet, read alone. *)
Lemma first_publish app size tb now :
  (64 <= size)%nat -> length (write_pod (built data_new tb now)) = size ->
  exists d out, rtc (daemon_step size 0) (daemon_start app size [WriterLoop tb [now]]) d /\
    no_wrap (dm_segment d) /\ rd (dm_segment d) = ROk 2 out /\ handed 0 d = [built data_new tb now].
Proof.
  intros Hsize Hlen. set (d0 := daemon_start app size [WriterLoop tb [now]]).
  destruct (writer_turn app tb now) as (s & Hs & (v & Hv & Hp) & Hin).
  destruct (run_writer size 23 d0) as (s' & Hs' & Hrun); [reflexivity|intros _; split; reflexivity|exact Hin|].
  change (dm_tasks d0) with (tasks_start app [WriterLoop tb [now]]) in Hs'. rewrite Hs in Hs'. injection Hs' as <-. clear Hs Hin.
  destruct (publish_and_read size (write_pod (built data_new tb now)) Hsize Hlen)
    as (s1 & s2 & Hpub & Hread & Hw & out & Hout).
  unfold publish_acts in Hpub. cbn [run] in Hpub.
  destruct (exec size (WBegin (write_pod (built data_new tb now))) (Seqlock.start size)) as [sb|] eqn:E0; [|done].
  set (d1 := d0 <| dm_tasks := s |>). set (d2 := d1 <| dm_segment := sb |>).
  exists (d2 <| dm_segment := s2 |>), out. split; [|split; [done|split; [done|]]].
  2: { unfold handed. cbn. by rewrite Hv. }
  etransitivity; [exact Hrun|]. eapply rtc_l.
  { apply (ds_publish size 0 (built data_new tb now) sb d1); [| |exact E0].
    - intros k Hk. cbn in Hk. rewrite Hv in Hk. by injection Hk as <-.
    - unfold handed. cbn. rewrite Hv. cbn. by rewrite Hp. }
  fold d2. assert (dm_segment d2 = sb) as Hsb by reflexivity. clearbody d2. destruct d2 as [tk2 sg2]. cbn in Hsb. subst sg2.
  trans ({| dm_tasks := tk2; dm_segment := s1 |}).
  - refine (run_segment size 0 (map WByte (body_offsets size) ++ [WEnd]) {| dm_tasks := tk2; dm_segment := sb |} s1 _ Hpub).
    apply Forall_app. split; [by apply Forall_map, Forall_true|by repeat constructor].
  - refine (run_segment size 0 (read_acts size) {| dm_tasks := tk2; dm_segment := s1 |} s2 _ Hread).
    unfold read_acts. apply Forall_cons; split; [done|]. apply Forall_app.
    split; [by apply Forall_map, Forall_true|by repeat constructor].
Qed.

Lemma data_new_wf : store_wf data_new.
Proof. split; [apply snapshot_default_wf|]. split; [done|constructor]. Qed.

Lemma default_length tb now : length (write_pod (built data_new tb now)) = segment_size.
Proof. apply length_write_pod, built_wf, data_new_wf. Qed.

Lemma reader_decodes_built_witness :
  let app := {| st_started := 0; st_bpf := LoadSummary_default; st_snapshot := MetricSnapshot_default;
    st_pid_facts := ∅; st_bandwidth := BandwidthWindow_new; st_cgroup_names := ∅ |} in
  let js := [WriterLoop {| offset_ns := 1_000 |} [{| tv_sec := 2; tv_nsec := 7 |}]] in
  exists d out, rtc (daemon_step segment_size 0) (daemon_start app segment_size js) d /\ rd (dm_segment d) = ROk 2 out /\
    exists us i m tb now, moment app js us i m /\ read_pod out = stamped (built m tb now) 2 /\
      dump SIZE (Ok (read_pod out)) = Ok (stamped (built m tb now) 2).
Proof.
  intros app js. destruct (first_publish app segment_size {| offset_ns := 1_000 |} {| tv_sec := 2; tv_nsec := 7 |}
    segment_size_min (default_length _ _)) as (d & out & Hr & Hw & Hrd & _).
  exists d, out. split; [exact Hr|]. split; [exact Hrd|].
  destruct (reader_decodes_built fifo app 1 0 js d 2 out ltac:(by repeat constructor) Hr Hw Hrd ltac:(done))
    as (ts & us & i & m & tb & now & _ & _ & Hm & Hd & _ & Hdump).
  exists us, i, m, tb, now. split; [exact Hm|]. split; [exact Hd|exact Hdump].
Defined.
