(* ===== verification/Segment.v ===== *)
(** The life of the segment's file: [ShmPublisher::create], its [Drop] and
    [spawn_writer] of [shm.rs], and the opening part of [main] in
    [bin/shm_dump.rs], over a directory of inodes that other processes change
    between any two of these system calls. *)
From S2P Require Import Prelude Float Types Layout Pods Seqlock ShmDump Shm Daemon.

(** ** Files *)

(** An inode stays as long as somebody has it open or mapped, whatever happens
    to its name; here it stays for ever. *)
Record inode := { ino_owner : Z; ino_bytes : list Z }.
Record fs := { names : gmap rstring nat; inodes : gmap nat inode }.
#[export] Instance eta_fs : Eta fs := fun r => Build_fs (names r) (inodes r).

(** [std::fs::remove_file]: [unlink(2)]. *)
Definition remove_file (permitted : bool) (path : rstring) (f : fs) : result unit unit * fs :=
  match names f !! path with
  | Some _ => if permitted then (Ok tt, f <| names ::= delete path |>) else (Err tt, f)
  | None => (Err tt, f)
  end.

(** [OpenOptions::create_new(true).open]: [O_CREAT|O_EXCL]. *)
Definition open_new (permitted : bool) (uid : Z) (path : rstring) (f : fs) : result (nat * fs) unit :=
  match names f !! path with
  | Some _ => Err tt
  | None =>
      if permitted then
        let i := fresh (dom (inodes f)) in
        Ok (i, f <| names ::= <[path := i]> |>
                 <| inodes ::= <[i := {| ino_owner := uid; ino_bytes := [] |}]> |>)
      else Err tt
  end.

(** [File::set_len]: cut, or fill with zeros. *)
Definition resized (n : nat) (b : list Z) : list Z := take n b ++ replicate (n - length b) 0.
Definition write_inode (g : list Z -> list Z) (i : nat) (f : fs) : fs :=
  f <| inodes ::= alter (fun n => {| ino_owner := ino_owner n; ino_bytes := g (ino_bytes n) |}) i |>.

(** What the kernel answers, and what everybody else does meanwhile. *)
Record shm_host := {
  sh_uid : Z;
  sh_unlink : bool; sh_open : bool; sh_set_len : bool; sh_map : bool;
  sh_before_open : fs -> fs;
  sh_before_set_len : fs -> fs;
  sh_before_map : fs -> fs }.

(** ** The publisher *)

Record publisher := { sp_path : rstring; sp_inode : nat; sp_local_seq : Z }.
Inductive create_error := CreateFailed | FtruncateFailed | MmapFailed.

Section Create.
Variable size : nat.

Definition create_segment (h : shm_host) (path : rstring) (f : fs) : result publisher create_error * fs :=
  let f := (remove_file (sh_unlink h) path f).2 in
  match open_new (sh_open h) (sh_uid h) path (sh_before_open h f) with
  | Err _ => (Err CreateFailed, sh_before_open h f)
  | Ok (i, f) =>
      let f := sh_before_set_len h f in
      if negb (sh_set_len h) then (Err FtruncateFailed, f)
      else
        let f := sh_before_map h (write_inode (resized size) i f) in
        if negb (sh_map h) then (Err MmapFailed, f)
        else (Ok {| sp_path := path; sp_inode := i; sp_local_seq := 0 |},
              write_inode (fun _ => init_empty size) i f)
  end.

(** [Drop]: the name goes, whichever inode it is bound to by now. *)
Definition drop_publisher (permitted : bool) (p : publisher) (f : fs) : fs :=
  (remove_file permitted (sp_path p) f).2.

(** [publish] through the mapping. *)
Definition publish_segment (p : publisher) (snap : list Z) (f : fs) : publisher * fs :=
  match inodes f !! sp_inode p with
  | Some n =>
      let q := Seqlock.publish size {| shm_mmap := ino_bytes n; shm_local_seq := sp_local_seq p |} snap in
      ({| sp_path := sp_path p; sp_inode := sp_inode p; sp_local_seq := shm_local_seq q |},
       write_inode (fun _ => shm_mmap q) (sp_inode p) f)
  | None => (p, f)
  end.
End Create.

(** ** The reader *)

Inductive open_error := OpenFailed | Refused (e : dump_error).

(** [main] of the dump tool: open by name, check the length, map, read, check.
    [read] is what [seqlock_read] made of the mapped inode. *)
Definition dump_path (f : fs) (path : rstring) (read : list Z -> result MetricSnapshotV3 unit)
    : result MetricSnapshotV3 open_error :=
  match names f !! path with
  | Some i =>
      match inodes f !! i with
      | Some n =>
          match dump (Z.of_nat (length (ino_bytes n))) (read (ino_bytes n)) with
          | Ok v => Ok v
          | Err e => Err (Refused e)
          end
      | None => Err OpenFailed
      end
  | None => Err OpenFailed
  end.

(** ** What other users can do

    [/dev/shm] is sticky and the segment has mode 0644: a process of another
    user creates files of its own and removes them, but it can neither write
    nor unlink the daemon's, nor give them another name, nor make a file the
    daemon owns. *)
Record unprivileged (uid : Z) (g : fs -> fs) : Prop := {
  un_inode : forall f i n, ino_owner n = uid -> inodes (g f) !! i = Some n <-> inodes f !! i = Some n;
  un_name : forall f path i n, names f !! path = Some i -> inodes f !! i = Some n -> ino_owner n = uid ->
    names (g f) !! path = Some i;
  un_link : forall f path i n, names (g f) !! path = Some i -> inodes f !! i = Some n -> ino_owner n = uid ->
    names f !! path = Some i;
  un_grows : forall f, dom (inodes f) ⊆ dom (inodes (g f)) }.

Definition others_unprivileged (h : shm_host) : Prop :=
  unprivileged (sh_uid h) (sh_before_open h) /\ unprivileged (sh_uid h) (sh_before_set_len h)
  /\ unprivileged (sh_uid h) (sh_before_map h).

(** ** Lemmas *)

Lemma remove_file_inodes b path f : inodes (remove_file b path f).2 = inodes f.
Proof. unfold remove_file. by repeat case_match. Qed.

Lemma write_inode_names g i f : names (write_inode g i f) = names f.
Proof. done. Qed.

Lemma write_inode_lookup g i j f :
  inodes (write_inode g i f) !! j =
    if decide (i = j)
    then (fun n => {| ino_owner := ino_owner n; ino_bytes := g (ino_bytes n) |}) <$> inodes f !! j
    else inodes f !! j.
Proof.
  unfold write_inode. cbn. destruct (decide (i = j)) as [->|Hne].
  - apply lookup_alter_eq.
  - by apply lookup_alter_ne.
Qed.

Lemma open_new_ok b uid path f i f' :
  open_new b uid path f = Ok (i, f') ->
  names f !! path = None /\ inodes f !! i = None
  /\ names f' = <[path := i]> (names f)
  /\ inodes f' = <[i := {| ino_owner := uid; ino_bytes := [] |}]> (inodes f).
Proof.
  unfold open_new. destruct (names f !! path) eqn:E; [done|]. destruct b; [|done].
  intros [= <- <-]. split; [done|split; [|done]].
  apply not_elem_of_dom. apply is_fresh.
Qed.

Lemma length_resized n b : length (resized n b) = n.
Proof. unfold resized. rewrite length_app, length_take, length_replicate. lia. Qed.
Lemma resized_empty n : resized n [] = replicate n 0.
Proof. unfold resized. cbn. by rewrite take_nil, Nat.sub_0_r. Qed.

(** The daemon's file [i], reached by [path], with these bytes. *)
Definition holds (uid : Z) (path : rstring) (i : nat) (b : list Z) (f : fs) : Prop :=
  names f !! path = Some i /\ inodes f !! i = Some {| ino_owner := uid; ino_bytes := b |}.

Lemma holds_unprivileged uid g path i b f : unprivileged uid g -> holds uid path i b f -> holds uid path i b (g f).
Proof.
  intros Hg [Hn Hi]. split; [by eapply un_name|]. by apply (un_inode uid g Hg).
Qed.

Lemma holds_write uid g path i b f : holds uid path i b f -> holds uid path i (g b) (write_inode g i f).
Proof.
  intros [Hn Hi]. split; [done|]. by rewrite write_inode_lookup, decide_True, Hi.
Qed.

(** The daemon's other files, mapped by readers of an earlier segment, stay. *)
Definition keeps (uid : Z) (i : nat) (f f' : fs) : Prop :=
  forall j n, j <> i -> ino_owner n = uid -> inodes f !! j = Some n <-> inodes f' !! j = Some n.

Lemma keeps_trans uid i f1 f2 f3 : keeps uid i f1 f2 -> keeps uid i f2 f3 -> keeps uid i f1 f3.
Proof. intros H1 H2 j n Hj Hn. by rewrite (H1 j n), (H2 j n). Qed.
Lemma keeps_unprivileged uid i g f : unprivileged uid g -> keeps uid i f (g f).
Proof. intros Hg j n _ Hn. symmetry. by apply (un_inode uid g Hg). Qed.
Lemma keeps_write uid i g f : keeps uid i f (write_inode g i f).
Proof. intros j n Hj _. by rewrite write_inode_lookup, decide_False. Qed.

#[local] Opaque segment_size init_empty.

Section CreateLemmas.
Context (size : nat) (h : shm_host) (path : rstring) (f : fs).
Context (Hothers : others_unprivileged h).

(** The state in which the exclusive open happens. *)
Let f1 : fs := sh_before_open h (remove_file (sh_unlink h) path f).2.

(** The file once it is open, and once it has its length. *)
Lemma opened i f2 :
  open_new (sh_open h) (sh_uid h) path f1 = Ok (i, f2) ->
  inodes f !! i = None /\ holds (sh_uid h) path i [] f2 /\ keeps (sh_uid h) i f f2.
Proof.
  destruct Hothers as (Ho & _ & _). intros H. apply open_new_ok in H as (Hn & Hi & En & Ei).
  split; [|split; [split|]].
  - apply not_elem_of_dom. apply not_elem_of_dom in Hi. intros Hin. apply Hi.
    apply (un_grows _ _ Ho). by rewrite remove_file_inodes.
  - rewrite En. apply lookup_insert_eq.
  - rewrite Ei. apply lookup_insert_eq.
  - intros j n Hj Hown. rewrite Ei, lookup_insert_ne by done. unfold f1.
    rewrite (un_inode _ _ Ho) by done. by rewrite remove_file_inodes.
Qed.

Lemma opened_set_len i f2 :
  open_new (sh_open h) (sh_uid h) path f1 = Ok (i, f2) ->
  holds (sh_uid h) path i [] (sh_before_set_len h f2) /\ keeps (sh_uid h) i f (sh_before_set_len h f2).
Proof.
  intros H. destruct (opened i f2 H) as (_ & Hh & Hk). destruct Hothers as (_ & Hs & _).
  split; [by apply holds_unprivileged|]. eapply keeps_trans; [exact Hk|]. by apply keeps_unprivileged.
Qed.

Lemma opened_map i f2 :
  open_new (sh_open h) (sh_uid h) path f1 = Ok (i, f2) ->
  let f3 := sh_before_map h (write_inode (resized size) i (sh_before_set_len h f2)) in
  holds (sh_uid h) path i (replicate size 0) f3 /\ keeps (sh_uid h) i f f3.
Proof.
  intros H f3. destruct (opened_set_len i f2 H) as (Hh & Hk). destruct Hothers as (_ & _ & Hm).
  split.
  - apply holds_unprivileged; [done|]. rewrite <- resized_empty. by apply holds_write.
  - eapply keeps_trans; [exact Hk|]. eapply keeps_trans; [apply keeps_write|]. by apply keeps_unprivileged.
Qed.

(** The way out through [Ok]. *)
Lemma create_segment_ok p f' :
  create_segment size h path f = (Ok p, f') ->
  sp_path p = path /\ sp_local_seq p = 0 /\ inodes f !! sp_inode p = None
  /\ holds (sh_uid h) path (sp_inode p) (init_empty size) f' /\ keeps (sh_uid h) (sp_inode p) f f'.
Proof.
  unfold create_segment. fold f1. destruct (open_new _ _ _ f1) as [[i f2]|] eqn:E; [|done].
  destruct (opened i f2 E) as (Hf & _). destruct (opened_map i f2 E) as (Hh & Hk).
  destruct (sh_set_len h); [|done]. destruct (sh_map h); [|done]. cbn [negb].
  intros [= <- <-]. cbn [sp_path sp_local_seq sp_inode].
  split; [done|split; [done|split; [done|split]]].
  - by apply (holds_write _ (fun _ => init_empty size)) in Hh.
  - eapply keeps_trans; [exact Hk|]. apply keeps_write.
Qed.

(** The ways out through [Err]: what is then to be found under the name. *)
Lemma create_segment_err e f' i n :
  (sh_unlink h = true \/ names f !! path = None) ->
  create_segment size h path f = (Err e, f') ->
  names f' !! path = Some i -> inodes f' !! i = Some n ->
  ino_owner n <> sh_uid h \/ ino_bytes n = [] \/ ino_bytes n = replicate size 0.
Proof.
  intros Hgone H Hn Hi. destruct (decide (ino_owner n = sh_uid h)) as [Hown|]; [right|by left].
  unfold create_segment in H. fold f1 in H.
  destruct (open_new _ _ _ f1) as [[j f2]|] eqn:E.
  - destruct (opened_set_len j f2 E) as ([Hn1 Hi1] & _). destruct (opened_map j f2 E) as ([Hn2 Hi2] & _).
    destruct (sh_set_len h); cbn [negb] in H.
    + destruct (sh_map h); [done|]. injection H as <- <-. right.
      rewrite Hn2 in Hn. injection Hn as <-. rewrite Hi2 in Hi. by injection Hi as <-.
    + injection H as <- <-. left. rewrite Hn1 in Hn. injection Hn as <-. rewrite Hi1 in Hi. by injection Hi as <-.
  - injection H as <- <-. exfalso. unfold f1 in Hn, Hi. destruct Hothers as (Ho & _ & _).
    rewrite (un_inode _ _ Ho) in Hi by done.
    apply (un_link _ _ Ho _ _ _ _ Hn) in Hi; [|done]. unfold remove_file in Hi.
    destruct (names f !! path) eqn:Ep; [|cbn in Hi; congruence].
    destruct Hgone as [Hu|]; [|done]. rewrite Hu in Hi. cbn in Hi. by rewrite lookup_delete_eq in Hi.
Qed.

(** The daemon's earlier segments, whatever comes of the new one. *)
Lemma create_segment_keeps e f' :
  create_segment size h path f = (Err e, f') ->
  forall j n, ino_owner n = sh_uid h -> inodes f !! j = Some n -> inodes f' !! j = Some n.
Proof.
  intros H j n Hown Hj. unfold create_segment in H. fold f1 in H.
  destruct (open_new _ _ _ f1) as [[i f2]|] eqn:E.
  - destruct (opened i f2 E) as (Hnew & _). assert (j <> i) by congruence.
    destruct (opened_set_len i f2 E) as (_ & Hk1). destruct (opened_map i f2 E) as (_ & Hk2).
    destruct (sh_set_len h); cbn [negb] in H; [destruct (sh_map h); [done|]|]; injection H as <- <-;
      [by apply Hk2|by apply Hk1].
  - injection H as <- <-. unfold f1. destruct Hothers as (Ho & _ & _). rewrite (un_inode _ _ Ho) by done.
    by rewrite remove_file_inodes.
Qed.
(** A stale segment that could not be removed. *)
Lemma create_segment_stale i n r f' :
  sh_unlink h = false -> names f !! path = Some i -> inodes f !! i = Some n -> ino_owner n = sh_uid h ->
  create_segment size h path f = (r, f') -> r = Err CreateFailed /\ names f' !! path = Some i.
Proof.
  intros Hu Hp Hi Hown H. unfold create_segment in H. fold f1 in H.
  assert (names f1 !! path = Some i) as Hp1.
  { destruct Hothers as (Ho & _ & _). eapply un_name; [exact Ho| |rewrite remove_file_inodes; exact Hi|exact Hown].
    unfold remove_file. by rewrite Hp, Hu. }
  unfold open_new in H. rewrite Hp1 in H. by injection H as <- <-.
Qed.
End CreateLemmas.

(** ** Publishing while others come and go *)

(** A life of the segment: before each [publish], whatever others did. *)
Fixpoint publish_all (size : nat) (p : publisher) (l : list ((fs -> fs) * list Z)) (f : fs) : publisher * fs :=
  match l with
  | [] => (p, f)
  | (g, snap) :: l => let '(p, f) := publish_segment size p snap (g f) in publish_all size p l f
  end.

Lemma publish_segment_holds size uid path p b snap f :
  (64 <= size)%nat -> length b = size -> length snap = size -> holds uid path (sp_inode p) b f ->
  let q := wrapping_add (wrapping_add (sp_local_seq p) 1) 1 in
  let '(p', f') := publish_segment size p snap f in
  sp_inode p' = sp_inode p /\ sp_local_seq p' = q /\ holds uid path (sp_inode p) (store_seq snap q) f'.
Proof.
  intros Hsize Hb Hsnap Hh q. unfold publish_segment. destruct Hh as [Hn Hi].
  rewrite Hi. cbn [ino_bytes]. rewrite (publish_image size Hsize) by done.
  cbn [shm_mmap shm_local_seq sp_inode sp_local_seq]. split; [done|split; [done|]].
  by apply (holds_write _ (fun _ => store_seq snap q) _ _ b).
Qed.

Lemma publish_all_holds size uid path l p k b f :
  (64 <= size)%nat -> Forall (fun gs => unprivileged uid gs.1 /\ length gs.2 = size) l ->
  length b = size -> sp_local_seq p = 2 * Z.of_nat k -> 2 * (Z.of_nat k + Z.of_nat (length l)) < 2 ^ 64 ->
  holds uid path (sp_inode p) b f ->
  let '(p', f') := publish_all size p l f in
  sp_inode p' = sp_inode p
  /\ holds uid path (sp_inode p)
       (match last (map snd l) with Some snap => image (pred (k + length l)) snap | None => b end) f'.
Proof.
  intros Hsize Hl. revert p k b f. induction Hl as [|[g snap] l [Hg Hsnap] Hl IH];
    intros p k b f Hb Hq Hw Hh; [by split|]. cbn [publish_all length fst snd] in *.
  pose proof (publish_segment_holds size uid path p b snap (g f) Hsize Hb Hsnap
    (holds_unprivileged _ _ _ _ _ _ Hg Hh)) as Hp.
  destruct (publish_segment size p snap (g f)) as [p1 f1]. destruct Hp as (Ei & Eq & Hh1).
  rewrite Hq, (wrapping_add_exact (2 * Z.of_nat k)), wrapping_add_exact in Eq, Hh1 by lia.
  rewrite <- Ei in Hh1.
  specialize (IH p1 (S k) (store_seq snap (2 * Z.of_nat k + 1 + 1)) f1).
  destruct (publish_all size p1 l f1) as [p2 f2].
  destruct IH as (Ei2 & Hh2); [by rewrite length_store_seq; lia|lia|lia|done|].
  rewrite Ei in Ei2, Hh2. split; [done|]. cbn [map]. rewrite last_cons.
  destruct (last (map snd l)) as [snap'|] eqn:El.
  - by replace (pred (k + S (length l))) with (pred (S k + length l)) by lia.
  - destruct l; [|by rewrite map_cons, last_cons in El; destruct (last (map snd l))].
    cbn [length]. unfold image. replace (pred (k + 1)) with k by lia.
    by replace (2 * (Z.of_nat k + 1)) with (2 * Z.of_nat k + 1 + 1) by lia.
Qed.

(** ** What a reader gets *)

(** The read of an inode at rest, decoded; [Err] if it ends without one. *)
Definition faithful (read : list Z -> result MetricSnapshotV3 unit) : Prop :=
  forall b v, read b = Ok v -> v = read_pod b.

Lemma zero_segment_magic : hdr_magic (v3_header (read_pod (replicate segment_size 0))) = 0.
Proof. vm_compute. reflexivity. Qed.

Lemma dump_zero len read :
  faithful read -> exists e, dump len (read (replicate segment_size 0)) = Err e.
Proof.
  intros Hread. unfold dump. destruct (len <? SIZE); [by eexists|].
  destruct (read (replicate segment_size 0)) as [v|] eqn:E; [|by eexists].
  apply Hread in E as ->. cbn [context result_bind]. rewrite zero_segment_magic. by eexists.
Qed.

Lemma dump_empty_file (read : list Z -> result MetricSnapshotV3 unit) : exists e, dump (Z.of_nat (length (@nil Z))) (read []) = Err e.
Proof. unfold dump. replace (Z.of_nat (length (@nil Z)) <? SIZE) with true by (vm_compute; reflexivity). by eexists. Qed.

(** The segment before the first publish. *)
Definition empty_segment : MetricSnapshotV3 := read_pod (init_empty segment_size).

Lemma empty_segment_eq : empty_segment = MetricSnapshotV3_zeroed <| v3_header := ShmHeader_new |>.
Proof. vm_compute. reflexivity. Qed.

Lemma dump_empty_segment : dump SIZE (Ok empty_segment) = Ok empty_segment.
Proof. apply dump_ok. repeat split; try done; vm_compute; reflexivity. Qed.

Lemma dump_path_empty uid path i f :
  holds uid path i (init_empty segment_size) f -> dump_path f path (fun b => Ok (read_pod b)) = Ok empty_segment.
Proof.
  intros [Hn Hi]. unfold dump_path. rewrite Hn, Hi. cbn [ino_bytes].
  rewrite length_init_empty by apply segment_size_min. fold empty_segment.
  replace (Z.of_nat segment_size) with SIZE by (vm_compute; reflexivity). by rewrite dump_empty_segment.
Qed.

(** Nothing of the daemon's under the path that a reader would accept. *)
Definition unreadable (uid : Z) (path : rstring) (f : fs) : Prop :=
  forall i n read, faithful read -> names f !! path = Some i -> inodes f !! i = Some n -> ino_owner n = uid ->
  exists e, dump_path f path read = Err e.

Lemma failed_create_unreadable h path f e f' :
  others_unprivileged h -> sh_unlink h = true \/ names f !! path = None ->
  create_segment segment_size h path f = (Err e, f') -> unreadable (sh_uid h) path f'.
Proof.
  intros Hothers Hgone Hrun i n read Hread Hn Hi Hown. unfold dump_path. rewrite Hn, Hi.
  destruct (create_segment_err segment_size h path f Hothers e f' i n Hgone Hrun Hn Hi) as [?|[->|Hb]];
    [done| |].
  - destruct (dump_empty_file read) as [e' ->]. by eexists.
  - rewrite Hb. destruct (dump_zero (Z.of_nat (length (replicate segment_size 0))) read Hread) as [e' ->].
    by eexists.
Qed.

(** A publisher that ends takes the name with it. *)
Lemma dropped_unreadable uid p f : unreadable uid (sp_path p) (drop_publisher true p f).
Proof.
  intros i n read _ Hn _ _. unfold drop_publisher, remove_file in Hn.
  destruct (names f !! sp_path p) eqn:E; cbn in Hn; [by rewrite lookup_delete_eq in Hn|congruence].
Qed.

(** ** Properties *)

(** C11: [create] never adopts a file.  Whatever is at the path, and whatever
    other users do in [/dev/shm] between its system calls: if it succeeds, the
    path leads to an inode that did not exist before and that the daemon owns,
    holding exactly the initial state of the seqlock.  Either way the daemon's
    earlier segments are as they were, for the readers that have them mapped.  If it
    fails, a file of the daemon's that a reader would accept is at the path only
    if it is the stale segment, which could not be removed; if it
    was removed or there was none, no file of the daemon's there is
    accepted.  (A file of another user's may then be there: see
    [squatted_segment_accepted].) *)
Theorem create_never_adopts (h : shm_host) (path : rstring) (f f' : fs)
    (r : result publisher create_error)
    (Hothers : others_unprivileged h) (Hrun : create_segment segment_size h path f = (r, f')) :
  match r with
  | Ok p =>
      sp_path p = path /\ inodes f !! sp_inode p = None
      /\ holds (sh_uid h) path (sp_inode p) (mem (Seqlock.start segment_size)) f'
      /\ sp_local_seq p = local_seq (Seqlock.start segment_size)
      /\ keeps (sh_uid h) (sp_inode p) f f'
  | Err e =>
      (forall j n, ino_owner n = sh_uid h -> inodes f !! j = Some n -> inodes f' !! j = Some n)
      /\ (sh_unlink h = true \/ names f !! path = None -> unreadable (sh_uid h) path f')
      /\ (forall i n, sh_unlink h = false -> names f !! path = Some i -> inodes f !! i = Some n ->
            ino_owner n = sh_uid h -> e = CreateFailed /\ names f' !! path = Some i)
  end.
Proof.
  destruct r as [p|e].
  - apply create_segment_ok in Hrun as (? & ? & ? & ? & ?); [|done]. by split_and!.
  - split; [by eapply create_segment_keeps|]. split; [intros Hgone; by eapply failed_create_unreadable|].
    intros i n Hu Hp Hi Hown.
    destruct (create_segment_stale segment_size h path f Hothers i n _ f' Hu Hp Hi Hown Hrun) as [[= ->] ?]. done.
Qed.

(** C29: The segment stays reachable and whole: after [create], however often
    the daemon publishes and whatever other users do in between, the path leads
    to the segment, and it holds the last snapshot published, numbered. *)
Theorem segment_outlives_others (size : nat) (h : shm_host) (path : rstring) (f f1 : fs) (p : publisher)
    (l : list ((fs -> fs) * list Z))
    (Hsize : (64 <= size)%nat) (Hothers : others_unprivileged h)
    (Hcreate : create_segment size h path f = (Ok p, f1))
    (Hl : Forall (fun gs => unprivileged (sh_uid h) gs.1 /\ length gs.2 = size) l)
    (Hwrap : 2 * Z.of_nat (length l) < 2 ^ 64) :
  holds (sh_uid h) path (sp_inode p)
    (match last (map snd l) with Some snap => image (pred (length l)) snap | None => init_empty size end)
    (publish_all size p l f1).2.
Proof.
  destruct (create_segment_ok size h path f Hothers p f1 Hcreate) as (_ & Hq & _ & Hh & _).
  pose proof (publish_all_holds size (sh_uid h) path l p 0 (init_empty size) f1 Hsize Hl
    (length_init_empty size Hsize) Hq ltac:(lia) Hh) as H.
  destruct (publish_all size p l f1) as [p' f2]. by destruct H.
Qed.

(** A daemon that has just started can be read: before the first
    [publish], [seqlock_read] alone returns after six attempts, with the empty
    segment, and the dump tool opens and accepts it by the path that [create]
    made. *)
Theorem started_daemon_readable (h : shm_host) (path : rstring) (f f' : fs) (p : publisher)
    (Hothers : others_unprivileged h)
    (Hrun : create_segment segment_size h path f = (Ok p, f')) :
  run segment_size (concat (replicate 6 (read_acts segment_size))) (Seqlock.start segment_size)
    = Some ((Seqlock.start segment_size) <| rd := ROk 0 (init_empty segment_size) |>)
  /\ dump_path f' path (fun b => Ok (read_pod b))
    = Ok (MetricSnapshotV3_zeroed <| v3_header := ShmHeader_new |>).
Proof.
  split.
  - exact (read_unpublished segment_size segment_size_min (Seqlock.start segment_size) (replicate segment_size 0)
      (inv_start segment_size segment_size_min) eq_refl eq_refl eq_refl).
  - destruct (create_segment_ok segment_size h path f Hothers p f' Hrun) as (_ & _ & _ & Hh & _).
    by rewrite (dump_path_empty _ _ _ _ Hh), empty_segment_eq.
Qed.

(** *** Witnesses *)

(** A hostile user puts a file of its own at the path whenever it is free, and
    removes it again later. *)
Definition squat (uid : Z) (path : rstring) (f : fs) : fs :=
  match names f !! path with
  | None =>
      let i := fresh (dom (inodes f)) in
      f <| names ::= <[path := i]> |> <| inodes ::= <[i := {| ino_owner := uid; ino_bytes := [0x66] |}]> |>
  | Some _ => f
  end.

Lemma squat_unprivileged uid other path : other <> uid -> unprivileged uid (squat other path).
Proof.
  intros Hne. unfold squat. constructor; intros f.
  - intros i n Hn. destruct (names f !! path); [done|]. cbn.
    set (j := fresh (dom (inodes f))).
    assert (inodes f !! j = None) as Hj by (apply not_elem_of_dom, is_fresh).
    destruct (decide (j = i)) as [<-|]; [|by rewrite lookup_insert_ne].
    rewrite lookup_insert_eq, Hj. split; [|done]. intros [= <-]. cbn in Hn. congruence.
  - intros q i n Hq Hi Hn. destruct (names f !! path) eqn:E; [done|]. cbn.
    rewrite lookup_insert_ne by congruence. done.
  - intros q i n Hq Hi Hn. destruct (names f !! path) eqn:E; [done|]. cbn in Hq.
    destruct (decide (path = q)) as [<-|]; [|by rewrite lookup_insert_ne in Hq].
    rewrite lookup_insert_eq in Hq. injection Hq as <-. exfalso.
    assert (inodes f !! fresh (dom (inodes f)) = None) by (apply not_elem_of_dom, is_fresh). congruence.
  - destruct (names f !! path); [done|]. cbn. rewrite dom_insert_L. set_solver.
Qed.

Lemma id_unprivileged uid : unprivileged uid (fun f => f).
Proof. by constructor. Qed.

(** Root's daemon; user 1000 squats at the path while the daemon sets the
    length, or before the open. *)
Definition demo_host (race : bool) : shm_host := {|
  sh_uid := 0; sh_unlink := true; sh_open := true; sh_set_len := true; sh_map := true;
  sh_before_open := if race then squat 1000 (lit "agl") else fun f => f;
  sh_before_set_len := squat 1000 (lit "agl"); sh_before_map := fun f => f |}.

Lemma demo_host_others race : others_unprivileged (demo_host race).
Proof.
  split; [|split].
  - destruct race; [by apply squat_unprivileged|apply id_unprivileged].
  - by apply squat_unprivileged.
  - apply id_unprivileged.
Qed.

(** User 1000's file is already at the path. *)
Definition demo_fs : fs := squat 1000 (lit "agl") {| names := ∅; inodes := ∅ |}.

Definition demo_created : result publisher create_error * fs :=
  create_segment segment_size (demo_host false) (lit "agl") demo_fs.

Lemma demo_created_ok :
  demo_created.1 = Ok {| sp_path := lit "agl"; sp_inode := 1; sp_local_seq := 0 |}.
Proof. vm_compute. reflexivity. Qed.

Lemma demo_created_pair :
  create_segment segment_size (demo_host false) (lit "agl") demo_fs =
    (Ok {| sp_path := lit "agl"; sp_inode := 1; sp_local_seq := 0 |}, demo_created.2).
Proof. rewrite <- demo_created_ok. unfold demo_created. by destruct create_segment. Qed.

(** A host on which the stale name cannot be removed. *)
Definition stuck_host : shm_host := {|
  sh_uid := 0; sh_unlink := false; sh_open := true; sh_set_len := true; sh_map := true;
  sh_before_open := fun f => f; sh_before_set_len := fun f => f; sh_before_map := fun f => f |}.
Lemma stuck_host_others : others_unprivileged stuck_host.
Proof. split; [|split]; apply id_unprivileged. Qed.

Lemma pair_first {A B} (x : A * B) a : x.1 = a -> x = (a, x.2).
Proof. by intros <-; destruct x. Qed.

Definition raced : result publisher create_error * fs :=
  create_segment segment_size (demo_host true) (lit "agl") demo_fs.
Definition stuck : result publisher create_error * fs :=
  create_segment segment_size stuck_host (lit "agl") demo_created.2.
Lemma raced_pair : create_segment segment_size (demo_host true) (lit "agl") demo_fs = (Err CreateFailed, raced.2).
Proof.
  assert (raced.1 = Err CreateFailed) as E by (vm_compute; reflexivity). exact (pair_first raced _ E).
Qed.
Lemma stuck_pair : create_segment segment_size stuck_host (lit "agl") demo_created.2 = (Err CreateFailed, stuck.2).
Proof.
  assert (stuck.1 = Err CreateFailed) as E by (vm_compute; reflexivity). exact (pair_first stuck _ E).
Qed.
Lemma stale_segment : holds 0 (lit "agl") 1 (init_empty segment_size) demo_created.2.
Proof. exact (proj1 (proj2 (proj2 (proj2 (create_segment_ok _ _ _ _ (demo_host_others false) _ _ demo_created_pair))))). Qed.

(** A success past a squatter, a failure beside one, and a stale segment. *)
Lemma create_never_adopts_witness :
  holds 0 (lit "agl") 1 (mem (Seqlock.start segment_size)) demo_created.2
  /\ unreadable 0 (lit "agl") raced.2
  /\ names stuck.2 !! lit "agl" = Some 1%nat.
Proof.
  split; [|split].
  - exact (proj1 (proj2 (proj2 (create_never_adopts (demo_host false) (lit "agl") demo_fs _ _
      (demo_host_others false) demo_created_pair)))).
  - exact (proj1 (proj2 (create_never_adopts (demo_host true) (lit "agl") demo_fs _ _
      (demo_host_others true) raced_pair)) (or_introl eq_refl)).
  - exact (proj2 (proj2 (proj2 (create_never_adopts stuck_host (lit "agl") demo_created.2 _ _
      stuck_host_others stuck_pair)) _ _ eq_refl (proj1 stale_segment) (proj2 stale_segment) eq_refl)).
Defined.

(** The reader asks nobody whose file it is: when a user wins the race for the
    path, [create] fails, the daemon goes on without a segment, and the dump
    tool accepts what that user put there. *)
Definition forge (uid : Z) (path : rstring) (b : list Z) (f : fs) : fs :=
  match names f !! path with
  | None =>
      let i := fresh (dom (inodes f)) in
      f <| names ::= <[path := i]> |> <| inodes ::= <[i := {| ino_owner := uid; ino_bytes := b |}]> |>
  | Some _ => f
  end.
Lemma squatted_segment_accepted h path other f :
  names f !! path = None -> sh_before_open h = forge other path (init_empty segment_size) ->
  let r := create_segment segment_size h path f in
  r.1 = Err CreateFailed /\
  dump_path r.2 path (fun b => Ok (read_pod b)) = Ok empty_segment /\
  exists i, holds other path i (init_empty segment_size) r.2.
Proof.
  intros Hn Hforge r. set (i := fresh (dom (inodes f))).
  assert (holds other path i (init_empty segment_size) (forge other path (init_empty segment_size) f)) as Hh.
  { unfold forge. rewrite Hn. split; cbn; apply lookup_insert_eq. }
  assert (r = (Err CreateFailed, forge other path (init_empty segment_size) f)) as ->.
  { unfold r, create_segment, remove_file. rewrite Hn, Hforge. cbn [snd]. unfold open_new. by rewrite (proj1 Hh). }
  split; [done|]. split; [by eapply dump_path_empty|by exists i].
Qed.

Lemma segment_outlives_others_witness :
  exists p f1, create_segment 64 (demo_host false) (lit "agl") demo_fs = (Ok p, f1)
    /\ holds 0 (lit "agl") 1 (image 1 (demo_snap 8))
         (publish_all 64 p [(squat 1000 (lit "agl"), demo_snap 7); (squat 1000 (lit "x"), demo_snap 8)] f1).2.
Proof.
  set (c := create_segment 64 (demo_host false) (lit "agl") demo_fs).
  assert (c = (Ok {| sp_path := lit "agl"; sp_inode := 1; sp_local_seq := 0 |}, c.2)) as E
    by (vm_compute; reflexivity).
  eexists _, _. split; [exact E|].
  refine (segment_outlives_others 64 (demo_host false) (lit "agl") demo_fs c.2 _
    [(squat 1000 (lit "agl"), demo_snap 7); (squat 1000 (lit "x"), demo_snap 8)] _ (demo_host_others false) E _ _).
  - lia.
  - repeat (apply Forall_cons; split; [split; [by apply squat_unprivileged|reflexivity]|]). by apply Forall_nil.
  - vm_compute. reflexivity.
Defined.

Lemma started_daemon_readable_witness :
  dump_path demo_created.2 (lit "agl") (fun b => Ok (read_pod b))
    = Ok (MetricSnapshotV3_zeroed <| v3_header := ShmHeader_new |>).
Proof.
  exact (proj2 (started_daemon_readable (demo_host false) (lit "agl") demo_fs _ _
    (demo_host_others false) demo_created_pair)).
Defined.
