(* ===== verification/Startup.v ===== *)
(** [main] of [main.rs], from its first to its last line: the optional parts it
    starts, the address it serves on, and how it ends.  The tasks it starts are
    in [Daemon.v], the segment's file in [Segment.v], [load] in [Loader.v]. *)
From S2P Require Import Prelude Text Float Types Layout Pods Seqlock ShmDump Shm Daemon Segment Loader.

(** ** The listen address: [SocketAddr::from_str] *)

Inductive SocketAddr :=
  | V4 (a b c d port : Z)
  | V6 (segments : list Z) (scope port : Z).

(** [Parser::read_number] in base 10, for a type whose largest value is [max]. *)
Fixpoint read_digits (max : Z) (max_digits : option nat) (acc : Z) (count : nat) (s : rstring)
    : option (Z * nat * rstring) :=
  match s with
  | c :: s' =>
      if is_ascii_digit c then
        let acc := acc * 10 + (c - 48) in
        if max <? acc then None
        else if match max_digits with Some m => (m <? S count)%nat | None => false end then None
        else read_digits max max_digits acc (S count) s'
      else Some (acc, count, s)
  | [] => Some (acc, count, [])
  end.

Definition read_number (max : Z) (max_digits : option nat) (allow_zero_prefix : bool) (s : rstring)
    : option (Z * rstring) :=
  match read_digits max max_digits 0 0 s with
  | Some (n, count, rest) =>
      if (count =? 0)%nat then None
      else if negb allow_zero_prefix && bool_decide (head s = Some 48) && (1 <? count)%nat then None
      else Some (n, rest)
  | None => None
  end.

Definition read_given_char (c : Z) (s : rstring) : option rstring :=
  match s with x :: s => if x =? c then Some s else None | [] => None end.

Definition DOT : Z := 46.
Definition read_octet : rstring -> option (Z * rstring) := read_number 255 (Some 3%nat) false.

Definition read_ipv4_addr (s : rstring) : option (Z * Z * Z * Z * rstring) :=
  '(a, s) ← read_octet s;
  s ← read_given_char DOT s;
  '(b, s) ← read_octet s;
  s ← read_given_char DOT s;
  '(c, s) ← read_octet s;
  s ← read_given_char DOT s;
  '(d, s) ← read_octet s;
  Some (a, b, c, d, s).

Definition read_port (s : rstring) : option (Z * rstring) :=
  s ← read_given_char COLON s;
  read_number u16_max None true s.

Definition read_socket_addr_v4 (s : rstring) : option (SocketAddr * rstring) :=
  '(a, b, c, d, s) ← read_ipv4_addr s;
  '(port, s) ← read_port s;
  Some (V4 a b c d port, s).

(** The bracketed IPv6 form is the other alternative; what it reads is not
    modelled. *)
Definition parse_addr (read_v6 : rstring -> option (SocketAddr * rstring)) (s : rstring) : option SocketAddr :=
  match match read_socket_addr_v4 s with Some r => Some r | None => read_v6 s end with
  | Some (addr, []) => Some addr
  | _ => None
  end.

(** [Display] of a [SocketAddrV4]. *)
Definition print_v4 (a b c d port : Z) : rstring :=
  print_u64 a ++ DOT :: print_u64 b ++ DOT :: print_u64 c ++ DOT :: print_u64 d ++ COLON :: print_u64 port.

(** ** What the outside answers *)

Inductive sig := SigTerm | SigInt | OtherSignal.

Record main_host := {
  mh_shm : shm_host;
  mh_loader : host;
  mh_build : build;
  mh_listen : option rstring;           (* std::env::var("AGL_HEALTH_LISTEN") *)
  mh_read_v6 : rstring -> option (SocketAddr * rstring);
  mh_bind : SocketAddr -> bool;
  mh_sigterm : bool;                    (* the handler can be installed *)
  mh_sigint : bool;
  mh_signals : list sig;                (* what arrives while it serves *)
  mh_serve_ok : bool                    (* axum::serve returns Ok *) }.

Inductive main_error :=
  | InvalidListen (listen : rstring)
  | BindFailed (addr : SocketAddr)
  | ServeFailed.

Inductive main_log :=
  | ShmDisabled (e : create_error)
  | LoaderReady (n_programs n_maps : nat)
  | LoaderDisabled (e : rstring)
  | Listening (addr : SocketAddr)
  | CleanShutdown.

Definition DEFAULT_SHM_PATH : rstring := lit "/dev/shm/agl-health-metrics".
Definition DEFAULT_LISTEN : rstring := lit "127.0.0.1:7777".

(** ** [main] *)

(** What is running: the publisher its task owns, the summary [/health] shows,
    the address, and the log. *)
Record running := {
  rn_publisher : option publisher; rn_bpf : LoadSummary; rn_addr : option SocketAddr;
  rn_log : list main_log }.
#[export] Instance eta_running : Eta running := fun r =>
  Build_running (rn_publisher r) (rn_bpf r) (rn_addr r) (rn_log r).

(** [shm::spawn_writer]: the segment or nothing. *)
Definition spawn_writer (h : shm_host) (f : fs) : result publisher create_error * fs :=
  create_segment segment_size h DEFAULT_SHM_PATH f.

(** The parts [main] can do without. *)
Definition start_parts (h : main_host) (f : fs) : running * fs :=
  let '(shm, f) := spawn_writer (mh_shm h) f in
  let shm_log := match shm with Ok _ => [] | Err e => [ShmDisabled e] end in
  let loaded := load (mh_loader h) (mh_build h) in
  let load_log :=
    match loaded with
    | Ok l => LoaderReady (length (programs (summary l))) (length (maps (summary l)))
    | Err e => LoaderDisabled e
    end in
  ({| rn_publisher := match shm with Ok p => Some p | Err _ => None end;
      rn_bpf := bpf_summary loaded; rn_addr := None; rn_log := shm_log ++ [load_log] |}, f).

Definition listen_address (h : main_host) : result SocketAddr main_error :=
  let listen := unwrap_or DEFAULT_LISTEN (mh_listen h) in
  match parse_addr (mh_read_v6 h) listen with
  | Some addr => Ok addr
  | None => Err (InvalidListen listen)
  end.

Definition bind_listener (h : main_host) : result SocketAddr main_error :=
  addr <-? listen_address h ;;
  if mh_bind h addr then Ok addr else Err (BindFailed addr).

(** [shutdown_signal]: how many of the signals it lets pass before it
    resolves; [None] if it is still waiting after all of them. *)
Fixpoint first_stop (l : list sig) : option nat :=
  match l with
  | [] => None
  | SigTerm :: _ | SigInt :: _ => Some 0%nat
  | OtherSignal :: l => option_map S (first_stop l)
  end.
Definition shutdown_signal (h : main_host) : option nat :=
  if negb (mh_sigterm h) then Some 0%nat
  else if negb (mh_sigint h) then Some 0%nat
  else first_stop (mh_signals h).

(** The end of the process: the runtime drops the writer task, and the
    publisher with it. *)
Definition exit_main (h : main_host) (r : running) (f : fs) : fs :=
  match rn_publisher r with
  | Some p => drop_publisher (sh_unlink (mh_shm h)) p f
  | None => f
  end.

(** [main] up to the point where it serves. *)
Definition main_serving (h : main_host) (f : fs) : result running main_error * fs :=
  let '(r, f) := start_parts h f in
  match bind_listener h with
  | Err e => (Err e, exit_main h r f)
  | Ok addr => (Ok (r <| rn_addr := Some addr |> <| rn_log ::= fun l => l ++ [Listening addr] |>), f)
  end.

(** The whole of [main]; [None] while it serves. *)
Definition main (h : main_host) (f : fs) : option (result unit main_error) * fs :=
  match main_serving h f with
  | (Err e, f) => (Some (Err e), f)
  | (Ok r, f) =>
      match shutdown_signal h with
      | None => (None, f)
      | Some _ =>
          (Some (if mh_serve_ok h then Ok tt else Err ServeFailed), exit_main h r f)
      end
  end.

(** ** Lemmas: numbers and addresses *)

Definition no_digit (s : rstring) : Prop :=
  match s with c :: _ => is_ascii_digit c = false | [] => True end.

Lemma parse_digits_ge acc s n : parse_digits acc s = Some n -> 0 <= acc -> acc <= n.
Proof.
  revert acc. induction s as [|c s IH]; intros acc H Ha; cbn [parse_digits] in H; [by simplify_eq|].
  destruct (is_ascii_digit c) eqn:Ec; [|done]. unfold is_ascii_digit in Ec.
  apply andb_prop in Ec as [E1%Z.leb_le E2%Z.leb_le].
  specialize (IH _ H). lia.
Qed.

Lemma read_digits_spec max md acc count s t n :
  all_digits s -> no_digit t -> parse_digits acc s = Some n -> 0 <= acc -> n <= max ->
  match md with Some m => (count + length s <= m)%nat | None => True end ->
  read_digits max md acc count (s ++ t) = Some (n, (count + length s)%nat, t).
Proof.
  intros Hs Ht. revert acc count. induction Hs as [|c s Hc Hs IH]; intros acc count Hn Ha Hm Hl.
  - cbn in *. simplify_eq. rewrite Nat.add_0_r. destruct t as [|c t]; cbn; [done|]. cbn in Ht. by rewrite Ht.
  - cbn [parse_digits] in Hn. rewrite Hc in Hn. cbn [app read_digits]. rewrite Hc.
    pose proof Hc as Hc'. unfold is_ascii_digit in Hc'. apply andb_prop in Hc' as [E1%Z.leb_le E2%Z.leb_le].
    replace (acc * 10 + (c - 48)) with (10 * acc + (c - 48)) by lia.
    pose proof (parse_digits_ge _ _ _ Hn ltac:(lia)). cbn [length] in *.
    rewrite (proj2 (Z.ltb_ge _ _)) by lia.
    destruct md as [m|]; [rewrite (proj2 (Nat.ltb_ge _ _)) by lia|];
      (rewrite IH; [do 3 f_equal; lia|done|lia|done|first [done|lia]]).
Qed.

Lemma parse_print_u64 n : 0 <= n < 10 ^ 20 -> parse_digits 0 (print_u64 n) = Some n.
Proof. intros. apply parse_print_digits; [done|lia]. Qed.

Lemma print_u64_length n : (0 < length (print_u64 n))%nat.
Proof. destruct (print_u64_word n) as [Hne _]. by destruct (print_u64 n); [|cbn; lia]. Qed.

Lemma read_number_print max md z n t :
  0 <= n <= max -> max < 10 ^ 20 -> no_digit t ->
  match md with Some m => (length (print_u64 n) <= m)%nat | None => True end ->
  (z = true \/ head (print_u64 n) <> Some 48 \/ (length (print_u64 n) <= 1)%nat) ->
  read_number max md z (print_u64 n ++ t) = Some (n, t).
Proof.
  intros Hn Hm Ht Hl Hz. unfold read_number.
  rewrite (read_digits_spec max md 0 0 (print_u64 n) t n); try done; try lia;
    [|apply print_u64_digits|apply parse_print_u64; lia].
  cbn [Nat.add]. pose proof (print_u64_length n) as Hlen.
  rewrite (proj2 (Nat.eqb_neq _ _)) by lia.
  replace (head (print_u64 n ++ t)) with (head (print_u64 n)) by (by destruct (print_u64 n); [cbn in Hlen; lia|]).
  destruct Hz as [->|[Hh|Hl1]]; [done| |].
  - by rewrite (bool_decide_eq_false_2 _ Hh), andb_false_r.
  - by rewrite (proj2 (Nat.ltb_ge _ _) Hl1), !andb_false_r.
Qed.

(** No leading zero: one digit, or the first is not [0]. *)
Definition canonical_octet (n : Z) : bool :=
  let s := print_u64 n in
  (length s <=? 3)%nat && (match s with x :: _ => negb (x =? 48) | [] => true end || (length s <=? 1)%nat).

Lemma octet_printed n : is_u8 n ->
  (length (print_u64 n) <= 3)%nat /\ (head (print_u64 n) <> Some 48 \/ (length (print_u64 n) <= 1)%nat).
Proof.
  intros Hn. assert (canonical_octet n = true) as H.
  { apply byte_forall; [vm_compute; reflexivity|done]. }
  unfold canonical_octet in H. apply andb_prop in H as [H1%Nat.leb_le H2]. split; [done|].
  apply orb_prop in H2 as [H2|H2%Nat.leb_le]; [left|by right].
  destruct (print_u64 n) as [|x s]; [done|]. cbn. intros [= ->]. done.
Qed.

Lemma read_octet_print n t : is_u8 n -> no_digit t -> read_octet (print_u64 n ++ t) = Some (n, t).
Proof.
  intros Hn Ht. destruct (octet_printed n Hn) as [H1 H2]. apply read_number_print; try done; [|by right].
  unfold is_u8 in Hn. lia.
Qed.

Lemma read_port_print n : is_u16 n -> read_port (COLON :: print_u64 n) = Some (n, []).
Proof.
  intros Hn. unfold read_port, read_given_char. rewrite Z.eqb_refl. cbn [mbind option_bind].
  rewrite <- (app_nil_r (print_u64 n)). apply read_number_print; try done; [|by left].
  unfold is_u16, u16_max in *. lia.
Qed.

Lemma parse_print_v4 v6 a b c d port :
  is_u8 a -> is_u8 b -> is_u8 c -> is_u8 d -> is_u16 port ->
  parse_addr v6 (print_v4 a b c d port) = Some (V4 a b c d port).
Proof.
  intros Ha Hb Hc Hd Hp. unfold parse_addr, read_socket_addr_v4, read_ipv4_addr, print_v4.
  repeat (rewrite read_octet_print by done; cbn [mbind option_bind read_given_char];
          try (rewrite Z.eqb_refl; cbn [mbind option_bind])).
  by rewrite read_port_print.
Qed.

(** ** Properties *)

(** C15: The daemon serves whatever fails of its optional parts.  Neither the
    segment nor the programs decide whether [main] comes to serve: it stops
    before only for an address that does not parse or cannot be bound, and
    with that error, leaving nothing of its own under the segment's path that
    a reader would accept.  When it serves, it has the segment unless the log
    says it is disabled, and [/health] shows the programs that were attached,
    none if [load] failed, which the log says then. *)
Theorem main_serves_without_optional_parts (h : main_host) (f f' : fs) (r : result running main_error) :
  main_serving h f = (r, f') ->
  let shm := (spawn_writer (mh_shm h) f).1 in
  let loaded := load (mh_loader h) (mh_build h) in
  match r with
  | Err e => bind_listener h = Err e
      /\ (others_unprivileged (mh_shm h) -> sh_unlink (mh_shm h) = true ->
          unreadable (sh_uid (mh_shm h)) DEFAULT_SHM_PATH f')
  | Ok rn => exists addr, bind_listener h = Ok addr /\ rn_addr rn = Some addr
      /\ (forall p, rn_publisher rn = Some p <-> shm = Ok p)
      /\ (forall e, ShmDisabled e ∈ rn_log rn <-> shm = Err e)
      /\ programs_loaded (health 0 (rn_bpf rn)) =
          match loaded with Ok l => programs (summary l) | Err _ => [] end
      /\ (forall e, LoaderDisabled e ∈ rn_log rn <-> loaded = Err e)
  end.
Proof.
  intros H shm loaded. unfold main_serving, start_parts in H.
  destruct (spawn_writer (mh_shm h) f) as [c f1] eqn:Ec. cbn [fst] in shm.
  destruct (bind_listener h) as [addr|e]; injection H as <- <-.
  - exists addr. split; [done|]. split; [done|]. cbn [rn_publisher rn_bpf rn_log upd updater].
    subst shm loaded. split; [by destruct c; intros; split; intros [= ->]|]. split; [|split].
    + intros e. rewrite !elem_of_app, !list_elem_of_singleton. destruct c as [p|e'].
      * split; [|done]. intros [[?%elem_of_nil|?]|?]; [done| |done]. by case_match.
      * rewrite list_elem_of_singleton. split; [|by intros [= ->]; left; left].
        intros [[[= ->]|?]|?]; [done| |done]. by case_match.
    + by destruct (load _ _).
    + intros e. rewrite !elem_of_app, !list_elem_of_singleton. destruct (load _ _) as [l|e'].
      * split; [|done]. intros [[?|?]|?]; [|done|done]. destruct c; [by apply elem_of_nil in H|].
        by apply list_elem_of_singleton in H.
      * split; [|by intros [= ->]; left; right]. intros [[?|[= ->]]|?]; [|done|done].
        destruct c; [by apply elem_of_nil in H|]. by apply list_elem_of_singleton in H.
  - split; [done|]. intros Hothers Hunlink. unfold exit_main. cbn [rn_publisher].
    unfold spawn_writer in Ec. destruct c as [p|e'].
    + rewrite Hunlink. destruct (create_segment_ok _ _ _ _ Hothers _ _ Ec) as (<- & _).
      apply dropped_unreadable.
    + eapply failed_create_unreadable; [exact Hothers|by left|exact Ec].
Qed.

(** The API is bound to loopback unless a deployment says otherwise, and
    then exactly where it says: without [AGL_HEALTH_LISTEN] the address is
    127.0.0.1:7777, and an IPv4 address printed into the variable is the one
    that is parsed out of it. *)
Theorem listen_address_roundtrip (h : main_host) :
  (mh_listen h = None -> listen_address h = Ok (V4 127 0 0 1 7777))
  /\ forall a b c d port, is_u8 a -> is_u8 b -> is_u8 c -> is_u8 d -> is_u16 port ->
     mh_listen h = Some (print_v4 a b c d port) -> listen_address h = Ok (V4 a b c d port).
Proof.
  unfold listen_address. split.
  - intros ->. cbn [unwrap_or]. change DEFAULT_LISTEN with (print_v4 127 0 0 1 7777).
    by rewrite parse_print_v4.
  - intros a b c d port Ha Hb Hc Hd Hp ->. cbn [unwrap_or]. by rewrite parse_print_v4.
Qed.

(** A second instance that cannot bind, because the first has the port, has by
    then replaced the first one's segment, and removes its own on the way out:
    the first keeps publishing into an inode without a name. *)
Lemma second_instance_unpublishes_first (h1 h2 : main_host) (f f1 f2 : fs) (p1 p2 : publisher) e read :
  others_unprivileged (mh_shm h1) -> others_unprivileged (mh_shm h2) ->
  sh_uid (mh_shm h2) = sh_uid (mh_shm h1) -> sh_unlink (mh_shm h2) = true ->
  spawn_writer (mh_shm h1) f = (Ok p1, f1) -> spawn_writer (mh_shm h2) f1 = (Ok p2, f2) ->
  bind_listener h2 = Err e ->
  let f' := (main h2 f1).2 in
  (main h2 f1).1 = Some (Err e)
  /\ dump_path f' DEFAULT_SHM_PATH read = Err OpenFailed
  /\ inodes f' !! sp_inode p1 = Some {| ino_owner := sh_uid (mh_shm h1); ino_bytes := init_empty segment_size |}.
Proof.
  intros Ho1 Ho2 Hu Hunlink H1 H2 Hb. unfold main, main_serving, start_parts. rewrite H2, Hb.
  unfold exit_main. cbn [rn_publisher fst snd]. rewrite Hunlink. split; [done|].
  destruct (create_segment_ok _ _ _ _ Ho1 _ _ H1) as (_ & _ & _ & [Hn1 Hi1] & _).
  destruct (create_segment_ok _ _ _ _ Ho2 _ _ H2) as (Hp & _ & Hf & [Hn2 Hi2] & Hk).
  unfold drop_publisher, remove_file. rewrite Hp, Hn2. cbn [snd]. split.
  - unfold dump_path. cbn. by rewrite lookup_delete_eq.
  - cbn. apply Hk in Hi1; [done|congruence|]. cbn. congruence.
Qed.

(** *** Witnesses *)

(** Root's daemon on a host where user 1000 holds the segment's path whenever
    it can, with an empty object, bound to another loopback port. *)
Definition demo_main : main_host := {|
  mh_shm := {| sh_uid := 0; sh_unlink := true; sh_open := true; sh_set_len := true; sh_map := true;
               sh_before_open := squat 1000 DEFAULT_SHM_PATH; sh_before_set_len := fun f => f;
               sh_before_map := fun f => f |};
  mh_loader := some_host Btf55 true (fun _ => true) []; mh_build := Btf55;
  mh_listen := Some (lit "127.0.0.1:8080"); mh_read_v6 := fun _ => None; mh_bind := fun _ => true;
  mh_sigterm := true; mh_sigint := true; mh_signals := [OtherSignal]; mh_serve_ok := true |}.

Lemma main_serves_without_optional_parts_witness :
  exists rn, (main_serving demo_main {| names := ∅; inodes := ∅ |}).1 = Ok rn
    /\ rn_publisher rn = None /\ ShmDisabled CreateFailed ∈ rn_log rn
    /\ rn_addr rn = Some (V4 127 0 0 1 8080)
    /\ length (programs_loaded (health 0 (rn_bpf rn))) = 26%nat.
Proof.
  set (m := main_serving demo_main {| names := ∅; inodes := ∅ |}).
  assert (exists rn, m = (Ok rn, m.2) /\ rn_publisher rn = None) as (rn & Hm & Hn)
    by (eexists; vm_compute; split; reflexivity).
  destruct (main_serves_without_optional_parts demo_main {| names := ∅; inodes := ∅ |} m.2 (Ok rn) Hm)
    as (addr & Ha & Hra & _ & Hs & Hp & _).
  exists rn. split; [by rewrite Hm|]. split; [exact Hn|]. split; [|split].
  - apply Hs. vm_compute. reflexivity.
  - rewrite Hra. f_equal. vm_compute in Ha. by injection Ha as <-.
  - rewrite Hp. vm_compute. reflexivity.
Defined.

Lemma listen_address_roundtrip_witness :
  listen_address demo_main = Ok (V4 127 0 0 1 8080).
Proof.
  apply (proj2 (listen_address_roundtrip demo_main)); try (unfold is_u8, is_u16; lia).
  vm_compute. reflexivity.
Defined.
