(* ===== verification/Dbus.v ===== *)
(** [dbus_publisher.rs]: the D-Bus signals of the security events.

    zbus and the buses are an input ([dbus_host]); so is what the subscription
    to the event bus yields, in order, with the answer to each emission. *)
From S2P Require Import Prelude Text Types Layout Pods Bpf Stats Process Network Security Kernel TimeBase Events.

Inductive BusKind := System | Session.

Record dbus_host := {
  build_connection : BusKind -> result unit rstring;  (* Builder::system/session, build *)
  serve_at : BusKind -> result unit rstring;          (* object_server().at *)
  request_name : BusKind -> result unit rstring;
  signal_emitter_new : BusKind -> result unit rstring }.

(** The arguments of [com.agl.health.Events.SecurityEvent]. *)
Record SecuritySignal := {
  sg_pid : Z; sg_kind : rstring; sg_severity : rstring; sg_comm : rstring; sg_uid : Z;
  sg_timestamp_ns : Z; sg_arg : Z }.

Inductive dbus_action :=
  | Emit (bus : BusKind) (signal : SecuritySignal)
  | LogOwnsSystem
  | LogOwnsSession (system_error : rstring)
  | LogDisabled (system_error session_error : rstring)
  | LogEmissionFailed (e : rstring)
  | LogFellBehind (skipped : Z)
  | LogBusClosed.

(** The connection is known by its bus. *)
Definition connect_and_own (h : dbus_host) (kind : BusKind) : result BusKind rstring :=
  _ <-? build_connection h kind ;;
  _ <-? serve_at h kind ;;
  _ <-? request_name h kind ;;
  Ok kind.

(** [rx.recv()], with the result the emission of that event would have. *)
Inductive bus_input :=
  | Received (ev : WireEvent) (emission : result unit rstring)
  | BusLagged (skipped : Z)
  | BusClosed.

Definition emit_if_security (conn : BusKind) (event : WireEvent) (emission : result unit rstring)
    : list dbus_action * result unit rstring :=
  match event with
  | Security kind severity timestamp_ns pid _ uid arg comm _ =>
      match emission with
      | Ok _ => ([Emit conn {| sg_pid := pid; sg_kind := kind; sg_severity := severity; sg_comm := comm;
                               sg_uid := uid; sg_timestamp_ns := timestamp_ns; sg_arg := arg |}], Ok tt)
      | Err e => ([], Err e)
      end
  | _ => ([], Ok tt)
  end.

Fixpoint forward (conn : BusKind) (inputs : list bus_input) : list dbus_action :=
  match inputs with
  | [] => []
  | Received event emission :: inputs =>
      let '(sent, r) := emit_if_security conn event emission in
      sent ++ match r with Ok _ => [] | Err e => [LogEmissionFailed e] end ++ forward conn inputs
  | BusLagged n :: inputs => LogFellBehind n :: forward conn inputs
  | BusClosed :: _ => [LogBusClosed]
  end.

Definition run_on (h : dbus_host) (conn : BusKind) (inputs : list bus_input)
    : list dbus_action * result unit rstring :=
  match signal_emitter_new h conn with
  | Err e => ([], Err e)
  | Ok _ => (forward conn inputs, Ok tt)
  end.

Definition try_connect_and_run (h : dbus_host) (inputs : list bus_input)
    : list dbus_action * result unit rstring :=
  match connect_and_own h System with
  | Ok c => let '(acts, r) := run_on h c inputs in (LogOwnsSystem :: acts, r)
  | Err system_err =>
      match connect_and_own h Session with
      | Ok c => let '(acts, r) := run_on h c inputs in (LogOwnsSession system_err :: acts, r)
      | Err session_err => ([LogDisabled system_err session_err], Ok tt)
      end
  end.

(** ** What reaches the bus *)

Definition emitted (acts : list dbus_action) : list (BusKind * SecuritySignal) :=
  omap (fun a => match a with Emit b s => Some (b, s) | _ => None end) acts.

(** The owner of the name answers for the feed. *)
Definition owns (h : dbus_host) (kind : BusKind) : Prop :=
  build_connection h kind = Ok tt /\ serve_at h kind = Ok tt /\ request_name h kind = Ok tt.

(** The inputs before the event bus closed. *)
Fixpoint before_close (inputs : list bus_input) : list bus_input :=
  match inputs with
  | [] => []
  | BusClosed :: _ => []
  | i :: inputs => i :: before_close inputs
  end.

(** The signal of a wire event: only security events have one. *)
Definition signal_of (ev : WireEvent) : option SecuritySignal :=
  match ev with
  | Security kind severity timestamp_ns pid _ uid arg comm _ =>
      Some {| sg_pid := pid; sg_kind := kind; sg_severity := severity; sg_comm := comm;
              sg_uid := uid; sg_timestamp_ns := timestamp_ns; sg_arg := arg |}
  | _ => None
  end.

Definition signal_due (i : bus_input) : option SecuritySignal :=
  match i with Received ev (Ok _) => signal_of ev | _ => None end.

Lemma emitted_app a b : emitted (a ++ b) = emitted a ++ emitted b.
Proof. apply omap_app. Qed.

Lemma forward_emits conn inputs :
  emitted (forward conn inputs) = map (pair conn) (omap signal_due (before_close inputs)).
Proof.
  induction inputs as [|[ev r|n|] inputs IH]; cbn [forward before_close]; try done.
  destruct (emit_if_security conn ev r) as [sent res] eqn:E.
  rewrite !emitted_app, IH. unfold signal_due at 1. cbn [omap list_omap].
  destruct ev, r; injection E as <- <-; reflexivity.
Qed.

Lemma owns_connect h kind :
  owns h kind <-> connect_and_own h kind = Ok kind.
Proof.
  unfold owns, connect_and_own.
  destruct (build_connection h kind) as [[]|], (serve_at h kind) as [[]|], (request_name h kind) as [[]|];
    cbn; naive_solver.
Qed.
Lemma connect_kind h kind c : connect_and_own h kind = Ok c -> owns h kind /\ c = kind.
Proof.
  intros H. unfold connect_and_own in H. unfold owns.
  destruct (build_connection h kind) as [[]|], (serve_at h kind) as [[]|], (request_name h kind) as [[]|];
    cbn in H; try done. by injection H as <-.
Qed.

Lemma emitted_run_on h k inputs :
  signal_emitter_new h k = Ok tt ->
  emitted (run_on h k inputs).1 = map (pair k) (omap signal_due (before_close inputs)).
Proof. intros Hk. unfold run_on. rewrite Hk. apply forward_emits. Qed.

Lemma emitted_on_system h inputs :
  owns h System -> signal_emitter_new h System = Ok tt ->
  emitted (try_connect_and_run h inputs).1 = map (pair System) (omap signal_due (before_close inputs)).
Proof.
  intros Ho%owns_connect He. unfold try_connect_and_run. rewrite Ho.
  rewrite <- (emitted_run_on h System inputs He). by destruct (run_on h System inputs).
Qed.

(** Security events become signals of an owned name only.  The publisher
    emits nothing on a bus whose name it does not own; on the system bus, or on
    the session bus when the system bus refused it, it emits one signal per
    security event received until the event bus closes, in order, with that
    event's pid, kind, severity, command, uid, time and argument.  An emission
    that fails or a subscription that lags loses that event and no other, and
    no other kind of event is ever emitted. *)
Theorem signals_of_owned_bus h inputs :
  let acts := (try_connect_and_run h inputs).1 in
  (forall b s, (b, s) ∈ emitted acts -> owns h b) /\
  (owns h System -> signal_emitter_new h System = Ok tt ->
     emitted acts = map (pair System) (omap signal_due (before_close inputs))) /\
  (~ owns h System -> owns h Session -> signal_emitter_new h Session = Ok tt ->
     emitted acts = map (pair Session) (omap signal_due (before_close inputs))) /\
  (~ owns h System -> ~ owns h Session -> emitted acts = [] /\ (try_connect_and_run h inputs).2 = Ok tt).
Proof.
  assert (forall k b s, (b, s) ∈ emitted (run_on h k inputs).1 -> b = k) as Hrun.
  { intros k b s. unfold run_on. case_match; [|by intros ?%not_elem_of_nil]. cbn [fst]. rewrite forward_emits.
    intros Hin%list_elem_of_In%in_map_iff. by destruct Hin as (? & [= <- _] & _). }
  unfold try_connect_and_run.
  destruct (connect_and_own h System) as [c|e1] eqn:E1.
  { apply connect_kind in E1 as [Ho ->]. specialize (Hrun System). pose proof (emitted_run_on h System inputs) as Hok.
    destruct (run_on h System inputs) as [acts r]. cbn in *. split_and!; try done.
    intros b s Hin. by rewrite (Hrun b s Hin). }
  assert (~ owns h System) as Hno by (intros H%owns_connect; congruence).
  destruct (connect_and_own h Session) as [c|e2] eqn:E2.
  { apply connect_kind in E2 as [Ho ->]. specialize (Hrun Session). pose proof (emitted_run_on h Session inputs) as Hok.
    destruct (run_on h Session inputs) as [acts r]. cbn in *. split_and!; try done.
    - intros b s Hin. by rewrite (Hrun b s Hin). }
  assert (~ owns h Session) as Hno2 by (intros H%owns_connect; congruence).
  cbn. split_and!; try done. by intros b s ?%not_elem_of_nil.
Qed.

Definition refuses (kind : BusKind) : dbus_host :=
  let answer (k : BusKind) : result unit rstring :=
    match kind, k with System, System | Session, Session => Err (lit "NameTaken") | _, _ => Ok tt end in
  {| build_connection := fun _ => Ok tt; serve_at := fun _ => Ok tt; request_name := answer;
     signal_emitter_new := fun _ => Ok tt |}.
Definition demo_alarm : WireEvent :=
  Security (lit "Ptrace") (lit "warn") 5 42 1 1000 16 (lit "gdb") [].

Lemma signals_of_owned_bus_witness :
  emitted (try_connect_and_run (refuses System)
    [Received demo_alarm (Err (lit "io")); BusLagged 3; Received demo_alarm (Ok tt); BusClosed;
     Received demo_alarm (Ok tt)]).1 =
  [(Session, {| sg_pid := 42; sg_kind := lit "Ptrace"; sg_severity := lit "warn"; sg_comm := lit "gdb";
                sg_uid := 1000; sg_timestamp_ns := 5; sg_arg := 16 |})].
Proof.
  edestruct (signals_of_owned_bus (refuses System)) as (_ & _ & H & _). rewrite H; try reflexivity.
  - intros (_ & _ & [=]).
  - by split_and!.
Defined.

(** ** From the kernel to D-Bus *)

(** What a kernel record must become. *)
Definition alarm_signal (tb : TimeBase) (e : SecurityEvent) (bs : BusKind * SecuritySignal) : Prop :=
  bs.1 = System /\
  bs.2 = {| sg_pid := sev_pid e; sg_kind := security_kind_name (sev_kind e);
            sg_severity := severity_name (sev_severity e); sg_comm := trim_cstr (sev_comm e);
            sg_uid := sev_uid e; sg_timestamp_ns := to_wall_ns tb (sev_timestamp_ns e);
            sg_arg := sev_arg e |} /\
  sg_kind bs.2 <> lit "Unknown" /\ sg_severity bs.2 <> lit "unknown".

Lemma security_delivered_alarm tb e w :
  security_delivered tb e w -> exists s, signal_of w = Some s /\ alarm_signal tb e (System, s).
Proof.
  intros (kname & sname & Hk & Hs & ->). eexists. split; [reflexivity|].
  assert (kname = security_kind_name (sev_kind e) /\ kname <> lit "Unknown") as [-> Hk'].
  { apply list_elem_of_In in Hk.
    destruct Hk as [[= <- <-]|[[= <- <-]|[[= <- <-]|[[= <- <-]|[[= <- <-]|[[= <- <-]|[]]]]]]]; done. }
  assert (sname = severity_name (sev_severity e) /\ sname <> lit "unknown") as [-> Hs'].
  { apply list_elem_of_In in Hs. destruct Hs as [[= <- <-]|[[= <- <-]|[[= <- <-]|[]]]]; done. }
  by split_and!.
Qed.

Lemma alarms_of_events tb es ws :
  Forall2 (security_delivered tb) es ws ->
  Forall2 (alarm_signal tb) es (map (pair System) (omap signal_due (map (fun w => Received w (Ok tt)) ws))).
Proof.
  induction 1 as [|e w es ws Hew Hes IH]; [constructor|]. cbn [map omap list_omap signal_due].
  destruct (security_delivered_alarm tb e w Hew) as (s & -> & Hs). by constructor.
Qed.

Lemma before_close_received ws :
  before_close (map (fun w => Received w (Ok tt)) ws) = map (fun w => Received w (Ok tt)) ws.
Proof. induction ws as [|w ws IH]; [done|]. cbn. by rewrite IH. Qed.

(** C14: a kernel alarm arrives on D-Bus.  In any reachable state of the kernel
    side, draining the security ring and forwarding what the bus delivers emits
    on the system bus, whose name is owned, one signal per pending record, in
    order, with the record's pid, user, argument and command, its time on the
    wall clock, and a kind and a severity that have a name. *)
Theorem alarms_reach_dbus n k tb (pad : list Z) h :
  reachable n k -> owns h System -> signal_emitter_new h System = Ok tt ->
  let ring := map (fun e => write_pod e ++ pad) (SECURITY_EVENTS k) in
  let inputs := map (fun w => Received w (Ok tt)) (drain_security_ring tb ring) in
  Forall2 (alarm_signal tb) (SECURITY_EVENTS k) (emitted (try_connect_and_run h inputs).1).
Proof.
  intros Hk%reachable_inv Ho He ring inputs. rewrite emitted_on_system by done.
  unfold inputs. rewrite before_close_received. apply alarms_of_events.
  eapply omap_delivers; [|exact (inv_sevents _ _ Hk)]. intros e. apply security_sample_delivers.
Qed.
Lemma alarms_reach_dbus_witness :
  let c := ideal_ctx 0 60_000_000 7 7 [] in
  let k := (fire H_sys_enter_memfd_create c (kernel_init 1)).2 in
  exists s, emitted (try_connect_and_run (refuses Session) (map (fun w => Received w (Ok tt))
      (drain_security_ring {| offset_ns := 5 |} (map (fun e => write_pod e ++ [0]) (SECURITY_EVENTS k))))).1
    = [(System, s)] /\ sg_kind s = lit "MemfdCreate" /\ sg_timestamp_ns s = 60_000_005.
Proof.
  intros c k.
  assert (reachable 1 k) as Hk by (apply reachable_fire; [apply ideal_ctx_ok; decide_now|exact I]).
  assert (exists e, SECURITY_EVENTS k = [e] /\ sev_kind e = 1 /\ sev_timestamp_ns e = 60_000_000)
    as (e & He & Hkind & Ht) by (eexists; vm_compute; split; [reflexivity|by split]).
  pose proof (alarms_reach_dbus 1 k {| offset_ns := 5 |} [0] (refuses Session) Hk) as H.
  cbn zeta in H. rewrite He in H |- *.
  specialize (H ltac:(by split_and!) eq_refl).
  apply Forall2_cons_inv_l in H as (w & l & (Hb & Hs & _) & Hl & H).
  apply Forall2_nil_inv_l in Hl as ->. destruct w as [b s]. cbn in Hb, Hs. subst b. exists s.
  split; [exact H|]. rewrite Hs. cbn [sg_kind sg_timestamp_ns]. rewrite Hkind, Ht. by split.
Defined.
